(* ===== verification/_CoqProject ===== *)
-Q . S2P
Prelude.v
Util.v
Health.v
Pinger.v
Resolver.v
Monitor.v
Probing.v
Ticking.v
Replies.v
Config.v
Wiring.v
Double.v
Json.v
JsonFacts.v
JsonText.v
JsonRoundtrip.v
ClientFile.v
Publish.v
EventLoop.v
Waking.v
Idle.v
Daemon.v
Threads.v
Atomic.v
Program.v
Scenarios.v
ScenariosFiles.v
ScenariosDaemon.v
ScenariosThreads.v
