(* ===== verification/Prelude.v ===== *)
(** * plasma-network-healthd: a verification development

    The program (src/daemon/src) is the daemon behind a desktop widget: it pings the destinations
    that the widgets configure, judges each of them with a hysteresis, and publishes the result.
    One thread runs an event loop over the ICMP sockets, the configuration directory, the signals
    and the resolver's event descriptor; a second thread does the blocking lookups.

    *** The files

    - [Prelude]: byte strings, wrap-around, record update, decimal printing, system call results,
      tactics and the list lemmas the components share.
    - [Util] (util.h, util.cpp): log lines, directories, reading and atomically replacing files
      (every state another process can see), base64, trimming.
    - [Health] (monitor.h, [classify], [applySample] of monitor.cpp): the state machine of one
      destination, against [shown], the indicator as a function of the history of verdicts.
    - [Pinger] (pinger.h, pinger.cpp): address lookup, packets and checksum, sockets, sending,
      receiving.  The C library's [getaddrinfo], [getnameinfo] and error texts are the class
      [Libc].
    - [Resolver] (resolver.h, resolver.cpp): the two threads as a step relation over the lock, the
      condition variable and the event descriptor.
    - [Monitor] (monitor.h): the structs, the constants, and [World], what the kernel will answer.
    - [Probing] (monitor.cpp: [applySample], [sendProbe], [tick], [handleReplies],
      [handleResolutions]), with its theorems in [Ticking] (the ticks) and [Replies] (replies and
      resolutions).
    - [Config] (monitor.cpp: [reloadClients], [rebuildProbers], [handleInotify],
      [dropExpiredClients]), with its theorems in [Wiring].
    - [Double]: what json.hpp asks of the C++ library about numbers: IEEE doubles, [std::stod],
      [%.10g], the conversions to and from integers.
    - [Json] (json.hpp): values, the writer in its two modes, the parser; [JsonFacts] (it
      terminates, keys are unique), [JsonText] (what the text is made of), [JsonRoundtrip]
      (reading what was written).
    - [ClientFile] (monitor.cpp: [loadClientFile]).
    - [Publish] (monitor.cpp: [buildStateJson], [publishIntervalUs], [publish]).
    - [EventLoop] (monitor.cpp: [start], [nextDeadline], [run]); [Waking] (when it wakes, how it
      stops); [Idle] (when it stops of its own accord); [Daemon] (the reachable states of the whole
      and their invariant); [Threads] (the event loop interleaved with the resolver's thread,
      operation by operation); [Atomic] (such an interleaved round is [round] in one piece, with
      moves of the worker before and after it).
    - [Program] (main.cpp): the command line, the lock, the background process, [main].
    - [Scenarios], [ScenariosFiles], [ScenariosDaemon], [ScenariosThreads]: a concrete daemon on
      which the hypotheses of the theorems hold.

    *** How the model corresponds to the code

    A struct is a record with the code's field names (prefixed by a letter), an enum an inductive
    type, a handler a function of the state it changes.  A handler that holds a reference into
    [m_probers] takes the prober, the monitor and the world, and its caller writes the prober back;
    no handler reaches the same prober another way while it runs ([tick_is_in_order] proves it of the
    loop of [tick]).  Machine integers are [Z] with
    the wrap-around written where the code can wrap ([u64], [u32], [i32]).  An [unordered_map] is a
    [gmap].  What the kernel answers is an argument: the datagrams, the listing of a directory, the
    readings of the clocks, the outcome of each [sendto] ([World]), of each round ([Round]) and of
    the start ([Startup], [Launch]).  What is handed to the kernel is a result: the packets, the
    files written, the files removed.

    *** What the theorems show

    - The whole: every reachable state keeps the invariant of the composition ([Daemon]); the loop
      sleeps until a part of the round would do something, though a full queue keeps it awake for
      nothing, and a signal to stop is obeyed in its round
      ([Waking]); without one it ends exactly when it has been idle long enough ([Idle]); the options
      the daemon runs with are within their limits ([Program]).
    - Probing: no probe is lost or counted twice, whatever is late, lost, duplicated or forged;
      the schedule neither drifts nor bursts; every subscriber hears of every outcome once.
    - The indicator: it is the documented function of the history; it moves after more than
      [sensitivity] agreeing verdicts and never before.
    - Configuration: the files are read as they were written, whatever they contain is clamped;
      destinations that have the same address and times share one prober; an edit disturbs neither
      the probes in flight nor the indicators.
    - The resolver: requests are answered once, in order, and no wake-up is lost, in any
      interleaving of the two threads ([Resolver]); and with the event loop as its caller a host is
      being resolved exactly when one request for it is outstanding, so that every lookup ends and
      none is asked for twice; without an event descriptor, which the program goes on without,
      none is ever answered ([Threads]).  The worker moving in the middle of a round makes no
      difference ([Atomic]).
    - Packets: the reply to a request is recognised and nothing else is; the checksum is that of
      RFC 1071.
    - Publishing: the worst state wins, a part-time destination is never bad, the files are
      written when and only when something is due, the payload is one line of ASCII, and readers
      never see half a file, whichever call fails.
    - JSON: the parser ends on every input, and reads what the writer wrote.

    *** Bounds and fuel

    Theorems about times assume a monotonic clock below 2^63 us (292000 years) and counters that
    have not been exhausted ([counters_ok]: fewer than 2^64 probes, sequence numbers below
    2^32 - 1), and that fewer than 2^31 prober uids have been used; the checksum is that of packets
    up to 64 KiB.  The parser's nesting limit of
    64 is the code's own; the fuel of its loops is the length of the text left, which
    [json_parse_total] proves enough.  [dec] has one unit of fuel per binary digit, [fold_carries]
    three rounds for a 32-bit sum.  A loop around an interruptible call recurses on the number of
    interruptions.

    *** Not modelled

    The widget (QML and JavaScript), the build, packaging and service files; socket options,
    [setCloseOnExec], [setNonBlocking] and file modes; the log lines that [NH_INFO] and the like
    produce (what [logPrintf] does with one is); the closing of descriptors in destructors.  The
    eight-event limit of one [epoll_wait] and the failures of [epoll_ctl] and [inotify_add_watch],
    which are only logged, are subsumed: a round takes any list of ready descriptors. *)

From Stdlib Require Export ZArith Lia.
From Stdlib Require Export Init.Byte Strings.Byte.
From Stdlib Require Strings.String.
From stdpp Require Export base list gmap strings countable numbers sorting.
Export list_basics.list list_relations.list list_monad.list list_misc.list.

#[global] Open Scope Z_scope.

(** ** Bytes and byte strings *)

(** A [std::string] is a sequence of bytes. *)
Abbreviation str := (list byte).

(** A string literal of the source, as its bytes. *)
Definition lit (s : string) : str := String.list_byte_of_string s.

(** [static_cast<unsigned char>(c)]. *)
Definition uc (b : byte) : Z := Z.of_N (Byte.to_N b).

(** [static_cast<char>(z)]: the low eight bits. *)
Definition chr (z : Z) : byte := default x00 (Byte.of_N (Z.to_N (z mod 256))).

#[export] Instance byte_eq_decision : EqDecision byte := byte_eq_dec.

#[export] Program Instance byte_countable : Countable byte :=
  inj_countable Byte.to_N Byte.of_N _.
Next Obligation. intros b. apply Byte.of_to_N. Qed.

(** ** Fixed-width integers *)

Definition u8 (z : Z) : Z := z mod 2 ^ 8.
Definition u16 (z : Z) : Z := z mod 2 ^ 16.
Definition u32 (z : Z) : Z := z mod 2 ^ 32.
Definition u64 (z : Z) : Z := z mod 2 ^ 64.

(** [int(z)] and [(long long)(z)]: two's complement. *)
Definition i32 (z : Z) : Z := (z + 2 ^ 31) mod 2 ^ 32 - 2 ^ 31.
Definition i64 (z : Z) : Z := (z + 2 ^ 63) mod 2 ^ 64 - 2 ^ 63.

(** A [size_t] value is below [2^64]; the largest [uint64_t]. *)
Definition u64_max : Z := 2 ^ 64 - 1.

#[global] Arguments lit : simpl never.
#[global] Arguments uc : simpl never.
#[global] Arguments chr : simpl never.
#[global] Arguments u8 : simpl never.
#[global] Arguments u16 : simpl never.
#[global] Arguments u32 : simpl never.
#[global] Arguments u64 : simpl never.
#[global] Arguments i32 : simpl never.
#[global] Arguments i64 : simpl never.
#[global] Arguments u64_max : simpl never.

(** ** Field updates of records

    [r <| proj := v |>] is the record [r] with the field [proj] replaced by [v]. A record
    type [R] needs one instance of [Eta R], which lists its fields. *)

Class Eta (R : Type) := eta_expand : R -> R.
Class Field {R T : Type} (proj : R -> T) := set_field : (T -> T) -> R -> R.
#[global] Hint Mode Field - - ! : typeclass_instances.

Ltac solve_field :=
  lazymatch goal with
  | |- @Field ?R ?T ?proj =>
      let f := fresh "f" in
      let r := fresh "r" in
      intros f r;
      let e := constr:(_ : Eta R) in
      let h := match e with ?h => h end in
      let t := eval cbv [eta_expand] in (e r) in
      let t := eval unfold h in t in
      let t := eval cbv beta in t in
      lazymatch eval pattern (proj r) in t with
      | ?g _ => let t := eval cbv beta in (g (f (proj r))) in exact t
      end
  end.

#[export] Hint Extern 1 (Field _) => solve_field : typeclass_instances.

Notation "r <| proj := v |>" := (set_field (proj := proj) (fun _ => v) r)
  (at level 1, left associativity, only parsing) : stdpp_scope.

(** ** Decimal printing: [std::to_string] *)

Definition digit (d : Z) : byte := chr (48 + d).

Fixpoint dec_digits (fuel : nat) (n : Z) (acc : str) : str :=
  match fuel with
  | O => acc
  | S fuel =>
      let acc := digit (n mod 10) :: acc in
      if n <? 10 then acc else dec_digits fuel (n / 10) acc
  end.

(** The digits of [n >= 0]; a number below [2 ^ fuel] has at most [fuel] of them. *)
Definition dec (n : Z) : str := dec_digits (S (Z.to_nat (Z.log2 n))) n [].

Definition to_string (n : Z) : str := if n <? 0 then x2d :: dec (- n) else dec n.

Definition is_digit (c : byte) : bool := (48 <=? uc c) && (uc c <=? 57).

(** The number a list of digits denotes, most significant digit first. *)
Definition dec_value (acc : Z) (l : str) : Z :=
  fold_left (fun a c => 10 * a + (uc c - 48)) l acc.

(** ** System calls *)

(** [errno] values the code tells apart.  [EINTR] is not among them: every loop of the code
    repeats an interrupted call, so the number of interruptions is part of a call's outcome. *)
Inductive Errno :=
  | ENETUNREACH | EHOSTUNREACH | ENETDOWN | EHOSTDOWN | ECONNREFUSED
  | EACCES | EPERM | EINVAL | EAFNOSUPPORT | EEXIST | ENOENT | EOTHER (code : Z).

#[export] Instance Errno_eq_dec : EqDecision Errno.
Proof. solve_decision. Defined.

(** A system call that was interrupted [interruptions] times and then returned [ret], with
    [errno] as it stands afterwards. *)
Record SysCall := mkSysCall { interruptions : nat; ret : Z; errno : Errno }.

(** ** Tactics *)

(** Case analysis on every [if]/[match] of the goal and the hypotheses, closing what
    arithmetic or congruence closes. *)
Ltac cases_if :=
  repeat match goal with
  | |- context [if ?b then _ else _] => destruct b eqn:?
  | H : context [if ?b then _ else _] |- _ => destruct b eqn:?
  end.

(** Boolean comparisons as propositions. *)
Ltac bools :=
  repeat match goal with
  | H : (_ && _) = true |- _ => apply andb_true_iff in H; destruct H
  | H : (_ && _) = false |- _ => apply andb_false_iff in H
  | H : (_ || _) = true |- _ => apply orb_true_iff in H
  | H : (_ || _) = false |- _ => apply orb_false_iff in H; destruct H
  | H : negb _ = true |- _ => apply negb_true_iff in H
  | H : negb _ = false |- _ => apply negb_false_iff in H
  | H : (_ <? _) = true |- _ => apply Z.ltb_lt in H
  | H : (_ <? _) = false |- _ => apply Z.ltb_ge in H
  | H : (_ <=? _) = true |- _ => apply Z.leb_le in H
  | H : (_ <=? _) = false |- _ => apply Z.leb_gt in H
  | H : (_ =? _) = true |- _ => apply Z.eqb_eq in H
  | H : (_ =? _) = false |- _ => apply Z.eqb_neq in H
  end.

(** ** Bytes *)

Lemma uc_range (b : byte) : 0 <= uc b < 256.
Proof.
  unfold uc. pose proof (Byte.to_N_bounded b). lia.
Qed.

Lemma uc_chr (z : Z) : uc (chr z) = z mod 256.
Proof.
  unfold uc, chr.
  assert (0 <= z mod 256 < 256) as Hb by (apply Z.mod_pos_bound; lia).
  destruct (Byte.of_N (Z.to_N (z mod 256))) as [b|] eqn:E; cbn.
  - apply Byte.to_of_N in E. lia.
  - apply Byte.of_N_None_iff in E. lia.
Qed.

Lemma uc_chr_small (z : Z) : 0 <= z < 256 -> uc (chr z) = z.
Proof. intros. rewrite uc_chr. apply Z.mod_small; lia. Qed.

Lemma uc_inj (a b : byte) : uc a = uc b -> a = b.
Proof.
  unfold uc. intros E%N2Z.inj.
  pose proof (Byte.of_to_N a). pose proof (Byte.of_to_N b). congruence.
Qed.

Lemma chr_uc (b : byte) : chr (uc b) = b.
Proof. apply uc_inj. apply uc_chr_small, uc_range. Qed.

(** ** Induction on lists, several elements at a time *)

Lemma list_pair_ind {A} (P : list A -> Prop) :
  P [] -> (forall a, P [a]) -> (forall a b l, P l -> P (a :: b :: l)) -> forall l, P l.
Proof.
  intros H0 H1 H2. enough (forall l, P l /\ forall a, P (a :: l)) as H by (intros l; apply H).
  induction l as [|b l [IH1 IH2]]; auto.
Qed.

(** ** Filters and sorted lists *)

Lemma filter_all {A} (P : A -> Prop) `{forall x, Decision (P x)} (l : list A) :
  Forall P l -> filter P l = l.
Proof.
  induction 1 as [|x l Hx _ IH]; [done|]. by rewrite filter_cons_True, IH.
Qed.

Lemma filter_none {A} (P : A -> Prop) `{forall x, Decision (P x)} (l : list A) :
  Forall (fun x => ~ P x) l -> filter P l = [].
Proof. induction 1 as [|x l Hx _ IH]; [done|]. by rewrite filter_cons_False. Qed.

Lemma StronglySorted_snoc {A} (R : A -> A -> Prop) (l : list A) (x : A) :
  StronglySorted R l -> Forall (fun y => R y x) l -> StronglySorted R (l ++ [x]).
Proof.
  intros Hl Hx. rewrite Forall_forall in Hx. apply StronglySorted_app_2; auto.
  - intros y z Hy ->%list_elem_of_singleton. auto.
  - repeat constructor.
Qed.

Lemma delete_filter {A} `{EqDecision A} (l : list A) (k : nat) (x : A) :
  l !! k = Some x -> (forall j, l !! j = Some x -> j = k) ->
  delete k l = filter (fun y => y <> x) l.
Proof.
  intros Hk Huniq. rewrite delete_take_drop. rewrite <- (take_drop_middle l k x Hk) at 3.
  rewrite filter_app, filter_cons_False by tauto.
  f_equal; symmetry; apply filter_all, Forall_forall; intros y (j & Hj)%list_elem_of_lookup ->.
  - apply lookup_take_Some in Hj as [Hj Hlt]. apply Huniq in Hj. lia.
  - rewrite lookup_drop in Hj. apply Huniq in Hj. lia.
Qed.

Lemma StronglySorted_lookup {A} (R : A -> A -> Prop) (l : list A) (i j : nat) (x y : A) :
  StronglySorted R l -> l !! i = Some x -> l !! j = Some y -> (i < j)%nat -> R x y.
Proof.
  intros Hs; revert i j. induction Hs as [|z l Hl IH Hz]; intros i j Hi Hj Hlt; [done|].
  destruct j as [|j]; [lia|]. cbn in Hj. destruct i as [|i]; cbn in Hi.
  - injection Hi as ->. rewrite Forall_forall in Hz. apply Hz. by eapply list_elem_of_lookup_2.
  - eapply IH; eauto. lia.
Qed.

Lemma StronglySorted_filter {A} (R : A -> A -> Prop) (P : A -> Prop) `{forall x, Decision (P x)}
    (l : list A) :
  StronglySorted R l -> StronglySorted R (filter P l).
Proof.
  induction 1 as [|x l Hl IH Hx]; [constructor|]. rewrite filter_cons. case_decide; [|done].
  constructor; [done|]. rewrite Forall_forall in Hx. apply Forall_forall.
  intros y Hy. apply Hx. by apply list_elem_of_filter in Hy as [_ ?].
Qed.

Lemma Forall_filter {A} (Q P : A -> Prop) `{forall x, Decision (P x)} (l : list A) :
  Forall Q l -> Forall Q (filter P l).
Proof.
  rewrite !Forall_forall. intros Hl x Hx. apply Hl. by apply list_elem_of_filter in Hx as [_ ?].
Qed.

Lemma map_insert_same {A B} (f : A -> B) (l : list A) (i : nat) (x y : A) :
  l !! i = Some x -> f y = f x -> map f (<[i := y]> l) = map f l.
Proof.
  intros Hi E. rewrite list_fmap_insert, E. apply list_insert_id.
  by rewrite list_lookup_fmap, Hi.
Qed.

Lemma map_alter_same {A B} (f : A -> B) (g : A -> A) (l : list A) (i : nat) :
  (forall x, f (g x) = f x) -> map f (alter g i l) = map f l.
Proof.
  intros E. apply list_eq. intros j. rewrite !list_lookup_fmap.
  destruct (decide (i = j)) as [<-|]; [|by rewrite list_lookup_alter_ne].
  rewrite list_lookup_alter_eq. destruct (l !! i); cbn; [by rewrite E | done].
Qed.

Lemma alter_length_snoc {A} (g : A -> A) (l : list A) (x : A) :
  alter g (length l) (l ++ [x]) = l ++ [g x].
Proof. induction l as [|y l IH]; [done|]. cbn. by f_equal. Qed.

Lemma NoDup_map_inj {A B} (f : A -> B) (l : list A) (x y : A) :
  NoDup (map f l) -> x ∈ l -> y ∈ l -> f x = f y -> x = y.
Proof.
  intros Hnd (i & Hi)%list_elem_of_lookup (j & Hj)%list_elem_of_lookup E.
  assert (i = j) as ->; [|congruence].
  apply (NoDup_lookup (map f l) i j (f x)); [done | |]; rewrite list_lookup_fmap.
  - by rewrite Hi.
  - by rewrite Hj, E.
Qed.

Lemma elem_of_concat {A} (ls : list (list A)) (x : A) :
  x ∈ concat ls <-> exists i l, ls !! i = Some l /\ x ∈ l.
Proof.
  rewrite list_elem_of_In, in_concat. split.
  - intros (l & (i & Hi)%list_elem_of_In%list_elem_of_lookup & Hx). exists i, l.
    by rewrite list_elem_of_In.
  - intros (i & l & Hi & Hx). exists l. rewrite <- !list_elem_of_In.
    split; [by eapply list_elem_of_lookup_2 | done].
Qed.

Lemma NoDup_concat {A} (ls : list (list A)) :
  (forall i l, ls !! i = Some l -> NoDup l) ->
  (forall i j l l' x, ls !! i = Some l -> ls !! j = Some l' -> x ∈ l -> x ∈ l' -> i = j) ->
  NoDup (concat ls).
Proof.
  induction ls as [|l ls IH]; intros Hl Hd; [constructor|]. cbn. apply NoDup_app. split_and!.
  - by apply (Hl 0%nat).
  - intros x Hx (i & l' & Hi & Hx')%elem_of_concat.
    by pose proof (Hd 0%nat (S i) l l' x eq_refl Hi Hx Hx').
  - apply IH.
    + intros i l' Hi. by apply (Hl (S i)).
    + intros i j l1 l2 x H1 H2 Hx1 Hx2.
      pose proof (Hd (S i) (S j) l1 l2 x H1 H2 Hx1 Hx2). congruence.
Qed.

Lemma Forall2_trans {A} (R : A -> A -> Prop) (l1 l2 l3 : list A) :
  (forall x y z, R x y -> R y z -> R x z) -> Forall2 R l1 l2 -> Forall2 R l2 l3 -> Forall2 R l1 l3.
Proof.
  intros HR H1; revert l3. induction H1 as [|x y l1 l2 Hxy _ IH]; intros l3 H2; inversion H2; subst;
    constructor; eauto.
Qed.

(** ** Words *)

Lemma u64_small (z : Z) : 0 <= z < 2 ^ 64 -> u64 z = z.
Proof. intros. apply Z.mod_small. lia. Qed.

Lemma u32_small (z : Z) : 0 <= z < 2 ^ 32 -> u32 z = z.
Proof. intros. apply Z.mod_small. lia. Qed.

Lemma u64_range (z : Z) : 0 <= u64 z < 2 ^ 64.
Proof. apply Z.mod_pos_bound. lia. Qed.

Lemma i32_range (z : Z) : - 2 ^ 31 <= i32 z < 2 ^ 31.
Proof. unfold i32. pose proof (Z.mod_pos_bound (z + 2 ^ 31) (2 ^ 32)). lia. Qed.

Lemma i32_small (z : Z) : - 2 ^ 31 <= z < 2 ^ 31 -> i32 z = z.
Proof. intros. unfold i32. rewrite Z.mod_small; lia. Qed.

#[global] Create Rewrite HintDb words.
#[export] Hint Rewrite u64_small u32_small i32_small using lia : words.

(** Drop the wrap-around of every word operation whose result fits. *)
Ltac words := autorewrite with words in *.

(** ** Decimal printing *)

Lemma uc_digit (d : Z) : 0 <= d < 10 -> uc (digit d) = 48 + d.
Proof. intros. unfold digit. apply uc_chr_small. lia. Qed.

Lemma dec_value_app (acc : Z) (a b : str) :
  dec_value acc (a ++ b) = dec_value (dec_value acc a) b.
Proof. apply fold_left_app. Qed.

Lemma dec_digits_spec (fuel : nat) (n : Z) (acc : str) :
  0 <= n < 2 ^ Z.of_nat fuel ->
  exists l, dec_digits fuel n acc = l ++ acc /\ Forall (fun c => is_digit c = true) l /\
    dec_value 0 l = n /\ (fuel <> 0%nat -> l <> []).
Proof.
  revert n acc; induction fuel as [|fuel IH]; intros n acc Hn.
  { exists []. cbn in *. repeat split; auto; lia. }
  cbn [dec_digits].
  assert (0 <= n mod 10 < 10) as Hd by (apply Z.mod_pos_bound; lia).
  assert (is_digit (digit (n mod 10)) = true) as Hdig.
  { unfold is_digit. rewrite uc_digit by lia. apply andb_true_iff. lia. }
  destruct (Z.ltb_spec n 10).
  - exists [digit (n mod 10)]. split_and!; auto.
    unfold dec_value; cbn. rewrite uc_digit by lia.
    rewrite Z.mod_small; lia.
  - rewrite Nat2Z.inj_succ, Z.pow_succ_r in Hn by lia.
    destruct (IH (n / 10) (digit (n mod 10) :: acc)) as (l & -> & Hl & Hv & _).
    { split; [apply Z.div_pos; lia | apply Z.div_lt_upper_bound; lia]. }
    exists (l ++ [digit (n mod 10)]). rewrite <- app_assoc. split_and!; auto.
    + apply Forall_app; auto.
    + rewrite dec_value_app, Hv. cbn. rewrite uc_digit by lia.
      pose proof (Z.div_mod n 10). lia.
    + intros _. destruct l; discriminate.
Qed.

Lemma dec_spec (n : Z) :
  0 <= n -> Forall (fun c => is_digit c = true) (dec n) /\ dec_value 0 (dec n) = n /\ dec n <> [].
Proof.
  intros Hn. unfold dec.
  destruct (dec_digits_spec (S (Z.to_nat (Z.log2 n))) n []) as (l & -> & Hl & Hv & Hne).
  - rewrite Nat2Z.inj_succ, Z2Nat.id by apply Z.log2_nonneg.
    destruct (Z.eq_dec n 0) as [->|]; [cbn; lia|].
    pose proof (Z.log2_spec n). lia.
  - rewrite app_nil_r. auto.
Qed.

Lemma dec_inj (m n : Z) : 0 <= m -> 0 <= n -> dec m = dec n -> m = n.
Proof.
  intros Hm Hn E. apply dec_spec in Hm as (_ & <- & _), Hn as (_ & <- & _). congruence.
Qed.

Lemma to_string_nonneg (n : Z) : 0 <= n -> to_string n = dec n.
Proof. intros. unfold to_string. destruct (Z.ltb_spec n 0); [lia | done]. Qed.
