(* ===== verification/Util.v ===== *)
(** * Helpers: strings, base64, directories and files

    util.h and util.cpp.  The pure helpers are functions on byte strings.  The file helpers take
    what the system calls answer as arguments; [writeFileAtomically] returns every state of the
    file system another process could see while it runs. *)

From S2P Require Import Prelude.

(** ** Logging *)

Inductive LogLevel := Error | Warning | Info | Debugging.

(** The numbers of the enumerators [Error], [Warn], [Info] and [Debug]. *)
Definition level_number (level : LogLevel) : Z :=
  match level with Error => 0 | Warning => 1 | Info => 2 | Debugging => 3 end.

Definition levelName (level : LogLevel) : str :=
  match level with
  | Error => lit "ERROR"
  | Warning => lit "WARN "
  | Info => lit "INFO "
  | Debugging => lit "DEBUG"
  end.

(** [%0nd] of a number that is not negative. *)
Definition padded (n : nat) (v : Z) : str := replicate (n - length (dec v)) x30 ++ dec v.

(** What [logPrintf] writes to the standard error: nothing, or a stamp, the level and at most
    1023 bytes of the formatted message.  [time] is hours, minutes, seconds and nanoseconds,
    when the local time is known. *)
Definition logPrintf (g_level level : LogLevel) (time : option (Z * Z * Z * Z)) (message : str) :
    str :=
  if level_number g_level <? level_number level then []
  else
    let stamp :=
      match time with
      | Some (hour, minute, second, nsec) =>
          padded 2 hour ++ lit ":" ++ padded 2 minute ++ lit ":" ++ padded 2 second ++ lit "." ++
          padded 3 (nsec / 1000000)
      | None => []
      end in
    lit "[" ++ stamp ++ lit "] " ++ levelName level ++ lit " " ++ take 1023 message ++ [x0a].

(** ** Clocks *)

(** Microseconds of a [timespec]; [nowMonotonicUs] and [nowRealtimeUs] differ in the clock. *)
Definition timespec_us (tv_sec tv_nsec : Z) : Z := u64 (u64 tv_sec * 1000000 + u64 tv_nsec / 1000).

(** ** Paths *)

(** [env] is XDG_RUNTIME_DIR and [pw] the user's [pw_name], when there are. *)
Definition xdgRuntimeDir (env pw : option str) (uid : Z) : str :=
  match env with
  | Some ((_ :: _) as dir) => dir
  | _ =>
      let name := default [] pw in
      let name := if bool_decide (name = []) then to_string (u32 uid) else name in
      lit "/tmp/runtime-" ++ name
  end.

Definition slash : byte := x2f.

(** The pieces between the slashes of a path, empty ones included. *)
Fixpoint components (path : str) : list str :=
  match path with
  | [] => [[]]
  | c :: path =>
      if bool_decide (c = slash) then [] :: components path
      else match components path with
           | [] => [[c]]
           | piece :: pieces => (c :: piece) :: pieces
           end
  end.

(** The loop of [makeDirectories] over the components; the flag is its result and the list is
    what [mkdir] was called on, in order. *)
Fixpoint make_components (mkdir : str -> option Errno) (current : str) (pieces : list str) :
    bool * list str :=
  match pieces with
  | [] => (true, [])
  | [] :: pieces => make_components mkdir current pieces
  | piece :: pieces =>
      let current :=
        (if (1 <? length current)%nat
            || ((length current =? 1)%nat && negb (bool_decide (head current = Some slash)))
         then current ++ [slash] else current) ++ piece in
      match mkdir current with
      | Some EEXIST | None =>
          let '(ok, made) := make_components mkdir current pieces in (ok, current :: made)
      | Some _ => (false, [current])
      end
  end.

Definition makeDirectories (mkdir : str -> option Errno) (path : str) : bool * list str :=
  match path with
  | [] => (false, [])
  | c :: rest =>
      if bool_decide (c = slash) then make_components mkdir [slash] (components rest)
      else make_components mkdir [] (components path)
  end.

(** ** Reading files *)

(** What one [read] returned. *)
Inductive ReadResult := ReadError (interrupted : bool) | ReadData (bytes : str).

(** The loop of [readWholeFile]; [None] is failure.  The file ends where [reads] does. *)
Fixpoint read_loop (limit : Z) (reads : list ReadResult) (out : str) : option str :=
  if limit <=? Z.of_nat (length out) then Some out
  else
    match reads with
    | [] => Some out
    | ReadError true :: reads => read_loop limit reads out
    | ReadError false :: _ => None
    | ReadData [] :: _ => Some out
    | ReadData bytes :: reads => read_loop limit reads (out ++ bytes)
    end.

(** [reads] is [None] when [open] failed. *)
Definition readWholeFile (limit : Z) (reads : option (list ReadResult)) : option str :=
  match reads with
  | None => None
  | Some reads => read_loop limit reads []
  end.

Definition kReadBuffer : Z := 8192.
Definition kReadLimit : Z := 2 ^ 20.

(** ** Writing files *)

(** The contents of the files by path. *)
Abbreviation Files := (gmap str str).

(** What one [write] returned. *)
Inductive WriteResult := WriteError (interrupted : bool) | Written (n : nat).

(** The loop of [writeFileAtomically]: whether everything was written, and the file system after
    every [write], newest last.  [None] when the results run out: it has not returned. *)
Fixpoint write_loop (writes : list WriteResult) (temp data : str) (written : nat) (fs : Files) :
    option (bool * list Files) :=
  if (length data <=? written)%nat then Some (true, [])
  else
    match writes with
    | [] => None
    | WriteError true :: writes => write_loop writes temp data written fs
    | WriteError false :: _ => Some (false, [])
    | Written n :: writes =>
        let written := (written + n)%nat in
        let fs := <[temp := take written data]> fs in
        '(ok, trace) ← write_loop writes temp data written fs;
        Some (ok, fs :: trace)
    end.

(** The answers of the system calls of [writeFileAtomically]: the six characters [mkstemp] put
    in the name, when it succeeded; the writes; whether [fchmod], [rename] and, after a failure,
    [unlink] succeeded. *)
Record Saving := mkSaving {
  v_mkstemp : option str;
  v_writes : list WriteResult;
  v_fchmod : bool;
  v_rename : bool;
  v_unlink : bool
}.

Definition temp_name (path suffix : str) : str := path ++ lit ".tmp" ++ suffix.

(** The result, and every state of the file system after a step, newest last. *)
Definition writeFileAtomically (calls : Saving) (path data : str) (fs : Files) :
    option (bool * list Files) :=
  match v_mkstemp calls with
  | None => Some (false, [])
  | Some suffix =>
      let temp := temp_name path suffix in
      let fs := <[temp := []]> fs in
      '(ok, trace) ← write_loop (v_writes calls) temp data 0 fs;
      let trace := fs :: trace in
      let fs := default fs (last trace) in
      let ok := ok && v_fchmod calls in
      let renamed := delete temp (<[path := default [] (fs !! temp)]> fs) in
      if ok && v_rename calls then Some (true, trace ++ [renamed])
      else Some (false, trace ++ [if v_unlink calls then delete temp fs else fs])
  end.

(** ** Strings *)

Definition alphabet : str := lit "ABCDEFGHIJKLMNOPQRSTUVWXYZabcdefghijklmnopqrstuvwxyz0123456789+/".

Definition alphabet_at (i : Z) : byte := nth (Z.to_nat i) alphabet x00.

(** [(triple >> shift) & 0x3F] as a character. *)
Definition sextet (triple shift : Z) : byte := alphabet_at (Z.land (Z.shiftr triple shift) 0x3F).

Fixpoint base64Encode (data : str) : str :=
  match data with
  | a :: b :: c :: rest =>
      let triple := Z.lor (Z.lor (Z.shiftl (uc a) 16) (Z.shiftl (uc b) 8)) (uc c) in
      sextet triple 18 :: sextet triple 12 :: sextet triple 6 :: sextet triple 0 ::
      base64Encode rest
  | [a; b] =>
      let triple := Z.lor (Z.shiftl (uc a) 16) (Z.shiftl (uc b) 8) in
      [sextet triple 18; sextet triple 12; sextet triple 6; x3d]
  | [a] =>
      let triple := Z.shiftl (uc a) 16 in
      [sextet triple 18; sextet triple 12; x3d; x3d]
  | [] => []
  end.

(** [std::isspace] in the C locale. *)
Definition isspace (c : byte) : bool := (uc c =? 32) || ((9 <=? uc c) && (uc c <=? 13)).

(** The first loop of [trimmed]; the second is the same from the other end. *)
Fixpoint skip_spaces (value : str) : str :=
  match value with
  | c :: rest => if isspace c then skip_spaces rest else value
  | [] => []
  end.

Definition trimmed (value : str) : str := rev (skip_spaces (rev (skip_spaces value))).

Definition hasSuffix (value suffix : str) : bool :=
  (length suffix <=? length value)%nat
  && bool_decide (drop (length value - length suffix) value = suffix).

(** ** Specification *)

(** The number a base64 digit stands for. *)
Definition digit64 (c : byte) : option Z :=
  if (65 <=? uc c) && (uc c <=? 90) then Some (uc c - 65)
  else if (97 <=? uc c) && (uc c <=? 122) then Some (uc c - 71)
  else if (48 <=? uc c) && (uc c <=? 57) then Some (uc c + 4)
  else if uc c =? 43 then Some 62
  else if uc c =? 47 then Some 63
  else None.

(** RFC 4648: decoding, four digits at a time. *)
Fixpoint base64Decode (text : str) : option str :=
  match text with
  | [] => Some []
  | p :: q :: r :: s :: rest =>
      a ← digit64 p; b ← digit64 q;
      let first := chr (a * 4 + b / 16) in
      if bool_decide (r = x3d) then
        if bool_decide (s = x3d) && bool_decide (rest = []) then Some [first] else None
      else
        c ← digit64 r;
        let second := chr (b mod 16 * 16 + c / 4) in
        if bool_decide (s = x3d) then
          if bool_decide (rest = []) then Some [first; second] else None
        else
          d ← digit64 s;
          let third := chr (c mod 4 * 64 + d) in
          tail ← base64Decode rest;
          Some (first :: second :: third :: tail)
  | _ => None
  end.

(** The bytes [reads] delivers before the end of the file, when nothing goes wrong. *)
Fixpoint delivered_bytes (reads : list ReadResult) : option str :=
  match reads with
  | [] => Some []
  | ReadError true :: reads => delivered_bytes reads
  | ReadError false :: _ => None
  | ReadData [] :: _ => Some []
  | ReadData bytes :: reads => (fun rest => bytes ++ rest) <$> delivered_bytes reads
  end.

(** How much of [size] bytes the results account for; a failure ends the loop. *)
Definition accounted (size : nat) (writes : list WriteResult) : nat :=
  sum_list (map (fun r => match r with
                          | Written n => n
                          | WriteError true => 0
                          | WriteError false => size
                          end%nat) writes).

(** ** Lemmas *)

Lemma digit64_alphabet (i : Z) :
  0 <= i < 64 -> digit64 (alphabet_at i) = Some i /\ alphabet_at i <> x3d.
Proof.
  intros Hi.
  assert (forallb (fun n => bool_decide (digit64 (alphabet_at (Z.of_nat n)) = Some (Z.of_nat n))
    && negb (bool_decide (alphabet_at (Z.of_nat n) = x3d))) (seq 0 64) = true) as H
    by (vm_compute; reflexivity).
  rewrite forallb_forall in H. specialize (H (Z.to_nat i)).
  rewrite Z2Nat.id in H by lia. rewrite in_seq in H.
  specialize (H ltac:(lia)). apply andb_true_iff in H as [H1%bool_decide_eq_true H2%negb_true_iff].
  by rewrite bool_decide_eq_false in H2.
Qed.

Lemma sextet_digit (t k : Z) :
  0 <= k -> digit64 (sextet t k) = Some (t / 2 ^ k mod 64) /\ sextet t k <> x3d.
Proof.
  intros Hk. unfold sextet. change 0x3F with (Z.ones 6).
  rewrite Z.land_ones, Z.shiftr_div_pow2 by lia. apply digit64_alphabet.
  apply Z.mod_pos_bound. lia.
Qed.

(** Three bytes in one number. *)
Lemma triple_value (a b c : Z) :
  0 <= a < 256 -> 0 <= b < 256 -> 0 <= c < 256 ->
  Z.lor (Z.lor (Z.shiftl a 16) (Z.shiftl b 8)) c = a * 65536 + b * 256 + c.
Proof.
  intros Ha Hb Hc.
  assert (forall x y n, 0 <= n -> 0 <= y < 2 ^ n -> Z.lor (Z.shiftl x n) y = x * 2 ^ n + y) as Hlor.
  { intros x y n Hn Hy. rewrite <- Z.shiftl_mul_pow2 by lia.
    assert (Z.land (Z.shiftl x n) y = 0) as Hland; [|by rewrite Z.add_nocarry_lxor, Z.lxor_lor].
    apply Z.bits_inj'. intros m Hm. rewrite Z.land_spec, Z.bits_0.
    destruct (Z.lt_ge_cases m n); [rewrite Z.shiftl_spec_low by lia; done|].
    replace y with (y mod 2 ^ n) by (apply Z.mod_small; lia).
    rewrite Z.mod_pow2_bits_high by lia. apply andb_false_r. }
  replace (Z.shiftl a 16) with (Z.shiftl (Z.shiftl a 8) 8) by (rewrite Z.shiftl_shiftl by lia; done).
  rewrite <- Z.shiftl_lor, (Hlor _ c 8) by lia.
  rewrite (Hlor a b 8) by lia. lia.
Qed.

(** Lists, three elements at a time. *)
Lemma list_triple_ind {A} (P : list A -> Prop) :
  P [] -> (forall a, P [a]) -> (forall a b, P [a; b]) ->
  (forall a b c l, P l -> P (a :: b :: c :: l)) -> forall l, P l.
Proof.
  intros H0 H1 H2 H3 l.
  enough (P l /\ (forall a, P (a :: l)) /\ (forall a b, P (a :: b :: l))) by tauto.
  induction l as [|x l (IH1 & IH2 & IH3)]; auto.
Qed.

(** Read the digits of one group. *)
Ltac sextets :=
  repeat match goal with
  | |- context [_ ≫= _] => progress cbn -[Z.mul Z.add Z.div Z.modulo Z.pow digit64]
  | |- context [digit64 (sextet ?t ?k)] => rewrite (proj1 (sextet_digit t k ltac:(lia)))
  | |- context [bool_decide (sextet ?t ?k = x3d)] =>
      rewrite (bool_decide_eq_false_2 _ (proj2 (sextet_digit t k ltac:(lia))))
  | |- context [bool_decide (?x = ?x)] => rewrite (bool_decide_eq_true_2 (x = x) eq_refl)
  end; cbn -[Z.mul Z.add Z.div Z.modulo Z.pow].

Lemma chr_of (b : byte) (z : Z) : z mod 256 = uc b -> chr z = b.
Proof. intros E. apply uc_inj. by rewrite uc_chr. Qed.

Lemma skip_spaces_spec (value : str) :
  exists a, value = a ++ skip_spaces value /\ Forall (fun c => isspace c = true) a /\
    forall c, head (skip_spaces value) = Some c -> isspace c = false.
Proof.
  induction value as [|c value (a & E & Ha & Hh)]; [by exists []|]. cbn.
  destruct (isspace c) eqn:Hc.
  - exists (c :: a). cbn. rewrite <- E. auto.
  - exists []. split_and!; [done | constructor |]. by intros d [= <-].
Qed.

Lemma last_rev {A} (l : list A) : last (rev l) = head l.
Proof. destruct l as [|x l]; [done|]. cbn. apply last_snoc. Qed.

Lemma temp_differs (path suffix : str) : path ++ lit ".tmp" ++ suffix <> path.
Proof.
  intros E. apply (f_equal length) in E. rewrite !length_app in E.
  change (length (lit ".tmp")) with 4%nat in E. lia.
Qed.

(** Only the temporary file changes while it is written, and it ends up complete. *)
Lemma write_loop_spec (writes : list WriteResult) (temp data : str) (written : nat) (fs : Files)
    (ok : bool) (trace : list Files) :
  fs !! temp = Some (take written data) ->
  write_loop writes temp data written fs = Some (ok, trace) ->
  Forall (fun s => delete temp s = delete temp fs) trace /\
  (ok = true -> default fs (last trace) !! temp = Some data).
Proof.
  revert written fs ok trace. induction writes as [|r writes IH]; intros written fs ok trace Ht Hw;
    cbn in Hw; destruct (Nat.leb_spec (length data) written) as [Hle|Hgt]; try done.
  - injection Hw as <- <-. split; [done|]. intros _; cbn. by rewrite Ht, take_ge.
  - injection Hw as <- <-. split; [done|]. intros _; cbn. by rewrite Ht, take_ge.
  - destruct r as [[]|n]; [by eapply IH in Hw | by injection Hw as <- <- |].
    destruct (write_loop _ _ _ _ _) as [[ok' trace']|] eqn:E; [|done]. cbn in Hw.
    injection Hw as <- <-. apply IH in E as [H1 H2]; [|by rewrite lookup_insert_eq].
    assert (delete temp (<[temp := take (written + n) data]> fs) = delete temp fs) as Hd
      by apply delete_insert_eq.
    rewrite Hd in H1. split; [by apply Forall_cons|]. intros Hok. specialize (H2 Hok).
    rewrite last_cons. by destruct (last trace').
Qed.

Lemma write_loop_returns (writes : list WriteResult) (temp data : str) (written : nat) (fs : Files) :
  (length data <= written + accounted (length data) writes)%nat ->
  is_Some (write_loop writes temp data written fs).
Proof.
  revert written fs. induction writes as [|r writes IH]; intros written fs Hlen;
    cbn in *; destruct (Nat.leb_spec (length data) written) as [Hle|Hgt]; eauto; [lia|].
  destruct r as [[]|n]; cbn in Hlen; eauto.
  destruct (IH (written + n)%nat (<[temp := take (written + n) data]> fs)) as [[ok tr] E].
  { unfold accounted. lia. }
  rewrite E. cbn. eauto.
Qed.

(** [trimmed] removes exactly the white space at the two ends. *)
Lemma trimmed_split (value : str) :
  exists a b, value = a ++ trimmed value ++ b /\
    Forall (fun c => isspace c = true) a /\ Forall (fun c => isspace c = true) b /\
    (forall c, head (trimmed value) = Some c -> isspace c = false) /\
    (forall c, last (trimmed value) = Some c -> isspace c = false).
Proof.
  unfold trimmed. destruct (skip_spaces_spec value) as (a & E & Ha & Hh).
  set (v := skip_spaces value) in *.
  destruct (skip_spaces_spec (rev v)) as (b & E' & Hb & Hl). set (t := skip_spaces (rev v)) in *.
  assert (v = rev t ++ rev b) as Ev.
  { rewrite <- rev_app_distr, <- E'. by rewrite rev_involutive. }
  exists a, (rev b). split_and!; [by rewrite <- Ev | done | by apply Forall_rev | |].
  - intros c Hc. apply Hh. rewrite Ev. destruct (rev t); [done|]. exact Hc.
  - intros c Hc. apply Hl. by rewrite last_rev in Hc.
Qed.

Lemma trimmed_id (value : str) :
  (forall c, head value = Some c -> isspace c = false) ->
  (forall c, last value = Some c -> isspace c = false) -> trimmed value = value.
Proof.
  intros Hh Hl.
  assert (forall l, (forall c, head l = Some c -> isspace c = false) -> skip_spaces l = l) as H.
  { intros [|c l] Hc; [done|]. cbn. by rewrite (Hc c eq_refl). }
  unfold trimmed. rewrite (H value Hh), H; [apply rev_involutive|].
  intros c Hc. apply Hl. rewrite <- (rev_involutive value), last_rev. done.
Qed.

(** base64 loses nothing: decoding what [base64Encode] produces, by the rules of RFC 4648, gives
    the data back. *)
Lemma base64_decodes (data : str) : base64Decode (base64Encode data) = Some data.
Proof.
  induction data as [|a|a b|a b c data IH] using list_triple_ind; [done| | |];
    cbn [base64Encode base64Decode].
  - pose proof (uc_range a). rewrite Z.shiftl_mul_pow2 by lia. sextets.
    do 2 f_equal. apply chr_of. Z.div_mod_to_equations; lia.
  - pose proof (uc_range a). pose proof (uc_range b).
    rewrite <- (Z.lor_0_r (Z.lor _ _)), triple_value by lia. sextets.
    do 2 f_equal; [|f_equal]; apply chr_of; Z.div_mod_to_equations; lia.
  - pose proof (uc_range a). pose proof (uc_range b). pose proof (uc_range c).
    rewrite triple_value by lia. sextets. rewrite IH. cbn.
    do 2 f_equal; [|f_equal; [|f_equal]]; apply chr_of; Z.div_mod_to_equations; lia.
Qed.

(** Base64 text is made of the 64 digits and the padding only, four characters per three
    bytes. *)
Lemma base64_text (data : str) :
  length (base64Encode data) = (4 * ((length data + 2) / 3))%nat /\
  Forall (fun c => c ∈ alphabet \/ c = x3d) (base64Encode data).
Proof.
  assert (forall t k, 0 <= k -> sextet t k ∈ alphabet) as Hin.
  { intros t k Hk. unfold sextet, alphabet_at. apply list_elem_of_In, nth_In.
    change 0x3F with (Z.ones 6). rewrite Z.land_ones by lia.
    pose proof (Z.mod_pos_bound (Z.shiftr t k) (2 ^ 6)). change (length alphabet) with 64%nat. lia. }
  assert (forall t k, 0 <= k -> sextet t k ∈ alphabet \/ sextet t k = x3d) as Hin' by auto.
  induction data as [|a|a b|a b c data IH] using list_triple_ind; cbn [base64Encode];
    rewrite ?Forall_cons.
  - split; [done | constructor].
  - split; [done|]. split_and!; auto with lia.
  - split; [done|]. split_and!; auto with lia.
  - destruct IH as [IH1 IH2]. split.
    + cbn [length]. rewrite IH1. replace (S (S (S (length data))) + 2)%nat
        with (length data + 2 + 1 * 3)%nat by lia. rewrite Nat.div_add by lia. lia.
    + split_and!; auto with lia.
Qed.

(** [hasSuffix] is being a suffix. *)
Lemma hasSuffix_spec (value suffix : str) :
  hasSuffix value suffix = true <-> exists prefix, value = prefix ++ suffix.
Proof.
  unfold hasSuffix. rewrite andb_true_iff, Nat.leb_le, bool_decide_eq_true. split.
  - intros [_ E]. exists (take (length value - length suffix) value).
    rewrite <- E at 2. symmetry. apply take_drop.
  - intros [prefix ->]. rewrite length_app. split; [lia|].
    replace (length prefix + length suffix - length suffix)%nat with (length prefix) by lia.
    apply drop_app_length.
Qed.

(** saving always finishes: interrupted writes are repeated and short ones continued, until
    everything is written or a write fails. *)
Lemma save_returns (calls : Saving) (path data : str) (fs : Files) :
  (length data <= accounted (length data) (v_writes calls))%nat ->
  is_Some (writeFileAtomically calls path data fs).
Proof.
  intros Hlen. unfold writeFileAtomically. destruct (v_mkstemp calls) as [suffix|]; [|eauto].
  destruct (write_loop_returns (v_writes calls) (temp_name path suffix) data 0
    (<[temp_name path suffix := []]> fs) Hlen) as [[ok tr] ->]. cbn.
  case_match; eauto.
Qed.

(** The file system while the temporary file is written, and when that has ended. *)
Lemma written_states (writes : list WriteResult) (temp data : str) (fs : Files) (written : bool)
    (trace : list Files) :
  fs !! temp = None -> write_loop writes temp data 0 (<[temp := []]> fs) = Some (written, trace) ->
  exists fs1,
    default (<[temp := []]> fs) (match last trace with Some y => Some y
                                 | None => Some (<[temp := []]> fs) end) = fs1 /\
    delete temp fs1 = fs /\ Forall (fun s => delete temp s = fs) (<[temp := []]> fs :: trace) /\
    (written = true -> fs1 !! temp = Some data).
Proof.
  intros Hfresh E. apply write_loop_spec in E as [Hsame Hdone]; [|by rewrite lookup_insert_eq].
  rewrite delete_insert_eq, (delete_id fs) in Hsame by done.
  assert (Forall (fun s => delete temp s = fs) (<[temp := []]> fs :: trace)) as Hall
    by (apply Forall_cons; split; [by rewrite delete_insert_eq, delete_id | exact Hsame]).
  eexists. split; [reflexivity|]. split_and!; [| exact Hall |].
  - destruct (last trace) as [s|] eqn:El; cbn.
    + apply last_Some_elem_of in El. rewrite Forall_forall in Hsame. by apply Hsame.
    + by rewrite delete_insert_eq, delete_id.
  - intros Hw. specialize (Hdone Hw). by destruct (last trace).
Qed.

(** ** Properties *)

(** C33: a file is replaced atomically: at every moment a reader of [path] finds either what was
    there before or the whole new text, and no file but [path] and the temporary one is ever
    touched.  On success only [path] has changed in the end.  On failure, wherever it happens, no
    other file has, and the temporary one is gone too, unless removing it fails as well, which
    the code ignores. *)
Theorem save_is_atomic (calls : Saving) (path data : str) (fs : Files) (ok : bool)
    (trace : list Files) :
  (forall suffix, v_mkstemp calls = Some suffix -> fs !! temp_name path suffix = None) ->
  writeFileAtomically calls path data fs = Some (ok, trace) ->
  Forall (fun s => s !! path = fs !! path \/ s !! path = Some data) trace /\
  (forall suffix, v_mkstemp calls = Some suffix ->
     Forall (fun s => delete (temp_name path suffix) s = fs \/ s = <[path := data]> fs) trace) /\
  (ok = true -> default fs (last trace) = <[path := data]> fs) /\
  (ok = false -> v_unlink calls = true -> default fs (last trace) = fs).
Proof.
  unfold writeFileAtomically. intros Hfresh Hw. destruct (v_mkstemp calls) as [suffix|];
    [|by injection Hw as <- <-].
  pose proof (temp_differs path suffix) as Hne. specialize (Hfresh suffix eq_refl).
  fold (temp_name path suffix) in Hne. set (temp := temp_name path suffix) in *.
  destruct (write_loop _ _ _ _ _) as [[written trace0]|] eqn:E; [|done]. cbn in Hw.
  destruct (written_states (v_writes calls) temp data fs written trace0 Hfresh E)
    as (fs1 & Hd & Hfs1 & Hsame & Hdone).
  rewrite last_cons, Hd in Hw.
  enough (forall s, delete temp s = fs \/ s = <[path := data]> fs ->
    last trace = Some s -> trace = (<[temp := []]> fs :: trace0) ++ [s] ->
    (ok = true -> s = <[path := data]> fs) -> (ok = false -> v_unlink calls = true -> s = fs) ->
    Forall (fun s => s !! path = fs !! path \/ s !! path = Some data) trace /\
    (forall suffix', Some suffix = Some suffix' ->
      Forall (fun s => delete (temp_name path suffix') s = fs \/ s = <[path := data]> fs) trace) /\
    (ok = true -> default fs (last trace) = <[path := data]> fs) /\
    (ok = false -> v_unlink calls = true -> default fs (last trace) = fs)) as Hall.
  { destruct (written && v_fchmod calls && v_rename calls) eqn:Eok; injection Hw as <- <-.
    - apply andb_true_iff in Eok as [[Hok _]%andb_true_iff _].
      assert (delete temp (<[path := default [] (fs1 !! temp)]> fs1) = <[path := data]> fs) as Ed
        by (rewrite (Hdone Hok); cbn [default]; by rewrite delete_insert_ne, Hfs1).
      rewrite Ed in *.
      apply (Hall (<[path := data]> fs));
        [by right | by rewrite app_comm_cons, last_snoc | done | done | done].
    - eapply Hall; [| by rewrite app_comm_cons, last_snoc | done | done |].
      + left. destruct (v_unlink calls); [by rewrite delete_delete_eq | done].
      + intros _ ->. exact Hfs1. }
  intros s Hs Hlast Htr Hok1 Hok2. rewrite Hlast. cbn [default].
  assert (Forall (fun s => delete temp s = fs \/ s = <[path := data]> fs) trace) as Hstates.
  { rewrite Htr. apply Forall_app. split; [|by apply Forall_singleton].
    apply (Forall_impl _ _ _ Hsame). intros x Hx. by left. }
  split_and!; [|by intros suffix' [= <-] | done | done].
  apply (Forall_impl _ _ _ Hstates). intros x [<- | ->].
  - left. by rewrite lookup_delete_ne.
  - right. by rewrite lookup_insert_eq.
Qed.

(** Reading a file gives its contents up to the limit, whatever the sizes of the reads and
    however often they are interrupted; the limit is checked between reads, so that up to one
    buffer less a byte beyond it may be returned. *)
Lemma read_whole_file (limit : Z) (reads : list ReadResult) (content : str) :
  0 < limit ->
  Forall (fun r => match r with ReadData b => Z.of_nat (length b) <= kReadBuffer
                   | ReadError _ => True end) reads ->
  delivered_bytes reads = Some content ->
  exists out rest, readWholeFile limit (Some reads) = Some out /\ content = out ++ rest /\
    (rest <> [] -> limit <= Z.of_nat (length out)) /\
    Z.of_nat (length out) < limit + kReadBuffer.
Proof.
  intros Hlimit Hall. cbn [readWholeFile].
  enough (forall out0, Z.of_nat (length out0) < limit + kReadBuffer ->
    forall content, delivered_bytes reads = Some content ->
    exists more rest, read_loop limit reads out0 = Some (out0 ++ more) /\ content = more ++ rest /\
      (rest <> [] -> limit <= Z.of_nat (length (out0 ++ more))) /\
      Z.of_nat (length (out0 ++ more)) < limit + kReadBuffer) as H.
  { intros Hd. apply (H [] ltac:(unfold kReadBuffer; cbn; lia)) in Hd. exact Hd. }
  clear content. induction Hall as [|r reads Hr _ IH]; intros out0 H0 content Hd; cbn in *.
  { injection Hd as <-. exists [], []. rewrite app_nil_r. by destruct (_ <=? _). }
  destruct (Z.leb_spec limit (Z.of_nat (length out0))) as [Hle|Hgt].
  { exists [], content. rewrite app_nil_r. auto. }
  destruct r as [[]|[|c bytes]]; [by apply IH | done | |].
  { injection Hd as <-. exists [], []. by rewrite app_nil_r. }
  destruct (delivered_bytes reads) as [tl|]; [|done]. injection Hd as <-.
  destruct (IH (out0 ++ c :: bytes)) with (content := tl) as (more & rest & E & -> & H1 & H2);
    [rewrite length_app; cbn in *; lia | done |].
  exists ((c :: bytes) ++ more), rest. rewrite E, <- !(assoc_L (++)) in *. auto.
Qed.
