(* ===== verification/Health.v ===== *)
(** * The health state machine of one destination

    [HealthState], [Destination], [classify], [reportedState] and [healthStateName]
    (monitor.h, monitor.cpp), and [observe], the body that [Monitor::applySample] runs for
    each subscriber of a prober.  [shown] is the specification the README gives of the
    indicator, as a function of the history of verdicts alone. *)

From S2P Require Import Prelude.

(** ** Data *)

Inductive HealthState := Unknown | Good | Warn | Bad | Offline.

#[export] Instance HealthState_eq_dec : EqDecision HealthState.
Proof. solve_decision. Defined.

Record Destination := mkDestination {
  d_id : str;
  d_name : str;
  d_address : str;
  d_order : Z;
  d_thresholdUs : Z;
  d_sensitivity : Z;
  d_enabled : bool;
  d_partTime : bool;
  d_prober : Z;
  d_state : HealthState;
  d_candidate : HealthState;
  d_candidateStreak : Z;
  d_haveRtt : bool;
  d_rttUs : Z;
  d_sent : Z;
  d_received : Z;
  d_lastReplyRealUs : Z;
  d_lastChangeRealUs : Z
}.

#[export] Instance eta_Destination : Eta Destination := fun r =>
  mkDestination (d_id r) (d_name r) (d_address r) (d_order r) (d_thresholdUs r)
    (d_sensitivity r) (d_enabled r) (d_partTime r) (d_prober r) (d_state r) (d_candidate r)
    (d_candidateStreak r) (d_haveRtt r) (d_rttUs r) (d_sent r) (d_received r)
    (d_lastReplyRealUs r) (d_lastChangeRealUs r).

(** A default-constructed [Destination]. *)
Definition newDestination : Destination :=
  mkDestination [] [] [] 0 1000 3 true false (-1) Unknown Unknown 0 false 0 0 0 0 0.

(** ** Operations *)

Definition healthStateName (state : HealthState) : str :=
  match state with
  | Good => lit "good"
  | Warn => lit "warn"
  | Bad => lit "bad"
  | Offline => lit "offline"
  | Unknown => lit "unknown"
  end.

Definition reportedState (state : HealthState) (partTime : bool) : HealthState :=
  if partTime && bool_decide (state = Bad) then Offline else state.

Definition classify (received : bool) (rttUs thresholdUs : Z) : HealthState :=
  if negb received then Bad
  else if rttUs <=? thresholdUs then Good else Warn.

(** The hysteresis of [applySample]: [destination] has just been judged [sample]. *)
Definition judge (sample : HealthState) (d : Destination) : Destination :=
  if decide (d_state d = Unknown) then
    d <| d_state := sample |> <| d_candidate := sample |> <| d_candidateStreak := 0 |>
  else if decide (sample = d_state d) then
    d <| d_candidate := sample |> <| d_candidateStreak := 0 |>
  else
    let d :=
      if decide (sample = d_candidate d) then
        d <| d_candidateStreak := i32 (d_candidateStreak d + 1) |>
      else
        d <| d_candidate := sample |> <| d_candidateStreak := 1 |> in
    if d_sensitivity d <? d_candidateStreak d then
      d <| d_state := sample |> <| d_candidateStreak := 0 |>
    else d.

(** The counters and the round-trip time of [applySample]. *)
Definition record_reply (received : bool) (rttUs realNow : Z) (d : Destination) : Destination :=
  let d := d <| d_sent := u64 (d_sent d + 1) |> in
  if received then
    d <| d_received := u64 (d_received d + 1) |> <| d_haveRtt := true |>
      <| d_rttUs := rttUs |> <| d_lastReplyRealUs := realNow |>
  else d <| d_haveRtt := false |>.

(** The body of the loop of [applySample] over the subscribers: the new destination and
    whether its state changed, which sets [m_stateDirty]. *)
Definition observe (received : bool) (rttUs realNow : Z) (d : Destination) : Destination * bool :=
  let d := record_reply received rttUs realNow d in
  let sample := classify received rttUs (d_thresholdUs d) in
  let before := d_state d in
  let d := judge sample d in
  if decide (d_state d = before) then (d, false)
  else (d <| d_lastChangeRealUs := realNow |>, true).

(** ** Specification *)

(** One probe outcome. *)
Record Sample := mkSample { s_received : bool; s_rttUs : Z; s_realNow : Z }.

Definition observe_sample (d : Destination) (s : Sample) : Destination :=
  fst (observe (s_received s) (s_rttUs s) (s_realNow s) d).

Definition observe_all (d : Destination) (h : list Sample) : Destination :=
  fold_left observe_sample h d.

Definition verdict (thresholdUs : Z) (s : Sample) : HealthState :=
  classify (s_received s) (s_rttUs s) thresholdUs.

(** How many verdicts at the head of a history (newest first) say [v]. *)
Fixpoint run_of (v : HealthState) (h : list HealthState) : Z :=
  match h with
  | w :: h => if decide (w = v) then 1 + run_of v h else 0
  | [] => 0
  end.

(** The indicator after a history of verdicts, newest first, when it started as [s0]: a first
    verdict is adopted; after that the indicator becomes [v] when more than [n] verdicts in a
    row said [v]. *)
Fixpoint shown (n : Z) (s0 : HealthState) (h : list HealthState) : HealthState :=
  match h with
  | [] => s0
  | v :: h' =>
      let before := shown n s0 h' in
      if decide (before = Unknown) then v
      else if n <? run_of v h then v else before
  end.

(** What every destination's runtime fields satisfy. *)
Record destination_ok (d : Destination) : Prop := {
  ok_sensitivity : 0 <= d_sensitivity d <= 1000;
  ok_streak : 0 <= d_candidateStreak d <= 1000;
  ok_unknown : d_state d = Unknown -> d_candidateStreak d = 0;
  ok_state : d_state d <> Offline
}.

(** The replies counted never exceed the probes counted. *)
Definition counts_ok (d : Destination) : Prop := 0 <= d_received d <= d_sent d.

(** The state a history of verdicts (newest first) that started from [s0] leaves the machine
    in. *)
Definition machine_at (s0 : HealthState) (h : list HealthState) (d : Destination) : Prop :=
  d_state d = shown (d_sensitivity d) s0 h /\
  match h with
  | [] => d_candidateStreak d = 0
  | v :: _ =>
      d_candidate d = v /\
      d_candidateStreak d = if decide (v = d_state d) then 0 else run_of v h
  end.

(** ** Lemmas *)

Ltac health := unfold judge, record_reply, observe in *; cbn in *.

Lemma classify_measured (received : bool) (rttUs thresholdUs : Z) :
  classify received rttUs thresholdUs <> Unknown /\ classify received rttUs thresholdUs <> Offline.
Proof. unfold classify. destruct received; cbn; cases_if; done. Qed.

Lemma run_of_nonneg (v : HealthState) (h : list HealthState) : 0 <= run_of v h.
Proof. induction h; cbn; [lia | case_decide; lia]. Qed.

Lemma judge_config (v : HealthState) (d : Destination) :
  d_sensitivity (judge v d) = d_sensitivity d /\ d_thresholdUs (judge v d) = d_thresholdUs d /\
  d_sent (judge v d) = d_sent d /\ d_received (judge v d) = d_received d.
Proof. health. repeat case_decide; cbn; cases_if; done. Qed.

(** Everything [judge] and [machine_at] look at. *)
Lemma machine_at_ext (s0 : HealthState) (h : list HealthState) (d d' : Destination) :
  d_state d' = d_state d -> d_candidate d' = d_candidate d ->
  d_candidateStreak d' = d_candidateStreak d -> d_sensitivity d' = d_sensitivity d ->
  machine_at s0 h d -> machine_at s0 h d'.
Proof. unfold machine_at. intros -> -> -> ->. done. Qed.

Lemma judge_machine (s0 : HealthState) (h : list HealthState) (v : HealthState) (d : Destination) :
  v <> Unknown -> 0 <= d_candidateStreak d <= 1000 ->
  machine_at s0 h d -> machine_at s0 (v :: h) (judge v d).
Proof.
  intros Hv Hs [Hst Hc]. unfold machine_at.
  destruct (judge_config v d) as (-> & _). cbn [shown]. rewrite <- Hst.
  unfold judge; cbn -[run_of].
  assert (run_of v (v :: h) = 1 + run_of v h) as Hrun by (cbn; by rewrite decide_True).
  pose proof (run_of_nonneg v h).
  case_decide as HU; [cbn -[run_of]; by rewrite decide_True|].
  case_decide as HE; subst.
  { cbn -[run_of]. rewrite decide_True by done. split; [by cases_if | done]. }
  assert (v = d_candidate d -> d_candidateStreak d = run_of v h) as Hcand.
  { intros ->. destruct h as [|w h]; [done|]. destruct Hc as [<- ->]. by rewrite decide_False. }
  assert (v <> d_candidate d -> run_of v h = 0 \/ h = []) as Hodd.
  { intros Hn. destruct h as [|w h]; [by right|]. destruct Hc as [<- _]. left. cbn.
    by rewrite decide_False. }
  case_decide as HC; cbn -[run_of].
  - rewrite i32_small by lia. rewrite Hrun, Hcand by done.
    replace (run_of v h + 1) with (1 + run_of v h) by lia.
    destruct (_ <? _); cbn; [by rewrite decide_True | by rewrite decide_False].
  - rewrite Hrun. replace (run_of v h) with 0 by (destruct Hodd as [Hz | ->]; done).
    destruct (_ <? _); cbn; [by rewrite decide_True | by rewrite decide_False].
Qed.

Lemma judge_streak (v : HealthState) (d : Destination) :
  0 <= d_sensitivity d <= 1000 -> 0 <= d_candidateStreak d <= 1000 ->
  0 <= d_candidateStreak (judge v d) <= d_sensitivity d.
Proof.
  intros Hs Hk. health. repeat case_decide; cbn; try lia; cases_if; bools; cbn in *;
    rewrite ?i32_small in * by lia; lia.
Qed.

Lemma judge_state (v : HealthState) (d : Destination) :
  d_state (judge v d) = d_state d \/ d_state (judge v d) = v.
Proof. health. repeat case_decide; cbn; cases_if; auto. Qed.

(** [observe] is [judge] as far as the hysteresis is concerned. *)
Lemma observe_judge (s : Sample) (d : Destination) :
  let j := judge (verdict (d_thresholdUs d) s)
             (record_reply (s_received s) (s_rttUs s) (s_realNow s) d) in
  let d' := observe_sample d s in
  d_state d' = d_state j /\ d_candidate d' = d_candidate j /\
  d_candidateStreak d' = d_candidateStreak j /\ d_sensitivity d' = d_sensitivity d /\
  d_thresholdUs d' = d_thresholdUs d /\ d_sent d' = d_sent j /\ d_received d' = d_received j.
Proof.
  unfold observe_sample, observe, verdict.
  assert (d_thresholdUs (record_reply (s_received s) (s_rttUs s) (s_realNow s) d)
          = d_thresholdUs d) as -> by (health; by destruct (s_received s)).
  set (j := judge _ _).
  assert (d_sensitivity j = d_sensitivity d /\ d_thresholdUs j = d_thresholdUs d) as [Ha Hb].
  { subst j. destruct (judge_config (classify (s_received s) (s_rttUs s) (d_thresholdUs d))
      (record_reply (s_received s) (s_rttUs s) (s_realNow s) d)) as (-> & -> & _).
    health. by destruct (s_received s). }
  cbn. case_decide; cbn; split_and!; auto.
Qed.

Lemma record_reply_machine (b : bool) (rtt now : Z) (d : Destination) :
  let d' := record_reply b rtt now d in
  d_state d' = d_state d /\ d_candidate d' = d_candidate d /\
  d_candidateStreak d' = d_candidateStreak d /\ d_sensitivity d' = d_sensitivity d.
Proof. health. by destruct b. Qed.

Lemma observe_machine (s0 : HealthState) (h : list HealthState) (s : Sample) (d : Destination) :
  0 <= d_candidateStreak d <= 1000 -> machine_at s0 h d ->
  machine_at s0 (verdict (d_thresholdUs d) s :: h) (observe_sample d s).
Proof.
  intros Hk Hm. destruct (observe_judge s d) as (H1 & H2 & H3 & H4 & _).
  destruct (record_reply_machine (s_received s) (s_rttUs s) (s_realNow s) d)
    as (R1 & R2 & R3 & R4).
  eapply machine_at_ext; [exact H1 | exact H2 | exact H3 | | apply judge_machine].
  - rewrite H4. by destruct (judge_config (verdict (d_thresholdUs d) s)
      (record_reply (s_received s) (s_rttUs s) (s_realNow s) d)) as (-> & _).
  - apply classify_measured.
  - by rewrite R3.
  - eapply machine_at_ext; eauto.
Qed.

Lemma observe_streak (s : Sample) (d : Destination) :
  0 <= d_sensitivity d <= 1000 -> 0 <= d_candidateStreak d <= 1000 ->
  0 <= d_candidateStreak (observe_sample d s) <= d_sensitivity d.
Proof.
  intros Hs Hk. destruct (observe_judge s d) as (_ & _ & -> & _).
  destruct (record_reply_machine (s_received s) (s_rttUs s) (s_realNow s) d)
    as (_ & _ & R3 & R4).
  rewrite <- R4. apply judge_streak; lia.
Qed.

(** The machine follows the specification from any state it may be started in. *)
Lemma observe_all_machine (s0 : HealthState) (samples : list Sample) (d : Destination)
    (h : list HealthState) :
  0 <= d_sensitivity d <= 1000 -> 0 <= d_candidateStreak d <= 1000 -> machine_at s0 h d ->
  machine_at s0 (rev (map (verdict (d_thresholdUs d)) samples) ++ h) (observe_all d samples)
  /\ d_sensitivity (observe_all d samples) = d_sensitivity d.
Proof.
  revert d h; induction samples as [|s samples IH]; intros d h Hs Hk Hm; [done|].
  destruct (observe_judge s d) as (_ & _ & _ & E1 & E2 & _).
  pose proof (observe_streak s d Hs Hk) as Hk'.
  destruct (IH (observe_sample d s) (verdict (d_thresholdUs d) s :: h)) as [IH1 IH2].
  - lia.
  - lia.
  - by apply observe_machine.
  - rewrite E1, E2 in *. cbn [map rev]. rewrite <- app_assoc. done.
Qed.

Lemma shown_stable (n : Z) (s0 : HealthState) (h : list HealthState) :
  s0 <> Unknown ->
  (forall newer v older, h = newer ++ v :: older -> v <> s0 -> run_of v (v :: older) <= n) ->
  shown n s0 h = s0.
Proof.
  intros Hs. induction h as [|v h IH]; intros Hrun; [done|].
  cbn -[run_of]. rewrite IH.
  - rewrite decide_False by done. destruct (decide (v = s0)) as [->|Hv]; [by cases_if|].
    specialize (Hrun [] v h eq_refl Hv). destruct (Z.ltb_spec n (run_of v (v :: h))); [lia | done].
  - intros newer w older -> Hw. apply (Hrun (v :: newer) w older); done.
Qed.

(** [k] agreeing verdicts have moved the indicator or are counted. *)
Definition argued (v : HealthState) (k : Z) (d : Destination) : Prop :=
  d_state d = v \/ k = 0 \/ (d_candidate d = v /\ k <= d_candidateStreak d).

Lemma judge_argued (v : HealthState) (k : Z) (d : Destination) :
  0 <= k -> 0 <= d_candidateStreak d <= 1000 -> argued v k d -> argued v (k + 1) (judge v d).
Proof.
  unfold argued. intros Hk Hs Ha. health.
  repeat case_decide; cbn; auto; cases_if; cbn; auto; rewrite ?i32_small by lia;
    right; right; (split; [done | ]); intuition (lia || congruence).
Qed.

Lemma observe_argued (k : Z) (s : Sample) (d : Destination) :
  0 <= k -> 0 <= d_candidateStreak d <= 1000 ->
  argued (verdict (d_thresholdUs d) s) k d ->
  argued (verdict (d_thresholdUs d) s) (k + 1) (observe_sample d s).
Proof.
  intros Hk Hs Ha.
  destruct (observe_judge s d) as (H1 & H2 & H3 & _).
  destruct (record_reply_machine (s_received s) (s_rttUs s) (s_realNow s) d) as (R1 & R2 & R3 & _).
  unfold argued. rewrite H1, H2, H3. apply judge_argued; [done | by rewrite R3 |].
  unfold argued. by rewrite R1, R2, R3.
Qed.

Lemma observe_all_argued (v : HealthState) (samples : list Sample) (k : Z) (d : Destination) :
  0 <= d_sensitivity d <= 1000 -> 0 <= d_candidateStreak d <= 1000 -> 0 <= k ->
  Forall (fun s => verdict (d_thresholdUs d) s = v) samples -> argued v k d ->
  argued v (k + Z.of_nat (length samples)) (observe_all d samples) /\
  d_sensitivity (observe_all d samples) = d_sensitivity d /\
  (samples <> [] -> d_candidateStreak (observe_all d samples) <= d_sensitivity d).
Proof.
  intros Hs Hk Hk0 Hall; revert k d Hs Hk Hk0 Hall.
  induction samples as [|s samples IH]; intros k d Hs Hk Hk0 Hall Ha.
  { cbn. rewrite Z.add_0_r. done. }
  apply Forall_cons_iff in Hall as [Hv Hall].
  destruct (observe_judge s d) as (_ & _ & _ & E1 & E2 & _).
  pose proof (observe_streak s d Hs Hk) as Hk'.
  destruct (IH (k + 1) (observe_sample d s)) as (IH1 & IH2 & IH3); try lia.
  - by rewrite E2.
  - subst v. by apply observe_argued.
  - rewrite E1 in *. cbn [length]. split_and!; [|done|].
    + by replace (k + Z.of_nat (S (length samples))) with (k + 1 + Z.of_nat (length samples)) by lia.
    + intros _. destruct samples; [cbn; lia | by apply IH3].
Qed.

Lemma judge_unknown (v : HealthState) (d : Destination) : v <> Unknown -> d_state (judge v d) <> Unknown.
Proof. intros Hv. health. repeat case_decide; cbn; auto; cases_if; done. Qed.

Lemma observe_known (s : Sample) (d : Destination) : d_state (observe_sample d s) <> Unknown.
Proof.
  destruct (observe_judge s d) as (-> & _). apply judge_unknown, classify_measured.
Qed.

Lemma observe_ok (s : Sample) (d : Destination) :
  destination_ok d -> destination_ok (observe_sample d s).
Proof.
  intros [Hs Hk Hu Ho].
  destruct (observe_judge s d) as (H1 & _ & _ & E1 & _).
  pose proof (observe_streak s d Hs Hk) as Hk'. pose proof (observe_known s d).
  constructor; [by rewrite E1 | lia | done |].
  rewrite H1. destruct (judge_state (verdict (d_thresholdUs d) s)
    (record_reply (s_received s) (s_rttUs s) (s_realNow s) d)) as [-> | ->];
    [|apply classify_measured].
  destruct (record_reply_machine (s_received s) (s_rttUs s) (s_realNow s) d) as (-> & _). done.
Qed.

Lemma observe_counts (s : Sample) (d : Destination) :
  counts_ok d -> d_sent d < u64_max ->
  d_sent (observe_sample d s) = d_sent d + 1 /\
  d_received (observe_sample d s) = d_received d + (if s_received s then 1 else 0).
Proof.
  unfold counts_ok, u64_max. intros Hc Hm.
  destruct (observe_judge s d) as (_ & _ & _ & _ & _ & -> & ->).
  destruct (judge_config (verdict (d_thresholdUs d) s)
    (record_reply (s_received s) (s_rttUs s) (s_realNow s) d)) as (_ & _ & -> & ->).
  health. destruct (s_received s); cbn; rewrite !u64_small; lia.
Qed.

(** ** Properties *)

(** C2: the indicator of a destination is a function of the history of its probes: after any
    sequence of probes of a fresh destination it shows what [shown] computes from the verdicts,
    that is the verdict of the first probe, then the last verdict that was repeated more than
    [sensitivity] times in a row.  The candidate and the streak counter of the code are
    exactly enough memory for that. *)
Theorem indicator_follows_history (d : Destination) (samples : list Sample) :
  0 <= d_sensitivity d <= 1000 -> d_state d = Unknown -> d_candidateStreak d = 0 ->
  d_state (observe_all d samples) =
  shown (d_sensitivity d) Unknown (rev (map (verdict (d_thresholdUs d)) samples)).
Proof.
  intros Hs Hu Hk.
  destruct (observe_all_machine Unknown samples d [] Hs) as [[H _] Hsens]; [lia | |].
  - by split.
  - rewrite app_nil_r in H. by rewrite H, Hsens.
Qed.

(** C34: whatever the indicator shows and whatever it has counted, more than [sensitivity]
    consecutive probes with the same verdict make it show that verdict. *)
Theorem indicator_settles (d : Destination) (v : HealthState) (samples : list Sample) :
  destination_ok d -> Forall (fun s => verdict (d_thresholdUs d) s = v) samples ->
  d_sensitivity d < Z.of_nat (length samples) -> d_state (observe_all d samples) = v.
Proof.
  intros [Hs Hk _ _] Hall Hlen.
  destruct (observe_all_argued v samples 0 d Hs Hk) as (Ha & _ & Hst); [lia | done | by right; left |].
  destruct Ha as [|[|[_ ?]]]; [done | lia |].
  assert (samples <> []) as Hne by (intros ->; cbn in *; lia). specialize (Hst Hne). lia.
Qed.

(** C35: an indicator that shows a state with nothing counted against it keeps showing it as
    long as no other verdict is repeated more than [sensitivity] times in a row: odd replies,
    and mixtures that never agree with each other for long, move nothing. *)
Theorem indicator_stable (d : Destination) (samples : list Sample) :
  0 <= d_sensitivity d <= 1000 -> d_state d <> Unknown -> d_candidateStreak d = 0 ->
  (forall newer v older,
     rev (map (verdict (d_thresholdUs d)) samples) = newer ++ v :: older ->
     v <> d_state d -> run_of v (v :: older) <= d_sensitivity d) ->
  d_state (observe_all d samples) = d_state d.
Proof.
  intros Hs Hu Hk Hrun.
  destruct (observe_all_machine (d_state d) samples d [] Hs) as [[H _] Hsens]; [lia | by split |].
  rewrite app_nil_r in H. rewrite H, Hsens. by apply shown_stable.
Qed.

(** C36: every probe outcome keeps a destination well formed: the streak counter stays within
    the configured sensitivity (so the [int] never overflows), [Offline] is never measured,
    one probe more is counted and one reply more exactly when there was one, so that the
    replies counted never exceed the probes counted. *)
Theorem observe_preserves_ok (d : Destination) (s : Sample) :
  destination_ok d -> counts_ok d -> d_sent d < u64_max ->
  destination_ok (observe_sample d s) /\ counts_ok (observe_sample d s) /\
  d_candidateStreak (observe_sample d s) <= d_sensitivity d /\
  d_state (observe_sample d s) <> Unknown /\
  d_sent (observe_sample d s) = d_sent d + 1 /\
  d_received (observe_sample d s) = d_received d + (if s_received s then 1 else 0).
Proof.
  intros Hok Hc Hm. destruct (observe_counts s d Hc Hm) as [E1 E2].
  pose proof Hok as [Hs Hk _ _]. pose proof (observe_streak s d Hs Hk).
  split_and!; try done; [by apply observe_ok | | lia | apply observe_known].
  unfold counts_ok in *. rewrite E1, E2. destruct (s_received s); lia.
Qed.
