(* ===== verification/Pinger.v ===== *)
(** * The ICMP engine: endpoints, sockets, packets

    pinger.h and pinger.cpp.  Address resolution ([lookup]), the Internet checksum, the echo
    request [IcmpSocket::send] builds, and the filter [IcmpSocket::receive] applies to what the
    kernel delivers.  The C library and the kernel are parameters ([Libc], and the results of
    the system calls); multi-byte fields are laid out in little-endian host order. *)

From S2P Require Import Prelude.

(** ** The C library and the kernel *)

Definition AF_UNSPEC : Z := 0.
Definition AF_INET : Z := 2.
Definition AF_INET6 : Z := 10.

Definition AI_NUMERICHOST : Z := 4.
Definition AI_ADDRCONFIG : Z := 32.
Definition AI_NUMERICSERV : Z := 1024.

(** [sockaddr_storage]: the family, and the 126 bytes that follow it. *)
Record sockaddr_storage := mkSockaddr { ss_family : Z; ss_data : str }.

(** An element of the list [getaddrinfo] returns, with the bytes of [ai_addr] after the
    family. *)
Record addrinfo := mkAddrinfo { ai_family : Z; ai_sa_family : Z; ai_sa_data : str }.

(** The parts of the C library that are not modelled.  [getaddrinfo host flags] is its return
    code and the list of results; [getnameinfo addr len] the numeric form of an address. *)
Class Libc := {
  strerror : Errno -> str;
  gai_strerror : Z -> str;
  getaddrinfo : str -> Z -> Z * list addrinfo;
  getnameinfo : sockaddr_storage -> Z -> option str
}.

(** ** Endpoints *)

Record Endpoint := mkEndpoint {
  e_family : Z;
  e_addr : sockaddr_storage;
  e_len : Z;
  e_text : str
}.

Definition zero_sockaddr : sockaddr_storage := mkSockaddr 0 (replicate 126 x00).

Definition noEndpoint : Endpoint := mkEndpoint AF_UNSPEC zero_sockaddr 0 [].

Definition valid (e : Endpoint) : bool :=
  negb (e_family e =? AF_UNSPEC) && (0 <? e_len e).

(** [sockaddr_in::sin_addr] and [sockaddr_in6::sin6_addr], at offsets 4 and 8 of the struct. *)
Definition sin_addr (a : sockaddr_storage) : str := take 4 (drop 2 (ss_data a)).
Definition sin6_addr (a : sockaddr_storage) : str := take 16 (drop 6 (ss_data a)).

Definition matches (e : Endpoint) (other : sockaddr_storage) (otherLen : Z) : bool :=
  if negb (valid e) || (otherLen =? 0) then false
  else if negb (ss_family other =? ss_family (e_addr e)) then false
  else if ss_family (e_addr e) =? AF_INET then
    bool_decide (sin_addr (e_addr e) = sin_addr other)
  else if ss_family (e_addr e) =? AF_INET6 then
    bool_decide (sin6_addr (e_addr e) = sin6_addr other)
  else false.

Section Lookup.
Context `{Libc}.

Definition formatAddress (addr : sockaddr_storage) (len : Z) : str :=
  match getnameinfo addr len with Some host => host | None => [] end.

(** The loop of [lookup]: stop at the first IPv4 result, else keep the first IPv6 one. *)
Fixpoint choose (results : list addrinfo) (chosen : option addrinfo) : option addrinfo :=
  match results with
  | [] => chosen
  | it :: next =>
      if ai_family it =? AF_INET then Some it
      else if negb (bool_decide (is_Some chosen)) && (ai_family it =? AF_INET6) then
        choose next (Some it)
      else choose next chosen
  end.

(** [lookup host flags]: the endpoint, or the error text. *)
Definition lookup_host (host : str) (flags : Z) : str + Endpoint :=
  let '(rc, results) := getaddrinfo host flags in
  if negb (rc =? 0) || bool_decide (results = []) then inl (gai_strerror rc)
  else
    match choose results None with
    | None => inl (lit "no usable address")
    | Some chosen =>
        let addr := mkSockaddr (ai_sa_family chosen)
          (ai_sa_data chosen ++ replicate (126 - length (ai_sa_data chosen)) x00) in
        let len := 2 + Z.of_nat (length (ai_sa_data chosen)) in
        inr (mkEndpoint (ai_family chosen) addr len (formatAddress addr len))
    end.

Definition parseNumericAddress (text : str) : option Endpoint :=
  if bool_decide (text = []) then None
  else match lookup_host text (Z.lor AI_NUMERICHOST AI_NUMERICSERV) with
       | inr e => Some e
       | inl _ => None
       end.

Definition resolveHostName (host : str) : str + Endpoint := lookup_host host AI_ADDRCONFIG.

End Lookup.

(** ** Packets *)

(** [memcpy] of an [n]-byte unsigned integer to and from memory. *)
Fixpoint le_bytes (n : nat) (v : Z) : str :=
  match n with O => [] | S n => chr v :: le_bytes n (v / 256) end.

Fixpoint le_value (l : str) : Z :=
  match l with [] => 0 | b :: l => uc b + 256 * le_value l end.

(** [htons]. *)
Definition htons (v : Z) : Z := 256 * (v mod 256) + (v / 256) mod 256.

Definition kMagic : Z := 0x504E4831.
Definition kReceiveBatch : nat := 32.
Definition kMaxDatagram : nat := 256.

Record Payload := mkPayload { pl_magic : Z; pl_cookie : Z; pl_uid : Z; pl_seq : Z; pl_sentUs : Z }.

Definition payload_bytes (p : Payload) : str :=
  le_bytes 4 (pl_magic p) ++ le_bytes 4 (pl_cookie p) ++ le_bytes 4 (pl_uid p) ++
  le_bytes 4 (pl_seq p) ++ le_bytes 8 (pl_sentUs p).

Definition read_payload (l : str) : Payload :=
  mkPayload (le_value (take 4 l)) (le_value (take 4 (drop 4 l))) (le_value (take 4 (drop 8 l)))
    (le_value (take 4 (drop 12 l))) (le_value (take 8 (drop 16 l))).

Record IcmpHeader := mkIcmpHeader {
  h_type : Z; h_code : Z; h_checksum : Z; h_id : Z; h_sequence : Z
}.

Definition header_bytes (h : IcmpHeader) : str :=
  le_bytes 1 (h_type h) ++ le_bytes 1 (h_code h) ++ le_bytes 2 (h_checksum h) ++
  le_bytes 2 (h_id h) ++ le_bytes 2 (h_sequence h).

Definition read_header (l : str) : IcmpHeader :=
  mkIcmpHeader (le_value (take 1 l)) (le_value (take 1 (drop 1 l))) (le_value (take 2 (drop 2 l)))
    (le_value (take 2 (drop 4 l))) (le_value (take 2 (drop 6 l))).

Definition kPacketSize : nat := 32.

(** The two loops of [internetChecksum]: sum the 16-bit words, fold the carries. *)
Fixpoint sum_words (l : str) (sum : Z) : Z :=
  match l with
  | a :: b :: l => sum_words l (u32 (sum + (uc a + 256 * uc b)))
  | [a] => u32 (sum + uc a)
  | [] => sum
  end.

Fixpoint fold_carries (fuel : nat) (sum : Z) : Z :=
  match fuel with
  | O => sum
  | S fuel =>
      if Z.shiftr sum 16 =? 0 then sum
      else fold_carries fuel (u32 (Z.land sum 0xFFFF + Z.shiftr sum 16))
  end.

Definition internetChecksum (data : str) : Z :=
  u16 (Z.lnot (fold_carries 3 (sum_words data 0))).

(** The reference, as RFC 1071 words it: the one's complement of the one's complement sum of the
    16-bit words, an odd byte being padded with a zero. *)
Definition ones_add (a b : Z) : Z := let s := a + b in if 65535 <? s then s - 65535 else s.

Fixpoint packet_words (l : str) : list Z :=
  match l with
  | a :: b :: l => uc a + 256 * uc b :: packet_words l
  | [a] => [uc a]
  | [] => []
  end.

Definition ones_sum : list Z -> Z := fold_right ones_add 0.

(** ** Sockets *)

Definition ICMP_ECHOREPLY : Z := 0.
Definition ICMP_ECHO : Z := 8.
Definition ICMP6_ECHO_REQUEST : Z := 128.
Definition ICMP6_ECHO_REPLY : Z := 129.

Record IcmpSocket := mkIcmpSocket { m_fd : Z; m_family : Z; m_raw : bool }.

Definition closedSocket : IcmpSocket := mkIcmpSocket (-1) AF_UNSPEC false.

Definition isOpen (s : IcmpSocket) : bool := 0 <=? m_fd s.

(** [close]: the descriptor the kernel is told to close, if any, and the socket after it. *)
Definition close (s : IcmpSocket) : option Z * IcmpSocket :=
  (if 0 <=? m_fd s then Some (m_fd s) else None, closedSocket).

Inductive SendResult := Sent | Unreachable | Failed.

#[export] Instance SendResult_eq_dec : EqDecision SendResult.
Proof. solve_decision. Defined.

Definition isUnreachableErrno (err : Errno) : bool :=
  match err with
  | ENETUNREACH | EHOSTUNREACH | ENETDOWN | EHOSTDOWN | ECONNREFUSED
  | EACCES | EPERM | EINVAL | EAFNOSUPPORT => true
  | EEXIST | ENOENT | EOTHER _ => false
  end.

(** The packet [send] hands to the kernel. *)
Definition echo_request (s : IcmpSocket) (uid seq sentUs cookie : Z) : str :=
  let header := mkIcmpHeader
    (if m_family s =? AF_INET6 then ICMP6_ECHO_REQUEST else ICMP_ECHO) 0 0
    (htons (u16 (Z.land uid 0xFFFF))) (htons (u16 (Z.land seq 0xFFFF))) in
  let packet := header_bytes header ++
    payload_bytes (mkPayload kMagic cookie uid seq sentUs) in
  if m_raw s && (m_family s =? AF_INET) then
    let sum := internetChecksum packet in
    take 2 packet ++ le_bytes 2 sum ++ drop 4 packet
  else packet.

(** The [while (true)] around [sendto]; an interrupted call is made again. *)
Fixpoint send_attempts `{Libc} (interrupted : nat) (n : Z) (err : Errno) : SendResult * option str :=
  match interrupted with
  | S interrupted => send_attempts interrupted n err
  | O =>
      if n =? Z.of_nat kPacketSize then (Sent, None)
      else (if isUnreachableErrno err then Unreachable else Failed, Some (strerror err))
  end.

(** [send]: what was handed to the kernel, the result and the error text. *)
Definition send `{Libc} (s : IcmpSocket) (endpoint : Endpoint) (uid seq sentUs cookie : Z)
    (sendto : SysCall) : option str * (SendResult * option str) :=
  if (m_fd s <? 0) || negb (valid endpoint) || negb (e_family endpoint =? m_family s) then
    (None, (Failed, Some (lit "socket not ready for this address family")))
  else
    (Some (echo_request s uid seq sentUs cookie),
     send_attempts (interruptions sendto) (ret sendto) (errno sendto)).

(** [open]: the results of the two [socket] calls, the datagram one first; the new socket,
    whether it is usable, and the error text. *)
Definition open_socket `{Libc} (family : Z) (dgram raw : SysCall) : IcmpSocket * (bool * str) :=
  if ret dgram <? 0 then
    if ret raw <? 0 then
      (mkIcmpSocket (ret raw) AF_UNSPEC false,
       (false, lit "ICMP socket unavailable (datagram: " ++ strerror (errno dgram) ++
               lit ", raw: " ++ strerror (errno raw) ++ lit ")"))
    else (mkIcmpSocket (ret raw) family true, (true, []))
  else (mkIcmpSocket (ret dgram) family false, (true, [])).

(** ** Replies *)

Record Reply := mkReply {
  r_uid : Z; r_seq : Z; r_sentUs : Z; r_from : sockaddr_storage; r_fromLen : Z
}.

(** A datagram as [recvmmsg] fills it in. *)
Record Datagram := mkDatagram { g_from : sockaddr_storage; g_fromLen : Z; g_bytes : str }.

(** Raw IPv4 sockets hand over the IP header too: skip it, unless it is malformed. *)
Definition strip_ip_header (s : IcmpSocket) (data : str) : option str :=
  if m_raw s && (m_family s =? AF_INET) then
    if (length data <? 20)%nat then None
    else
      let headerLength := Z.to_nat (Z.land (le_value (take 1 data)) 0x0F * 4) in
      if (headerLength <? 20)%nat || (length data <? headerLength)%nat then None
      else Some (drop headerLength data)
  else Some data.

Definition expectedType (s : IcmpSocket) : Z :=
  if m_family s =? AF_INET6 then ICMP6_ECHO_REPLY else ICMP_ECHOREPLY.

(** The payload of an ICMP message, when it is an echo reply to one of our own requests. *)
Definition read_echo_reply (s : IcmpSocket) (cookie : Z) (data : str) : option Payload :=
  if (length data <? kPacketSize)%nat then None
  else
    let header := read_header data in
    if negb (h_type header =? expectedType s) || negb (h_code header =? 0) then None
    else
      let payload := read_payload (drop 8 data) in
      if negb (pl_magic payload =? kMagic) || negb (pl_cookie payload =? cookie) then None
      else Some payload.

(** The body of the loop over one batch: the reply a datagram carries, if it is one of ours. *)
Definition accept (s : IcmpSocket) (cookie : Z) (g : Datagram) : option Reply :=
  match strip_ip_header s (take kMaxDatagram (g_bytes g)) with
  | None => None
  | Some data =>
      match read_echo_reply s cookie data with
      | None => None
      | Some payload =>
          Some (mkReply (pl_uid payload) (pl_seq payload) (pl_sentUs payload)
                  (g_from g) (g_fromLen g))
      end
  end.

(** [receive]: the loop over the batches the kernel delivers, each of at most
    [kReceiveBatch] datagrams; a batch that is not full ends it, as does an error. *)
Fixpoint receive_batches (s : IcmpSocket) (cookie : Z) (batches : list (list Datagram))
    (out : list Reply) : nat * list Reply :=
  match batches with
  | [] => (0%nat, out)
  | [] :: _ => (0%nat, out)
  | batch :: rest =>
      let accepted := omap (accept s cookie) batch in
      if (length batch <? kReceiveBatch)%nat then (length accepted, out ++ accepted)
      else
        let '(n, out) := receive_batches s cookie rest (out ++ accepted) in
        ((length accepted + n)%nat, out)
  end.

Definition receive (s : IcmpSocket) (cookie : Z) (batches : list (list Datagram))
    (out : list Reply) : nat * list Reply :=
  if m_fd s <? 0 then (0%nat, out) else receive_batches s cookie batches out.

(** What a peer that echoes [request] sends back: the reply type of the family, whatever
    checksum, identifier and sequence, and the bytes after the ICMP header unchanged; raw IPv4
    sockets also see the IP header. *)
Definition echo_reply (s : IcmpSocket) (ip : str) (checksum id sequence : Z) (request : str) : str :=
  (if m_raw s && (m_family s =? AF_INET) then ip else []) ++
  header_bytes (mkIcmpHeader (expectedType s) 0 checksum id sequence) ++ drop 8 request.

(** The batches [receive] reads: up to the first one that is not full. *)
Fixpoint drained (batches : list (list Datagram)) : list (list Datagram) :=
  match batches with
  | [] => []
  | batch :: rest =>
      if (length batch <? kReceiveBatch)%nat then [batch] else batch :: drained rest
  end.

(** An IPv4 header of [ihl] words, [5 <= ihl <= 15]; its first byte holds the version, 4, and [ihl]. *)
Definition ip_header (ip : str) (ihl : Z) : Prop :=
  5 <= ihl <= 15 /\ Z.of_nat (length ip) = 4 * ihl /\ head ip = Some (chr (64 + ihl)).

(** ** Lemmas *)

Lemma le_bytes_length (n : nat) (v : Z) : length (le_bytes n v) = n.
Proof. revert v; induction n; intros v; cbn; auto. Qed.

Lemma le_value_range (l : str) : 0 <= le_value l < 256 ^ Z.of_nat (length l).
Proof.
  induction l as [|b l IH]; [cbn; lia|]. pose proof (uc_range b).
  cbn [le_value length]. rewrite Nat2Z.inj_succ, Z.pow_succ_r by lia. lia.
Qed.

Lemma le_value_bytes (n : nat) (v : Z) : le_value (le_bytes n v) = v mod 256 ^ Z.of_nat n.
Proof.
  revert v; induction n as [|n IH]; intros v; [cbn; by rewrite Z.mod_1_r|].
  cbn [le_value le_bytes]. rewrite IH, uc_chr, Nat2Z.inj_succ, Z.pow_succ_r by lia.
  rewrite Z.rem_mul_r; lia.
Qed.

Lemma le_value_bytes_small (n : nat) (v : Z) :
  0 <= v < 256 ^ Z.of_nat n -> le_value (le_bytes n v) = v.
Proof. intros. rewrite le_value_bytes. by apply Z.mod_small. Qed.

Lemma le_bytes_value (l : str) : le_bytes (length l) (le_value l) = l.
Proof.
  induction l as [|b l IH]; [done|]. cbn [length le_value le_bytes].
  pose proof (uc_range b).
  replace ((uc b + 256 * le_value l) / 256) with (le_value l)
    by (rewrite Z.mul_comm, Z.div_add, Z.div_small; lia).
  f_equal; [|done]. apply uc_inj. rewrite uc_chr.
  rewrite Z.mul_comm, Z.mod_add, Z.mod_small; lia.
Qed.

#[global] Create Rewrite HintDb bytes.
#[export] Hint Rewrite le_bytes_length @length_app @length_take @length_drop : bytes.

(** Select a field out of a concatenation of [le_bytes] fields. *)
Ltac fields :=
  repeat first
    [ rewrite drop_0
    | rewrite take_app_length' by (autorewrite with bytes; reflexivity)
    | rewrite drop_app_length' by (autorewrite with bytes; reflexivity)
    | rewrite drop_app_ge by (autorewrite with bytes; cbn; lia); autorewrite with bytes;
      cbn [Nat.sub]
    | rewrite take_ge by (autorewrite with bytes; cbn; lia) ].

Lemma read_payload_bytes (p : Payload) (rest : str) :
  0 <= pl_magic p < 2 ^ 32 -> 0 <= pl_cookie p < 2 ^ 32 -> 0 <= pl_uid p < 2 ^ 32 ->
  0 <= pl_seq p < 2 ^ 32 -> 0 <= pl_sentUs p < 2 ^ 64 ->
  read_payload (payload_bytes p ++ rest) = p.
Proof.
  intros. destruct p; unfold read_payload, payload_bytes; cbn [pl_magic pl_cookie pl_uid pl_seq pl_sentUs] in *.
  rewrite <- !(assoc_L (++)). fields.
  rewrite !le_value_bytes_small by (cbn; lia). done.
Qed.

Lemma payload_bytes_length (p : Payload) : length (payload_bytes p) = 24%nat.
Proof. unfold payload_bytes. autorewrite with bytes. done. Qed.

Lemma header_bytes_length (h : IcmpHeader) : length (header_bytes h) = 8%nat.
Proof. unfold header_bytes. autorewrite with bytes. done. Qed.

#[export] Hint Rewrite payload_bytes_length header_bytes_length : bytes.

Lemma read_header_type (h : IcmpHeader) (rest : str) :
  0 <= h_type h < 256 -> 0 <= h_code h < 256 ->
  h_type (read_header (header_bytes h ++ rest)) = h_type h /\
  h_code (read_header (header_bytes h ++ rest)) = h_code h.
Proof.
  intros. unfold read_header, header_bytes. cbn [h_type h_code].
  rewrite <- !(assoc_L (++)). fields. rewrite !le_value_bytes_small by (cbn; lia). done.
Qed.

(** The IP header of a well-formed datagram is what [strip_ip_header] removes. *)
Lemma strip_ip_header_raw (s : IcmpSocket) (ip data : str) (ihl : Z) :
  m_raw s && (m_family s =? AF_INET) = true -> ip_header ip ihl ->
  strip_ip_header s (ip ++ data) = Some data.
Proof.
  intros Hraw (Hihl & Hlen & Hhead). unfold strip_ip_header. rewrite Hraw.
  destruct ip as [|b0 ip]; [done|]. injection Hhead as ->.
  assert (le_value (take 1 ((chr (64 + ihl) :: ip) ++ data)) = 64 + ihl) as ->.
  { cbn -[Z.add Z.mul chr uc]. rewrite take_0, uc_chr_small by lia. cbn. lia. }
  assert (Z.to_nat (Z.land (64 + ihl) 0x0F * 4) = length (chr (64 + ihl) :: ip)) as ->.
  { change 0x0F with (Z.ones 4). rewrite Z.land_ones by lia.
    replace ((64 + ihl) mod 2 ^ 4) with ihl; [lia|].
    replace (64 + ihl) with (ihl + 4 * 2 ^ 4) by lia. rewrite Z.mod_add, Z.mod_small; lia. }
  rewrite length_app, drop_app_length.
  repeat match goal with |- context [(?a <? ?b)%nat] => destruct (Nat.ltb_spec a b); [lia|] end.
  done.
Qed.

Lemma expectedType_byte (s : IcmpSocket) : 0 <= expectedType s < 256.
Proof. unfold expectedType. destruct (_ =? _); cbv; intuition congruence. Qed.

(** Every echo reply to one of our requests is read back field by field. *)
Lemma read_echo_reply_own (s : IcmpSocket) (checksum id sequence uid seq sentUs cookie : Z) :
  0 <= uid < 2 ^ 32 -> 0 <= seq < 2 ^ 32 -> 0 <= cookie < 2 ^ 32 -> 0 <= sentUs < 2 ^ 64 ->
  read_echo_reply s cookie
    (header_bytes (mkIcmpHeader (expectedType s) 0 checksum id sequence) ++
     payload_bytes (mkPayload kMagic cookie uid seq sentUs)) =
  Some (mkPayload kMagic cookie uid seq sentUs).
Proof.
  intros. set (hdr := mkIcmpHeader _ _ _ _ _). set (pl := mkPayload _ _ _ _ _).
  destruct (read_header_type hdr (payload_bytes pl)) as [Et Ec]; [apply expectedType_byte | done |].
  unfold read_echo_reply. autorewrite with bytes. cbn [Nat.add Nat.ltb Nat.leb kPacketSize].
  rewrite Et, Ec, drop_app_length' by (symmetry; apply header_bytes_length).
  rewrite <- (app_nil_r (payload_bytes pl)), read_payload_bytes by done.
  subst hdr pl; cbn. by rewrite !Z.eqb_refl.
Qed.

(** What is accepted was produced by someone who knows the cookie. *)
Lemma read_echo_reply_inv (s : IcmpSocket) (cookie : Z) (data : str) (p : Payload) :
  read_echo_reply s cookie data = Some p ->
  (32 <= length data)%nat /\ h_type (read_header data) = expectedType s /\
  h_code (read_header data) = 0 /\ p = read_payload (drop 8 data) /\
  pl_magic p = kMagic /\ pl_cookie p = cookie.
Proof.
  unfold read_echo_reply. intros H.
  destruct (Nat.ltb_spec (length data) kPacketSize); [done|].
  cases_if; [done | done |]. bools. injection H as <-.
  repeat match goal with H : _ /\ _ |- _ => destruct H end. bools. done.
Qed.

(** *** The Internet checksum *)

Lemma sum_words_spec (l : str) (sum : Z) :
  0 <= sum -> sum + 65535 * Z.of_nat (length l) < 2 ^ 32 ->
  sum_words l sum = sum + sum_words l 0 /\ 0 <= sum_words l 0 <= 65535 * Z.of_nat (length l).
Proof.
  revert sum. induction l as [|a|a b l IH] using list_pair_ind; intros sum Hs Hb;
    cbn [sum_words length] in *.
  - lia.
  - pose proof (uc_range a). rewrite !u32_small by lia. lia.
  - pose proof (uc_range a). pose proof (uc_range b). rewrite !u32_small by lia.
    destruct (IH (sum + (uc a + 256 * uc b))) as [-> Hr]; [lia | lia |].
    destruct (IH (0 + (uc a + 256 * uc b))) as [-> _]; lia.
Qed.

(** One iteration of the carry loop keeps the value modulo [65535]. *)
Lemma fold_step (x : Z) :
  0 <= x < 2 ^ 32 ->
  let y := u32 (Z.land x 0xFFFF + Z.shiftr x 16) in
  0 <= y <= 131070 /\ (x <= 131070 -> y <= 65535) /\ y mod 65535 = x mod 65535 /\ (y = 0 -> x = 0).
Proof.
  intros Hx y. subst y. change (Z.land x 0xFFFF) with (Z.land x (Z.ones 16)).
  rewrite Z.land_ones, Z.shiftr_div_pow2 by lia. change (2 ^ 16) with 65536.
  pose proof (Z.mod_pos_bound x 65536). pose proof (Z.div_mod x 65536).
  assert (0 <= x / 65536 < 65536) by (split; [apply Z.div_pos | apply Z.div_lt_upper_bound]; lia).
  rewrite u32_small by lia. split_and!; try lia.
  transitivity ((x mod 65536 + x / 65536 + (x / 65536) * 65535) mod 65535);
    [by rewrite Z.mod_add by lia | f_equal; lia].
Qed.

Lemma fold_carries_spec (x : Z) :
  0 <= x < 2 ^ 32 ->
  0 <= fold_carries 3 x <= 65535 /\ fold_carries 3 x mod 65535 = x mod 65535 /\
  (fold_carries 3 x = 0 <-> x = 0).
Proof.
  assert (forall x, 0 <= x -> Z.shiftr x 16 = 0 -> x <= 65535) as Hdone.
  { intros z Hz. rewrite Z.shiftr_div_pow2 by lia. intros. change (2 ^ 16) with 65536 in *.
    pose proof (Z.div_mod z 65536). pose proof (Z.mod_pos_bound z 65536). lia. }
  intros Hx. cbn [fold_carries].
  destruct (Z.eqb_spec (Z.shiftr x 16) 0) as [E|E].
  { apply Hdone in E; [|lia]. split_and!; auto; lia. }
  assert (x <> 0) as Hx0 by (intros ->; done). clear E.
  destruct (fold_step x Hx) as (H1 & _ & H3 & H4). set (y := u32 (_ + Z.shiftr x 16)) in *.
  destruct (Z.eqb_spec (Z.shiftr y 16) 0) as [E|_].
  { apply Hdone in E; [|lia]. split_and!; auto; lia. }
  destruct (fold_step y) as (K1 & K2 & K3 & K4); [lia|].
  set (z := u32 (_ + Z.shiftr y 16)) in *.
  destruct (Z.eqb_spec (Z.shiftr z 16) 0) as [E|E].
  { apply Hdone in E; [|lia]. split_and!; auto; lia. }
  exfalso. assert (0 <= z <= 65535) as Hz by lia. rewrite Z.shiftr_div_pow2, Z.div_small in * by lia.
  done.
Qed.

Lemma internetChecksum_spec (l : str) :
  Z.of_nat (length l) <= 65536 ->
  exists f, internetChecksum l = 65535 - f /\ 0 <= f <= 65535 /\
    f mod 65535 = sum_words l 0 mod 65535 /\ (f = 0 <-> sum_words l 0 = 0).
Proof.
  intros Hl. destruct (sum_words_spec l 0) as [_ Hr]; [lia | lia |].
  destruct (fold_carries_spec (sum_words l 0)) as (H1 & H2 & H3); [lia|].
  exists (fold_carries 3 (sum_words l 0)). split_and!; try lia; try done.
  unfold internetChecksum, u16, Z.lnot.
  replace (Z.pred (- fold_carries 3 (sum_words l 0)))
    with (65535 - fold_carries 3 (sum_words l 0) + (-1) * 2 ^ 16) by lia.
  rewrite Z.mod_add, Z.mod_small; lia.
Qed.

(** The words of the packet, added with end-around carry, have the same residue. *)
Lemma ones_sum_spec (l : str) :
  Z.of_nat (length l) <= 65536 ->
  0 <= ones_sum (packet_words l) <= 65535 /\
  ones_sum (packet_words l) mod 65535 = sum_words l 0 mod 65535 /\
  (ones_sum (packet_words l) = 0 <-> sum_words l 0 = 0).
Proof.
  unfold ones_sum. induction l as [|a|a b l IH] using list_pair_ind;
    cbn [packet_words fold_right sum_words length]; intros Hl.
  - split_and!; done || lia.
  - pose proof (uc_range a). rewrite u32_small by lia. unfold ones_add. rewrite Z.add_0_r.
    rewrite Z.add_0_l. destruct (Z.ltb_spec 65535 (uc a)); [lia|]. split_and!; done || lia.
  - pose proof (uc_range a). pose proof (uc_range b). rewrite u32_small by lia.
    destruct (sum_words_spec l (0 + (uc a + 256 * uc b))) as [-> Hr]; [lia | lia |].
    destruct IH as (H1 & H2 & H3); [lia|]. set (o := fold_right ones_add 0 (packet_words l)) in *.
    set (v := uc a + 256 * uc b) in *. assert (0 <= v <= 65535) as Hv by lia.
    unfold ones_add. rewrite Z.add_0_l.
    assert ((v + o) mod 65535 = (v + sum_words l 0) mod 65535) as Hm
      by by rewrite Z.add_mod, H2, <- Z.add_mod.
    destruct (Z.ltb_spec 65535 (v + o)).
    + split_and!; [lia | lia | | lia].
      rewrite <- Hm. rewrite <- (Z.mod_add (v + o - 65535) 1 65535) by done. f_equal. lia.
    + split_and!; [lia | lia | done | lia].
Qed.

Lemma sum_words_app (a b : str) :
  Nat.Even (length a) -> Z.of_nat (length a + length b) <= 1024 ->
  sum_words (a ++ b) 0 = sum_words a 0 + sum_words b 0.
Proof.
  induction a as [|x|x y a IH] using list_pair_ind; intros He Hl; cbn [app length] in *.
  - done.
  - destruct He as [k He]. lia.
  - assert (forall l, Z.of_nat (length l) <= 1024 ->
      sum_words (x :: y :: l) 0 = uc x + 256 * uc y + sum_words l 0) as Hcons.
    { intros l Hll. pose proof (uc_range x). pose proof (uc_range y). cbn [sum_words].
      rewrite u32_small by lia. destruct (sum_words_spec l (0 + (uc x + 256 * uc y))) as [-> _]; lia. }
    rewrite !Hcons, IH; rewrite ?length_app; try lia.
    destruct He as [k He]. exists (k - 1)%nat. lia.
Qed.

Lemma within_64k (n : Z) : n <= 1024 -> n <= 65536.
Proof. lia. Qed.

(** Filling in the checksum of a packet makes its checksum zero. *)
Lemma internetChecksum_fill (a b : str) :
  length a = 2%nat -> Z.of_nat (length b) <= 1000 ->
  internetChecksum (a ++ le_bytes 2 (internetChecksum (a ++ le_bytes 2 0 ++ b)) ++ b) = 0.
Proof.
  intros Ha Hb.
  assert (forall c, 0 <= c <= 65535 -> sum_words (a ++ le_bytes 2 c ++ b) 0 =
    sum_words a 0 + c + sum_words b 0) as Hsum.
  { intros c Hc. rewrite !sum_words_app; rewrite ?length_app, ?le_bytes_length;
      [| by exists 1%nat | lia | by exists 1%nat; lia | lia ].
    replace (sum_words (le_bytes 2 c) 0) with c; [lia|].
    pose proof (Z.mod_pos_bound c 256). pose proof (Z.div_mod c 256).
    assert (0 <= c / 256 < 256) by (split; [apply Z.div_pos | apply Z.div_lt_upper_bound]; lia).
    cbn -[Z.mul Z.add Z.div]. rewrite !uc_chr, u32_small; rewrite ?(Z.mod_small (c / 256)); lia. }
  assert (forall c, Z.of_nat (length (a ++ le_bytes 2 c ++ b)) <= 1024) as Hlen
    by (intros c; rewrite !length_app, le_bytes_length; lia).
  destruct (internetChecksum_spec (a ++ le_bytes 2 0 ++ b) (within_64k _ (Hlen _))) as (f & -> & Hf & Hm & Hz).
  destruct (internetChecksum_spec (a ++ le_bytes 2 (65535 - f) ++ b) (within_64k _ (Hlen _))) as (g & -> & Hg & Hn & Hy).
  rewrite Hsum in * by lia.
  destruct (sum_words_spec a 0) as [_ Ra]; [lia | lia |].
  destruct (sum_words_spec b 0) as [_ Rb]; [lia | lia |].
  set (S := sum_words a 0) in *. set (T := sum_words b 0) in *.
  assert (g mod 65535 = 0) as Hg0.
  { rewrite Hn. replace (S + (65535 - f) + T) with ((S + 0 + T) - f + 1 * 65535) by lia.
    rewrite Z.mod_add, Zminus_mod, <- Hm, Z.sub_diag by lia. done. }
  assert (g <> 0) by lia.
  pose proof (Z.div_mod g 65535). lia.
Qed.

Lemma choose_some (results : list addrinfo) (c : addrinfo) :
  choose results (Some c) =
  match List.find (fun it => ai_family it =? AF_INET) results with
  | Some it => Some it
  | None => Some c
  end.
Proof. induction results as [|it results IH]; cbn; [done|]. by destruct (ai_family it =? AF_INET). Qed.

Lemma choose_spec (results : list addrinfo) :
  choose results None =
  match List.find (fun it => ai_family it =? AF_INET) results with
  | Some it => Some it
  | None => List.find (fun it => ai_family it =? AF_INET6) results
  end.
Proof.
  induction results as [|it results IH]; cbn; [done|].
  destruct (ai_family it =? AF_INET); [done|].
  destruct (ai_family it =? AF_INET6); cbn; [apply choose_some | done].
Qed.

Lemma echo_request_header_payload (s : IcmpSocket) (uid seq sentUs cookie : Z) :
  exists a b, length a = 2%nat /\ length b = 28%nat /\
    drop 4 b = payload_bytes (mkPayload kMagic cookie uid seq sentUs) /\
    echo_request s uid seq sentUs cookie = a ++
      (if m_raw s && (m_family s =? AF_INET)
       then le_bytes 2 (internetChecksum (a ++ le_bytes 2 0 ++ b)) else le_bytes 2 0) ++ b.
Proof.
  unfold echo_request. set (pl := payload_bytes _). unfold header_bytes.
  cbn [h_type h_code h_checksum h_id h_sequence].
  set (ty := if _ =? AF_INET6 then _ else _). set (i := htons _). set (q := htons _).
  exists (le_bytes 1 ty ++ le_bytes 1 0), (le_bytes 2 i ++ le_bytes 2 q ++ pl).
  assert (length pl = 24%nat) as Hpl by apply payload_bytes_length.
  rewrite <- !(assoc_L (++)).
  split_and!; [done | rewrite !length_app, !le_bytes_length; lia | done |].
  destruct (m_raw s && (m_family s =? AF_INET)); done.
Qed.

Lemma echo_request_payload (s : IcmpSocket) (uid seq sentUs cookie : Z) :
  drop 8 (echo_request s uid seq sentUs cookie) =
  payload_bytes (mkPayload kMagic cookie uid seq sentUs).
Proof.
  destruct (echo_request_header_payload s uid seq sentUs cookie) as (a & b & Ha & Hb & <- & ->).
  destruct (_ && _); rewrite (assoc_L (++)), drop_app_ge
    by (rewrite length_app, le_bytes_length; lia);
    by rewrite length_app, le_bytes_length, Ha.
Qed.

(** The checksum a raw IPv4 socket fills in is the one the receiver expects: summing the
    whole packet gives zero. *)
Lemma request_checksum_verifies (s : IcmpSocket) (uid seq sentUs cookie : Z) :
  m_raw s = true -> m_family s = AF_INET ->
  internetChecksum (echo_request s uid seq sentUs cookie) = 0 /\
  length (echo_request s uid seq sentUs cookie) = kPacketSize.
Proof.
  intros Hraw Hfam.
  destruct (echo_request_header_payload s uid seq sentUs cookie) as (a & b & Ha & Hb & _ & ->).
  rewrite Hraw, Hfam, Z.eqb_refl. cbn [andb]. split.
  - apply internetChecksum_fill; lia.
  - rewrite !length_app, le_bytes_length, Ha, Hb. done.
Qed.

(** ** Properties *)

(** C31: an echo reply to one of our own requests is recognised, on unprivileged and on raw
    sockets, and gives back exactly the prober, the sequence number and the send time that
    went into the request, whatever the peer did to the rest of the ICMP header. *)
Theorem own_reply_accepted (s : IcmpSocket) (ip : str)
    (ihl checksum id sequence uid seq sentUs cookie : Z) (from : sockaddr_storage) (fromLen : Z) :
  ip_header ip ihl -> 0 <= uid < 2 ^ 32 -> 0 <= seq < 2 ^ 32 -> 0 <= cookie < 2 ^ 32 ->
  0 <= sentUs < 2 ^ 64 ->
  accept s cookie (mkDatagram from fromLen
    (echo_reply s ip checksum id sequence (echo_request s uid seq sentUs cookie))) =
  Some (mkReply uid seq sentUs from fromLen).
Proof.
  intros Hip Hu Hs Hc Ht. unfold accept, echo_reply. cbn [g_bytes g_from g_fromLen].
  rewrite echo_request_payload.
  assert (strip_ip_header s (take kMaxDatagram
    ((if m_raw s && (m_family s =? AF_INET) then ip else []) ++
     header_bytes (mkIcmpHeader (expectedType s) 0 checksum id sequence) ++
     payload_bytes (mkPayload kMagic cookie uid seq sentUs))) =
    Some (header_bytes (mkIcmpHeader (expectedType s) 0 checksum id sequence) ++
     payload_bytes (mkPayload kMagic cookie uid seq sentUs))) as ->.
  { pose proof Hip as (Hihl & Hlen & _).
    rewrite take_ge by (destruct (_ && _); autorewrite with bytes; unfold kMaxDatagram; cbn; lia).
    destruct (m_raw s && (m_family s =? AF_INET)) eqn:Hraw.
    - by apply (strip_ip_header_raw s ip _ ihl).
    - unfold strip_ip_header. by rewrite Hraw. }
  by rewrite read_echo_reply_own.
Qed.

(** C32: nothing else is: an accepted datagram is an echo reply of the socket's family that is
    long enough and whose payload starts with the magic number and the secret cookie of this
    process, and the reply reports the fields that follow them. *)
Theorem accepted_is_own (s : IcmpSocket) (cookie : Z) (g : Datagram) (r : Reply) :
  accept s cookie g = Some r ->
  exists data, strip_ip_header s (take kMaxDatagram (g_bytes g)) = Some data /\
    (kPacketSize <= length data)%nat /\
    h_type (read_header data) = expectedType s /\ h_code (read_header data) = 0 /\
    read_payload (drop 8 data) = mkPayload kMagic cookie (r_uid r) (r_seq r) (r_sentUs r) /\
    r_from r = g_from g /\ r_fromLen r = g_fromLen g.
Proof.
  unfold accept. intros H.
  destruct (strip_ip_header s (take kMaxDatagram (g_bytes g))) as [data|]; [|done].
  destruct (read_echo_reply s cookie data) as [p|] eqn:Ep; [|done]. injection H as <-.
  apply read_echo_reply_inv in Ep as (Hl & Hty & Hco & -> & Hm & Hck).
  exists data. split_and!; try done. cbn [r_uid r_seq r_sentUs].
  destruct (read_payload (drop 8 data)); cbn in *. congruence.
Qed.

(** C38: draining a socket reads batches until one is not full, appends the replies of exactly
    the datagrams it accepts, in the order they arrived, and returns how many there were. *)
Theorem receive_appends_accepted (s : IcmpSocket) (cookie : Z) (batches : list (list Datagram))
    (out : list Reply) :
  let replies :=
    if m_fd s <? 0 then [] else omap (accept s cookie) (concat (drained batches)) in
  receive s cookie batches out = (length replies, out ++ replies).
Proof.
  unfold receive. destruct (m_fd s <? 0); cbn; [by rewrite app_nil_r|].
  revert out. induction batches as [|batch rest IH]; intros out; [cbn; by rewrite app_nil_r|].
  destruct batch as [|g batch]; [cbn; by rewrite app_nil_r|].
  cbn [receive_batches drained].
  destruct (length (g :: batch) <? kReceiveBatch)%nat; unfold concat; fold (@concat Datagram).
  - by rewrite app_nil_r.
  - rewrite IH, omap_app, length_app, (assoc_L (++)). done.
Qed.

(** Resolving a name gives a valid endpoint of one of the two supported families: the
    first IPv4 result when there is one, otherwise the first IPv6 one. *)
Lemma lookup_prefers_ipv4 `{Libc} (host : str) (flags : Z) (e : Endpoint) :
  lookup_host host flags = inr e ->
  valid e = true /\
  exists it, e_family e = ai_family it /\
    match List.find (fun i => ai_family i =? AF_INET) (snd (getaddrinfo host flags)) with
    | Some first4 => it = first4 /\ e_family e = AF_INET
    | None => List.find (fun i => ai_family i =? AF_INET6) (snd (getaddrinfo host flags)) = Some it
              /\ e_family e = AF_INET6
    end.
Proof.
  unfold lookup_host. destruct (getaddrinfo host flags) as [rc results]. cbn [snd].
  destruct (_ || _); [done|]. rewrite choose_spec. intros He.
  destruct (List.find (fun i => ai_family i =? AF_INET) results) as [it|] eqn:E4.
  - injection He as <-. apply List.find_some in E4 as [_ E4]. bools.
    unfold valid; cbn. rewrite E4. split; [|by exists it]. cbn. apply Z.ltb_lt. lia.
  - destruct (List.find (fun i => ai_family i =? AF_INET6) results) as [it|] eqn:E6; [|done].
    injection He as <-. apply List.find_some in E6 as [_ E6]. bools.
    unfold valid; cbn. rewrite E6. split; [|by exists it]. cbn. apply Z.ltb_lt. lia.
Qed.

(** C39: the checksum is the one of RFC 1071.  Summing all words in 32 bits and folding the carries
    in at the end, three times at most, gives for every packet up to 64 KiB what adding the words
    one by one with end-around carry gives. *)
Theorem checksum_is_ones_complement (l : str) :
  Z.of_nat (length l) <= 65536 ->
  internetChecksum l = 65535 - ones_sum (packet_words l).
Proof.
  intros Hl. destruct (internetChecksum_spec l Hl) as (f & -> & Hf & Hm & Hz).
  destruct (ones_sum_spec l Hl) as (Ho & Hn & Hy).
  set (o := ones_sum (packet_words l)) in *. rewrite <- Hn in Hm. rewrite <- Hy in Hz. clear Hn Hy.
  pose proof (Z.div_mod f 65535). pose proof (Z.mod_pos_bound f 65535).
  pose proof (Z.div_mod o 65535). pose proof (Z.mod_pos_bound o 65535).
  assert (0 <= f / 65535 <= 1) by (split; [apply Z.div_pos | apply Z.div_le_upper_bound]; lia).
  assert (0 <= o / 65535 <= 1) by (split; [apply Z.div_pos | apply Z.div_le_upper_bound]; lia).
  lia.
Qed.
