(* ===== verification/Resolver.v ===== *)
(** * Host name resolution on a worker thread

    resolver.h and resolver.cpp.  [request] and [collect] are what the event loop calls;
    [step] is the interleaving of the event loop with the worker thread, one constructor per
    critical section, blocking point or system call, so that the orderings that could lose a
    request or a completion are all there.  What [getaddrinfo] answers is arbitrary. *)

From S2P Require Import Prelude Pinger.

(** ** Data *)

Record Request := mkRequest { q_uid : Z; q_host : str }.

(** [Resolver::Result]. *)
Record Result := mkResult {
  x_uid : Z; x_host : str; x_ok : bool; x_endpoint : Endpoint; x_error : str
}.

(** Where the worker thread is in [run]: about to evaluate the wait predicate with the mutex
    held, asleep on the condition variable, in [getaddrinfo] for a request, between the push of
    a result and the write to the eventfd, or returned. *)
Inductive WorkerPc := AtLock | Asleep | Resolving (r : Request) | Signalling | Exited.

(** Where the event loop is: outside, between the push and [notify_one] of [request], between
    the read of the eventfd and the swap of [collect], or between setting [m_stop] and
    [notify_all] in the destructor. *)
Inductive CallerPc := Outside | Notifying | Collecting | Stopping.

Record Resolver := mkResolver {
  eventFd : bool;
  pending : list Request;
  completed : list Result;
  stop : bool;
  counter : Z;
  worker : WorkerPc;
  caller : CallerPc
}.

#[export] Instance eta_Resolver : Eta Resolver := fun r =>
  mkResolver (eventFd r) (pending r) (completed r) (stop r) (counter r) (worker r) (caller r).

(** The constructor: [eventFd] is false when [eventfd()] failed. *)
Definition newResolver (eventFd : bool) : Resolver :=
  mkResolver eventFd [] [] false 0 AtLock Outside.

(** ** The event loop's side *)

(** The critical section of [request]; [None] when the request is collapsed with a pending
    one. *)
Definition request_push (uid : Z) (host : str) (r : Resolver) : option Resolver :=
  if existsb (fun q => q_uid q =? uid) (pending r) then None
  else Some (r <| pending := pending r ++ [mkRequest uid host] |>).

(** [notify_one], and [notify_all] with one waiting thread. *)
Definition notify (r : Resolver) : Resolver :=
  match worker r with Asleep => r <| worker := AtLock |> | _ => r end.

Definition request (uid : Z) (host : str) (r : Resolver) : Resolver :=
  match request_push uid host r with
  | None => r
  | Some r => notify r
  end.

(** The two halves of [collect]: read the eventfd, which resets it, then move the completed
    lookups out. *)
Definition collect_read (r : Resolver) : Resolver :=
  if eventFd r then r <| counter := 0 |> else r.

Definition collect_swap (r : Resolver) : list Result * Resolver :=
  (completed r, r <| completed := [] |>).

Definition collect (r : Resolver) : list Result * Resolver := collect_swap (collect_read r).

(** ** The worker's side: [run] *)

Definition worker_take (r : Resolver) : option Resolver :=
  match worker r with
  | AtLock =>
      if stop r then Some (r <| worker := Exited |>)
      else
        match pending r with
        | [] => Some (r <| worker := Asleep |>)
        | q :: rest => Some (r <| pending := rest |> <| worker := Resolving q |>)
        end
  | _ => None
  end.

Definition worker_finish (ok : bool) (endpoint : Endpoint) (error : str) (r : Resolver) :
    option Resolver :=
  match worker r with
  | Resolving q =>
      Some (r <| completed := completed r ++ [mkResult (q_uid q) (q_host q) ok endpoint error] |>
              <| worker := Signalling |>)
  | _ => None
  end.

Definition worker_signal (r : Resolver) : option Resolver :=
  match worker r with
  | Signalling =>
      Some ((if eventFd r then r <| counter := counter r + 1 |> else r) <| worker := AtLock |>)
  | _ => None
  end.

(** ** The two threads together *)

(** The resolver with what has gone in and out of it: the accepted requests and the results
    handed to the event loop, oldest first. *)
Record System := mkSystem { resolver : Resolver; issued : list Request; delivered : list Result }.

Inductive step : System -> System -> Prop :=
  | step_request s i d uid host s' :
      caller s = Outside -> stop s = false -> request_push uid host s = Some s' ->
      step (mkSystem s i d)
        (mkSystem (s' <| caller := Notifying |>) (i ++ [mkRequest uid host]) d)
  | step_notify s i d :
      caller s = Notifying ->
      step (mkSystem s i d) (mkSystem ((notify s) <| caller := Outside |>) i d)
  | step_collect_read s i d :
      caller s = Outside -> stop s = false ->
      step (mkSystem s i d) (mkSystem ((collect_read s) <| caller := Collecting |>) i d)
  | step_collect_swap s i d results s' :
      caller s = Collecting -> collect_swap s = (results, s') ->
      step (mkSystem s i d) (mkSystem (s' <| caller := Outside |>) i (d ++ results))
  | step_stop s i d :
      caller s = Outside -> stop s = false ->
      step (mkSystem s i d) (mkSystem (s <| stop := true |> <| caller := Stopping |>) i d)
  | step_notify_all s i d :
      caller s = Stopping ->
      step (mkSystem s i d) (mkSystem ((notify s) <| caller := Outside |>) i d)
  | step_take s i d s' :
      worker_take s = Some s' -> step (mkSystem s i d) (mkSystem s' i d)
  | step_wake s i d :
      worker s = Asleep -> step (mkSystem s i d) (mkSystem (s <| worker := AtLock |>) i d)
  | step_finish s i d ok endpoint error s' :
      worker_finish ok endpoint error s = Some s' -> step (mkSystem s i d) (mkSystem s' i d)
  | step_signal s i d s' :
      worker_signal s = Some s' -> step (mkSystem s i d) (mkSystem s' i d).

Inductive reachable (eventFd : bool) : System -> Prop :=
  | reach_start : reachable eventFd (mkSystem (newResolver eventFd) [] [])
  | reach_step s s' : reachable eventFd s -> step s s' -> reachable eventFd s'.

(** Any number of steps. *)
Inductive steps : System -> System -> Prop :=
  | steps_refl s : steps s s
  | steps_cons s1 s2 s3 : step s1 s2 -> steps s2 s3 -> steps s1 s3.

(** The request a result answers. *)
Definition answers (x : Result) : Request := mkRequest (x_uid x) (x_host x).

(** The request the worker is resolving. *)
Definition in_progress (w : WorkerPc) : list Request :=
  match w with Resolving q => [q] | _ => [] end.

(** Everything in the resolver, in the order it will be delivered. *)
Definition outstanding (r : Resolver) : list Request :=
  map answers (completed r) ++ in_progress (worker r) ++ pending r.

(** A move of the worker's thread. *)
Inductive worker_step : Resolver -> Resolver -> Prop :=
  | worker_takes r r' : worker_take r = Some r' -> worker_step r r'
  | worker_wakes r : worker r = Asleep -> worker_step r (r <| worker := AtLock |>)
  | worker_finishes r r' ok endpoint error :
      worker_finish ok endpoint error r = Some r' -> worker_step r r'
  | worker_signals r r' : worker_signal r = Some r' -> worker_step r r'.

(** The worker left to itself: one iteration after the other of the loop in [run], until it has
    to wait.  [answer] is what [getaddrinfo] says of a host. *)
Definition worker_next (answer : str -> bool * Endpoint * str) (r : Resolver) : option Resolver :=
  match worker r with
  | AtLock => worker_take r
  | Resolving q =>
      let '(ok, endpoint, error) := answer (q_host q) in worker_finish ok endpoint error r
  | Signalling => worker_signal r
  | Asleep | Exited => None
  end.

Fixpoint worker_run (fuel : nat) (answer : str -> bool * Endpoint * str) (r : Resolver) :
    Resolver :=
  match fuel with
  | O => r
  | S fuel =>
      match worker_next answer r with
      | Some r' => worker_run fuel answer r'
      | None => r
      end
  end.

(** How many moves the worker has before it. *)
Definition work (r : Resolver) : nat :=
  (3 * length (pending r) +
   match worker r with AtLock => 1 | Resolving _ => 3 | Signalling => 2 | Asleep | Exited => 0 end)%nat.

Definition answered (answer : str -> bool * Endpoint * str) (q : Request) : Result :=
  let '(ok, endpoint, error) := answer (q_host q) in
  mkResult (q_uid q) (q_host q) ok endpoint error.

(** The inductive invariant of the interleaving. *)
Record system_ok (s : System) : Prop := {
  ok_fifo : map answers (delivered s) ++ outstanding (resolver s) = issued s;
  ok_wakeup : completed (resolver s) <> [] -> eventFd (resolver s) = true ->
    0 < counter (resolver s) \/ worker (resolver s) = Signalling \/
    caller (resolver s) = Collecting;
  ok_unique : NoDup (map q_uid (pending (resolver s)));
  ok_counter : 0 <= counter (resolver s);
  ok_asleep : worker (resolver s) = Asleep ->
    (pending (resolver s) = [] \/ caller (resolver s) = Notifying) /\
    (stop (resolver s) = false \/ caller (resolver s) = Stopping);
  ok_exited : worker (resolver s) = Exited -> stop (resolver s) = true
}.

(** ** Lemmas *)

Ltac resolver :=
  unfold request_push, notify, collect_read, collect_swap, worker_take, worker_finish,
    worker_signal, outstanding in *; cbn in *.

Lemma request_push_fresh (uid : Z) (host : str) (r r' : Resolver) :
  request_push uid host r = Some r' ->
  r' = r <| pending := pending r ++ [mkRequest uid host] |> /\ uid ∉ map q_uid (pending r).
Proof.
  unfold request_push. destruct (existsb _ _) eqn:E; [done|]. intros [= <-]. split; [done|].
  intros (q & <- & Hq)%list_elem_of_In%in_map_iff.
  assert (existsb (fun p => q_uid p =? q_uid q) (pending r) = true) as Hx; [|congruence].
  apply existsb_exists. exists q. by rewrite Z.eqb_refl.
Qed.

Lemma start_ok (eventFd : bool) : system_ok (mkSystem (newResolver eventFd) [] []).
Proof. constructor; cbn; try done. constructor. Qed.

(** Close the goals the invariant's own implications settle. *)
Ltac settle :=
  cbn in *; intros; subst; try done;
  repeat match goal with
  | H : ?P -> ?Q -> _, HP : ?P, HQ : ?Q |- _ => specialize (H HP HQ)
  | H : ?P -> _, HP : ?P |- _ => specialize (H HP)
  end;
  intuition (lia || congruence).

Lemma request_ok (s s' : Resolver) i d uid host :
  system_ok (mkSystem s i d) -> caller s = Outside -> stop s = false ->
  request_push uid host s = Some s' ->
  system_ok (mkSystem (s' <| caller := Notifying |>) (i ++ [mkRequest uid host]) d).
Proof.
  intros [Hf Hw Hu Hc Ha He] Hcal Hst Hp. cbn in *.
  apply request_push_fresh in Hp as [-> Hfresh]. resolver.
  constructor; resolver; try done; [| settle | | settle].
  - rewrite <- Hf, <- !(assoc_L (++)). done.
  - rewrite map_app. cbn. apply NoDup_app. split_and!; [done | | apply NoDup_singleton].
    intros x Hx ->%list_elem_of_singleton. done.
Qed.

Lemma notify_ok (s : Resolver) i d :
  system_ok (mkSystem s i d) -> caller s = Notifying \/ caller s = Stopping ->
  system_ok (mkSystem ((notify s) <| caller := Outside |>) i d).
Proof.
  intros [Hf Hw Hu Hc Ha He] Hcal. cbn in *.
  constructor; resolver; destruct (worker s) eqn:E; cbn; rewrite ?E; settle.
Qed.

Lemma step_ok (s s' : System) : system_ok s -> step s s' -> system_ok s'.
Proof.
  intros Hok Hstep. destruct Hstep;
    [by eapply request_ok | apply notify_ok; auto | .. | apply notify_ok; auto | | | |];
    destruct Hok as [Hf Hw Hu Hc Ha He]; cbn in *.
  - constructor; resolver; destruct (eventFd s) eqn:E; settle.
  - unfold collect_swap in H0. injection H0 as <- <-. constructor; resolver; try settle.
    by rewrite map_app, <- (assoc_L (++)).
  - constructor; resolver; settle.
  - unfold worker_take in H. destruct (worker s) eqn:E; try done.
    destruct (stop s) eqn:Es; [injection H as <- | destruct (pending s) eqn:Ep; injection H as <-];
      constructor; resolver; rewrite ?E, ?Ep in *; try settle.
    by inversion Hu.
  - constructor; resolver; rewrite ?H in *; settle.
  - unfold worker_finish in H. destruct (worker s) eqn:E; try done. injection H as <-.
    constructor; resolver; try settle. rewrite <- Hf, E, map_app, <- !(assoc_L (++)). by destruct r.
  - unfold worker_signal in H. destruct (worker s) eqn:E; try done. injection H as <-.
    constructor; resolver; destruct (eventFd s) eqn:Ev; try settle; by rewrite <- Hf, E.
Qed.

Lemma reachable_ok (eventFd : bool) (s : System) : reachable eventFd s -> system_ok s.
Proof. induction 1; eauto using start_ok, step_ok. Qed.

Lemma step_eventFd (s s' : System) : step s s' -> eventFd (resolver s') = eventFd (resolver s).
Proof.
  intros Hstep. destruct Hstep; resolver; repeat case_match; naive_solver.
Qed.

Lemma reachable_eventFd (b : bool) (s : System) : reachable b s -> eventFd (resolver s) = b.
Proof. induction 1; [done|]. apply step_eventFd in H0. congruence. Qed.

(** *** The operations of the event loop as sequences of steps *)

Lemma reachable_steps (b : bool) (s s' : System) : steps s s' -> reachable b s -> reachable b s'.
Proof. induction 1; eauto using reach_step. Qed.

(** [request], when the prober has no request pending yet. *)
Lemma request_steps (s : Resolver) (i : list Request) (d : list Result) (uid : Z) (host : str) :
  caller s = Outside -> stop s = false -> uid ∉ map q_uid (pending s) ->
  steps (mkSystem s i d) (mkSystem (request uid host s) (i ++ [mkRequest uid host]) d) /\
  outstanding (request uid host s) = outstanding s ++ [mkRequest uid host].
Proof.
  destruct s as [ev pend comp st cnt wk cl]; cbn; intros -> -> Hn.
  unfold request. destruct (request_push _ _ _) as [r|] eqn:E.
  2: { exfalso. unfold request_push in E. destruct (existsb _ _) eqn:Ex; [|done].
       apply existsb_exists in Ex as (q & Hq & <-%Z.eqb_eq). cbn in *.
       apply Hn. by apply list_elem_of_In, in_map. }
  pose proof E as [-> _]%request_push_fresh. cbn. split.
  - eapply steps_cons; [by apply step_request|]. eapply steps_cons; [by apply step_notify|].
    destruct wk; apply steps_refl.
  - unfold outstanding. destruct wk; cbn; by rewrite <- ?(assoc_L (++)).
Qed.

Lemma collect_steps (s : Resolver) (i : list Request) (d : list Result) :
  caller s = Outside -> stop s = false ->
  steps (mkSystem s i d) (mkSystem (snd (collect s)) i (d ++ fst (collect s))) /\
  fst (collect s) = completed s /\
  outstanding s = map answers (completed s) ++ outstanding (snd (collect s)).
Proof.
  destruct s as [ev pend comp st cnt wk cl]; cbn; intros -> ->. split_and!.
  - eapply steps_cons; [by apply step_collect_read|].
    eapply steps_cons; [eapply step_collect_swap; [by destruct ev | done]|].
    unfold collect. destruct ev; apply steps_refl.
  - unfold collect. by destruct ev.
  - unfold collect, outstanding. by destruct ev.
Qed.

(** *** The worker's moves *)

Lemma worker_step_step (r r' : Resolver) (i : list Request) (d : list Result) :
  worker_step r r' -> step (mkSystem r i d) (mkSystem r' i d).
Proof. destruct 1; by econstructor. Qed.

(** The worker moves requests along and changes nothing else of the protocol. *)
Lemma worker_step_same (r r' : Resolver) :
  worker_step r r' ->
  outstanding r' = outstanding r /\ caller r' = caller r /\ stop r' = stop r.
Proof.
  destruct 1 as [r r' H | r H | r r' ok e err H | r r' H]; resolver.
  - destruct (worker r) eqn:E; try done. destruct (stop r) eqn:Es; [by injection H as <-|].
    destruct (pending r) eqn:Ep; injection H as <-; cbn; by rewrite ?E, ?Ep.
  - by rewrite H.
  - destruct (worker r) as [| |q| |] eqn:E; try done. injection H as <-. cbn. split_and!; try done.
    rewrite map_app, <- (assoc_L (++)). by destruct q.
  - destruct (worker r) eqn:E; try done. injection H as <-. cbn. destruct (eventFd r); by rewrite ?E.
Qed.

Lemma worker_next_step (answer : str -> bool * Endpoint * str) (r r' : Resolver) :
  worker_next answer r = Some r' -> worker_step r r'.
Proof.
  unfold worker_next. destruct (worker r) as [| |q| |] eqn:E; try done.
  - apply worker_takes.
  - destruct (answer (q_host q)) as [[ok e] err]. apply worker_finishes.
  - apply worker_signals.
Qed.

(** Unless it has to wait, the worker has a move, and has fewer before it afterwards. *)
Lemma worker_next_work (answer : str -> bool * Endpoint * str) (r : Resolver) :
  stop r = false -> worker r <> Exited ->
  match worker_next answer r with
  | Some r' => work r = S (work r') /\ worker r' <> Exited /\
      completed r' ++ map (answered answer) (in_progress (worker r') ++ pending r') =
      completed r ++ map (answered answer) (in_progress (worker r) ++ pending r)
  | None => worker r = Asleep
  end.
Proof.
  unfold worker_next. destruct (worker r) as [| |q| |] eqn:E; intros Hs Hne; try done.
  - unfold worker_take, work. rewrite E, Hs. destruct (pending r) eqn:Ep; cbn; rewrite ?Ep; cbn.
    + split_and!; [lia | done | done].
    + split_and!; [lia | done | done].
  - destruct (answer (q_host q)) as [[ok endpoint] error] eqn:Ea.
    assert (answered answer q = mkResult (q_uid q) (q_host q) ok endpoint error) as Hq
      by (unfold answered; by rewrite Ea).
    unfold worker_finish, work. rewrite E. cbn. split_and!; [lia | done |].
    by rewrite <- (assoc_L (++)), Hq.
  - unfold worker_signal, work. rewrite E. cbn. destruct (eventFd r); split_and!; cbn; done || lia.
Qed.

(** Left to itself, the worker serves every request and then waits. *)
Lemma worker_run_spec (answer : str -> bool * Endpoint * str) (n : nat) (r : Resolver)
    (i : list Request) (d : list Result) :
  system_ok (mkSystem r i d) -> caller r = Outside -> stop r = false -> worker r <> Exited ->
  (work r <= n)%nat ->
  let r' := worker_run n answer r in
  system_ok (mkSystem r' i d) /\ worker r' = Asleep /\ pending r' = [] /\
  caller r' = Outside /\ stop r' = false /\ outstanding r' = outstanding r /\
  completed r' = completed r ++ map (answered answer) (in_progress (worker r) ++ pending r).
Proof.
  revert r. induction n as [|n IH]; intros r Hok Hc Hs Hne Hw; cbn [worker_run];
    pose proof (worker_next_work answer r Hs Hne) as Hn;
    destruct (worker_next answer r) as [r1|] eqn:E.
  1: lia.
  2: { destruct Hn as (Hw1 & Hne1 & Hcomp).
       pose proof (worker_next_step _ _ _ E) as Hstep.
       destruct (worker_step_same _ _ Hstep) as (Ho & Hc1 & Hs1).
       destruct (IH r1) as (K1 & K2 & K3 & K4 & K5 & K6 & K7);
         [by eapply step_ok, worker_step_step | congruence | congruence | done | lia |].
       split_and!; try done; congruence. }
  all: pose proof (ok_asleep _ Hok Hn) as [[Hp | ?] _]; [cbn in Hp | cbn in *; congruence];
    rewrite Hn, Hp; cbn; by rewrite app_nil_r.
Qed.

(** Without an event descriptor nothing ever signals that a lookup is done. *)
Lemma reachable_silent (s : System) : reachable false s -> counter (resolver s) = 0.
Proof.
  induction 1 as [|s s' Hr IH Hs]; [done|]. apply reachable_eventFd in Hr.
  destruct Hs; resolver; repeat case_match; naive_solver.
Qed.

(** ** Properties *)

(** C15: in every interleaving of the event loop with the worker thread, every request the
    resolver accepted is answered exactly once and in order: what has been delivered, is
    completed, is being resolved and is pending is, in that order, what was issued. *)
Theorem resolver_fifo (eventFd : bool) (s : System) :
  reachable eventFd s -> map answers (delivered s) ++ outstanding (resolver s) = issued s.
Proof. intros H. by apply reachable_ok in H as [? _ _ _ _ _]. Qed.

(** C14: no wake-up is lost: whenever the event loop is back in [epoll_wait] and a lookup is
    outstanding, either the eventfd is readable or the worker is about to run; and after the
    destructor's [notify_all] the worker is not left asleep, so that [join] is not stuck. *)
Theorem resolver_never_stuck (s : System) :
  reachable true s -> caller (resolver s) = Outside ->
  (outstanding (resolver s) <> [] -> 0 < counter (resolver s) \/
     (exists s', worker_take (resolver s) = Some s' /\ worker s' <> Asleep) \/
     (exists q, worker (resolver s) = Resolving q) \/ worker (resolver s) = Signalling \/
     worker (resolver s) = Exited) /\
  (stop (resolver s) = true -> worker (resolver s) <> Asleep).
Proof.
  intros Hr Hout. pose proof (reachable_eventFd _ _ Hr) as Hev.
  apply reachable_ok in Hr as [_ Hw _ _ Ha _]. destruct s as [s i d]; cbn in *.
  split; [|settle].
  intros Hne. destruct (worker s) eqn:E; eauto 6.
  - destruct (completed s) eqn:Ec.
    + right; left. unfold worker_take. rewrite E. unfold outstanding in Hne. rewrite Ec, E in Hne.
      destruct (stop s); [by eexists|]. destruct (pending s); [done|]. by eexists.
    + left. destruct Hw as [?|[?|?]]; done || congruence.
  - destruct (completed s) eqn:Ec.
    + destruct Ha as [[Hp|?] _]; [done | | congruence].
      unfold outstanding in Hne. by rewrite Ec, E, Hp in Hne.
    + left. destruct Hw as [?|[?|?]]; done || congruence.
Qed.
