(* ===== verification/Monitor.v ===== *)
(** * The state of the daemon

    The structs of monitor.h: probers with their probes in flight, clients, options and the
    [Monitor] itself; the constants of monitor.cpp; and [World], what the kernel will answer to
    the calls the handlers make, with a log of what was handed to it. *)

From S2P Require Import Prelude Health Pinger Resolver.

(** ** Constants *)

Definition kSendSlackUs : Z := 2000.
Definition kResolveTtlUs : Z := 300 * 1000000.
Definition kResolveBackoffBaseUs : Z := 5 * 1000000.
Definition kResolveBackoffMaxUs : Z := 300 * 1000000.
Definition kClientCheckIntervalUs : Z := 60 * 1000000.
Definition kReadablePublishIntervalUs : Z := 5 * 1000000.
Definition kNeverUs : Z := u64_max.
Definition kMaxInFlight : Z := 8.

Definition clampValue (value low high : Z) : Z :=
  if value <? low then low else if high <? value then high else value.

(** ** Data *)

Record Client := mkClient {
  c_id : str;
  c_path : str;
  c_intervalUs : Z;
  c_timeoutUs : Z;
  c_destinations : list Destination;
  c_error : str
}.

#[export] Instance eta_Client : Eta Client := fun r =>
  mkClient (c_id r) (c_path r) (c_intervalUs r) (c_timeoutUs r) (c_destinations r) (c_error r).

Definition newClient : Client := mkClient [] [] 1000000 1000000 [] [].

(** [Prober::InFlight] *)
Record InFlight := mkInFlight { f_seq : Z; f_sentUs : Z; f_deadlineUs : Z }.

#[export] Instance InFlight_eq_dec : EqDecision InFlight.
Proof. solve_decision. Defined.

(** [Prober::Subscriber] *)
Record Subscriber := mkSubscriber { u_client : nat; u_destination : nat }.

#[export] Instance Subscriber_eq_dec : EqDecision Subscriber.
Proof. solve_decision. Defined.

Record Prober := mkProber {
  p_host : str;
  p_intervalUs : Z;
  p_timeoutUs : Z;
  p_uid : Z;
  p_endpoint : Endpoint;
  p_numeric : bool;
  p_resolving : bool;
  p_lastError : str;
  p_nextResolveUs : Z;
  p_resolveFailures : Z;
  p_nextSendUs : Z;
  p_sequence : Z;
  p_inFlight : list InFlight;
  p_maxInFlight : Z;
  p_sent : Z;
  p_received : Z;
  p_subscribers : list Subscriber
}.

#[export] Instance eta_Prober : Eta Prober := fun r =>
  mkProber (p_host r) (p_intervalUs r) (p_timeoutUs r) (p_uid r) (p_endpoint r) (p_numeric r)
    (p_resolving r) (p_lastError r) (p_nextResolveUs r) (p_resolveFailures r) (p_nextSendUs r)
    (p_sequence r) (p_inFlight r) (p_maxInFlight r) (p_sent r) (p_received r) (p_subscribers r).

(** A default-constructed [Prober]. *)
Definition newProber : Prober :=
  mkProber [] 1000000 1000000 0 noEndpoint false false [] 0 0 0 0 [] 1 0 0 [].

Record MonitorOptions := mkMonitorOptions {
  o_runtimeDir : str;
  o_publishIntervalUs : Z;
  o_clientTimeoutUs : Z;
  o_idleExitUs : Z;
  o_maxDestinations : Z
}.

#[export] Instance eta_MonitorOptions : Eta MonitorOptions := fun r =>
  mkMonitorOptions (o_runtimeDir r) (o_publishIntervalUs r) (o_clientTimeoutUs r)
    (o_idleExitUs r) (o_maxDestinations r).

Definition defaultOptions : MonitorOptions :=
  mkMonitorOptions [] 250000 (900 * 1000000) 0 128.

Record Monitor := mkMonitor {
  m_options : MonitorOptions;
  m_socket4 : IcmpSocket;
  m_socket6 : IcmpSocket;
  m_error4 : str;
  m_error6 : str;
  m_resolver : Resolver;
  m_clients : list Client;
  m_probers : list Prober;
  m_proberByUid : gmap Z nat;
  m_nextUid : Z;
  m_minIntervalUs : Z;
  m_cookie : Z;
  m_running : bool;
  m_configDirty : bool;
  m_dataDirty : bool;
  m_stateDirty : bool;
  m_lastPublishUs : Z;
  m_lastReadablePublishUs : Z;
  m_generation : Z;
  m_startedRealUs : Z;
  m_lastClientCheckUs : Z;
  m_idleSinceUs : Z
}.

#[export] Instance eta_Monitor : Eta Monitor := fun r =>
  mkMonitor (m_options r) (m_socket4 r) (m_socket6 r) (m_error4 r) (m_error6 r) (m_resolver r)
    (m_clients r) (m_probers r) (m_proberByUid r) (m_nextUid r) (m_minIntervalUs r) (m_cookie r)
    (m_running r) (m_configDirty r) (m_dataDirty r) (m_stateDirty r) (m_lastPublishUs r)
    (m_lastReadablePublishUs r) (m_generation r) (m_startedRealUs r) (m_lastClientCheckUs r)
    (m_idleSinceUs r).

(** The constructor, and with it that of [m_resolver], whose [eventfd] may fail: it says so in the
    log and goes on without. *)
Definition newMonitor (options : MonitorOptions) (eventfd : SysCall) : Monitor :=
  mkMonitor options closedSocket closedSocket [] [] (newResolver (0 <=? ret eventfd)) [] [] ∅ 1 0 0
    false false true true 0 0 0 0 0 0.

(** ** The world the handlers act on *)

(** [w_realClock k] is what the [k]-th reading of the wall clock returns and [w_sendto k] the
    outcome of the [k]-th [sendto]; [w_packets] is what was sent, newest last. *)
Record World := mkWorld {
  w_realClock : nat -> Z;
  w_realReads : nat;
  w_sendto : nat -> SysCall;
  w_packets : list (Endpoint * str)
}.

#[export] Instance eta_World : Eta World := fun r =>
  mkWorld (w_realClock r) (w_realReads r) (w_sendto r) (w_packets r).

Definition nowRealtimeUs (w : World) : Z * World :=
  (w_realClock w (w_realReads w), w <| w_realReads := S (w_realReads w) |>).

(** Looking a destination up by the indices of a subscriber, and replacing it. *)
Definition destination_at (s : Subscriber) (clients : list Client) : option Destination :=
  client ← clients !! u_client s; c_destinations client !! u_destination s.

Definition set_destination (s : Subscriber) (d : Destination) (clients : list Client) :
    list Client :=
  alter (fun client => client <| c_destinations := <[u_destination s := d]> (c_destinations client) |>)
    (u_client s) clients.

(** ** Lemmas *)

Lemma destination_at_set (s s' : Subscriber) (d : Destination) (clients : list Client) :
  is_Some (destination_at s clients) ->
  destination_at s' (set_destination s d clients) =
  if decide (s = s') then Some d else destination_at s' clients.
Proof.
  destruct s as [c i], s' as [c' i']. unfold destination_at, set_destination; cbn.
  intros [d0 Hd0]. destruct (clients !! c) as [client|] eqn:Ec; [cbn in Hd0 | done].
  destruct (decide (c = c')) as [<-|Hc].
  - rewrite list_lookup_alter_eq, Ec. cbn. 
    destruct (decide (i = i')) as [<-|Hi].
    + rewrite decide_True by done. apply list_lookup_insert_eq. by eapply lookup_lt_Some.
    + rewrite decide_False by congruence. by apply list_lookup_insert_ne.
  - rewrite list_lookup_alter_ne by done. by rewrite decide_False by congruence.
Qed.

Lemma clampValue_range (v low high : Z) : low <= high -> low <= clampValue v low high <= high.
Proof. unfold clampValue. intros. cases_if; bools; lia. Qed.

Lemma clampValue_id (v low high : Z) : low <= v <= high -> clampValue v low high = v.
Proof. unfold clampValue. intros. cases_if; bools; lia. Qed.
