(* ===== verification/Probing.v ===== *)
(** * Probing: what the daemon does with its probers

    [Monitor::applySample], [sendProbe], [tick], [handleReplies] and [handleResolutions]
    (monitor.cpp).  A handler takes the [Prober] the code holds a reference to, the [Monitor]
    and the [World]; no handler reaches that prober through [m_probers] while it runs, so the
    loops write it back when they are done with it. *)

From S2P Require Import Prelude Health Pinger Resolver Monitor.

(** ** Operations *)

(** One iteration of the loop of [applySample]. *)
Definition applyToSubscriber (received : bool) (rttUs realNow : Z) (m : Monitor)
    (s : Subscriber) : Monitor :=
  match destination_at s (m_clients m) with
  | None => m
  | Some d =>
      let '(d, changed) := observe received rttUs realNow d in
      m <| m_clients := set_destination s d (m_clients m) |>
        <| m_stateDirty := changed || m_stateDirty m |>
  end.

Definition count_sample (received : bool) (p : Prober) : Prober :=
  let p := p <| p_sent := u64 (p_sent p + 1) |> in
  if received then p <| p_received := u64 (p_received p + 1) |> else p.

Definition applySample (p : Prober) (received : bool) (rttUs : Z) (m : Monitor) (w : World) :
    Prober * Monitor * World :=
  let '(realNow, w) := nowRealtimeUs w in
  let p := count_sample received p in
  let m := fold_left (applyToSubscriber received rttUs realNow) (p_subscribers p) m in
  (p, m <| m_dataDirty := true |>, w).

Section Probing.
Context `{Libc}.

Definition socket_for (p : Prober) (m : Monitor) : IcmpSocket :=
  if e_family (p_endpoint p) =? AF_INET6 then m_socket6 m else m_socket4 m.

(** The first branch of [sendProbe]: nothing can be sent. *)
Definition unsendable_error (p : Prober) (m : Monitor) : str :=
  if negb (valid (p_endpoint p)) && bool_decide (p_lastError p = []) then
    lit "unresolved address"
  else if negb (isOpen (socket_for p m)) then
    if e_family (p_endpoint p) =? AF_INET6 then m_error6 m else m_error4 m
  else p_lastError p.

Definition sendProbe (p : Prober) (now : Z) (m : Monitor) (w : World) :
    Prober * Monitor * World :=
  let socket := socket_for p m in
  if negb (valid (p_endpoint p)) || negb (isOpen socket) then
    applySample (p <| p_lastError := unsendable_error p m |>) false 0 m w
  else
    let p := p <| p_sequence := u32 (p_sequence p + 1) |> in
    let sequence := p_sequence p in
    let '(packet, (result, error)) :=
      send socket (p_endpoint p) (p_uid p) sequence now (m_cookie m)
        (w_sendto w (length (w_packets w))) in
    let w :=
      match packet with
      | Some bytes => w <| w_packets := w_packets w ++ [(p_endpoint p, bytes)] |>
      | None => w
      end in
    let sendError := default [] error in
    match result with
    | Sent =>
        let p := p <| p_inFlight := p_inFlight p ++
          [mkInFlight sequence now (u64 (now + p_timeoutUs p))] |> in
        let p :=
          if bool_decide (p_lastError p = lit "unresolved address") then p <| p_lastError := [] |>
          else p in
        (p, m, w)
    | Unreachable => applySample (p <| p_lastError := sendError |>) false 0 m w
    | Failed => applySample (p <| p_lastError := sendError |>) false 0 m w
    end.

(** The [while] loop of [tick]: give up on the probes whose deadline has come. *)
Fixpoint expire (now : Z) (inFlight : list InFlight) (p : Prober) (m : Monitor) (w : World) :
    Prober * Monitor * World :=
  match inFlight with
  | [] => (p, m, w)
  | front :: rest =>
      if f_deadlineUs front <=? u64 (now + kSendSlackUs) then
        let p := p <| p_inFlight := rest |> <| p_lastError := lit "timeout" |> in
        let '(p, m, w) := applySample p false 0 m w in
        expire now rest p m w
      else (p, m, w)
  end.

Definition ask_resolver (now : Z) (p : Prober) (m : Monitor) : Prober * Monitor :=
  if negb (p_numeric p) && negb (p_resolving p)
     && (p_nextResolveUs p <=? u64 (now + kSendSlackUs)) then
    (p <| p_resolving := true |>,
     m <| m_resolver := request (p_uid p) (p_host p) (m_resolver m) |>)
  else (p, m).

(** Whether [tick] sends a probe for [p]. *)
Definition send_due (now : Z) (p : Prober) : bool :=
  (Z.of_nat (length (p_inFlight p)) <? p_maxInFlight p)
  && (p_nextSendUs p <=? u64 (now + kSendSlackUs)).

(** The slot after the one just used, or one interval from now when that has passed too. *)
Definition next_send (now : Z) (p : Prober) : Z :=
  let next := u64 (p_nextSendUs p + p_intervalUs p) in
  if next <=? now then u64 (now + p_intervalUs p) else next.

(** The body of the loop of [tick]. *)
Definition tickProber (now : Z) (p : Prober) (m : Monitor) (w : World) :
    Prober * Monitor * World :=
  let '(p, m, w) := expire now (p_inFlight p) p m w in
  let '(p, m) := ask_resolver now p m in
  if send_due now p then
    let '(p, m, w) := sendProbe p now m w in
    (p <| p_nextSendUs := next_send now p |>, m, w)
  else (p, m, w).

Fixpoint tickProbers (now : Z) (ps : list Prober) (m : Monitor) (w : World) :
    list Prober * Monitor * World :=
  match ps with
  | [] => ([], m, w)
  | p :: ps =>
      let '(p, m, w) := tickProber now p m w in
      let '(ps, m, w) := tickProbers now ps m w in
      (p :: ps, m, w)
  end.

Definition tick (now : Z) (m : Monitor) (w : World) : Monitor * World :=
  let '(ps, m, w) := tickProbers now (m_probers m) m w in
  (m <| m_probers := ps |>, w).

(** The body of the loop of [handleReplies]. *)
Definition handleReply (now : Z) (reply : Reply) (m : Monitor) (w : World) : Monitor * World :=
  match m_proberByUid m !! r_uid reply with
  | None => (m, w)
  | Some i =>
      match m_probers m !! i with
      | None => (m, w)
      | Some p =>
          match list_find (fun f => f_seq f = r_seq reply) (p_inFlight p) with
          | None => (m, w)
          | Some (k, _) =>
              if negb (matches (p_endpoint p) (r_from reply) (r_fromLen reply)) then (m, w)
              else
                let p := p <| p_inFlight := delete k (p_inFlight p) |>
                           <| p_lastError := [] |> in
                let rtt := if r_sentUs reply <? now then u64 (now - r_sentUs reply) else 0 in
                let '(p, m, w) := applySample p true rtt m w in
                (m <| m_probers := <[i := p]> (m_probers m) |>, w)
          end
      end
  end.

Fixpoint handleReplyList (now : Z) (replies : list Reply) (m : Monitor) (w : World) :
    Monitor * World :=
  match replies with
  | [] => (m, w)
  | reply :: replies =>
      let '(m, w) := handleReply now reply m w in handleReplyList now replies m w
  end.

(** [batches4] and [batches6] are what the two sockets deliver. *)
Definition handleReplies (now : Z) (batches4 batches6 : list (list Datagram)) (m : Monitor)
    (w : World) : Monitor * World :=
  let '(_, replies) := receive (m_socket4 m) (m_cookie m) batches4 [] in
  let '(_, replies) := receive (m_socket6 m) (m_cookie m) batches6 replies in
  handleReplyList now replies m w.

Definition resolve_backoff (failures : Z) : Z :=
  Z.min (Z.shiftl kResolveBackoffBaseUs (Z.min (failures - 1) 6)) kResolveBackoffMaxUs.

(** The two branches of [handleResolutions] for the prober a result belongs to; the flag says
    whether [m_stateDirty] is set. *)
Definition resolved (now : Z) (result : Result) (p : Prober) : Prober * bool :=
  let p := p <| p_resolving := false |> in
  if x_ok result then
    (p <| p_endpoint := x_endpoint result |> <| p_resolveFailures := 0 |> <| p_lastError := [] |>
       <| p_nextResolveUs := u64 (now + kResolveTtlUs) |>,
     negb (valid (p_endpoint p))
     || negb (bool_decide (e_text (p_endpoint p) = e_text (x_endpoint result))))
  else
    let p := p <| p_resolveFailures := Z.min (i32 (p_resolveFailures p + 1)) 16 |> in
    (p <| p_nextResolveUs := u64 (now + resolve_backoff (p_resolveFailures p)) |>
       <| p_lastError := lit "DNS: " ++ x_error result |>, true).

Definition handleResolution (now : Z) (m : Monitor) (result : Result) : Monitor :=
  match m_proberByUid m !! x_uid result with
  | None => m
  | Some i =>
      match m_probers m !! i with
      | None => m
      | Some p =>
          let '(p, dirty) := resolved now result p in
          m <| m_probers := <[i := p]> (m_probers m) |> <| m_stateDirty := dirty || m_stateDirty m |>
      end
  end.

Definition handleResolutions (now : Z) (m : Monitor) : Monitor :=
  let '(results, resolver) := collect (m_resolver m) in
  fold_left (handleResolution now) results (m <| m_resolver := resolver |>).

End Probing.

(** ** Specification *)

(** A destination without what probing changes. *)
Definition erase (d : Destination) : Destination :=
  mkDestination (d_id d) (d_name d) (d_address d) (d_order d) (d_thresholdUs d)
    (d_sensitivity d) (d_enabled d) (d_partTime d) (d_prober d) Unknown Unknown 0 false 0 0 0 0 0.

Definition map_client (f : Destination -> Destination) (c : Client) : Client :=
  c <| c_destinations := map f (c_destinations c) |>.

Definition erase_client : Client -> Client := map_client erase.

(** The number of probes that may be outstanding, from the two intervals. *)
Definition probes_allowed (intervalUs timeoutUs : Z) : Z :=
  Z.min (Z.max ((timeoutUs + intervalUs - 1) / intervalUs) 1) kMaxInFlight.

(** The invariant of a prober at time [t]: its parameters are in range; no more probes are
    outstanding than allowed; they were sent in order, none after [t], with increasing sequence
    numbers that have been used; each expires one maximum wait after it was sent. *)
Record prober_ok (t : Z) (p : Prober) : Prop := {
  pok_interval : 100000 <= p_intervalUs p <= 3600000000;
  pok_timeout : 50000 <= p_timeoutUs p <= 60000000;
  pok_max : p_maxInFlight p = probes_allowed (p_intervalUs p) (p_timeoutUs p);
  pok_room : Z.of_nat (length (p_inFlight p)) <= p_maxInFlight p;
  pok_seqs : StronglySorted (fun f g => f_seq f < f_seq g) (p_inFlight p);
  pok_used : Forall (fun f => 0 < f_seq f <= p_sequence p) (p_inFlight p);
  pok_times : StronglySorted (fun f g => f_sentUs f <= f_sentUs g) (p_inFlight p);
  pok_past : Forall (fun f => 0 <= f_sentUs f <= t) (p_inFlight p);
  pok_deadlines : Forall (fun f => f_deadlineUs f = f_sentUs f + p_timeoutUs p) (p_inFlight p);
  pok_counts : 0 <= p_received p <= p_sent p;
  pok_sequence : 0 <= p_sequence p;
  pok_next : 0 <= p_nextSendUs p;
  pok_failures : 0 <= p_resolveFailures p <= 16
}.

(** The prober has not exhausted its counters, and the clock is far from the end of its range
    (292000 years). *)
Definition clock_ok (now : Z) : Prop := 0 <= now < 2 ^ 63.
Definition counters_ok (p : Prober) : Prop :=
  p_sent p + Z.of_nat (length (p_inFlight p)) < u64_max /\ p_sequence p < 2 ^ 32 - 1.

(** Every verdict a prober has given or still owes. *)
Definition verdicts (p : Prober) : Z := p_sent p + Z.of_nat (length (p_inFlight p)).

(** What a handler may change while it holds a prober: the destinations' runtime fields, the
    dirty flags, the resolver's queue, and the log of the world. *)
Definition same_frame (m m' : Monitor) : Prop :=
  m' = m <| m_clients := m_clients m' |> <| m_stateDirty := m_stateDirty m' |>
         <| m_dataDirty := m_dataDirty m' |> <| m_resolver := m_resolver m' |> /\
  map erase_client (m_clients m') = map erase_client (m_clients m).

(** A probe [expire] gives up on at time [now]. *)
Definition expired (now : Z) (f : InFlight) : Prop := f_deadlineUs f <= now + kSendSlackUs.

#[export] Instance expired_dec (now : Z) (f : InFlight) : Decision (expired now f).
Proof. unfold expired. apply _. Defined.

(** What [expire] may change of the prober it works on. *)
Definition same_schedule (p p' : Prober) : Prop :=
  p' = p <| p_lastError := p_lastError p' |> <| p_inFlight := p_inFlight p' |>
         <| p_sent := p_sent p' |>.

(** What [sendProbe] may change of the prober. *)
Definition same_target (p p' : Prober) : Prop :=
  p' = p <| p_lastError := p_lastError p' |> <| p_inFlight := p_inFlight p' |>
         <| p_sent := p_sent p' |> <| p_sequence := p_sequence p' |>.

(** Whether there is an open socket for the address of [p]. *)
Definition sendable (m : Monitor) (p : Prober) : bool :=
  valid (p_endpoint p) && isOpen (socket_for p m)
  && (e_family (p_endpoint p) =? m_family (socket_for p m)).

(** What sending a probe hands to the kernel: one packet, to the address of [p], with its uid and
    its next sequence number. *)
Definition probe_packets (now : Z) (m : Monitor) (p : Prober) : list (Endpoint * str) :=
  if sendable m p then
    [(p_endpoint p,
      echo_request (socket_for p m) (p_uid p) (p_sequence p + 1) now (m_cookie m))]
  else [].

(** The new probe, if one went out. *)
Definition maybe_pushed (now : Z) (p p' : Prober) : Prop :=
  p_inFlight p' = p_inFlight p \/
  p_inFlight p' = p_inFlight p ++
    [mkInFlight (p_sequence p + 1) now (now + p_timeoutUs p)].

(** What [tick] may change of a prober. *)
Definition same_prober (p p' : Prober) : Prop :=
  p' = p <| p_lastError := p_lastError p' |> <| p_inFlight := p_inFlight p' |>
         <| p_sent := p_sent p' |> <| p_sequence := p_sequence p' |>
         <| p_nextSendUs := p_nextSendUs p' |> <| p_resolving := p_resolving p' |>.

(** The probes that survive a tick. *)
Definition unexpired (now : Z) (p : Prober) : list InFlight :=
  filter (fun f => ~ expired now f) (p_inFlight p).

(** Whether a tick sends a probe: there is room once the expired ones are gone, and the slot
    has come. *)
Definition due (now : Z) (p : Prober) : bool :=
  (Z.of_nat (length (unexpired now p)) <? p_maxInFlight p)
  && (p_nextSendUs p <=? now + kSendSlackUs).

(** What a tick sends for [p]. *)
Definition tick_packets (now : Z) (m : Monitor) (p : Prober) : list (Endpoint * str) :=
  if due now p then probe_packets now m p else [].

(** Whether a tick asks for the host to be resolved. *)
Definition lookup_due (now : Z) (p : Prober) : bool :=
  negb (p_numeric p) && negb (p_resolving p) && (p_nextResolveUs p <=? now + kSendSlackUs).

(** What one tick does to one prober. *)
Record ticked (now : Z) (p p' : Prober) : Prop := {
  tk_ok : prober_ok now p';
  tk_same : same_prober p p';
  tk_verdicts : verdicts p' = verdicts p + (if due now p then 1 else 0);
  tk_expired : Forall (fun f => ~ expired now f) (p_inFlight p');
  tk_kept : p_inFlight p' = unexpired now p \/
    due now p = true /\
    p_inFlight p' = unexpired now p ++
      [mkInFlight (p_sequence p + 1) now (now + p_timeoutUs p)];
  tk_next : p_nextSendUs p' = if due now p then next_send now p else p_nextSendUs p;
  tk_resolving : p_resolving p' = p_resolving p || lookup_due now p
}.

(** Once the expired probes are gone and the resolver has been asked. *)
Definition cleaned (now : Z) (p p1 : Prober) : Prop :=
  prober_ok now p1 /\ p_inFlight p1 = unexpired now p /\ verdicts p1 = verdicts p /\
  p1 = p <| p_lastError := p_lastError p1 |> <| p_inFlight := p_inFlight p1 |>
         <| p_sent := p_sent p1 |> <| p_resolving := p_resolving p || lookup_due now p |>.

(** A prober without what probing changes: its identity and its subscribers. *)
Definition erase_prober (p : Prober) : Prober :=
  p <| p_endpoint := noEndpoint |> <| p_resolving := false |> <| p_lastError := [] |>
    <| p_nextResolveUs := 0 |> <| p_resolveFailures := 0 |> <| p_nextSendUs := 0 |>
    <| p_sequence := 0 |> <| p_inFlight := [] |> <| p_sent := 0 |> <| p_received := 0 |>.

(** What the handlers leave alone: everything that the configuration determines. *)
Definition same_wiring (m m' : Monitor) : Prop :=
  map erase_client (m_clients m') = map erase_client (m_clients m) /\
  map erase_prober (m_probers m') = map erase_prober (m_probers m) /\
  m_proberByUid m' = m_proberByUid m /\ m_options m' = m_options m /\
  m_nextUid m' = m_nextUid m /\ m_minIntervalUs m' = m_minIntervalUs m.

(** The probe a reply answers: the [k]-th in flight of the [i]-th prober. *)
Definition answered_probe (reply : Reply) (m : Monitor) (i k : nat) (p : Prober) (f : InFlight) :
    Prop :=
  m_proberByUid m !! r_uid reply = Some i /\ m_probers m !! i = Some p /\
  p_inFlight p !! k = Some f /\ f_seq f = r_seq reply /\
  matches (p_endpoint p) (r_from reply) (r_fromLen reply) = true.

(** [p] after the reply to its probe [f] has been counted. *)
Definition after_reply (p : Prober) (f : InFlight) : Prober :=
  count_sample true (p <| p_inFlight := filter (fun g => g <> f) (p_inFlight p) |>
                       <| p_lastError := [] |>).

(** What handling replies may do to a prober: probes in flight become received ones, one for
    one. *)
Record replied (now : Z) (p p' : Prober) : Prop := {
  rp_ok : prober_ok now p';
  rp_same : p' = p <| p_lastError := p_lastError p' |> <| p_inFlight := p_inFlight p' |>
                   <| p_sent := p_sent p' |> <| p_received := p_received p' |>;
  rp_queue : sublist (p_inFlight p') (p_inFlight p);
  rp_verdicts : verdicts p' = verdicts p;
  rp_received : p_received p' - p_received p = p_sent p' - p_sent p
}.

(** What handling any number of replies does to the monitor. *)
Definition replies_handled (now : Z) (m m' : Monitor) : Prop :=
  Forall2 (replied now) (m_probers m) (m_probers m') /\ same_wiring m m' /\
  m_resolver m' = m_resolver m.

(** The uid map points at the probers and nowhere else. *)
Definition uids_ok (byUid : gmap Z nat) (probers : list Prober) : Prop :=
  forall u i, byUid !! u = Some i <-> exists p, probers !! i = Some p /\ p_uid p = u.

(** What a list of results does to one prober. *)
Definition resolved_all (now : Z) (results : list Result) (p : Prober) : Prober :=
  fold_left (fun p r => fst (resolved now r p)) (filter (fun r => x_uid r = p_uid p) results) p.

(** A probe that was not answered. *)
Definition lost (s : Sample) : Prop := s_received s = false.

(** Between [m] and [m'], every destination of [subs] observed [samples] and no other destination
    changed. *)
Definition fed (subs : list Subscriber) (samples : list Sample) (m m' : Monitor) : Prop :=
  forall s, destination_at s (m_clients m') =
    if decide (s ∈ subs)
    then (fun d => observe_all d samples) <$> destination_at s (m_clients m)
    else destination_at s (m_clients m).

(** [p] gave up on some probes, and everybody who depends on it was told about each of them. *)
Definition gave_up (p p' : Prober) (samples : list Sample) (m m' : Monitor) : Prop :=
  p_subscribers p' = p_subscribers p /\ p_received p' = p_received p /\ Forall lost samples /\
  u64 (p_sent p') = u64 (p_sent p + Z.of_nat (length samples)) /\
  fed (p_subscribers p) samples m m'.

(** ** Lemmas *)

(** *** One sample *)

Lemma erase_judge (v : HealthState) (d : Destination) : erase (judge v d) = erase d.
Proof. unfold judge. repeat case_decide; try case_match; done. Qed.

Lemma erase_observe (b : bool) (rtt now : Z) (d : Destination) :
  erase (fst (observe b rtt now d)) = erase d.
Proof.
  unfold observe. case_decide; cbn [fst].
  - rewrite erase_judge. by destruct b.
  - transitivity (erase (judge (classify b rtt (d_thresholdUs (record_reply b rtt now d)))
      (record_reply b rtt now d))); [done|]. rewrite erase_judge. by destruct b.
Qed.

(** Replacing a destination by one that [f] does not tell apart. *)
Lemma map_set_destination (f : Destination -> Destination) (s : Subscriber)
    (d d' : Destination) (clients : list Client) :
  destination_at s clients = Some d -> f d' = f d ->
  map (map_client f) (set_destination s d' clients) = map (map_client f) clients.
Proof.
  destruct s as [c i]. unfold destination_at, set_destination; cbn. intros Hd He.
  apply list_eq. intros j. rewrite !list_lookup_fmap.
  destruct (decide (c = j)) as [<-|]; [|by rewrite list_lookup_alter_ne].
  rewrite list_lookup_alter_eq. destruct (clients !! c) as [cl|]; cbn in *; [|done].
  f_equal. unfold map_client, set_field; cbn. f_equal.
  rewrite list_fmap_insert, He. apply list_insert_id. rewrite list_lookup_fmap. by rewrite Hd.
Qed.

Lemma applyToSubscriber_frame (b : bool) (rtt now : Z) (m : Monitor) (s : Subscriber) :
  let m' := applyToSubscriber b rtt now m s in
  m' = m <| m_clients := m_clients m' |> <| m_stateDirty := m_stateDirty m' |> /\
  map erase_client (m_clients m') = map erase_client (m_clients m).
Proof.
  unfold applyToSubscriber. destruct (destination_at s (m_clients m)) as [d|] eqn:Ed.
  - pose proof (erase_observe b rtt now d) as He.
    destruct (observe b rtt now d) as [d' ch]; cbn in *. split; [by destruct m|].
    by eapply (map_set_destination erase).
  - split; [by destruct m | done].
Qed.

(** The whole loop changes nothing of the monitor but the destinations and the dirty flag. *)
Lemma applyToSubscribers_frame (b : bool) (rtt now : Z) (subs : list Subscriber) (m : Monitor) :
  let m' := fold_left (applyToSubscriber b rtt now) subs m in
  m' = m <| m_clients := m_clients m' |> <| m_stateDirty := m_stateDirty m' |> /\
  map erase_client (m_clients m') = map erase_client (m_clients m).
Proof.
  revert m. induction subs as [|s subs IH]; intros m; cbn -[applyToSubscriber].
  - split; [by destruct m | done].
  - destruct (applyToSubscriber_frame b rtt now m s) as [E1 E2].
    destruct (IH (applyToSubscriber b rtt now m s)) as [E3 E4]. split; [|congruence].
    rewrite E3 at 1. rewrite E1 at 1. done.
Qed.

Lemma applyToSubscriber_at (b : bool) (rtt now : Z) (m : Monitor) (s s' : Subscriber) :
  destination_at s' (m_clients (applyToSubscriber b rtt now m s)) =
  if decide (s = s') then (fun d => fst (observe b rtt now d)) <$> destination_at s' (m_clients m)
  else destination_at s' (m_clients m).
Proof.
  unfold applyToSubscriber. destruct (destination_at s (m_clients m)) as [d|] eqn:Ed.
  - destruct (observe b rtt now d) as [d' ch] eqn:Eo. cbn [m_clients set_field].
    rewrite destination_at_set by (by rewrite Ed). case_decide; [|done]. subst.
    by rewrite Ed; cbn; rewrite Eo.
  - case_decide; [|done]. subst. by rewrite Ed.
Qed.

(** Every subscriber is given the same sample, once, and nobody else is. *)
Lemma applyToSubscribers_at (b : bool) (rtt now : Z) (subs : list Subscriber) (m : Monitor)
    (s : Subscriber) :
  NoDup subs ->
  destination_at s (m_clients (fold_left (applyToSubscriber b rtt now) subs m)) =
  if decide (s ∈ subs) then (fun d => fst (observe b rtt now d)) <$> destination_at s (m_clients m)
  else destination_at s (m_clients m).
Proof.
  intros Hnd; revert m. induction Hnd as [|s0 subs Hs0 Hnd IH]; intros m; cbn [fold_left].
  - by rewrite decide_False by apply not_elem_of_nil.
  - rewrite IH, applyToSubscriber_at. destruct (decide (s0 = s)) as [->|Hne].
    + rewrite decide_False by done. by rewrite decide_True by left.
    + destruct (decide (s ∈ subs)); [by rewrite decide_True by (by right)|].
      by rewrite decide_False by (intros [?|?]%elem_of_cons; congruence).
Qed.

Lemma applySample_eq (p : Prober) (b : bool) (rtt : Z) (m : Monitor) (w : World) :
  applySample p b rtt m w =
  (count_sample b p,
   (fold_left (applyToSubscriber b rtt (w_realClock w (w_realReads w))) (p_subscribers p) m)
     <| m_dataDirty := true |>,
   w <| w_realReads := S (w_realReads w) |>).
Proof. destruct b; reflexivity. Qed.

#[export] Instance same_frame_preorder : PreOrder same_frame.
Proof.
  split.
  - intros m. split; [by destruct m | done].
  - intros m1 m2 m3 [E1 F1] [E2 F2]. split; [|congruence].
    rewrite E2 at 1. rewrite E1 at 1. done.
Qed.

Lemma applySample_frame (p p' : Prober) (b : bool) (rtt : Z) (m m' : Monitor) (w w' : World) :
  applySample p b rtt m w = (p', m', w') ->
  p' = count_sample b p /\ same_frame m m' /\ m_resolver m' = m_resolver m /\
  w_packets w' = w_packets w.
Proof.
  rewrite applySample_eq. intros [= <- <- <-].
  destruct (applyToSubscribers_frame b rtt (w_realClock w (w_realReads w)) (p_subscribers p) m)
    as [E F].
  set (m1 := fold_left _ _ _) in *. split_and!; try done.
  - split; [|done]. rewrite E. destruct m; reflexivity.
  - cbn. by rewrite E.
Qed.

(** *** Probers *)

Lemma prober_ok_later (t t' : Z) (p : Prober) : t <= t' -> prober_ok t p -> prober_ok t' p.
Proof.
  intros Ht [? ? ? ? ? ? ? Hpast ? ? ? ? ?]. constructor; auto.
  apply (Forall_impl _ _ _ Hpast). cbn. lia.
Qed.

Lemma count_sample_ok (t : Z) (b : bool) (p : Prober) :
  p_sent p < u64_max -> prober_ok t p -> prober_ok t (count_sample b p).
Proof.
  unfold u64_max. intros Hs []. destruct b; constructor; cbn; auto; rewrite ?u64_small; lia.
Qed.

Lemma count_sample_sent (b : bool) (p : Prober) :
  0 <= p_sent p < u64_max -> p_sent (count_sample b p) = p_sent p + 1.
Proof. unfold u64_max. intros. destruct b; cbn; by rewrite u64_small by lia. Qed.

Lemma probes_allowed_range (i t : Z) : 1 <= probes_allowed i t <= 8.
Proof. unfold probes_allowed, kMaxInFlight. lia. Qed.

(** *** Feeding the destinations *)

Lemma fed_nil (subs : list Subscriber) (m m' : Monitor) :
  m_clients m' = m_clients m -> fed subs [] m m'.
Proof. intros E s. rewrite E. case_decide; [|done]. by destruct (destination_at s _). Qed.

Lemma fed_app (subs : list Subscriber) (h h' : list Sample) (m m' m'' : Monitor) :
  fed subs h m m' -> fed subs h' m' m'' -> fed subs (h ++ h') m m''.
Proof.
  intros H1 H2 s. rewrite H2, H1. case_decide; [|done].
  destruct (destination_at s (m_clients m)); cbn; [|done].
  unfold observe_all. by rewrite fold_left_app.
Qed.

Lemma gave_up_nil (p p' : Prober) (m m' : Monitor) :
  p_subscribers p' = p_subscribers p -> p_received p' = p_received p -> p_sent p' = p_sent p ->
  m_clients m' = m_clients m -> gave_up p p' [] m m'.
Proof.
  intros E1 E2 E3 E4. split_and!; [done | done | done | | by apply fed_nil].
  cbn. by rewrite E3, Z.add_0_r.
Qed.

Lemma gave_up_app (p p' p'' : Prober) (h h' : list Sample) (m m' m'' : Monitor) :
  gave_up p p' h m m' -> gave_up p' p'' h' m' m'' -> gave_up p p'' (h ++ h') m m''.
Proof.
  intros (E1 & R1 & L1 & S1 & F1) (E2 & R2 & L2 & S2 & F2). rewrite E1 in *.
  split_and!; [by rewrite E2 | by rewrite R2 | by apply Forall_app | |].
  - rewrite S2, length_app, Nat2Z.inj_add, Z.add_assoc. unfold u64 in *.
    rewrite Zplus_mod, S1, <- Zplus_mod. done.
  - by eapply fed_app.
Qed.

(** One sample reaches every subscriber. *)
Lemma applySample_fed (p p' : Prober) (b : bool) (rtt : Z) (m m' : Monitor) (w w' : World) :
  NoDup (p_subscribers p) -> applySample p b rtt m w = (p', m', w') ->
  fed (p_subscribers p) [mkSample b rtt (w_realClock w (w_realReads w))] m m'.
Proof.
  intros Hnd. rewrite applySample_eq. intros [= <- <- <-] s. cbn.
  by apply applyToSubscribers_at.
Qed.

Lemma applySample_gave_up (p p' : Prober) (rtt : Z) (m m' : Monitor) (w w' : World) :
  NoDup (p_subscribers p) -> applySample p false rtt m w = (p', m', w') ->
  gave_up p p' [mkSample false rtt (w_realClock w (w_realReads w))] m m'.
Proof.
  intros Hnd Ha. pose proof Ha as (-> & _)%applySample_frame.
  split_and!; [done | done | by repeat constructor | | by eapply applySample_fed].
  cbn. apply Z.mod_mod. lia.
Qed.
