(* ===== verification/Ticking.v ===== *)
(** * One tick of the probers

    What [Monitor::tick] does: giving up on expired probes, asking for names to be resolved,
    sending the probes that are due. *)

From S2P Require Import Prelude Health Pinger Resolver Monitor Probing.

(** *** Expiry *)

Lemma prober_ok_tail (t : Z) (p : Prober) (f : InFlight) (rest : list InFlight) (e : str) :
  p_inFlight p = f :: rest -> prober_ok t p ->
  prober_ok t (p <| p_inFlight := rest |> <| p_lastError := e |>).
Proof.
  intros Hf []. rewrite Hf in *. cbn in *.
  repeat match goal with
  | H : StronglySorted _ (_ :: _) |- _ => apply StronglySorted_inv in H as [H _]
  | H : Forall _ (_ :: _) |- _ => apply Forall_cons in H as [_ H]
  end.
  constructor; cbn; auto; lia.
Qed.

(** In a well-formed queue the oldest probe expires first. *)
Lemma oldest_expires_first (t now : Z) (p : Prober) (f : InFlight) (rest : list InFlight) :
  p_inFlight p = f :: rest -> prober_ok t p -> ~ expired now f ->
  filter (fun g => ~ expired now g) (p_inFlight p) = p_inFlight p.
Proof.
  intros Hf [] Hne. rewrite Hf in *. apply filter_all, Forall_cons. split; [done|].
  apply StronglySorted_inv in pok_times as [_ Hle]. apply Forall_cons in pok_deadlines as [Hd Hds].
  rewrite Forall_forall in Hds, Hle. apply Forall_forall. intros g Hg. unfold expired in *.
  rewrite (Hds g Hg). specialize (Hle g Hg). lia.
Qed.

Lemma expire_spec (now : Z) (fl : list InFlight) (p p' : Prober) (m m' : Monitor) (w w' : World) :
  clock_ok now -> p_inFlight p = fl -> prober_ok now p -> counters_ok p ->
  expire now fl p m w = (p', m', w') ->
  prober_ok now p' /\ p_inFlight p' = filter (fun f => ~ expired now f) fl /\
  verdicts p' = verdicts p /\ same_schedule p p' /\
  same_frame m m' /\ m_resolver m' = m_resolver m /\ w_packets w' = w_packets w.
Proof.
  intros Hclock. revert p m w. induction fl as [|f rest IH]; intros p m w Hfl Hok Hcnt Hex.
  { cbn in Hex. injection Hex as <- <- <-. split_and!; try done; by destruct p. }
  cbn -[applySample] in Hex. unfold clock_ok, counters_ok, u64_max in *.
  assert (u64 (now + kSendSlackUs) = now + kSendSlackUs) as Hnow
    by (apply u64_small; unfold kSendSlackUs; lia).
  rewrite Hnow in Hex. rewrite Hfl in Hcnt. cbn [length] in Hcnt.
  destruct (Z.leb_spec (f_deadlineUs f) (now + kSendSlackUs)) as [Hle|Hgt].
  - destruct (applySample _ _ _ _ _) as [[p1 m1] w1] eqn:Ea.
    apply applySample_frame in Ea as (-> & Hfr & Hres & Hpk).
    pose proof (pok_counts _ _ Hok).
    set (p0 := p <| p_inFlight := rest |> <| p_lastError := lit "timeout" |>) in *.
    assert (prober_ok now p0) as Hok0 by (by eapply prober_ok_tail).
    assert (p_sent (count_sample false p0) = p_sent p0 + 1) as Hsent
      by (apply count_sample_sent; cbn; unfold u64_max; lia).
    apply IH in Hex as (H1 & H2 & H3 & H4 & H5 & H6 & H7).
    + split_and!; [done | | | done | by etrans | congruence..].
      * by rewrite filter_cons_False by (unfold expired; tauto).
      * rewrite H3. unfold verdicts. rewrite Hsent, Hfl. cbn. lia.
    + done.
    + apply count_sample_ok; [cbn; unfold u64_max; lia | done].
    + rewrite Hsent. cbn. lia.
  - injection Hex as <- <- <-. split_and!; try done; [|by destruct p].
    rewrite <- Hfl. symmetry. eapply oldest_expires_first; eauto. unfold expired; lia.
Qed.

(** *** Sending *)

Lemma schedule_target (p p' : Prober) : same_schedule p p' -> same_target p p'.
Proof. unfold same_target. intros E. rewrite E. reflexivity. Qed.

(** The packet of a prober does not depend on what a handler changes before it is sent. *)
Lemma packets_frame (now : Z) (p p' : Prober) (m m' : Monitor) :
  same_frame m m' -> p_endpoint p' = p_endpoint p -> p_uid p' = p_uid p ->
  p_sequence p' = p_sequence p -> probe_packets now m' p' = probe_packets now m p.
Proof.
  intros [Em _] Ee Eu Es. unfold probe_packets, sendable, socket_for. rewrite Ee, Eu, Es.
  assert (m_socket4 m' = m_socket4 m /\ m_socket6 m' = m_socket6 m /\ m_cookie m' = m_cookie m)
    as (-> & -> & ->) by (rewrite Em; done).
  done.
Qed.

Section Sending.
Context `{Libc}.

(** A probe that has just been sent. *)
Lemma push_probe_ok (now : Z) (p : Prober) :
  clock_ok now -> prober_ok now p -> Z.of_nat (length (p_inFlight p)) < p_maxInFlight p ->
  p_sequence p < 2 ^ 32 - 1 ->
  prober_ok now
    (p <| p_sequence := p_sequence p + 1 |>
       <| p_inFlight := p_inFlight p ++
            [mkInFlight (p_sequence p + 1) now (now + p_timeoutUs p)] |>).
Proof.
  intros Hc [] Hroom Hseq. unfold clock_ok in *. constructor; cbn; auto; try lia.
  - rewrite length_app. cbn. lia.
  - apply StronglySorted_snoc; [done|]. cbn. eapply Forall_impl; [exact pok_used|]. cbn. lia.
  - apply Forall_app. split; [|repeat constructor; cbn; lia].
    eapply Forall_impl; [exact pok_used|]. cbn. lia.
  - apply StronglySorted_snoc; [done|]. cbn. eapply Forall_impl; [exact pok_past|]. cbn. lia.
  - apply Forall_app. split; [done|repeat constructor; cbn; lia].
  - apply Forall_app. split; [done|by repeat constructor].
Qed.

Lemma set_lastError_ok (t : Z) (p : Prober) (e : str) :
  prober_ok t p -> prober_ok t (p <| p_lastError := e |>).
Proof. by intros []. Qed.

Lemma use_sequence_ok (t : Z) (p : Prober) :
  p_sequence p < 2 ^ 32 - 1 -> prober_ok t p ->
  prober_ok t (p <| p_sequence := p_sequence p + 1 |>).
Proof.
  intros Hs []. constructor; cbn; auto; try lia.
  eapply Forall_impl; [exact pok_used|]. cbn. lia.
Qed.

(** A sample taken without sending anything. *)
Lemma failed_sample (t : Z) (p p' : Prober) (e : str) (m m' : Monitor) (w w' : World) :
  prober_ok t p -> verdicts p < u64_max ->
  applySample (p <| p_lastError := e |>) false 0 m w = (p', m', w') ->
  prober_ok t p' /\ verdicts p' = verdicts p + 1 /\ p_inFlight p' = p_inFlight p /\
  same_schedule p p' /\ same_frame m m' /\ m_resolver m' = m_resolver m /\
  w_packets w' = w_packets w.
Proof.
  intros Hok Hcnt (-> & Hf & Hr & Hw)%applySample_frame. unfold verdicts, u64_max in *.
  pose proof (pok_counts _ _ Hok).
  assert (p_sent (p <| p_lastError := e |>) < u64_max) as Hm by (cbn; unfold u64_max; lia).
  split_and!; try done.
  - apply count_sample_ok; [done | by apply set_lastError_ok].
  - rewrite count_sample_sent by (split; [cbn; lia | done]). cbn. lia.
Qed.

Lemma send_packets (now : Z) (p : Prober) (m : Monitor) (w : World) (call : SysCall)
    (packet : option str) (result : SendResult) (error : option str) :
  send (socket_for p m) (p_endpoint p) (p_uid p) (p_sequence p + 1) now (m_cookie m) call =
    (packet, (result, error)) ->
  w_packets (match packet with
             | Some bytes => w <| w_packets := w_packets w ++ [(p_endpoint p, bytes)] |>
             | None => w
             end) = w_packets w ++ probe_packets now m p.
Proof.
  unfold send, probe_packets, sendable, isOpen.
  destruct (Z.ltb_spec (m_fd (socket_for p m)) 0), (Z.leb_spec 0 (m_fd (socket_for p m))); try lia;
    destruct (valid (p_endpoint p)), (e_family (p_endpoint p) =? m_family (socket_for p m));
    cbn [orb andb negb]; intros [= <- _]; cbn; by rewrite ?app_nil_r.
Qed.

Lemma sendProbe_spec (now : Z) (p p' : Prober) (m m' : Monitor) (w w' : World) :
  clock_ok now -> prober_ok now p -> counters_ok p ->
  Z.of_nat (length (p_inFlight p)) < p_maxInFlight p ->
  sendProbe p now m w = (p', m', w') ->
  prober_ok now p' /\ verdicts p' = verdicts p + 1 /\ same_target p p' /\ maybe_pushed now p p' /\
  same_frame m m' /\ m_resolver m' = m_resolver m /\ w_packets w' = w_packets w ++ probe_packets now m p.
Proof.
  intros Hc Hok Hcnt Hroom Hs. pose proof Hcnt as [Hver Hseq]. pose proof (pok_sequence _ _ Hok).
  unfold sendProbe in Hs. destruct (_ || _) eqn:Eun.
  { assert (probe_packets now m p = []) as Hnone.
    { unfold probe_packets, sendable. by destruct (valid (p_endpoint p)), (isOpen (socket_for p m)). }
    rewrite Hnone, app_nil_r. apply failed_sample with (t := now) in Hs as (H1 & H2 & H3 & H4 & H5 & H6 & H7); try done.
    split_and!; try done; [by apply schedule_target in H4 | by left]. }
  rewrite u32_small in Hs by lia. cbn [p_sequence] in Hs.
  set (p1 := p <| p_sequence := _ |>) in *.
  assert (prober_ok now p1) as Hok1 by (by apply use_sequence_ok).
  destruct (send _ _ _ _ _ _ _) as [packet [result error]] eqn:Esend.
  set (w1 := match packet with Some _ => _ | None => _ end) in *.
  assert (w_packets w1 = w_packets w ++ probe_packets now m p) as Hpk
    by (by apply (send_packets now p m w) in Esend).
  assert (forall e, applySample (p1 <| p_lastError := e |>) false 0 m w1 = (p', m', w') ->
    prober_ok now p' /\ verdicts p' = verdicts p + 1 /\ same_target p p' /\ maybe_pushed now p p' /\
    same_frame m m' /\ m_resolver m' = m_resolver m /\ w_packets w' = w_packets w ++ probe_packets now m p) as Hfail.
  { intros e (H1 & H2 & H3 & H4 & H5 & H6 & H7)%(failed_sample now); try done.
    split_and!; try done; [apply schedule_target in H4; unfold same_target in *; by rewrite H4 | by left |].
    by rewrite H7. }
  destruct result; [|by apply Hfail in Hs..].
  assert (u64 (now + p_timeoutUs p1) = now + p_timeoutUs p) as Hd.
  { pose proof (pok_timeout _ _ Hok). unfold clock_ok in *. apply u64_small. cbn. lia. }
  rewrite Hd in Hs. pose proof (push_probe_ok now p Hc Hok Hroom Hseq) as Hpush.
  injection Hs as <- <- <-.
  destruct (bool_decide _); split_and!; try done.
  - by apply set_lastError_ok.
  - unfold verdicts. cbn. rewrite length_app. cbn. lia.
  - by right.
  - unfold verdicts. cbn. rewrite length_app. cbn. lia.
  - by right.
Qed.
End Sending.

(** *** One prober, one tick *)

Section Ticking.
Context `{Libc}.

Lemma ask_resolver_spec (now : Z) (p p' : Prober) (m m' : Monitor) :
  clock_ok now -> ask_resolver now p m = (p', m') ->
  p' = p <| p_resolving := p_resolving p || lookup_due now p |> /\
  m' = m <| m_resolver := if lookup_due now p then request (p_uid p) (p_host p) (m_resolver m)
                          else m_resolver m |>.
Proof.
  unfold ask_resolver, lookup_due, clock_ok. intros Hc.
  rewrite u64_small by (unfold kSendSlackUs; lia).
  destruct (_ && _ && _); intros [= <- <-]; rewrite ?orb_true_r, ?orb_false_r;
    (split; [by destruct p | by destruct m]).
Qed.

Lemma next_send_range (now : Z) (p : Prober) :
  clock_ok now -> 100000 <= p_intervalUs p <= 3600000000 -> 0 <= p_nextSendUs p ->
  p_nextSendUs p <= now + kSendSlackUs ->
  now < next_send now p <= now + kSendSlackUs + p_intervalUs p /\
  p_nextSendUs p + p_intervalUs p <= next_send now p.
Proof.
  unfold clock_ok, next_send, kSendSlackUs. intros.
  rewrite !u64_small by lia. destruct (Z.leb_spec (p_nextSendUs p + p_intervalUs p) now); lia.
Qed.

Lemma resolving_ok (t : Z) (p : Prober) (b : bool) :
  prober_ok t p -> prober_ok t (p <| p_resolving := b |>).
Proof. by intros []. Qed.

Lemma next_send_ok (t n : Z) (p : Prober) :
  0 <= n -> prober_ok t p -> prober_ok t (p <| p_nextSendUs := n |>).
Proof. by intros ? []. Qed.

Lemma expire_ask_spec (now : Z) (p p1 p2 : Prober) (m m1 m2 : Monitor) (w w1 : World) :
  clock_ok now -> prober_ok now p -> counters_ok p ->
  expire now (p_inFlight p) p m w = (p1, m1, w1) -> ask_resolver now p1 m1 = (p2, m2) ->
  cleaned now p p2 /\ same_frame m m2 /\ w_packets w1 = w_packets w /\
  m_resolver m2 = (if lookup_due now p then request (p_uid p) (p_host p) (m_resolver m)
                   else m_resolver m).
Proof.
  intros Hc Hok Hcnt Hex Hask.
  apply expire_spec in Hex as (Hok1 & Hfl1 & Hv1 & Hs1 & Hf1 & Hr1 & Hw1); try done.
  apply ask_resolver_spec in Hask as [-> ->]; [|done].
  assert (lookup_due now p1 = lookup_due now p /\ p_resolving p1 = p_resolving p /\
    p_uid p1 = p_uid p /\ p_host p1 = p_host p) as (-> & -> & -> & ->)
    by (unfold lookup_due; by rewrite Hs1).
  unfold cleaned. split_and!; try done.
  - by apply resolving_ok.
  - rewrite Hs1. reflexivity.
  - etrans; [exact Hf1|]. by destruct m1.
  - by rewrite <- Hr1.
Qed.

Lemma send_due_eq (now : Z) (p p1 : Prober) :
  clock_ok now -> cleaned now p p1 -> send_due now p1 = due now p.
Proof.
  unfold clock_ok. intros Hc (_ & Hfl & _ & Hs). unfold send_due, due.
  rewrite u64_small by (unfold kSendSlackUs; lia). rewrite Hfl. rewrite Hs. done.
Qed.

Lemma unexpired_cleaned (now : Z) (p : Prober) : Forall (fun f => ~ expired now f) (unexpired now p).
Proof. apply Forall_forall. intros f Hf. by apply list_elem_of_filter in Hf as []. Qed.

Lemma tickProber_spec (now : Z) (p p' : Prober) (m m' : Monitor) (w w' : World) :
  clock_ok now -> prober_ok now p -> counters_ok p ->
  tickProber now p m w = (p', m', w') ->
  ticked now p p' /\ same_frame m m' /\ w_packets w' = w_packets w ++ tick_packets now m p /\
  m_resolver m' = (if lookup_due now p then request (p_uid p) (p_host p) (m_resolver m)
                   else m_resolver m).
Proof.
  intros Hc Hok Hcnt Ht. unfold tickProber in Ht.
  destruct (expire _ _ _ _ _) as [[p0 m0] w1] eqn:Eex.
  destruct (ask_resolver now p0 m0) as [p1 m1] eqn:Eask.
  destruct (expire_ask_spec now p p0 p1 m m0 m1 w w1) as (Hcl & Hf1 & Hw1 & Hr1); try done.
  rewrite (send_due_eq now p p1) in Ht by done. destruct Hcl as (Hok1 & Hfl1 & Hv1 & Hs1).
  assert (p_nextSendUs p1 = p_nextSendUs p /\ p_intervalUs p1 = p_intervalUs p /\
    p_maxInFlight p1 = p_maxInFlight p /\ p_sequence p1 = p_sequence p /\
    p_resolving p1 = p_resolving p || lookup_due now p) as (En & Ei & Em & Es & Er)
    by (rewrite Hs1; done).
  pose proof (unexpired_cleaned now p) as Hunexp.
  destruct (due now p) eqn:Edue.
  - destruct (sendProbe p1 now m1 w1) as [[p2 m2] w2] eqn:Esend. injection Ht as <- <- <-.
    pose proof Edue as [Hroom%Z.ltb_lt Hdue%Z.leb_le]%andb_true_iff. rewrite <- Hfl1, <- Em in Hroom.
    apply sendProbe_spec in Esend as (Hok2 & Hv2 & Hs2 & Hpush & Hf2 & Hr2 & Hp2); try done.
    2: { destruct Hcnt. split; [unfold verdicts in *; lia | by rewrite Es]. }
    split_and!; [| by etrans | rewrite Hp2, Hw1; unfold tick_packets; rewrite Edue; f_equal; by apply packets_frame; try (rewrite Hs1) | by rewrite Hr2].
    assert (p_nextSendUs p2 = p_nextSendUs p /\ p_intervalUs p2 = p_intervalUs p) as [En2 Ei2]
      by (rewrite Hs2; cbn; split; done).
    assert (next_send now p2 = next_send now p) as -> by (unfold next_send; by rewrite En2, Ei2).
    assert (now < next_send now p) as Hnext.
    { apply next_send_range; try done; [by destruct Hok | by destruct Hok]. }
    unfold clock_ok in Hc. constructor; cbn; rewrite ?Edue; try done.
    + apply next_send_ok; [lia | done].
    + unfold same_prober. rewrite Hs2, Hs1. reflexivity.
    + unfold verdicts in *. cbn. lia.
    + destruct Hpush as [-> | ->]; rewrite Hfl1; [done|]. apply Forall_app. split; [done|].
      repeat constructor. unfold expired; cbn. pose proof (pok_timeout _ _ Hok1).
      unfold kSendSlackUs. lia.
    + destruct Hpush as [-> | ->]; rewrite Hfl1; [by left | right].
      split; [done|]. rewrite Es. do 4 f_equal. by rewrite Hs1.
    + rewrite Hs2. done.
  - injection Ht as <- <- <-. split_and!; try done; [|unfold tick_packets; by rewrite Edue, app_nil_r].
    constructor; rewrite ?Edue; try done.
    + unfold same_prober. rewrite Hs1. reflexivity.
    + lia.
    + by rewrite Hfl1.
    + by left.
Qed.

(** Every prober is ticked, in order; each may queue one lookup. *)
Lemma tickProbers_spec (now : Z) (ps ps' : list Prober) (m m' : Monitor) (w w' : World) :
  clock_ok now -> Forall (prober_ok now) ps -> Forall counters_ok ps ->
  tickProbers now ps m w = (ps', m', w') ->
  Forall2 (ticked now) ps ps' /\ same_frame m m' /\
  w_packets w' = w_packets w ++ concat (map (tick_packets now m) ps) /\
  m_resolver m' =
    fold_left (fun r p => if lookup_due now p then request (p_uid p) (p_host p) r else r) ps
      (m_resolver m).
Proof.
  intros Hc Hok; revert ps' m w.
  induction Hok as [|p ps Hp Hps IH]; intros ps' m w Hcnt Ht; cbn [tickProbers] in Ht.
  { injection Ht as <- <- <-. split_and!; try done. by rewrite app_nil_r. }
  apply Forall_cons in Hcnt as [Hcp Hcps].
  destruct (tickProber now p m w) as [[p1 m1] w1] eqn:E1.
  destruct (tickProbers now ps m1 w1) as [[ps2 m2] w2] eqn:E2. injection Ht as <- <- <-.
  apply tickProber_spec in E1 as (T1 & F1 & W1 & R1); try done.
  apply IH in E2 as (T2 & F2 & W2 & R2); try done.
  split_and!; [by constructor | by etrans | | by rewrite R2, R1].
  cbn [map concat]. rewrite W2, W1, (assoc_L (++)). do 2 f_equal. apply map_ext. intros q.
  unfold tick_packets. by rewrite (packets_frame now q q m m1).
Qed.


End Ticking.

(** *** What the destinations learn *)

Section Feeding.
Context `{Libc}.

Lemma expire_gave_up (now : Z) (fl : list InFlight) (p p' : Prober) (m m' : Monitor)
    (w w' : World) :
  NoDup (p_subscribers p) -> expire now fl p m w = (p', m', w') ->
  exists samples, gave_up p p' samples m m'.
Proof.
  revert p m w. induction fl as [|f fl IH]; intros p m w Hnd He; cbn -[applySample] in He.
  { injection He as <- <- <-. exists []. by apply gave_up_nil. }
  destruct (_ <=? _); [|injection He as <- <- <-; exists []; by apply gave_up_nil].
  destruct (applySample _ _ _ _ _) as [[p1 m1] w1] eqn:Ea.
  pose proof Ea as Hg%applySample_gave_up; [|done].
  apply IH in He as [h Hh]; [|by destruct Hg as [-> _]].
  eexists. eapply gave_up_app; [|exact Hh]. exact Hg.
Qed.

Lemma sendProbe_gave_up (now : Z) (p p' : Prober) (m m' : Monitor) (w w' : World) :
  NoDup (p_subscribers p) -> sendProbe p now m w = (p', m', w') ->
  exists samples, gave_up p p' samples m m'.
Proof.
  intros Hnd Hs. unfold sendProbe in Hs.
  assert (forall p0 m0 w0, p_subscribers p0 = p_subscribers p -> p_sent p0 = p_sent p ->
    p_received p0 = p_received p -> m_clients m0 = m_clients m ->
    applySample p0 false 0 m0 w0 = (p', m', w') -> exists samples, gave_up p p' samples m m') as Hf.
  { intros p0 m0 w0 E1 E2 E3 E4 Ha%applySample_gave_up; [|by rewrite E1].
    eexists ([] ++ _). eapply gave_up_app; [by eapply gave_up_nil | exact Ha]. }
  destruct (_ || _); [by eapply Hf in Hs|].
  destruct (send _ _ _ _ _ _ _) as [packet [result error]].
  destruct result; [|by eapply Hf in Hs..].
  injection Hs as <- <- <-. exists []. destruct (bool_decide _); by apply gave_up_nil.
Qed.

Lemma tickProber_gave_up (now : Z) (p p' : Prober) (m m' : Monitor) (w w' : World) :
  NoDup (p_subscribers p) -> tickProber now p m w = (p', m', w') ->
  exists samples, gave_up p p' samples m m'.
Proof.
  intros Hnd Ht. unfold tickProber in Ht.
  destruct (expire _ _ _ _ _) as [[p1 m1] w1] eqn:Ee.
  apply expire_gave_up in Ee as [h1 H1]; [|done].
  destruct (ask_resolver now p1 m1) as [p2 m2] eqn:Ea.
  assert (gave_up p1 p2 [] m1 m2) as H2.
  { unfold ask_resolver in Ea. destruct (_ && _); injection Ea as <- <-; by apply gave_up_nil. }
  pose proof (gave_up_app _ _ _ _ _ _ _ _ H1 H2) as H3.
  destruct (send_due now p2).
  - destruct (sendProbe _ _ _ _) as [[p3 m3] w3] eqn:Es. injection Ht as <- <- <-.
    apply sendProbe_gave_up in Es as [h4 H4]; [|by destruct H3 as [-> _]].
    eexists. eapply gave_up_app; [exact H3|]. exact H4.
  - injection Ht as <- <- <-. by eexists.
Qed.

(** The probers of a monitor have no subscriber in common. *)
Lemma tickProbers_feed (now : Z) (ps ps' : list Prober) (m m' : Monitor) (w w' : World) :
  NoDup (concat (map p_subscribers ps)) -> tickProbers now ps m w = (ps', m', w') ->
  length ps' = length ps /\
  (forall s, s ∉ concat (map p_subscribers ps) ->
     destination_at s (m_clients m') = destination_at s (m_clients m)) /\
  (forall i p p', ps !! i = Some p -> ps' !! i = Some p' ->
     exists samples, Forall lost samples /\
       u64 (p_sent p') = u64 (p_sent p + Z.of_nat (length samples)) /\
       forall s, s ∈ p_subscribers p -> destination_at s (m_clients m') =
         (fun d => observe_all d samples) <$> destination_at s (m_clients m)).
Proof.
  revert ps' m w. induction ps as [|p ps IH]; intros ps' m w Hnd Ht; cbn [tickProbers] in Ht.
  { by injection Ht as <- <- <-. }
  destruct (tickProber now p m w) as [[p1 m1] w1] eqn:E1.
  destruct (tickProbers now ps m1 w1) as [[ps2 m2] w2] eqn:E2. injection Ht as <- <- <-.
  change (NoDup (p_subscribers p ++ concat (map p_subscribers ps))) in Hnd.
  apply NoDup_app in Hnd as (Hp & Hdisj & Hps).
  apply tickProber_gave_up in E1 as (h & (_ & _ & Hlost & Hsent & Hfed)); [|done].
  apply IH in E2 as (Hlen & Hout & Hin); [|done].
  split_and!.
  - cbn. by rewrite Hlen.
  - intros s Hs. change (s ∉ p_subscribers p ++ concat (map p_subscribers ps)) in Hs.
    rewrite not_elem_of_app in Hs. destruct Hs as [Hs1 Hs2].
    rewrite Hout by done. rewrite Hfed. by rewrite decide_False.
  - intros [|i] q q' Hq Hq'; cbn in Hq, Hq'.
    + simplify_eq. exists h. split_and!; [done..|]. intros s Hs.
      rewrite Hout by auto. rewrite Hfed. by rewrite decide_True.
    + destruct (Hin i q q' Hq Hq') as (h' & Hl' & Hs' & Hd). exists h'. split_and!; [done..|].
      intros s Hs. rewrite Hd by done. rewrite Hfed. rewrite decide_False; [done|].
      intros Hsp. apply (Hdisj s Hsp). apply list_elem_of_In, in_concat.
      exists (p_subscribers q). split; [|by apply list_elem_of_In].
      apply in_map, list_elem_of_In. by eapply list_elem_of_lookup_2.
Qed.

End Feeding.

(** *** The whole tick *)

Lemma erase_same_prober (p p' : Prober) : same_prober p p' -> erase_prober p' = erase_prober p.
Proof. intros E. rewrite E. reflexivity. Qed.

Lemma ticked_erase (now : Z) (ps ps' : list Prober) :
  Forall2 (ticked now) ps ps' -> map erase_prober ps' = map erase_prober ps.
Proof.
  induction 1 as [|p p' ps ps' [_ Hs _ _ _ _ _] _ IH]; [done|].
  cbn. by rewrite IH, (erase_same_prober p).
Qed.

Section Tick.
Context `{Libc}.

Lemma tick_spec (now : Z) (m m' : Monitor) (w w' : World) :
  clock_ok now -> Forall (prober_ok now) (m_probers m) -> Forall counters_ok (m_probers m) ->
  tick now m w = (m', w') ->
  Forall2 (ticked now) (m_probers m) (m_probers m') /\ same_wiring m m' /\
  w_packets w' = w_packets w ++ concat (map (tick_packets now m) (m_probers m)) /\
  m_resolver m' =
    fold_left (fun r p => if lookup_due now p then request (p_uid p) (p_host p) r else r)
      (m_probers m) (m_resolver m).
Proof.
  intros Hc Hok Hcnt Ht. unfold tick in Ht.
  destruct (tickProbers _ _ _ _) as [[ps m1] w1] eqn:E. injection Ht as <- <-.
  apply tickProbers_spec in E as (Hf & [Hm He] & Hw & Hr); [|done..].
  split_and!; [done | | done | done].
  pose proof (ticked_erase _ _ _ Hf). unfold same_wiring. cbn. rewrite Hm. split_and!; done.
Qed.

(** *** The loop of [tick] in place

    The code iterates over references into [m_probers]: the iterations read and write the list
    itself.  [tick] takes the probers out and puts them back. *)

(** The iteration for the [i]-th prober. *)
Definition tick_at (now : Z) (i : nat) (m : Monitor) (w : World) : Monitor * World :=
  match m_probers m !! i with
  | None => (m, w)
  | Some p =>
      let '(p, m, w) := tickProber now p m w in
      (m <| m_probers := <[i := p]> (m_probers m) |>, w)
  end.

Definition tick_in_order (now : Z) (is_ : list nat) (st : Monitor * World) :
    Monitor * World :=
  fold_left (fun st i => tick_at now i (fst st) (snd st)) is_ st.

(** A part of the monitor that the handlers of a prober neither see nor change. *)
Class Unseen {X} (put : X -> Monitor -> Monitor) : Prop := {
  un_clients x m : m_clients (put x m) = m_clients m;
  un_dirty x m : m_stateDirty (put x m) = m_stateDirty m;
  un_cookie x m : m_cookie (put x m) = m_cookie m;
  un_socket x m p : socket_for p (put x m) = socket_for p m;
  un_error x m p : unsendable_error p (put x m) = unsendable_error p m;
  un_feed x m cs b : (put x m) <| m_clients := cs |> <| m_stateDirty := b |> =
    put x (m <| m_clients := cs |> <| m_stateDirty := b |>);
  un_data x m : (put x m) <| m_dataDirty := true |> = put x (m <| m_dataDirty := true |>)
}.

Definition put_probers (ps : list Prober) (m : Monitor) : Monitor := m <| m_probers := ps |>.
Definition put_resolver (r : Resolver) (m : Monitor) : Monitor := m <| m_resolver := r |>.

#[export] Instance probers_unseen : Unseen put_probers.
Proof. constructor; reflexivity. Qed.

#[export] Instance resolver_unseen : Unseen put_resolver.
Proof. constructor; reflexivity. Qed.

Definition blind {A X} (put : X -> Monitor -> Monitor) (f : Monitor -> World -> A * Monitor * World) :
    Prop :=
  forall x m w, f (put x m) w = let '(a, m', w') := f m w in (a, put x m', w').

Section Blind.
Context {X} (put : X -> Monitor -> Monitor) {Hput : Unseen put}.

Lemma applySample_blind (p : Prober) (b : bool) (rtt : Z) : blind put (applySample p b rtt).
Proof.
  intros x m w. rewrite !applySample_eq, <- (un_data (put := put)). do 3 f_equal.
  generalize (w_realClock w (w_realReads w)) as t. intros t. revert m.
  induction (p_subscribers p) as [|s subs IH]; intros m; [done|]. cbn [fold_left].
  rewrite <- IH. f_equal. unfold applyToSubscriber. rewrite un_clients, un_dirty.
  destruct (destination_at s (m_clients m)); [|done]. destruct (observe _ _ _ _). apply un_feed.
Qed.

Lemma expire_blind (now : Z) (fl : list InFlight) (p : Prober) : blind put (expire now fl p).
Proof.
  revert p. induction fl as [|f fl IH]; intros p x m w; cbn -[applySample]; [done|].
  destruct (_ <=? _); [|done]. rewrite applySample_blind.
  destruct (applySample _ _ _ _ _) as [[p1 m1] w1]. apply IH.
Qed.

Lemma sendProbe_blind (now : Z) (p : Prober) : blind put (sendProbe p now).
Proof.
  intros x m w. unfold sendProbe. rewrite un_socket, un_error.
  destruct (_ || _); [apply applySample_blind|]. cbv zeta. rewrite un_cookie.
  destruct (send _ _ _ _ _ _ _) as [packet [result error]].
  destruct result; [done | apply applySample_blind..].
Qed.
End Blind.

Lemma tickProber_blind (now : Z) (p : Prober) : blind put_probers (tickProber now p).
Proof.
  intros ps m w. unfold tickProber. rewrite (expire_blind put_probers).
  destruct (expire _ _ _ _ _) as [[p1 m1] w1].
  assert (ask_resolver now p1 (put_probers ps m1) =
    let '(p2, m2) := ask_resolver now p1 m1 in (p2, put_probers ps m2)) as ->
    by (unfold ask_resolver; by destruct (_ && _)).
  destruct (ask_resolver now p1 m1) as [p2 m2]. destruct (send_due now p2); [|done].
  rewrite (sendProbe_blind put_probers). by destruct (sendProbe p2 now m2 w1) as [[p3 m3] w3].
Qed.

Lemma tickProbers_blind (now : Z) (l : list Prober) : blind put_probers (tickProbers now l).
Proof.
  induction l as [|p l IH]; intros ps m w; cbn [tickProbers]; [done|].
  rewrite tickProber_blind. destruct (tickProber now p m w) as [[p1 m1] w1]. rewrite IH.
  by destruct (tickProbers now l m1 w1) as [[l1 m2] w2].
Qed.

Lemma tickProber_probers (now : Z) (p p' : Prober) (m m' : Monitor) (w w' : World) :
  tickProber now p m w = (p', m', w') -> m_probers m' = m_probers m.
Proof.
  intros E. pose proof (tickProber_blind now p (m_probers m) m w) as Hb. rewrite E in Hb.
  assert (put_probers (m_probers m) m = m) as Em by by destruct m.
  rewrite Em, E in Hb. injection Hb as Hb. rewrite Hb. reflexivity.
Qed.

Lemma tick_in_order_spec (now : Z) (ps done_ : list Prober) (m : Monitor) (w : World) :
  m_probers m = done_ ++ ps ->
  tick_in_order now (seq (length done_) (length ps)) (m, w) =
  let '(ps', m', w') := tickProbers now ps m w in (m' <| m_probers := done_ ++ ps' |>, w').
Proof.
  unfold tick_in_order. revert done_ m w.
  induction ps as [|p ps IH]; intros done_ m w Em;
    cbn [length seq fold_left tickProbers fst snd].
  { rewrite <- Em. by destruct m. }
  assert (tick_at now (length done_) m w =
    let '(p1, m1, w1) := tickProber now p m w in
    (m1 <| m_probers := (done_ ++ [p1]) ++ ps |>, w1)) as ->.
  { unfold tick_at. rewrite Em, list_lookup_middle by done.
    destruct (tickProber now p m w) as [[p1 m1] w1] eqn:E.
    rewrite (tickProber_probers _ _ _ _ _ _ _ E), Em, <- (assoc_L (++)).
    by rewrite <- (Nat.add_0_r (length done_)), insert_app_r. }
  destruct (tickProber now p m w) as [[p1 m1] w1].
  assert (S (length done_) = length (done_ ++ [p1])) as -> by (rewrite length_app; cbn; lia).
  cbn [fst snd]. rewrite IH by done.
  change (m1 <| m_probers := _ |>) with (put_probers ((done_ ++ [p1]) ++ ps) m1).
  rewrite tickProbers_blind.
  destruct (tickProbers now ps m1 w1) as [[ps2 m2] w2]. by rewrite <- (assoc_L (++)).
Qed.

(** No iteration sees or disturbs another prober. *)
Lemma tick_is_in_order (now : Z) (m : Monitor) (w : World) :
  tick now m w = tick_in_order now (seq 0 (length (m_probers m))) (m, w).
Proof.
  pose proof (tick_in_order_spec now (m_probers m) [] m w eq_refl) as E.
  cbn [length] in E. rewrite E. unfold tick. by destruct (tickProbers now (m_probers m) m w) as [[ps m1] w1].
Qed.
(** ** Properties *)

(** C7: one tick at [now], however late, accounts for every probe: each prober keeps its
    invariant and its configuration, its queue is exactly the probes whose maximum wait is not
    over, in order, followed by the new probe if one went out, and one probe more has been
    judged or is outstanding exactly when one was due, so that no probe is ever lost or counted
    twice, whatever the kernel answered to the sends. *)
Theorem tick_accounts_for_probes (now : Z) (m m' : Monitor) (w w' : World) :
  clock_ok now -> Forall (prober_ok now) (m_probers m) -> Forall counters_ok (m_probers m) ->
  tick now m w = (m', w') ->
  Forall2 (ticked now) (m_probers m) (m_probers m') /\ same_wiring m m'.
Proof. intros Hc Hok Hcnt Ht. by apply tick_spec in Ht as (? & ? & _). Qed.

(** C9: a tick sends each prober at most one packet - exactly one if a probe is due and there is an
    address and an open socket for it: to that address, with the uid of the prober, its next
    sequence number and the time of the tick, in the order of the probers, and nothing else - and
    never leaves a slot in the past: the slot after a used one is one interval later when the tick
    was less than one interval late, so the schedule does not drift, and otherwise one interval
    from now, so that there is no burst of catch-up probes after a suspend. *)
Theorem tick_keeps_schedule (now : Z) (m m' : Monitor) (w w' : World) :
  clock_ok now -> Forall (prober_ok now) (m_probers m) -> Forall counters_ok (m_probers m) ->
  tick now m w = (m', w') ->
  w_packets w' = w_packets w ++
    concat (map (fun p =>
      if due now p && sendable m p then
        [(p_endpoint p,
          echo_request (socket_for p m) (p_uid p) (p_sequence p + 1) now (m_cookie m))]
      else []) (m_probers m)) /\
  Forall2 (fun p p' =>
    if due now p then
      now < p_nextSendUs p' <= now + kSendSlackUs + p_intervalUs p /\
      p_nextSendUs p' =
        (if now <? p_nextSendUs p + p_intervalUs p then p_nextSendUs p else now) + p_intervalUs p
    else p_nextSendUs p' = p_nextSendUs p) (m_probers m) (m_probers m').
Proof.
  intros Hc Hok Hcnt Ht. apply tick_spec in Ht as (Hf & _ & Hw & _); [|done..].
  split; [rewrite Hw; do 2 f_equal; apply map_ext; intros p; unfold tick_packets, probe_packets;
          by destruct (due now p)|].
  clear Hcnt Hw. induction Hf as [|p p' ps ps' Hp _ IH]; [done|].
  apply Forall_cons in Hok as [Hokp Hokps]. constructor; [|by apply IH].
  rewrite (tk_next _ _ _ Hp). destruct (due now p) eqn:Ed; [|done].
  apply andb_true_iff in Ed as [_ Hdue%Z.leb_le].
  pose proof (pok_interval _ _ Hokp). pose proof (pok_next _ _ Hokp).
  split; [by apply next_send_range|]. unfold clock_ok, kSendSlackUs, next_send in *.
  rewrite !u64_small by lia.
  destruct (Z.leb_spec (p_nextSendUs p + p_intervalUs p) now),
    (Z.ltb_spec now (p_nextSendUs p + p_intervalUs p)); lia.
Qed.

(** C10: every destination hears of every probe its prober gives up on, exactly once, and of no
    other: during a tick all subscribers of a prober observe the same lost probes, as many as
    the prober counted, and a destination without a prober does not change. *)
Theorem tick_tells_subscribers (now : Z) (m m' : Monitor) (w w' : World) :
  NoDup (concat (map p_subscribers (m_probers m))) -> tick now m w = (m', w') ->
  (forall s, s ∉ concat (map p_subscribers (m_probers m)) ->
     destination_at s (m_clients m') = destination_at s (m_clients m)) /\
  (forall i p p', m_probers m !! i = Some p -> m_probers m' !! i = Some p' ->
     exists samples, Forall lost samples /\
       u64 (p_sent p') = u64 (p_sent p + Z.of_nat (length samples)) /\
       forall s, s ∈ p_subscribers p -> destination_at s (m_clients m') =
         (fun d => observe_all d samples) <$> destination_at s (m_clients m)).
Proof.
  intros Hnd Ht. unfold tick in Ht.
  destruct (tickProbers _ _ _ _) as [[ps m1] w1] eqn:E. injection Ht as <- <-.
  by apply tickProbers_feed in E as (_ & Hout & Hin).
Qed.

End Tick.
