(* ===== verification/Replies.v ===== *)
(** * Replies and resolutions

    What [Monitor::handleReplies] and [Monitor::handleResolutions] do. *)

From S2P Require Import Prelude Health Pinger Resolver Monitor Probing Ticking.

(** ** Lemmas *)

(** *** Replies *)

Lemma inFlight_distinct (t : Z) (p : Prober) (j k : nat) (f g : InFlight) :
  prober_ok t p -> p_inFlight p !! j = Some f -> p_inFlight p !! k = Some g ->
  f_seq f = f_seq g -> j = k.
Proof.
  intros Hok Hj Hk E. destruct (decide (j = k)) as [|Hne]; [done|]. exfalso.
  pose proof (pok_seqs _ _ Hok) as Hs.
  assert (j < k \/ k < j)%nat as [Hlt|Hlt] by lia.
  - pose proof (StronglySorted_lookup _ _ j k f g Hs Hj Hk Hlt) as Hfg. cbn in Hfg. lia.
  - pose proof (StronglySorted_lookup _ _ k j g f Hs Hk Hj Hlt) as Hfg. cbn in Hfg. lia.
Qed.

Lemma find_answered (t : Z) (p : Prober) (k : nat) (f : InFlight) :
  prober_ok t p -> p_inFlight p !! k = Some f ->
  list_find (fun g => f_seq g = f_seq f) (p_inFlight p) = Some (k, f).
Proof.
  intros Hok Hk. apply list_find_Some. split_and!; [done..|]. intros j g Hj Hlt E.
  pose proof (inFlight_distinct t p j k g f Hok Hj Hk E). lia.
Qed.

Lemma filter_inFlight_ok (t : Z) (p : Prober) (P : InFlight -> Prop) `{forall x, Decision (P x)} :
  prober_ok t p -> prober_ok t (p <| p_inFlight := filter P (p_inFlight p) |>).
Proof.
  intros []. constructor; cbn; auto using StronglySorted_filter, Forall_filter.
  etrans; [|exact pok_room]. apply inj_le, length_filter.
Qed.

Lemma after_reply_ok (t : Z) (p : Prober) (f : InFlight) :
  prober_ok t p -> p_sent p < u64_max -> prober_ok t (after_reply p f).
Proof.
  intros Hok Hs. apply count_sample_ok; [done|]. by apply set_lastError_ok, filter_inFlight_ok.
Qed.

(** The two ways [handleReply] goes. *)
Lemma handleReply_cases (now : Z) (reply : Reply) (m : Monitor) (w : World) :
  handleReply now reply m w = (m, w) \/
  exists i k p f, answered_probe reply m i k p f.
Proof.
  unfold handleReply, answered_probe. destruct (_ !! _) as [i|]; [|by left].
  destruct (m_probers m !! i) as [p|] eqn:Ep; [|by left].
  destruct (list_find _ _) as [[k f]|] eqn:Ef; [|by left].
  destruct (matches _ _ _) eqn:Em; [|by left].
  apply list_find_Some in Ef as (Hk & Hf & _). right. by exists i, k, p, f.
Qed.

Lemma handleReply_answered (now : Z) (reply : Reply) (m : Monitor) (w : World) (i k : nat)
    (p : Prober) (f : InFlight) :
  0 <= now < 2 ^ 64 -> 0 <= r_sentUs reply -> prober_ok now p -> answered_probe reply m i k p f ->
  exists p' m' w',
    applySample (p <| p_inFlight := filter (fun g => g <> f) (p_inFlight p) |>
                   <| p_lastError := [] |>) true (Z.max 0 (now - r_sentUs reply)) m w = (p', m', w') /\
    p' = after_reply p f /\
    handleReply now reply m w = (m' <| m_probers := <[i := p']> (m_probers m) |>, w').
Proof.
  intros Hnow Hr Hok (Hi & Hp & Hk & Hseq & Hm).
  destruct (applySample _ _ _ _ _) as [[p' m'] w'] eqn:Ea. exists p', m', w'.
  split; [done|]. pose proof Ea as Ea'.
  apply applySample_frame in Ea' as (-> & [Hf _] & _). split; [done|].
  unfold handleReply. rewrite Hi, Hp, <- Hseq, (find_answered now p k f) by done. rewrite Hm. cbn [negb].
  rewrite (delete_filter _ _ f) by
    (try done; intros j Hj; by eapply (inFlight_distinct now p j k f f)).
  assert ((if r_sentUs reply <? now then u64 (now - r_sentUs reply) else 0)
    = Z.max 0 (now - r_sentUs reply)) as ->.
  { destruct (Z.ltb_spec (r_sentUs reply) now); [rewrite u64_small by lia|]; lia. }
  rewrite Ea. f_equal. by rewrite Hf.
Qed.

Lemma length_delete_filter (p : Prober) (t : Z) (k : nat) (f : InFlight) :
  prober_ok t p -> p_inFlight p !! k = Some f ->
  Z.of_nat (length (filter (fun g => g <> f) (p_inFlight p))) =
  Z.of_nat (length (p_inFlight p)) - 1.
Proof.
  intros Hok Hk. rewrite <- (delete_filter _ k f) by
    (try done; intros j Hj; by eapply (inFlight_distinct t p j k f f)).
  pose proof (lookup_lt_Some _ _ _ Hk). rewrite length_delete by done. lia.
Qed.

Lemma count_received (p : Prober) :
  0 <= p_received p <= p_sent p -> p_sent p < u64_max ->
  p_sent (count_sample true p) = p_sent p + 1 /\
  p_received (count_sample true p) = p_received p + 1.
Proof. unfold u64_max. intros. cbn. rewrite !u64_small; lia. Qed.

Lemma after_reply_replied (now : Z) (p : Prober) (k : nat) (f : InFlight) :
  prober_ok now p -> counters_ok p -> p_inFlight p !! k = Some f ->
  replied now p (after_reply p f).
Proof.
  intros Hok [Hc _] Hk.
  assert (p_sent p < u64_max) as Hs by (unfold u64_max in *; lia).
  pose proof (length_delete_filter p now k f Hok Hk) as Hlen.
  set (p0 := p <| p_inFlight := filter (fun g => g <> f) (p_inFlight p) |> <| p_lastError := [] |>).
  destruct (count_received p0) as [Es Er]; [by destruct Hok | done |].
  change (after_reply p f) with (count_sample true p0). constructor.
  - by apply after_reply_ok.
  - reflexivity.
  - apply sublist_filter.
  - unfold verdicts. rewrite Es. change (p_inFlight (count_sample true p0)) with
      (filter (fun g => g <> f) (p_inFlight p)). change (p_sent p0) with (p_sent p). lia.
  - rewrite Es, Er. cbn. lia.
Qed.

Lemma replied_refl (now : Z) (p : Prober) : prober_ok now p -> replied now p p.
Proof. intros Hok. constructor; [done | by destruct p | done | done | lia]. Qed.

Lemma replied_trans (now : Z) (p p' p'' : Prober) :
  replied now p p' -> replied now p' p'' -> replied now p p''.
Proof.
  intros [_ S1 Q1 V1 R1] [O2 S2 Q2 V2 R2]. constructor; [done | | by etrans | lia | lia].
  rewrite S2 at 1. rewrite S1 at 1. reflexivity.
Qed.

Lemma replied_erase (now : Z) (p p' : Prober) : replied now p p' -> erase_prober p' = erase_prober p.
Proof. intros [_ E _ _ _]. rewrite E. reflexivity. Qed.

Lemma replied_counters (now : Z) (p p' : Prober) :
  replied now p p' -> counters_ok p -> counters_ok p'.
Proof.
  intros [_ E _ V _] [H1 H2]. unfold counters_ok, verdicts in *.
  assert (p_sequence p' = p_sequence p) as -> by (by rewrite E). split; [lia | done].
Qed.

Lemma handleReply_handled (now : Z) (reply : Reply) (m m' : Monitor) (w w' : World) :
  0 <= now < 2 ^ 64 -> 0 <= r_sentUs reply ->
  Forall (prober_ok now) (m_probers m) -> Forall counters_ok (m_probers m) ->
  handleReply now reply m w = (m', w') -> replies_handled now m m' /\ w_packets w' = w_packets w.
Proof.
  intros Hnow Hr Hok Hcnt Hh.
  assert (forall l, Forall (prober_ok now) l -> Forall2 (replied now) l l) as Hrefl.
  { induction 1; constructor; eauto using replied_refl. }
  destruct (handleReply_cases now reply m w) as [E | (i & k & p & f & Ha)].
  { rewrite E in Hh. injection Hh as <- <-. unfold replies_handled, same_wiring. eauto 10. }
  pose proof Ha as (_ & Hi & Hk & _).
  assert (prober_ok now p /\ counters_ok p) as [Hokp Hcp].
  { rewrite Forall_lookup in Hok, Hcnt. eauto. }
  destruct (handleReply_answered now reply m w i k p f) as (p' & m1 & w1 & Eq & -> & E); try done.
  rewrite E in Hh. injection Hh as <- <-.
  apply applySample_frame in Eq as (_ & [Hf He] & Hres & Hw).
  pose proof (after_reply_replied now p k f Hokp Hcp Hk) as Hrep.
  split; [|done]. split_and!; [| | done].
  - cbn. rewrite <- (list_insert_id (m_probers m) i p Hi) at 1.
    apply Forall2_insert; [by apply Hrefl | done].
  - unfold same_wiring. cbn. rewrite Hf. cbn. split_and!; try done.
    eapply map_insert_same; [done|]. by eapply replied_erase.
Qed.

Lemma replied_all (now : Z) (ps ps' : list Prober) :
  Forall2 (replied now) ps ps' -> Forall counters_ok ps ->
  Forall (prober_ok now) ps' /\ Forall counters_ok ps'.
Proof.
  induction 1 as [|p p' ps ps' Hp _ IH]; [done|]. intros [Hc Hcs]%Forall_cons.
  destruct (IH Hcs). split; apply Forall_cons; split; try done; [by destruct Hp|].
  by eapply replied_counters.
Qed.

Lemma handleReplyList_handled (now : Z) (replies : list Reply) (m m' : Monitor) (w w' : World) :
  0 <= now < 2 ^ 64 -> Forall (fun r => 0 <= r_sentUs r) replies ->
  Forall (prober_ok now) (m_probers m) -> Forall counters_ok (m_probers m) ->
  handleReplyList now replies m w = (m', w') ->
  replies_handled now m m' /\ w_packets w' = w_packets w.
Proof.
  intros Hnow Hall. revert m w. induction Hall as [|r replies Hr _ IH]; intros m w Hok Hcnt Hh;
    cbn [handleReplyList] in Hh.
  { injection Hh as <- <-. unfold replies_handled, same_wiring. split_and!; try done.
    clear Hcnt. induction Hok; constructor; eauto using replied_refl. }
  destruct (handleReply now r m w) as [m1 w1] eqn:E1.
  apply handleReply_handled in E1 as ((F1 & W1 & R1) & P1); try done.
  destruct (replied_all now _ _ F1 Hcnt) as [Hok1 Hcnt1].
  apply IH in Hh as ((F2 & W2 & R2) & P2); try done.
  split; [|congruence]. split_and!; [| | congruence].
  - eapply Forall2_trans; [apply replied_trans | exact F1 | exact F2].
  - unfold same_wiring in *. intuition congruence.
Qed.

Lemma receive_sentUs (s : IcmpSocket) (cookie : Z) (batches : list (list Datagram)) (out : list Reply) :
  Forall (fun r => 0 <= r_sentUs r) out ->
  Forall (fun r => 0 <= r_sentUs r) (snd (receive s cookie batches out)).
Proof.
  unfold receive. destruct (_ <? _); [done|]. revert out.
  assert (forall b out, Forall (fun r => 0 <= r_sentUs r) out ->
    Forall (fun r => 0 <= r_sentUs r) (out ++ omap (accept s cookie) b)) as Happ.
  { intros b out Hout. apply Forall_app. split; [done|]. apply Forall_forall.
    intros r (g & Hg & Ha)%list_elem_of_omap. unfold accept, read_echo_reply in Ha.
    repeat case_match; simplify_eq; cbn. apply le_value_range. }
  induction batches as [|[|g b] rest IH]; intros out Hout; [done..|].
  cbn [receive_batches]. destruct (_ <? _)%nat; [by apply Happ|].
  specialize (IH (out ++ omap (accept s cookie) (g :: b)) (Happ _ _ Hout)).
  by destruct (receive_batches _ _ _ _).
Qed.

(** *** Resolutions *)

Section Resolutions.
Variable now : Z.
Hypothesis now_ok : clock_ok now.

Lemma resolved_erase (result : Result) (p : Prober) :
  erase_prober (fst (resolved now result p)) = erase_prober p.
Proof. unfold resolved. by destruct (x_ok result). Qed.

Lemma resolved_ok (t : Z) (result : Result) (p : Prober) :
  prober_ok t p -> prober_ok t (fst (resolved now result p)).
Proof.
  unfold resolved. intros []. destruct (x_ok result); constructor; cbn; auto; try lia.
  rewrite i32_small; lia.
Qed.

(** Saturating the counter and the shift does not show. *)
Lemma resolve_backoff_exact (n : Z) :
  1 <= n ->
  resolve_backoff (Z.min n 16) = Z.min (kResolveBackoffBaseUs * 2 ^ (n - 1)) kResolveBackoffMaxUs.
Proof.
  intros Hn. unfold resolve_backoff. rewrite Z.shiftl_mul_pow2 by lia.
  unfold kResolveBackoffBaseUs, kResolveBackoffMaxUs.
  destruct (Z.le_gt_cases n 7).
  - replace (Z.min (Z.min n 16 - 1) 6) with (n - 1) by lia. done.
  - replace (Z.min (Z.min n 16 - 1) 6) with 6 by lia.
    assert (2 ^ 6 <= 2 ^ (n - 1)) by (apply Z.pow_le_mono_r; lia). lia.
Qed.

Lemma failures_count (results : list Result) (p : Prober) :
  Forall (fun r => x_ok r = false) results -> 0 <= p_resolveFailures p <= 16 ->
  let p' := fold_left (fun p r => fst (resolved now r p)) results p in
  p_resolveFailures p' = Z.min (p_resolveFailures p + Z.of_nat (length results)) 16 /\
  p_endpoint p' = p_endpoint p.
Proof.
  intros Hall; revert p. induction Hall as [|r results Hr _ IH]; intros p Hp; cbn [fold_left].
  { split; [cbn; lia | done]. }
  assert (p_resolveFailures (fst (resolved now r p)) = Z.min (p_resolveFailures p + 1) 16 /\
    p_endpoint (fst (resolved now r p)) = p_endpoint p) as [E1 E2].
  { unfold resolved. rewrite Hr. cbn. by rewrite i32_small by lia. }
  destruct (IH (fst (resolved now r p))) as [-> ->]; [lia|].
  rewrite E1, E2. split; [cbn [length]; lia | done].
Qed.

Lemma uids_erase (byUid : gmap Z nat) (ps ps' : list Prober) :
  map erase_prober ps' = map erase_prober ps -> uids_ok byUid ps -> uids_ok byUid ps'.
Proof.
  intros E Hu u i. rewrite (Hu u i).
  pose proof (f_equal (lookup i) E) as Ei.
  rewrite !list_lookup_fmap in Ei.
  destruct (ps !! i) as [p|], (ps' !! i) as [p'|]; cbn in Ei; try done.
  apply (f_equal (fmap p_uid)) in Ei. injection Ei as E'. cbn in E'. split; intros (q & [= <-] & Eq).
  - exists p'. split; [done | congruence].
  - exists p. split; [done | congruence].
Qed.

Lemma handleResolution_spec (m : Monitor) (result : Result) :
  uids_ok (m_proberByUid m) (m_probers m) ->
  let m' := handleResolution now m result in
  m' = m <| m_probers := m_probers m' |> <| m_stateDirty := m_stateDirty m' |> /\
  m_probers m' = map (fun p => if x_uid result =? p_uid p then fst (resolved now result p) else p)
                   (m_probers m).
Proof.
  intros Hu. unfold handleResolution. destruct (_ !! _) as [i|] eqn:Ei.
  - pose proof (proj1 (Hu _ _) Ei) as (p & Hp & Eu). rewrite Hp.
    destruct (resolved now result p) as [p' dirty] eqn:Er. cbn. split; [by destruct m|].
    apply list_eq. intros j. rewrite list_lookup_fmap.
    destruct (decide (i = j)) as [<-|Hne].
    + rewrite list_lookup_insert_eq by (by eapply lookup_lt_Some). rewrite Hp. cbn.
      by rewrite Eu, Z.eqb_refl, Er.
    + rewrite list_lookup_insert_ne by done. destruct (m_probers m !! j) as [q|] eqn:Hq; [|done].
      cbn. destruct (Z.eqb_spec (x_uid result) (p_uid q)) as [E|]; [|done].
      assert (m_proberByUid m !! x_uid result = Some j) by (apply Hu; by exists q). congruence.
  - split; [by destruct m|]. apply list_eq. intros j. rewrite list_lookup_fmap.
    destruct (m_probers m !! j) as [q|] eqn:Hq; [|done].
    cbn. destruct (Z.eqb_spec (x_uid result) (p_uid q)) as [E|]; [|done].
    assert (m_proberByUid m !! x_uid result = Some j) by (apply Hu; by exists q). congruence.
Qed.

Lemma resolved_uid (r : Result) (p : Prober) : p_uid (fst (resolved now r p)) = p_uid p.
Proof. unfold resolved. by destruct (x_ok r). Qed.

Lemma resolved_all_cons (r : Result) (results : list Result) (p : Prober) :
  resolved_all now (r :: results) p =
  resolved_all now results (if x_uid r =? p_uid p then fst (resolved now r p) else p).
Proof.
  unfold resolved_all. rewrite filter_cons.
  destruct (Z.eqb_spec (x_uid r) (p_uid p)) as [E|E].
  - rewrite decide_True by done. cbn [fold_left]. by rewrite resolved_uid.
  - by rewrite decide_False.
Qed.

Lemma handleResolutions_spec (m : Monitor) (results : list Result) :
  uids_ok (m_proberByUid m) (m_probers m) ->
  let m' := fold_left (handleResolution now) results m in
  m' = m <| m_probers := m_probers m' |> <| m_stateDirty := m_stateDirty m' |> /\
  m_probers m' = map (resolved_all now results) (m_probers m).
Proof.
  revert m; induction results as [|r results IH]; intros m Hu.
  { cbn [fold_left]. split; [by destruct m|]. symmetry. apply list_fmap_id. }
  pose proof (handleResolution_spec m r Hu) as [E1 P1]. cbn [fold_left].
  set (m1 := handleResolution now m r) in *.
  assert (uids_ok (m_proberByUid m1) (m_probers m1)) as Hu1.
  { rewrite E1. cbn. eapply uids_erase; [|done]. rewrite P1, map_map. apply map_ext. intros p.
    destruct (_ =? _); [apply resolved_erase | done]. }
  destruct (IH m1 Hu1) as [E2 P2]. split.
  - rewrite E2 at 1. rewrite E1. reflexivity.
  - rewrite P2, P1, map_map. apply map_ext. intros p. by rewrite resolved_all_cons.
Qed.

End Resolutions.

Lemma handleReplies_handled (now : Z) (batches4 batches6 : list (list Datagram))
    (m m' : Monitor) (w w' : World) :
  clock_ok now -> Forall (prober_ok now) (m_probers m) -> Forall counters_ok (m_probers m) ->
  handleReplies now batches4 batches6 m w = (m', w') ->
  replies_handled now m m' /\ w_packets w' = w_packets w.
Proof.
  unfold clock_ok, handleReplies. intros Hnow Hok Hcnt Hh.
  destruct (receive (m_socket4 m) _ _ _) as [n4 r4] eqn:E4.
  destruct (receive (m_socket6 m) _ _ _) as [n6 r6] eqn:E6.
  apply handleReplyList_handled in Hh; [done | lia | | done..].
  change r6 with (snd (n6, r6)). rewrite <- E6. apply receive_sentUs.
  change r4 with (snd (n4, r4)). rewrite <- E4. by apply receive_sentUs.
Qed.

Lemma handleResolutions_effect (now : Z) (m : Monitor) :
  clock_ok now -> uids_ok (m_proberByUid m) (m_probers m) ->
  let '(results, resolver) := collect (m_resolver m) in
  let m' := handleResolutions now m in
  m_probers m' = map (resolved_all now results) (m_probers m) /\ m_resolver m' = resolver /\
  m_clients m' = m_clients m /\ same_wiring m m' /\
  (Forall (prober_ok now) (m_probers m) -> Forall (prober_ok now) (m_probers m')).
Proof.
  intros Hc Hu. unfold handleResolutions.
  destruct (collect (m_resolver m)) as [results resolver].
  set (m1 := m <| m_resolver := resolver |>).
  destruct (handleResolutions_spec now m1 results Hu) as [E P].
  cbv beta iota zeta. set (m' := fold_left _ _ _) in *. clearbody m'.
  assert (forall p, erase_prober (resolved_all now results p) = erase_prober p) as Her.
  { intros p. unfold resolved_all. generalize (filter (fun r => x_uid r = p_uid p) results).
    intros l. revert p. induction l as [|r l IH]; intros p; [done|]. cbn [fold_left].
    by rewrite IH, resolved_erase. }
  split_and!; [done | by rewrite E | by rewrite E | |].
  - unfold same_wiring. rewrite P, map_map. rewrite E. cbn. split_and!; try done.
    by apply map_ext.
  - rewrite P. intros Hok. apply Forall_fmap. apply (Forall_impl _ _ _ Hok). intros p Hp. cbn.
    unfold resolved_all. generalize (filter (fun r => x_uid r = p_uid p) results).
    intros l. revert p Hp. induction l as [|r l IH]; intros p Hp; [done|]. cbn [fold_left].
    apply IH. by apply resolved_ok.
Qed.

(** ** Properties *)

(** C8: the first reply to a probe, and only the first, is counted: it takes exactly that probe
    out of the queue of its prober, one probe more has been answered, every subscriber of the
    prober (and nobody else) observes one reply with the round-trip time since the probe was
    sent, and the same reply again, whenever it comes, changes nothing. *)
Theorem reply_counted_once (now : Z) (reply : Reply) (m m' : Monitor) (w w' : World) (i k : nat)
    (p : Prober) (f : InFlight) :
  clock_ok now -> 0 <= r_sentUs reply -> prober_ok now p -> NoDup (p_subscribers p) ->
  answered_probe reply m i k p f -> handleReply now reply m w = (m', w') ->
  m_probers m' = <[i := after_reply p f]> (m_probers m) /\
  fed (p_subscribers p)
    [mkSample true (Z.max 0 (now - r_sentUs reply)) (w_realClock w (w_realReads w))] m m' /\
  forall now' w0, handleReply now' reply m' w0 = (m', w0).
Proof.
  unfold clock_ok. intros Hnow Hr Hok Hnd Ha Hh.
  destruct (handleReply_answered now reply m w i k p f) as (p' & m1 & w1 & Eq & -> & E);
    [lia | done.. |].
  rewrite E in Hh. injection Hh as <- <-. split_and!; [done | |].
  - apply applySample_fed in Eq; done.
  - intros now' w0. pose proof Ha as (Hu & Hp & Hk & Hs & _).
    apply applySample_frame in Eq as (_ & [Hf _] & _).
    unfold handleReply. rewrite Hf. cbn -[after_reply]. rewrite Hu.
    rewrite list_lookup_insert_eq by (by eapply lookup_lt_Some).
    destruct (list_find _ _) as [[j g]|] eqn:Eg; [|done]. exfalso.
    apply list_find_Some in Eg as (Hj & Hgs & _). cbn in Hj.
    assert (g ∈ filter (fun g => g <> f) (p_inFlight p)) as Hg by (by eapply list_elem_of_lookup_2).
    apply list_elem_of_filter in Hg as [Hne (l & Hl)%list_elem_of_lookup].
    pose proof (inFlight_distinct now p l k g f Hok Hl Hk) as Elk. rewrite Elk in Hl by congruence.
    congruence.
Qed.

(** Any other reply is ignored altogether: one with an unknown uid, with a sequence number
    that is not in flight (a duplicate, or an answer after the probe was given up on), or from
    an address other than the one probed. *)
Lemma unexpected_reply_ignored (now : Z) (reply : Reply) (m : Monitor) (w : World) :
  (forall i k p f, ~ answered_probe reply m i k p f) -> handleReply now reply m w = (m, w).
Proof.
  intros Hno. destruct (handleReply_cases now reply m w) as [E | (i & k & p & f & Ha)]; [done|].
  by apply Hno in Ha.
Qed.

(** C11: nothing that arrives on the sockets can break the monitor: whatever datagrams the two
    sockets deliver, every prober keeps its invariant, its queue only shrinks and each probe
    taken out of it is counted as one answered probe, and the configuration, the schedule and
    the endpoints are untouched. *)
Theorem replies_preserve_probers (now : Z) (batches4 batches6 : list (list Datagram))
    (m m' : Monitor) (w w' : World) :
  clock_ok now -> Forall (prober_ok now) (m_probers m) -> Forall counters_ok (m_probers m) ->
  handleReplies now batches4 batches6 m w = (m', w') ->
  replies_handled now m m' /\ w_packets w' = w_packets w.
Proof. apply handleReplies_handled. Qed.

(** C17: every result of the resolver reaches the prober it was asked for and no other, in the
    order the lookups were completed; nothing else changes but the dirty flag, and the probers
    keep their invariant and configuration. *)
Theorem resolutions_reach_their_prober (now : Z) (m : Monitor) :
  clock_ok now -> uids_ok (m_proberByUid m) (m_probers m) ->
  let '(results, resolver) := collect (m_resolver m) in
  let m' := handleResolutions now m in
  m_probers m' = map (resolved_all now results) (m_probers m) /\ m_resolver m' = resolver /\
  m_clients m' = m_clients m /\ same_wiring m m' /\
  (Forall (prober_ok now) (m_probers m) -> Forall (prober_ok now) (m_probers m')).
Proof. apply handleResolutions_effect. Qed.

(** C37: a name that keeps failing to resolve is retried after 5 s, then after twice as long
    each time, and at least every 300 s; however many failures there have been, the counter and
    the shift saturate without overflowing, and the address resolved last stays in use. *)
Theorem resolution_backoff (now : Z) (p : Prober) (results : list Result) (r : Result) :
  clock_ok now -> p_resolveFailures p = 0 ->
  Forall (fun x => x_ok x = false) results -> x_ok r = false ->
  let p' := fst (resolved now r (fold_left (fun p x => fst (resolved now x p)) results p)) in
  p_nextResolveUs p' =
    now + Z.min (kResolveBackoffBaseUs * 2 ^ Z.of_nat (length results)) kResolveBackoffMaxUs /\
  p_endpoint p' = p_endpoint p /\ p_resolving p' = false.
Proof.
  intros Hc H0 Hall Hr. destruct (failures_count now results p Hall) as [Ef Ee]; [lia|].
  rewrite H0 in Ef. set (q := fold_left _ results p) in *.
  cbv zeta. unfold resolved. rewrite Hr. cbn. split_and!; [|done..].
  rewrite Ef, i32_small by lia.
  replace (Z.min (Z.min (0 + Z.of_nat (length results)) 16 + 1) 16)
    with (Z.min (Z.of_nat (length results) + 1) 16) by lia.
  rewrite resolve_backoff_exact by lia. unfold clock_ok in Hc.
  replace (Z.of_nat (length results) + 1 - 1) with (Z.of_nat (length results)) by lia.
  apply u64_small. unfold kResolveBackoffMaxUs, kResolveBackoffBaseUs.
  pose proof (Z.pow_pos_nonneg 2 (Z.of_nat (length results))). lia.
Qed.
