(* ===== verification/Config.v ===== *)
(** * Configuration: clients, their destinations and the probers they share

    [Monitor::reloadClients], [rebuildProbers], [handleInotify], [clientCheckIntervalUs] and
    [dropExpiredClients] (monitor.cpp).  What reading one configuration file gives is a
    parameter here; ClientFile.v defines it. *)

From S2P Require Import Prelude Util Health Pinger Resolver Monitor Probing.

(** ** Operations *)

Definition unit_separator : byte := x1f.

Definition proberKey (host : str) (intervalUs timeoutUs : Z) : str :=
  host ++ [unit_separator] ++ to_string intervalUs ++ [unit_separator] ++ to_string timeoutUs.

(** *** Reloading *)

(** [operator<] of [std::string]: lexicographic, by unsigned bytes. *)
Fixpoint str_ltb (a b : str) : bool :=
  match a, b with
  | _, [] => false
  | [], _ :: _ => true
  | x :: a, y :: b => (uc x <? uc y) || ((uc x =? uc y) && str_ltb a b)
  end.

(** The order [std::sort] sorts the clients by; their ids are file names, so no two are equal
    and the result does not depend on the algorithm. *)
Definition client_le (a b : Client) : Prop := str_ltb (c_id b) (c_id a) = false.

#[export] Instance client_le_dec : RelDecision client_le.
Proof. intros a b. unfold client_le. apply _. Defined.

(** The names [reloadClients] looks at, and the client id of a name. *)
Definition is_client_file (name : str) : bool :=
  negb (bool_decide (name = [])) && negb (bool_decide (head name = Some x2e))
  && hasSuffix name (lit ".json").

Definition client_id (name : str) : str := take (length name - 5) name.

(** The evaluated state of [old], on top of the configuration of [d]. *)
Definition carry_over (old d : Destination) : Destination :=
  d <| d_state := d_state old |> <| d_candidate := d_candidate old |>
    <| d_candidateStreak := d_candidateStreak old |> <| d_haveRtt := d_haveRtt old |>
    <| d_rttUs := d_rttUs old |> <| d_sent := d_sent old |> <| d_received := d_received old |>
    <| d_lastReplyRealUs := d_lastReplyRealUs old |>
    <| d_lastChangeRealUs := d_lastChangeRealUs old |>.

Definition carry_destination (previous : Client) (d : Destination) : Destination :=
  match List.find (fun old => bool_decide (d_id old = d_id d)
                              && bool_decide (d_address old = d_address d))
          (c_destinations previous) with
  | Some old => carry_over old d
  | None => d
  end.

Definition carry_client (clients : list Client) (client : Client) : Client :=
  match List.find (fun c => bool_decide (c_id c = c_id client)) clients with
  | Some previous =>
      client <| c_destinations := map (carry_destination previous) (c_destinations client) |>
  | None => client
  end.

(** *** Probers *)

(** Every destination of every client, in the order of the two loops. *)
Definition slots (clients : list Client) : list Subscriber :=
  concat (imap (fun c client => imap (fun d _ => mkSubscriber c d) (c_destinations client)) clients).

(** The local variables of [rebuildProbers] that its loops change. *)
Record Rebuild := mkRebuild {
  b_clients : list Client;
  b_probers : list Prober;
  b_currentByKey : gmap str nat;
  b_consumed : list bool;
  b_nextUid : Z
}.

#[export] Instance eta_Rebuild : Eta Rebuild := fun r =>
  mkRebuild (b_clients r) (b_probers r) (b_currentByKey r) (b_consumed r) (b_nextUid r).

(** [previousByKey]: [emplace] keeps the first prober of a key. *)
Definition prober_key (p : Prober) : str := proberKey (p_host p) (p_intervalUs p) (p_timeoutUs p).

Fixpoint index_keys (i : nat) (ps : list Prober) (acc : gmap str nat) : gmap str nat :=
  match ps with
  | [] => acc
  | p :: ps =>
      index_keys (S i) ps
        (match acc !! prober_key p with Some _ => acc | None => <[prober_key p := i]> acc end)
  end.

Section Rebuild.
Context `{Libc}.

(** A prober for an address nobody probes yet. *)
Definition fresh_prober (address : str) (intervalUs timeoutUs uid now : Z) : Prober :=
  let prober := newProber <| p_host := address |> <| p_intervalUs := intervalUs |>
    <| p_timeoutUs := timeoutUs |> <| p_uid := uid |> <| p_nextSendUs := now |> in
  match parseNumericAddress address with
  | Some endpoint => prober <| p_numeric := true |> <| p_endpoint := endpoint |>
  | None => prober <| p_nextResolveUs := now |> <| p_lastError := lit "resolving" |>
  end.

(** The prober pushed for a key that has none yet: the previous one, state and all, or a fresh
    one. *)
Definition take_prober (previous : list Prober) (previousByKey : gmap str nat) (now : Z)
    (key : str) (address : str) (client : Client) (b : Rebuild) : Prober * Rebuild :=
  let fresh :=
    (fresh_prober address (c_intervalUs client) (c_timeoutUs client) (b_nextUid b) now,
     b <| b_nextUid := u32 (b_nextUid b + 1) |>) in
  match previousByKey !! key with
  | Some i =>
      match previous !! i, b_consumed b !! i with
      | Some p, Some false =>
          (p <| p_subscribers := [] |>, b <| b_consumed := <[i := true]> (b_consumed b) |>)
      | _, _ => fresh
      end
  | None => fresh
  end.

(** The prober of a key: its index, creating it when there is none. *)
Definition ensure_prober (previous : list Prober) (previousByKey : gmap str nat) (now : Z)
    (address : str) (client : Client) (b : Rebuild) : nat * Rebuild :=
  let key := proberKey address (c_intervalUs client) (c_timeoutUs client) in
  match b_currentByKey b !! key with
  | Some i => (i, b)
  | None =>
      let '(prober, b) := take_prober previous previousByKey now key address client b in
      let i := length (b_probers b) in
      (i, b <| b_probers := b_probers b ++ [prober] |>
            <| b_currentByKey := <[key := i]> (b_currentByKey b) |>)
  end.

(** The body of the inner loop. *)
Definition place (previous : list Prober) (previousByKey : gmap str nat) (now : Z) (b : Rebuild)
    (s : Subscriber) : Rebuild :=
  match b_clients b !! u_client s, destination_at s (b_clients b) with
  | Some client, Some d =>
      if negb (d_enabled d) then
        b <| b_clients := set_destination s (d <| d_prober := -1 |>) (b_clients b) |>
      else
        let '(i, b) := ensure_prober previous previousByKey now (d_address d) client b in
        b <| b_probers := alter (fun p => p <| p_subscribers := p_subscribers p ++ [s] |>) i
                            (b_probers b) |>
          <| b_clients := set_destination s (d <| d_prober := i32 (Z.of_nat i) |>) (b_clients b) |>
  | _, _ => b
  end.

Definition max_in_flight (p : Prober) : Z :=
  let needed := u64 (p_timeoutUs p + p_intervalUs p - 1) / p_intervalUs p in
  Z.min (Z.max needed 1) kMaxInFlight.

(** The last loop: the uid map, the fastest interval and the queue bounds. *)
Definition min_interval (ps : list Prober) : Z :=
  fold_left (fun least p => if (least =? 0) || (p_intervalUs p <? least) then p_intervalUs p
                            else least) ps 0.

Fixpoint index_uids (i : nat) (ps : list Prober) (acc : gmap Z nat) : gmap Z nat :=
  match ps with
  | [] => acc
  | p :: ps => index_uids (S i) ps (<[p_uid p := i]> acc)
  end.

Definition rebuildProbers (now : Z) (m : Monitor) : Monitor :=
  let previous := m_probers m in
  let previousByKey := index_keys 0 previous ∅ in
  let b := fold_left (place previous previousByKey now) (slots (m_clients m))
    (mkRebuild (m_clients m) [] ∅ (replicate (length previous) false) (m_nextUid m)) in
  m <| m_clients := b_clients b |>
    <| m_probers := map (fun p => p <| p_maxInFlight := max_in_flight p |>) (b_probers b) |>
    <| m_proberByUid := index_uids 0 (b_probers b) ∅ |>
    <| m_nextUid := b_nextUid b |>
    <| m_minIntervalUs := min_interval (b_probers b) |>.

(** What [opendir] and [readdir] answer: the names in the clients directory, or an error. *)
Inductive Listing := Entries (names : list str) | OpenFailed (err : Errno).

(** [loadClientFile path id]; the directory is recreated and watched again when it is gone,
    which changes nothing of the monitor's state that anything reads. *)
Definition reloadClients (loadClientFile : str -> str -> option Client) (clientsDirPath : str)
    (listing : Listing) (now : Z) (m : Monitor) : Monitor :=
  let m := m <| m_configDirty := false |> in
  let loaded :=
    match listing with
    | Entries names =>
        omap (fun name => loadClientFile (clientsDirPath ++ lit "/" ++ name) (client_id name))
          (List.filter is_client_file names)
    | OpenFailed _ => []
    end in
  let loaded := merge_sort client_le loaded in
  let loaded := map (carry_client (m_clients m)) loaded in
  let m := rebuildProbers now (m <| m_clients := loaded |>) in
  m <| m_stateDirty := true |>.

End Rebuild.

(** *** Watching the configuration *)

(** An [inotify_event]: its name is empty when [len] is 0. *)
Record InotifyEvent := mkInotifyEvent { n_mask : Z; n_name : str }.

Definition IN_DELETE_SELF : Z := 0x400.
Definition IN_MOVE_SELF : Z := 0x800.

Definition concerns_clients (event : InotifyEvent) : bool :=
  bool_decide (n_name event = []) || hasSuffix (n_name event) (lit ".json")
  || negb (Z.land (n_mask event) (Z.lor IN_DELETE_SELF IN_MOVE_SELF) =? 0).

(** [events] is everything queued on the inotify descriptor; interrupted reads are repeated. *)
Definition handleInotify (events : list InotifyEvent) (m : Monitor) : Monitor :=
  m <| m_configDirty := existsb concerns_clients events || m_configDirty m |>.

Definition clientCheckIntervalUs (m : Monitor) : Z :=
  if o_clientTimeoutUs (m_options m) =? 0 then kClientCheckIntervalUs
  else Z.min kClientCheckIntervalUs (Z.max (o_clientTimeoutUs (m_options m) / 2) 1000000).

(** [mtime path] is the modification time [stat] reports, in microseconds, if the file is
    there. *)
Definition stale (timeoutUs realNow : Z) (mtime : str -> option Z) (client : Client) : bool :=
  match mtime (c_path client) with
  | None => false
  | Some mtimeUs => (mtimeUs <? realNow) && (timeoutUs <? u64 (realNow - mtimeUs))
  end.

(** The new state, and the paths unlinked. *)
Definition dropExpiredClients (now : Z) (mtime : str -> option Z) (m : Monitor) (w : World) :
    Monitor * World * list str :=
  if (o_clientTimeoutUs (m_options m) =? 0)
     || (u64 (now - m_lastClientCheckUs m) <? clientCheckIntervalUs m) then (m, w, [])
  else
    let m := m <| m_lastClientCheckUs := now |> in
    let '(realNow, w) := nowRealtimeUs w in
    let removed := map c_path
      (List.filter (stale (o_clientTimeoutUs (m_options m)) realNow mtime) (m_clients m)) in
    (m <| m_configDirty := negb (bool_decide (removed = [])) || m_configDirty m |>, w, removed).

(** ** Specification *)

(** A destination without the index of its prober. *)
Definition unlink (d : Destination) : Destination := d <| d_prober := 0 |>.

(** The destination at [s] is linked to the prober that pings its address at its client's
    interval and timeout, or to none when it is disabled. *)
Definition linked (clients : list Client) (probers : list Prober) (s : Subscriber) : Prop :=
  forall client d, clients !! u_client s = Some client -> destination_at s clients = Some d ->
  if d_enabled d then
    exists i p, d_prober d = Z.of_nat i /\ probers !! i = Some p /\ s ∈ p_subscribers p /\
      p_host p = d_address d /\ p_intervalUs p = c_intervalUs client /\
      p_timeoutUs p = c_timeoutUs client
  else d_prober d = -1.

(** The parameters a configuration file can give. *)
Definition intervals_ok (intervalUs timeoutUs : Z) : Prop :=
  100000 <= intervalUs <= 3600000000 /\ 50000 <= timeoutUs <= 60000000.

(** How the destinations and the probers are wired together. *)
Record links (clients : list Client) (probers : list Prober) : Prop := {
  lk_linked : forall s, linked clients probers s;
  lk_back : forall i p s, probers !! i = Some p -> s ∈ p_subscribers p ->
    exists d, destination_at s clients = Some d /\ d_enabled d = true /\ d_prober d = Z.of_nat i;
  lk_once : Forall (fun p => NoDup (p_subscribers p)) probers;
  lk_used : Forall (fun p => p_subscribers p <> []) probers;
  lk_keys : NoDup (map prober_key probers)
}.

(** The uids in use are distinct and below the next one. *)
Definition uids_fresh (nextUid : Z) (probers : list Prober) : Prop :=
  NoDup (map p_uid probers) /\ Forall (fun p => 0 <= p_uid p < nextUid) probers.

(** The whole wiring of a monitor. *)
Record wired (m : Monitor) : Prop := {
  wd_links : links (m_clients m) (m_probers m);
  wd_byUid : uids_ok (m_proberByUid m) (m_probers m);
  wd_uids : uids_fresh (m_nextUid m) (m_probers m);
  wd_ranges : Forall (fun p => intervals_ok (p_intervalUs p) (p_timeoutUs p)) (m_probers m);
  wd_fastest : forall p, p ∈ m_probers m -> 0 < m_minIntervalUs m <= p_intervalUs p;
  wd_idle : m_probers m = [] -> m_minIntervalUs m = 0
}.

(** What [rebuildProbers] relies on: the probers there are, the parameters of the clients, and
    enough unused uids. *)
Record configurable (m : Monitor) : Prop := {
  cf_keys : NoDup (map prober_key (m_probers m));
  cf_uids : uids_fresh (m_nextUid m) (m_probers m);
  cf_ranges : Forall (fun p => intervals_ok (p_intervalUs p) (p_timeoutUs p)) (m_probers m);
  cf_clients : Forall (fun c => intervals_ok (c_intervalUs c) (c_timeoutUs c)) (m_clients m);
  cf_room : 0 <= m_nextUid m /\ m_nextUid m + Z.of_nat (length (slots (m_clients m))) < 2 ^ 32 /\
    Z.of_nat (length (slots (m_clients m))) < 2 ^ 31
}.

(** The last loop of [rebuildProbers], on one prober. *)
Definition set_max (p : Prober) : Prober := p <| p_maxInFlight := max_in_flight p |>.

(** Every destination's evaluated state is well formed. *)
Definition destinations_ok (clients : list Client) : Prop :=
  Forall (fun c => Forall destination_ok (c_destinations c)) clients.

(** The destination of the old configuration that [d] of [client] continues: same client, same
    id, same address. *)
Definition old_destination (clients : list Client) (client : Client) (d : Destination) :
    option Destination :=
  previous ← List.find (fun c => bool_decide (c_id c = c_id client)) clients;
  List.find (fun old => bool_decide (d_id old = d_id d) && bool_decide (d_address old = d_address d))
    (c_destinations previous).

(** What a configuration file says of a destination, and what probing has made of it; together all
    there is, but for the index of the prober. *)
Definition same_configuration (d d' : Destination) : Prop :=
  d_id d' = d_id d /\ d_name d' = d_name d /\ d_address d' = d_address d /\
  d_order d' = d_order d /\ d_thresholdUs d' = d_thresholdUs d /\
  d_sensitivity d' = d_sensitivity d /\ d_enabled d' = d_enabled d /\ d_partTime d' = d_partTime d.

Definition same_evaluation (d d' : Destination) : Prop :=
  d_state d' = d_state d /\ d_candidate d' = d_candidate d /\
  d_candidateStreak d' = d_candidateStreak d /\ d_haveRtt d' = d_haveRtt d /\
  d_rttUs d' = d_rttUs d /\ d_sent d' = d_sent d /\ d_received d' = d_received d /\
  d_lastReplyRealUs d' = d_lastReplyRealUs d /\ d_lastChangeRealUs d' = d_lastChangeRealUs d.

(** [c'] is what the file [c] says, [previous] being the clients before: the settings of the client
    are those of the file, and so is the configuration of each destination, in the same order; a
    destination that was there before, with the same client, id and address, goes on where it
    was, and any other starts as the file has it. *)
Definition applied (previous : list Client) (c c' : Client) : Prop :=
  c_id c' = c_id c /\ c_path c' = c_path c /\ c_intervalUs c' = c_intervalUs c /\
  c_timeoutUs c' = c_timeoutUs c /\ c_error c' = c_error c /\
  Forall2 (fun d d' => same_configuration d d' /\
    same_evaluation (default d (old_destination previous c d)) d')
    (c_destinations c) (c_destinations c').

(** The clients a listing of the directory gives. *)
Definition client_files (loadClientFile : str -> str -> option Client) (clientsDirPath : str)
    (names : list str) : list Client :=
  omap (fun name => loadClientFile (clientsDirPath ++ lit "/" ++ name) (client_id name))
    (List.filter is_client_file names).

(** How many destinations there are. *)
Definition destination_count (clients : list Client) : nat :=
  length (concat (map c_destinations clients)).

(** Where a prober of the new list comes from. *)
Definition origin `{Libc} (previous : list Prober) (now nextUid : Z) (p : Prober) : Prop :=
  (exists q, q ∈ previous /\ p = q <| p_subscribers := p_subscribers p |>) \/
  (nextUid <= p_uid p /\ (prober_key p ∉ map prober_key previous) /\
   p = (fresh_prober (p_host p) (p_intervalUs p) (p_timeoutUs p) (p_uid p) now)
         <| p_subscribers := p_subscribers p |>).

(** The invariant of the loops of [rebuildProbers] once the destinations [done] have been
    placed. *)
Record placed `{Libc} (clients : list Client) (previous : list Prober) (now nextUid : Z)
    (done : list Subscriber) (b : Rebuild) : Prop := {
  pl_clients : map (map_client unlink) (b_clients b) = map (map_client unlink) clients;
  pl_linked : forall s, s ∈ done -> linked (b_clients b) (b_probers b) s;
  pl_back : forall i p s, b_probers b !! i = Some p -> s ∈ p_subscribers p ->
    s ∈ done /\
    exists d, destination_at s (b_clients b) = Some d /\ d_enabled d = true /\
      d_prober d = Z.of_nat i;
  pl_once : Forall (fun p => NoDup (p_subscribers p)) (b_probers b);
  pl_index : forall key i, b_currentByKey b !! key = Some i <->
    exists p, b_probers b !! i = Some p /\ prober_key p = key;
  pl_origin : Forall (origin previous now nextUid) (b_probers b);
  pl_ranges : Forall (fun p => intervals_ok (p_intervalUs p) (p_timeoutUs p)) (b_probers b);
  pl_uids : uids_fresh (b_nextUid b) (b_probers b);
  pl_next : nextUid <= b_nextUid b;
  pl_consumed : length (b_consumed b) = length previous /\
    forall i q, previous !! i = Some q -> b_consumed b !! i = Some true ->
      prober_key q ∈ map prober_key (b_probers b)
}.

(** The sizes when [n] destinations have been placed. *)
Definition sized (nextUid n : Z) (b : Rebuild) : Prop :=
  Z.of_nat (length (b_probers b)) <= n /\ nextUid <= b_nextUid b <= nextUid + n /\
  Forall (fun p => p_subscribers p <> []) (b_probers b).
