(* ===== verification/Wiring.v ===== *)
(** * The wiring that [rebuildProbers] establishes

    Every enabled destination ends up with the one prober for its address, interval and
    timeout; probers that already existed keep their state. *)

From S2P Require Import Prelude Util Health Pinger Resolver Monitor Probing Config.

(** ** Lemmas *)

(** *** Keys *)

Lemma split_last {A} (x : A) (l l' d d' : list A) :
  x ∉ d -> x ∉ d' -> l ++ x :: d = l' ++ x :: d' -> l = l' /\ d = d'.
Proof.
  intros Hd Hd'. revert l'; induction l as [|a l IH]; intros [|a' l'] E; cbn in E; simplify_list_eq.
  - done.
  - exfalso. apply Hd. apply elem_of_app. right. by left.
  - exfalso. apply Hd'. apply elem_of_app. right. by left.
  - match goal with E : l ++ _ = _ |- _ => apply IH in E as [-> ->] end; done.
Qed.

Lemma dec_no_separator (n : Z) : 0 <= n -> unit_separator ∉ dec n.
Proof.
  intros Hn Hin. apply dec_spec in Hn as (Hall & _). rewrite Forall_forall in Hall.
  by apply Hall in Hin.
Qed.

(** Two probers have the same key only when they ping the same thing the same way, whatever
    characters the addresses contain. *)
Lemma proberKey_inj (h h' : str) (i i' t t' : Z) :
  0 <= i -> 0 <= i' -> 0 <= t -> 0 <= t' -> proberKey h i t = proberKey h' i' t' ->
  h = h' /\ i = i' /\ t = t'.
Proof.
  intros Hi Hi' Ht Ht' E. unfold proberKey in E. rewrite !to_string_nonneg in E by done.
  rewrite !app_assoc in E. rewrite <- (app_assoc _ _ (dec t)), <- (app_assoc _ _ (dec t')) in E.
  apply split_last in E as [E Et]; [|by apply dec_no_separator..].
  rewrite <- (app_assoc _ _ (dec i)), <- (app_assoc _ _ (dec i')) in E.
  apply split_last in E as [Eh Ei]; [|by apply dec_no_separator..].
  split_and!; [done | by apply dec_inj | by apply dec_inj].
Qed.

Lemma index_keys_none (ps : list Prober) (key : str) :
  forall i acc, index_keys i ps acc !! key = None -> acc !! key = None /\ key ∉ map prober_key ps.
Proof.
  induction ps as [|p ps IH]; intros i acc Hn; cbn in *; [split; [done | apply not_elem_of_nil]|].
  apply IH in Hn as [Hacc Hps]. destruct (acc !! prober_key p) eqn:E.
  - split; [done|]. intros [->|?]%elem_of_cons; [congruence | done].
  - destruct (decide (prober_key p = key)) as [<-|Hne]; [by rewrite lookup_insert_eq in Hacc|].
    rewrite lookup_insert_ne in Hacc by done. split; [done|].
    by intros [->|?]%elem_of_cons.
Qed.

Lemma index_keys_some (ps : list Prober) (key : str) (k : nat) :
  forall i acc, index_keys i ps acc !! key = Some k ->
    acc !! key = Some k \/
    exists j p, k = (i + j)%nat /\ ps !! j = Some p /\ prober_key p = key.
Proof.
  induction ps as [|p ps IH]; intros i acc Hk; cbn in *; [by left|].
  apply IH in Hk as [Hacc | (j & q & -> & Hq & E)].
  - destruct (acc !! prober_key p) eqn:Ep; [by left|].
    destruct (decide (prober_key p = key)) as [<-|Hne].
    + rewrite lookup_insert_eq in Hacc. injection Hacc as <-. right. exists 0%nat, p.
      split_and!; [lia | done..].
    + rewrite lookup_insert_ne in Hacc by done. by left.
  - right. exists (S j), q. split_and!; [lia | done..].
Qed.

(** *** Destinations *)

Lemma destination_at_map (f : Destination -> Destination) (s : Subscriber) (clients : list Client) :
  destination_at s (map (map_client f) clients) = f <$> destination_at s clients.
Proof.
  unfold destination_at. rewrite list_lookup_fmap. destruct (clients !! u_client s); cbn; [|done].
  apply list_lookup_fmap.
Qed.

(** Clients that differ only in what [f] does not tell apart. *)
Lemma same_destinations (f : Destination -> Destination) (s : Subscriber) (cs cs' : list Client)
    (d : Destination) :
  map (map_client f) cs' = map (map_client f) cs -> destination_at s cs = Some d ->
  exists d', destination_at s cs' = Some d' /\ f d' = f d.
Proof.
  intros E Hd. pose proof (destination_at_map f s cs') as E1. rewrite E, destination_at_map, Hd in E1.
  destruct (destination_at s cs') as [d'|]; cbn in E1; [|done]. injection E1 as E1. eauto.
Qed.

Lemma same_client (f : Destination -> Destination) (i : nat) (cs cs' : list Client) (c : Client) :
  map (map_client f) cs' = map (map_client f) cs -> cs !! i = Some c ->
  exists c', cs' !! i = Some c' /\ map_client f c' = map_client f c.
Proof.
  intros E Hc. apply (f_equal (lookup i)) in E. rewrite !list_lookup_fmap, Hc in E.
  destruct (cs' !! i) as [c'|]; cbn in E; [|done].
  exists c'. split; [done | congruence].
Qed.

Lemma set_destination_client (s : Subscriber) (d : Destination) (cs : list Client) (i : nat)
    (c' : Client) :
  set_destination s d cs !! i = Some c' ->
  exists c, cs !! i = Some c /\ c_intervalUs c' = c_intervalUs c /\ c_timeoutUs c' = c_timeoutUs c.
Proof.
  unfold set_destination. destruct (decide (u_client s = i)) as [<-|].
  - rewrite list_lookup_alter_eq. destruct (cs !! u_client s) as [c|]; [|done].
    intros [= <-]. by exists c.
  - rewrite list_lookup_alter_ne by done. eauto.
Qed.

Lemma destination_at_client (s : Subscriber) (cs : list Client) (d : Destination) :
  destination_at s cs = Some d -> exists client, cs !! u_client s = Some client.
Proof. unfold destination_at. destruct (cs !! u_client s); [eauto | done]. Qed.

(** *** One destination *)

Section Place.
Context `{Libc}.
Variables (clients : list Client) (previous : list Prober) (now nextUid : Z).
Hypothesis previous_keys : NoDup (map prober_key previous).
Hypothesis previous_uids : uids_fresh nextUid previous.
Hypothesis previous_ranges :
  Forall (fun p => intervals_ok (p_intervalUs p) (p_timeoutUs p)) previous.
Hypothesis clients_ranges :
  Forall (fun c => intervals_ok (c_intervalUs c) (c_timeoutUs c)) clients.

Definition push (s : Subscriber) (p : Prober) : Prober :=
  p <| p_subscribers := p_subscribers p ++ [s] |>.

Lemma push_same (s : Subscriber) (r q : Prober) :
  q = r <| p_subscribers := p_subscribers q |> ->
  push s q = r <| p_subscribers := p_subscribers (push s q) |>.
Proof. intros E. destruct q, r. injection E as -> -> -> -> -> -> -> -> -> -> -> -> -> -> -> ->. done. Qed.

(** Every prober of [ps] is still there in [ps'], with more subscribers. *)
Definition extends (ps ps' : list Prober) : Prop :=
  forall i p, ps !! i = Some p -> exists p', ps' !! i = Some p' /\
    p' = p <| p_subscribers := p_subscribers p' |> /\
    forall s, s ∈ p_subscribers p -> s ∈ p_subscribers p'.

Lemma extends_push (s : Subscriber) (i : nat) (ps : list Prober) : extends ps (alter (push s) i ps).
Proof.
  intros j p Hp. destruct (decide (i = j)) as [<-|Hne].
  - exists (push s p). rewrite list_lookup_alter_eq, Hp. split_and!; [done | done |].
    intros s' Hs'. cbn. apply elem_of_app. by left.
  - exists p. rewrite list_lookup_alter_ne by done. split_and!; [done | by destruct p | done].
Qed.

Lemma extends_snoc (ps : list Prober) (p : Prober) : extends ps (ps ++ [p]).
Proof.
  intros j q Hq. exists q. split_and!; [by apply lookup_app_l_Some | by destruct q | done].
Qed.

(** Placing one destination leaves the others linked. *)
Lemma linked_other (s s' : Subscriber) (d d' : Destination) (cs : list Client)
    (ps ps' : list Prober) :
  destination_at s' cs = Some d -> s' <> s -> extends ps ps' ->
  linked cs ps s -> linked (set_destination s' d' cs) ps' s.
Proof.
  intros Hd Hne Hext Hl client' d0 (client & Hc & Ei & Et)%set_destination_client Hd0.
  rewrite destination_at_set, decide_False in Hd0 by (rewrite ?Hd; done).
  specialize (Hl client d0 Hc Hd0). destruct (d_enabled d0); [|done].
  destruct Hl as (i & p & E & Hp & Hs & Eh & Epi & Ept).
  destruct (Hext i p Hp) as (p' & Hp' & Ep & Hin). exists i, p'.
  split_and!; [done | done | by apply Hin | rewrite Ep; cbn; congruence..].
Qed.

Lemma linked_probers (cs : list Client) (ps ps' : list Prober) (s : Subscriber) :
  extends ps ps' -> linked cs ps s -> linked cs ps' s.
Proof.
  intros Hext Hl client d Hc Hd. specialize (Hl client d Hc Hd). destruct (d_enabled d); [|done].
  destruct Hl as (i & p & E & Hp & Hs & Eh & Epi & Ept).
  destruct (Hext i p Hp) as (p' & Hp' & Ep & Hin). exists i, p'.
  split_and!; [done | done | by apply Hin | rewrite Ep; cbn; congruence..].
Qed.

Abbreviation placed := (placed clients previous now nextUid).

(** A disabled destination. *)
Lemma placed_disabled (done : list Subscriber) (b : Rebuild) (s : Subscriber) (d : Destination) :
  placed done b -> s ∉ done -> destination_at s (b_clients b) = Some d -> d_enabled d = false ->
  placed (done ++ [s])
    (b <| b_clients := set_destination s (d <| d_prober := -1 |>) (b_clients b) |>).
Proof.
  intros [Pc Pl Pb Po Pi Pg Pr Pu Pn Pk] Hs Hd He. constructor; cbn; try done.
  - by rewrite (map_set_destination _ _ d).
  - intros s' [Hs'| ->%list_elem_of_singleton]%elem_of_app.
    + eapply linked_other; [done | congruence | | by apply Pl].
      intros i p Hp. exists p. split_and!; [done | by destruct p | done].
    + intros client d0 Hc Hd0. rewrite destination_at_set, decide_True in Hd0 by (rewrite ?Hd; done).
      injection Hd0 as <-. cbn. by rewrite He.
  - intros i p s' Hp Hin. destruct (Pb i p s' Hp Hin) as (Hdone & d0 & Hd0 & E1 & E2).
    split; [by apply elem_of_app; left|]. exists d0.
    rewrite destination_at_set, decide_False by (rewrite ?Hd; try done; congruence). done.
Qed.

(** An enabled destination joins the [i]-th prober. *)
Lemma placed_join (done : list Subscriber) (b : Rebuild) (s : Subscriber) (d : Destination)
    (client : Client) (i : nat) (p : Prober) :
  placed done b -> s ∉ done -> destination_at s (b_clients b) = Some d -> d_enabled d = true ->
  b_clients b !! u_client s = Some client -> b_probers b !! i = Some p -> Z.of_nat i < 2 ^ 31 ->
  p_host p = d_address d -> p_intervalUs p = c_intervalUs client ->
  p_timeoutUs p = c_timeoutUs client ->
  placed (done ++ [s])
    (b <| b_probers := alter (push s) i (b_probers b) |>
       <| b_clients := set_destination s (d <| d_prober := i32 (Z.of_nat i) |>) (b_clients b) |>).
Proof.
  intros [Pc Pl Pb Po Pi Pg Pr Pu Pn Pk] Hs Hd He Hc Hp Hi Eh Ei Et. rewrite i32_small by lia.
  assert (forall (f : Prober -> str) , (forall q, f (push s q) = f q) ->
    map f (alter (push s) i (b_probers b)) = map f (b_probers b)) as Hmap
    by (intros; by apply map_alter_same).
  constructor; cbn; try done.
  - by rewrite (map_set_destination _ _ d).
  - intros s' [Hs'| ->%list_elem_of_singleton]%elem_of_app.
    + eapply linked_other; [done | congruence | apply extends_push | by apply Pl].
    + intros client' d0 (client0 & Hc0 & Ei0 & Et0)%set_destination_client Hd0. simplify_eq.
      rewrite destination_at_set, decide_True in Hd0 by (rewrite ?Hd; done).
      injection Hd0 as <-. cbn. rewrite He. exists i, (push s p).
      rewrite list_lookup_alter_eq, Hp. split_and!; try done; [|by etrans..].
      cbn. apply elem_of_app. right. by left.
  - intros j q s' Hq Hin.
    assert (s' = s /\ j = i \/ exists q0, b_probers b !! j = Some q0 /\ s' ∈ p_subscribers q0)
      as [[-> ->] | (q0 & Hq0 & Hin0)].
    { destruct (decide (i = j)) as [<-|Hne].
      - rewrite list_lookup_alter_eq, Hp in Hq. injection Hq as <-. cbn in Hin.
        apply elem_of_app in Hin as [Hin | ->%list_elem_of_singleton]; [right; eauto | by left].
      - rewrite list_lookup_alter_ne in Hq by done. eauto. }
    + split; [apply elem_of_app; right; by left|]. exists (d <| d_prober := Z.of_nat i |>).
      rewrite destination_at_set, decide_True by (rewrite ?Hd; done). done.
    + destruct (Pb j q0 s' Hq0 Hin0) as (Hdone & d0 & Hd0 & E1 & E2).
      split; [by apply elem_of_app; left|]. exists d0.
      rewrite destination_at_set, decide_False by (rewrite ?Hd; try done; congruence). done.
  - apply Forall_alter; [done|]. intros q Hq Hnd. cbn. apply NoDup_app.
    split_and!; [done | | apply NoDup_singleton]. intros x Hx ->%list_elem_of_singleton.
    by destruct (Pb i q s Hq Hx).
  - intros key j. rewrite (Pi key j). destruct (decide (i = j)) as [<-|Hne].
    + rewrite list_lookup_alter_eq, Hp. cbn. split; intros (q & [= <-] & Ek); eauto.
    + by rewrite list_lookup_alter_ne.
  - apply Forall_alter; [done|]. intros q Hq [(q0 & Hq0 & E) | (Hu & Hk & E)].
    + left. exists q0. split; [done|]. by apply push_same.
    + right. split_and!; [done | done |]. by apply push_same.
  - by apply Forall_alter.
  - destruct Pu as [Pu1 Pu2]. split; [by rewrite map_alter_same|].
    apply Forall_alter; [done | by intros q _ Hq].
  - destruct Pk as [Pk1 Pk2]. split; [done|]. intros j q Hq Hcons. rewrite Hmap by done. eauto.
Qed.


Lemma fresh_prober_fields (address : str) (i t uid : Z) :
  let p := fresh_prober address i t uid now in
  p_host p = address /\ p_intervalUs p = i /\ p_timeoutUs p = t /\ p_uid p = uid /\
  p_subscribers p = [].
Proof. unfold fresh_prober. by destruct (parseNumericAddress address). Qed.

(** No prober of the new list has the key that is being looked for. *)
Lemma key_absent (done : list Subscriber) (b : Rebuild) (key : str) :
  placed done b -> b_currentByKey b !! key = None -> key ∉ map prober_key (b_probers b).
Proof.
  intros Hp Hn (p & -> & Hin)%list_elem_of_fmap. apply list_elem_of_lookup in Hin as [i Hi].
  assert (b_currentByKey b !! prober_key p = Some i) by (apply (pl_index _ _ _ _ _ _ Hp); eauto).
  congruence.
Qed.

(** The prober [take_prober] gives fits the destination and clashes with none there is. *)
Record taken (address : str) (client : Client) (b b' : Rebuild) (p : Prober) : Prop := {
  tn_target : p_host p = address /\ p_intervalUs p = c_intervalUs client /\
    p_timeoutUs p = c_timeoutUs client /\ p_subscribers p = [];
  tn_same : b' = b <| b_consumed := b_consumed b' |> <| b_nextUid := b_nextUid b' |>;
  tn_origin : origin previous now nextUid p;
  tn_uids : uids_fresh (b_nextUid b') (b_probers b ++ [p]);
  tn_next : b_nextUid b <= b_nextUid b' <= b_nextUid b + 1;
  tn_consumed : length (b_consumed b') = length previous /\
    forall i q, previous !! i = Some q -> b_consumed b' !! i = Some true ->
      prober_key q ∈ map prober_key (b_probers b ++ [p])
}.

Lemma taken_fresh (done : list Subscriber) (b : Rebuild) (address : str) (client : Client) :
  placed done b -> 0 <= b_nextUid b < 2 ^ 32 - 1 ->
  proberKey address (c_intervalUs client) (c_timeoutUs client) ∉ map prober_key previous ->
  taken address client b (b <| b_nextUid := u32 (b_nextUid b + 1) |>)
    (fresh_prober address (c_intervalUs client) (c_timeoutUs client) (b_nextUid b) now).
Proof.
  intros [Pc Pl Pb Po Pi Pg Pr Pu Pn Pk] Hn Hkey. rewrite u32_small by lia.
  destruct (fresh_prober_fields address (c_intervalUs client) (c_timeoutUs client) (b_nextUid b))
    as (E1 & E2 & E3 & E4 & E5).
  set (p := fresh_prober _ _ _ _ _) in *. constructor; cbn; try done.
  - right. rewrite E4. split_and!; [done | unfold prober_key; by rewrite E1, E2, E3 |].
    rewrite E1, E2, E3, E5. fold p. by destruct p; cbn in *; subst.
  - destruct Pu as [Pu1 Pu2]. split.
    + rewrite map_app. apply NoDup_app. split_and!; [done | | apply NoDup_singleton].
      intros u (q & -> & Hq)%list_elem_of_fmap Hu%list_elem_of_singleton.
      rewrite Forall_forall in Pu2. apply Pu2 in Hq. lia.
    + apply Forall_app. split; [|apply Forall_singleton; lia].
      eapply Forall_impl; [exact Pu2|]. cbn. lia.
  - lia.
  - destruct Pk as [Pk1 Pk2]. split; [done|]. intros i q Hq Hc. rewrite map_app.
    apply elem_of_app. left. eauto.
Qed.

Lemma taken_recycled (done : list Subscriber) (b : Rebuild) (address : str) (client : Client)
    (i : nat) (q : Prober) :
  placed done b -> intervals_ok (c_intervalUs client) (c_timeoutUs client) ->
  b_currentByKey b !! proberKey address (c_intervalUs client) (c_timeoutUs client) = None ->
  previous !! i = Some q ->
  prober_key q = proberKey address (c_intervalUs client) (c_timeoutUs client) ->
  taken address client b (b <| b_consumed := <[i := true]> (b_consumed b) |>)
    (q <| p_subscribers := [] |>).
Proof.
  intros Hpl Hint Habsent Hq Ekey. pose proof (key_absent _ _ _ Hpl Habsent) as Hnone.
  destruct Hpl as [Pc Pl Pb Po Pi Pg Pr Pu Pn Pk].
  pose proof (list_elem_of_lookup_2 _ _ _ Hq) as Hin.
  assert (intervals_ok (p_intervalUs q) (p_timeoutUs q)) as Hqint
    by (rewrite Forall_forall in previous_ranges; by apply previous_ranges).
  unfold intervals_ok in *.
  assert (0 <= p_uid q < nextUid) as Huid.
  { destruct previous_uids as [_ Hall]. rewrite Forall_forall in Hall. by apply Hall. }
  constructor; cbn; try done.
  - unfold prober_key in Ekey. apply proberKey_inj in Ekey as (E1 & E2 & E3); [done | lia..].
  - left. by exists q.
  - destruct Pu as [Pu1 Pu2]. split; [|apply Forall_app; split; [done|apply Forall_singleton; cbn; lia]].
    rewrite map_app. apply NoDup_app. split_and!; [done | | apply NoDup_singleton].
    intros u (r & -> & Hr)%list_elem_of_fmap Hu%list_elem_of_singleton. cbn in Hu.
    pose proof Hr as Hro. rewrite Forall_forall in Pg. apply Pg in Hro as [(q0 & Hq0 & E) | (Hge & _)];
      [|lia].
    assert (q0 = q) as ->.
    { destruct previous_uids as [Hnd _]. apply (NoDup_map_inj p_uid previous); try done.
      rewrite <- Hu, E. done. }
    apply Hnone. apply list_elem_of_fmap. exists r. split; [|done]. rewrite <- Ekey, E. done.
  - lia.
  - destruct Pk as [Pk1 Pk2]. split; [by rewrite length_insert|].
    intros j r Hr Hc. rewrite map_app. apply elem_of_app.
    destruct (decide (i = j)) as [<-|Hne].
    + right. apply list_elem_of_singleton. simplify_eq. done.
    + left. rewrite list_lookup_insert_ne in Hc by done. eauto.
Qed.

Lemma take_prober_taken (done : list Subscriber) (b b' : Rebuild) (address : str)
    (client : Client) (p : Prober) :
  placed done b -> 0 <= b_nextUid b < 2 ^ 32 - 1 ->
  intervals_ok (c_intervalUs client) (c_timeoutUs client) ->
  let key := proberKey address (c_intervalUs client) (c_timeoutUs client) in
  b_currentByKey b !! key = None ->
  take_prober previous (index_keys 0 previous ∅) now key address client b = (p, b') ->
  taken address client b b' p.
Proof.
  intros Hpl Hn Hint key Habsent Ht. unfold take_prober in Ht.
  destruct (index_keys 0 previous ∅ !! key) as [i|] eqn:Ei.
  - apply index_keys_some in Ei as [Ei | (j & q & -> & Hq & Ek)]; [by rewrite lookup_empty in Ei|].
    cbn in Ht. rewrite Hq in Ht. destruct (pl_consumed _ _ _ _ _ _ Hpl) as [Hlen Hcons].
    destruct (b_consumed b !! j) as [[]|] eqn:Ec.
    + exfalso. apply (key_absent _ _ _ Hpl Habsent). rewrite <- Ek. by eapply Hcons.
    + injection Ht as <- <-. by eapply taken_recycled.
    + apply lookup_ge_None in Ec. apply lookup_lt_Some in Hq. lia.
  - injection Ht as <- <-. apply index_keys_none in Ei as [_ Ei]. by eapply taken_fresh.
Qed.

(** A prober without subscribers is appended under its key. *)
Lemma placed_new (done : list Subscriber) (b b' : Rebuild) (address : str) (client : Client)
    (p : Prober) :
  placed done b ->
  let key := proberKey address (c_intervalUs client) (c_timeoutUs client) in
  b_currentByKey b !! key = None -> intervals_ok (c_intervalUs client) (c_timeoutUs client) ->
  taken address client b b' p ->
  placed done
    (b' <| b_probers := b_probers b' ++ [p] |>
        <| b_currentByKey := <[key := length (b_probers b')]> (b_currentByKey b') |>).
Proof.
  intros [Pc Pl Pb Po Pi Pg Pr Pu Pn Pk] key Habsent Hint [(E1 & E2 & E3 & E4) Es To Tu Tn Tk].
  assert (prober_key p = key) as Ekey by (unfold prober_key; by rewrite E1, E2, E3).
  constructor; rewrite Es; cbn; try done.
  - intros s Hs. eapply linked_probers; [apply extends_snoc | by apply Pl].
  - intros i q s Hq Hin. apply lookup_app_Some in Hq as [Hq | [_ Hq]]; [by eapply Pb|].
    apply list_lookup_singleton_Some in Hq as [_ <-]. rewrite E4 in Hin. by apply not_elem_of_nil in Hin.
  - apply Forall_app. split; [done|]. apply Forall_singleton. rewrite E4. constructor.
  - intros k i. destruct (decide (key = k)) as [<-|Hne].
    + rewrite lookup_insert_eq. split.
      * intros [= <-]. exists p. split; [|done]. by rewrite list_lookup_middle.
      * intros (q & Hq & Eq). apply lookup_app_Some in Hq as [Hq | [Hge Hq]].
        -- assert (b_currentByKey b !! key = Some i) by (apply Pi; eauto). congruence.
        -- apply list_lookup_singleton_Some in Hq as [Hi _]. f_equal. lia.
    + rewrite lookup_insert_ne, (Pi k i) by done. split.
      * intros (q & Hq & Eq). exists q. split; [by apply lookup_app_l_Some | done].
      * intros (q & Hq & Eq). apply lookup_app_Some in Hq as [Hq | [_ Hq]]; [eauto|].
        apply list_lookup_singleton_Some in Hq as [_ <-]. congruence.
  - apply Forall_app. split; [done | by apply Forall_singleton].
  - apply Forall_app. split; [done|]. apply Forall_singleton. by rewrite E2, E3.
  - lia.
Qed.

Lemma ensure_prober_placed (done : list Subscriber) (b b' : Rebuild) (address : str)
    (client : Client) (i : nat) :
  placed done b -> 0 <= b_nextUid b < 2 ^ 32 - 1 ->
  intervals_ok (c_intervalUs client) (c_timeoutUs client) ->
  ensure_prober previous (index_keys 0 previous ∅) now address client b = (i, b') ->
  placed done b' /\ b_clients b' = b_clients b /\
  b_nextUid b <= b_nextUid b' <= b_nextUid b + 1 /\
  ((b_probers b' = b_probers b /\ (i < length (b_probers b))%nat) \/
   (exists p, b_probers b' = b_probers b ++ [p] /\ i = length (b_probers b) /\
      p_subscribers p = [])) /\
  exists p, b_probers b' !! i = Some p /\ p_host p = address /\
    p_intervalUs p = c_intervalUs client /\ p_timeoutUs p = c_timeoutUs client.
Proof.
  intros Hpl Hn Hint He. pose proof (pl_ranges _ _ _ _ _ _ Hpl) as Hints. unfold ensure_prober in He.
  destruct (b_currentByKey b !! _) as [k|] eqn:Ek.
  - injection He as -> <-. apply (pl_index _ _ _ _ _ _ Hpl) in Ek as (p & Hp & Ek).
    split_and!; [done | done | lia | lia | left; split; [done | by eapply lookup_lt_Some] |].
    exists p. unfold prober_key in Ek. rewrite Forall_lookup in Hints. specialize (Hints i p Hp).
    unfold intervals_ok in *. apply proberKey_inj in Ek as (E1 & E2 & E3); [done | lia..].
  - destruct (take_prober _ _ _ _ _ _ _) as [p b1] eqn:Et. injection He as <- <-.
    eapply take_prober_taken in Et as Ht; [|done..].
    pose proof (placed_new _ _ _ _ _ _ Hpl Ek Hint Ht) as Hpl'.
    destruct Ht as [(E1 & E2 & E3 & E4) Es _ _ Tn _].
    assert (b_clients b1 = b_clients b /\ b_probers b1 = b_probers b) as [Ec Ep]
      by (rewrite Es; done).
    split_and!; [done | cbn; by rewrite Ec | cbn; lia | cbn; lia | right; exists p; cbn; by rewrite Ep |].
    exists p. cbn. rewrite Ep, list_lookup_middle by done. done.
Qed.

(** One iteration of the inner loop. *)
Lemma place_placed (done : list Subscriber) (b : Rebuild) (s : Subscriber) (d0 : Destination) :
  placed done b -> sized nextUid (Z.of_nat (length done)) b -> s ∉ done ->
  destination_at s clients = Some d0 -> 0 <= nextUid ->
  nextUid + Z.of_nat (length done) < 2 ^ 32 - 1 -> Z.of_nat (length done) < 2 ^ 31 ->
  placed (done ++ [s]) (place previous (index_keys 0 previous ∅) now b s) /\
  sized nextUid (Z.of_nat (length done) + 1) (place previous (index_keys 0 previous ∅) now b s).
Proof.
  intros Hpl (Hlen & Hnext & Hused) Hs Hd0 Hn0 Hbound Hbound'.
  pose proof (pl_clients _ _ _ _ _ _ Hpl) as Hcl.
  destruct (same_destinations unlink s clients (b_clients b) d0 Hcl Hd0) as (d & Hd & _).
  destruct (destination_at_client _ _ _ Hd) as [client Hc].
  assert (intervals_ok (c_intervalUs client) (c_timeoutUs client)) as Hint.
  { destruct (same_client unlink (u_client s) (b_clients b) clients client) as (c' & Hc' & Ec); [done..|].
    rewrite Forall_lookup in clients_ranges. specialize (clients_ranges _ _ Hc').
    destruct c', client. injection Ec. intros. cbn in *. by subst. }
  unfold place. rewrite Hc, Hd. destruct (d_enabled d) eqn:He; cbn [negb].
  - destruct (ensure_prober _ _ _ _ _ _) as [i b'] eqn:Ee.
    eapply ensure_prober_placed in Ee as (Hpl' & Ec & Hn' & Hps & p & Hp & E1 & E2 & E3);
      [|done | lia | done].
    rewrite <- Ec in *.
    assert (Z.of_nat i <= Z.of_nat (length done)) as Hi
      by (destruct Hps as [[_ ?] | (q & _ & -> & _)]; lia).
    split; [eapply placed_join; eauto; lia|].
    change (fun p => p <| p_subscribers := p_subscribers p ++ [s] |>) with (push s).
    unfold sized; cbn. rewrite length_alter. destruct Hps as [[Ep Hilt] | (q & Ep & -> & Eq)].
    + split_and!; [rewrite Ep; lia | lia | lia |]. apply Forall_alter; [by rewrite Ep|].
      intros q _ _. cbn. by destruct (p_subscribers q).
    + rewrite Ep, alter_length_snoc, length_app.
      split_and!; [cbn; lia | lia | lia |]. apply Forall_app. split; [done|].
      apply Forall_singleton. cbn. by rewrite Eq.
  - split; [by eapply placed_disabled|]. unfold sized; cbn. split_and!; [lia | lia | lia | done].
Qed.

Lemma placed_start : placed [] (mkRebuild clients [] ∅ (replicate (length previous) false) nextUid).
Proof.
  constructor; cbn; try done.
  - by intros s ?%not_elem_of_nil.
  - intros key i. rewrite lookup_empty. split; [done|]. by intros (p & Hp & _).
  - split; constructor.
  - rewrite length_replicate. split; [done|].
    intros i q _ Hc. by apply lookup_replicate in Hc as [? _].
Qed.

Lemma place_all (todo done : list Subscriber) (b : Rebuild) :
  placed done b -> sized nextUid (Z.of_nat (length done)) b -> NoDup (done ++ todo) ->
  Forall (fun s => is_Some (destination_at s clients)) todo -> 0 <= nextUid ->
  nextUid + Z.of_nat (length (done ++ todo)) < 2 ^ 32 -> Z.of_nat (length (done ++ todo)) < 2 ^ 31 ->
  let b' := fold_left (place previous (index_keys 0 previous ∅) now) todo b in
  placed (done ++ todo) b' /\ sized nextUid (Z.of_nat (length (done ++ todo))) b'.
Proof.
  intros Hpl Hsz Hnd Hall Hn. revert done b Hpl Hsz Hnd.
  induction Hall as [|s todo [d Hd] _ IH]; intros done b Hpl Hsz Hnd Hb Hb'; cbn [fold_left].
  { by rewrite app_nil_r. }
  assert (s ∉ done) as Hs.
  { apply NoDup_app in Hnd as (_ & Hdis & _). intros Hs. apply (Hdis s Hs). by left. }
  replace (done ++ s :: todo) with ((done ++ [s]) ++ todo) in * by (by rewrite <- app_assoc).
  rewrite !length_app in Hb, Hb'. cbn in Hb, Hb'.
  destruct (place_placed done b s d) as [H1 H2]; [done..| lia | lia |].
  apply IH; [done | | done | rewrite !length_app; cbn; lia | rewrite !length_app; cbn; lia].
  rewrite length_app, Nat2Z.inj_add. exact H2.
Qed.

End Place.

(** *** All the destinations *)

Lemma elem_of_slots (clients : list Client) (s : Subscriber) :
  s ∈ slots clients <-> is_Some (destination_at s clients).
Proof.
  unfold slots, destination_at. rewrite elem_of_concat. destruct s as [c d]; cbn. split.
  - intros (i & l & (client & Hc & ->)%list_lookup_imap_Some & (j & x & E & Hj)%elem_of_lookup_imap_1).
    injection E as <- <-. rewrite Hc. cbn. by rewrite Hj.
  - intros [x Hx]. destruct (clients !! c) as [client|] eqn:Hc; [|done]. cbn in Hx.
    exists c, (imap (fun d _ => mkSubscriber c d) (c_destinations client)). split.
    + apply list_lookup_imap_Some. eauto.
    + apply elem_of_lookup_imap. eauto.
Qed.

Lemma slots_NoDup (clients : list Client) : NoDup (slots clients).
Proof.
  apply NoDup_concat.
  - intros i l (client & Hc & ->)%list_lookup_imap_Some. apply NoDup_alt. intros j k s Hj Hk.
    apply list_lookup_imap_Some in Hj as (? & _ & ->), Hk as (? & _ & E). by injection E.
  - intros i j l l' s (c1 & _ & ->)%list_lookup_imap_Some (c2 & _ & ->)%list_lookup_imap_Some
      (? & ? & -> & _)%elem_of_lookup_imap_1 (? & ? & E & _)%elem_of_lookup_imap_1. by injection E.
Qed.

(** Probers that are wired have no subscriber in common. *)
Lemma links_subscribers (clients : list Client) (probers : list Prober) :
  links clients probers -> NoDup (concat (map p_subscribers probers)).
Proof.
  intros [_ Hback Honce _ _]. apply NoDup_concat.
  - intros i l (p & -> & Hp)%list_lookup_fmap_Some. rewrite Forall_lookup in Honce. eauto.
  - intros i j l l' s (p & -> & Hp)%list_lookup_fmap_Some (q & -> & Hq)%list_lookup_fmap_Some Hs Hs'.
    destruct (Hback i p s Hp Hs) as (d & Hd & _ & E), (Hback j q s Hq Hs') as (d' & Hd' & _ & E').
    simplify_eq. lia.
Qed.

(** *** The uid map and the fastest interval *)

Lemma index_uids_spec (ps : list Prober) (u : Z) (k : nat) :
  NoDup (map p_uid ps) ->
  forall i acc, (forall p, p ∈ ps -> acc !! p_uid p = None) ->
    (index_uids i ps acc !! u = Some k <->
     acc !! u = Some k \/ exists j p, k = (i + j)%nat /\ ps !! j = Some p /\ p_uid p = u).
Proof.
  induction ps as [|p ps IH]; intros Hnd i acc Hacc; cbn [index_uids].
  { split; [by left|]. intros [? | (j & p & _ & ? & _)]; done. }
  apply NoDup_cons in Hnd as [Hp Hnd]. rewrite IH; [|done|].
  - split.
    + intros [Hu | (j & q & -> & Hq & E)].
      * destruct (decide (p_uid p = u)) as [<-|Hne].
        -- rewrite lookup_insert_eq in Hu. injection Hu as <-. right. exists 0%nat, p.
           split_and!; [lia | done..].
        -- rewrite lookup_insert_ne in Hu by done. by left.
      * right. exists (S j), q. split_and!; [lia | done..].
    + intros [Hu | ([|j] & q & -> & Hq & E)].
      * left. rewrite lookup_insert_ne; [done|]. intros <-. by rewrite Hacc in Hu by left.
      * left. injection Hq as ->. rewrite E, Nat.add_0_r. apply lookup_insert_eq.
      * right. exists j, q. split_and!; [lia | done..].
  - intros q Hq. rewrite lookup_insert_ne; [apply Hacc; by right|].
    intros E. apply Hp. rewrite E. apply list_elem_of_fmap. eauto.
Qed.

Lemma index_uids_ok (ps : list Prober) :
  NoDup (map p_uid ps) -> uids_ok (index_uids 0 ps ∅) ps.
Proof.
  intros Hnd u i. rewrite index_uids_spec; [|done|by intros; rewrite lookup_empty].
  rewrite lookup_empty. split.
  - intros [?|(j & p & -> & Hp & E)]; [done | eauto].
  - intros (p & Hp & E). right. exists i, p. split_and!; [lia | done..].
Qed.

Lemma min_interval_spec (ps : list Prober) (least : Z) :
  Forall (fun p => 0 < p_intervalUs p) ps -> 0 <= least ->
  let r := fold_left (fun least p => if (least =? 0) || (p_intervalUs p <? least)
                                     then p_intervalUs p else least) ps least in
  (least = 0 /\ ps = [] /\ r = 0) \/
  (0 < r /\ (least <> 0 -> r <= least) /\ Forall (fun p => r <= p_intervalUs p) ps).
Proof.
  intros Hall; revert least. induction Hall as [|p ps Hp _ IH]; intros least Hl; cbn [fold_left].
  { destruct (Z.eq_dec least 0) as [->|]; [by left | right]. split_and!; [lia | lia | constructor]. }
  destruct (Z.eqb_spec least 0) as [->|Hne]; cbn [orb].
  - destruct (IH (p_intervalUs p)) as [(? & _) | (H1 & H2 & H3)]; [lia | lia |].
    right. split_and!; [done | done | apply Forall_cons; split; [lia | done]].
  - destruct (Z.ltb_spec (p_intervalUs p) least).
    + destruct (IH (p_intervalUs p)) as [(? & _) | (H1 & H2 & H3)]; [lia | lia |].
      right. split_and!; [done | lia | apply Forall_cons; split; [lia | done]].
    + destruct (IH least) as [(? & _) | (H1 & H2 & H3)]; [lia | lia |].
      right. split_and!; [done | lia | apply Forall_cons; split; [lia | done]].
Qed.

Lemma links_set_max (clients : list Client) (probers : list Prober) :
  links clients probers -> links clients (map set_max probers).
Proof.
  intros [Hl Hb Ho Hu Hk]. constructor.
  - intros s client d Hc Hd. specialize (Hl s client d Hc Hd). destruct (d_enabled d); [|done].
    destruct Hl as (i & p & E & Hp & Hs & E1 & E2 & E3). exists i, (set_max p).
    rewrite list_lookup_fmap, Hp. done.
  - intros i p' s (p & -> & Hp)%list_lookup_fmap_Some Hs. by eapply Hb.
  - by apply Forall_fmap.
  - by apply Forall_fmap.
  - rewrite map_map. exact Hk.
Qed.

Section Rebuilding.
Context `{Libc}.
Variables (now : Z) (m : Monitor).
Hypothesis Hm : configurable m.

(** Where the loops leave off. *)
Definition rebuilt : Rebuild :=
  fold_left (place (m_probers m) (index_keys 0 (m_probers m) ∅) now) (slots (m_clients m))
    (mkRebuild (m_clients m) [] ∅ (replicate (length (m_probers m)) false) (m_nextUid m)).

Lemma rebuild_eq :
  rebuildProbers now m =
  m <| m_clients := b_clients rebuilt |> <| m_probers := map set_max (b_probers rebuilt) |>
    <| m_proberByUid := index_uids 0 (b_probers rebuilt) ∅ |> <| m_nextUid := b_nextUid rebuilt |>
    <| m_minIntervalUs := min_interval (b_probers rebuilt) |>.
Proof. reflexivity. Qed.

Lemma rebuilt_placed :
  placed (m_clients m) (m_probers m) now (m_nextUid m) (slots (m_clients m)) rebuilt /\
  sized (m_nextUid m) (Z.of_nat (length (slots (m_clients m)))) rebuilt.
Proof.
  destruct Hm as [Hk Hu Hr Hc (H0 & H32 & H31)].
  destruct (place_all (m_clients m) (m_probers m) now (m_nextUid m) Hu Hr Hc (slots (m_clients m)) []
    (mkRebuild (m_clients m) [] ∅ (replicate (length (m_probers m)) false) (m_nextUid m)));
    try done.
  - apply placed_start.
  - split_and!; cbn; try done; lia.
  - apply slots_NoDup.
  - apply Forall_forall. intros s Hs. by apply elem_of_slots.
Qed.

Lemma rebuilt_links : links (b_clients rebuilt) (b_probers rebuilt).
Proof.
  destruct rebuilt_placed as [[Pc Pl Pb Po Pi Pg Pr Pu Pn Pk] (_ & _ & Hused)].
  constructor; [ | | done | done | ].
  - intros s client d Hc Hd. apply (Pl s); [|done..].
    apply elem_of_slots. destruct (same_destinations unlink s (b_clients rebuilt) (m_clients m) d)
      as (d' & Hd' & _); [done..|]. eauto.
  - intros i p s Hp Hs. by apply (Pb i p s).
  - apply NoDup_alt. intros i j k (p & -> & Hp)%list_lookup_fmap_Some (q & E & Hq)%list_lookup_fmap_Some.
    assert (b_currentByKey rebuilt !! prober_key p = Some i) by (apply Pi; eauto).
    assert (b_currentByKey rebuilt !! prober_key p = Some j) by (apply Pi; eauto). congruence.
Qed.

Lemma rebuild_wired : wired (rebuildProbers now m).
Proof.
  destruct rebuilt_placed as [[Pc Pl Pb Po Pi Pg Pr Pu Pn Pk] _].
  rewrite rebuild_eq. constructor; cbn.
  - apply links_set_max, rebuilt_links.
  - intros u i. rewrite (index_uids_ok _ (proj1 Pu) u i). split.
    + intros (p & Hp & E). exists (set_max p). by rewrite list_lookup_fmap, Hp.
    + intros (p' & (p & -> & Hp)%list_lookup_fmap_Some & E). eauto.
  - destruct Pu as [Pu1 Pu2]. split; [by rewrite map_map | by apply Forall_fmap].
  - by apply Forall_fmap.
  - intros p' (p & -> & Hp)%list_elem_of_fmap. cbn.
    assert (Forall (fun p => 0 < p_intervalUs p) (b_probers rebuilt)) as Hpos.
    { eapply Forall_impl; [exact Pr|]. cbn. unfold intervals_ok. lia. }
    destruct (min_interval_spec (b_probers rebuilt) 0 Hpos ltac:(lia))
      as [(_ & E & _) | (H1 & _ & H3)]; [rewrite E in Hp; by apply not_elem_of_nil in Hp|].
    rewrite Forall_forall in H3. split; [done | by apply H3].
  - intros E%map_eq_nil. by rewrite E.
Qed.

Lemma max_in_flight_allowed (p : Prober) :
  intervals_ok (p_intervalUs p) (p_timeoutUs p) ->
  max_in_flight p = probes_allowed (p_intervalUs p) (p_timeoutUs p).
Proof.
  unfold intervals_ok, max_in_flight, probes_allowed. intros. by rewrite u64_small by lia.
Qed.

Lemma fresh_prober_ok (address : str) (i t uid : Z) :
  clock_ok now -> intervals_ok i t -> prober_ok now (set_max (fresh_prober address i t uid now)).
Proof.
  intros Hc Hi. pose proof Hi as [H1 H2].
  assert (max_in_flight (fresh_prober address i t uid now) = probes_allowed i t) as Hmax.
  { rewrite max_in_flight_allowed; unfold fresh_prober; by destruct (parseNumericAddress address). }
  pose proof (probes_allowed_range i t). unfold clock_ok in Hc. unfold set_max. rewrite Hmax.
  unfold fresh_prober. destruct (parseNumericAddress address);
    constructor; cbn; try done; try constructor; lia.
Qed.

Lemma rebuild_probers_ok (t : Z) :
  clock_ok now -> t <= now -> Forall (prober_ok t) (m_probers m) ->
  Forall (prober_ok now) (m_probers (rebuildProbers now m)).
Proof.
  intros Hc Ht Hok. destruct rebuilt_placed as [[Pc Pl Pb Po Pi Pg Pr Pu Pn Pk] _].
  rewrite rebuild_eq. cbn. apply Forall_fmap, Forall_forall. intros p Hp. cbn.
  rewrite Forall_forall in Pg, Pr. destruct (Pg p Hp) as [(q & Hq & E) | (_ & _ & E)].
  - rewrite Forall_forall in Hok. pose proof (prober_ok_later t now q Ht (Hok q Hq)) as Hq'.
    assert (max_in_flight p = p_maxInFlight q) as Em.
    { rewrite max_in_flight_allowed by auto. rewrite E. cbn. by destruct Hq'. }
    unfold set_max. rewrite Em, E. by destruct Hq'.
  - specialize (Pr p Hp). destruct (fresh_prober_ok (p_host p) (p_intervalUs p) (p_timeoutUs p) (p_uid p) Hc Pr).
    rewrite E. by constructor.
Qed.

Lemma rebuild_clients :
  map (map_client unlink) (m_clients (rebuildProbers now m)) = map (map_client unlink) (m_clients m).
Proof. destruct rebuilt_placed as [[Pc _ _ _ _ _ _ _ _ _] _]. exact Pc. Qed.

Lemma rebuild_nextUid : m_nextUid m <= m_nextUid (rebuildProbers now m).
Proof. destruct rebuilt_placed as [[_ _ _ _ _ _ _ _ Pn _] _]. exact Pn. Qed.

Lemma rebuild_origin (t : Z) :
  Forall (prober_ok t) (m_probers m) ->
  Forall (fun p =>
    (exists q, q ∈ m_probers m /\ p = q <| p_subscribers := p_subscribers p |>) \/
    (m_nextUid m <= p_uid p /\ ~ (prober_key p ∈ map prober_key (m_probers m)) /\
     p = (fresh_prober (p_host p) (p_intervalUs p) (p_timeoutUs p) (p_uid p) now)
           <| p_subscribers := p_subscribers p |> <| p_maxInFlight := p_maxInFlight p |>))
    (m_probers (rebuildProbers now m)).
Proof.
  intros Hok. destruct rebuilt_placed as [[Pc Pl Pb Po Pi Pg Pr Pu Pn Pk] _].
  rewrite rebuild_eq. cbn. apply Forall_fmap, Forall_forall. intros p Hp. cbn.
  rewrite Forall_forall in Pg, Pr, Hok. specialize (Pr p Hp).
  destruct (Pg p Hp) as [(q & Hq & E) | (Hu & Hk & E)].
  - left. exists q. split; [done|]. unfold set_max. rewrite max_in_flight_allowed by done.
    rewrite E. pose proof (pok_max _ _ (Hok q Hq)) as Em. destruct q. cbn in *. by rewrite Em.
  - right. split_and!; [done | done |]. unfold set_max. generalize (max_in_flight p) as k.
    intros k. cbn. rewrite E at 1. done.
Qed.

End Rebuilding.

(** *** The order of the clients *)

Lemma str_ltb_asym (a b : str) : str_ltb a b = true -> str_ltb b a = false.
Proof.
  revert b; induction a as [|x a IH]; intros [|y b]; cbn; try done.
  intros [H|[H1 H2]%andb_true_iff]%orb_true_iff; bools; apply orb_false_iff;
    (split; [lia|]); apply andb_false_iff; [left; lia | right; by apply IH].
Qed.

Lemma str_le_trans (a b c : str) :
  str_ltb b a = false -> str_ltb c b = false -> str_ltb c a = false.
Proof.
  revert b c; induction a as [|x a IH]; intros [|y b] [|z c]; cbn; try done.
  intros H1 H2. bools. apply orb_false_iff. split; [lia|]. apply andb_false_iff.
  destruct (Z.eqb_spec (uc z) (uc x)); [right | by left].
  repeat match goal with H : _ \/ _ |- _ => destruct H end; bools; try lia; by apply (IH b).
Qed.

#[export] Instance client_le_trans : Transitive client_le.
Proof. intros a b c. unfold client_le. apply str_le_trans. Qed.

#[export] Instance client_le_total : Total client_le.
Proof.
  intros a b. unfold client_le. destruct (str_ltb (c_id b) (c_id a)) eqn:E; [right | by left].
  by apply str_ltb_asym.
Qed.

(** *** Carrying state over *)

Lemma carry_client_same (clients : list Client) (c : Client) :
  carry_client clients c = c <| c_destinations := c_destinations (carry_client clients c) |> /\
  length (c_destinations (carry_client clients c)) = length (c_destinations c).
Proof.
  unfold carry_client. destruct (List.find _ clients); cbn.
  - split; [done | apply length_map].
  - split; [by destruct c | done].
Qed.

Lemma carry_over_ok (old d : Destination) :
  destination_ok old -> destination_ok d -> destination_ok (carry_over old d).
Proof. intros [] []. by constructor. Qed.

Lemma carry_clients_ok (clients cs : list Client) :
  destinations_ok clients -> destinations_ok cs -> destinations_ok (map (carry_client clients) cs).
Proof.
  unfold destinations_ok. intros Hold Hnew. apply Forall_fmap. apply (Forall_impl _ _ _ Hnew).
  intros c Hc. cbn. unfold carry_client.
  destruct (List.find _ clients) as [previous|] eqn:E; [|done]. cbn.
  apply List.find_some in E as [Hin _]. rewrite Forall_forall in Hold.
  specialize (Hold previous ltac:(by apply list_elem_of_In)). cbn in Hold.
  apply Forall_fmap. apply (Forall_impl _ _ _ Hc). intros d Hd. cbn. unfold carry_destination.
  destruct (List.find _ (c_destinations previous)) as [old|] eqn:Eo; [|done].
  apply List.find_some in Eo as [Hold' _]. rewrite Forall_forall in Hold.
  apply carry_over_ok; [|done]. apply Hold. by apply list_elem_of_In.
Qed.

Lemma length_slots (clients : list Client) : length (slots clients) = destination_count clients.
Proof.
  unfold slots, destination_count. generalize 0%nat as n.
  assert (forall l n, length (concat (imap (fun c client =>
      imap (fun d _ => mkSubscriber (n + c) d) (c_destinations client)) l)) =
      length (concat (map c_destinations l))) as H.
  { induction l as [|c l IH]; intros n; [done|]. cbn. rewrite !length_app, length_imap. f_equal.
    rewrite <- (IH (S n)). f_equal. f_equal. apply imap_ext. intros i x _. cbn.
    apply imap_ext. intros. f_equal. lia. }
  intros _. apply (H clients 0%nat).
Qed.

Lemma destination_count_permutation (cs cs' : list Client) :
  cs ≡ₚ cs' -> destination_count cs = destination_count cs'.
Proof.
  unfold destination_count. induction 1; cbn; rewrite ?length_app in *; lia.
Qed.

Lemma destination_count_carry (clients cs : list Client) :
  destination_count (map (carry_client clients) cs) = destination_count cs.
Proof.
  unfold destination_count. induction cs as [|c cs IH]; cbn; [done|].
  rewrite !length_app, IH. f_equal. apply carry_client_same.
Qed.

(** Unlinking hides nothing a well-formed destination promises. *)
Lemma unlink_ok (cs cs' : list Client) :
  map (map_client unlink) cs' = map (map_client unlink) cs ->
  destinations_ok cs -> destinations_ok cs'.
Proof.
  intros E Hok. unfold destinations_ok in *. apply Forall_lookup. intros i c' Hc'.
  destruct (same_client unlink i cs' cs c') as (c & Hc & Ec); [done..|].
  rewrite Forall_lookup in Hok. specialize (Hok i c Hc). cbn in *.
  assert (map unlink (c_destinations c) = map unlink (c_destinations c')) as Ed.
  { change (c_destinations (map_client unlink c) = c_destinations (map_client unlink c')).
    congruence. }
  apply Forall_lookup. intros j d' Hd'. apply (f_equal (lookup j)) in Ed.
  rewrite !list_lookup_fmap, Hd' in Ed. destruct (c_destinations c !! j) as [d|] eqn:Hd; [|done].
  rewrite Forall_lookup in Hok. destruct (Hok j d Hd) as [H1 H2 H3 H4].
  assert (unlink d = unlink d') as Eu by (cbn in Ed; congruence).
  assert (d_sensitivity d' = d_sensitivity d /\ d_candidateStreak d' = d_candidateStreak d /\
    d_state d' = d_state d) as (E1 & E2 & E3).
  { change (d_sensitivity (unlink d') = d_sensitivity (unlink d) /\
      d_candidateStreak (unlink d') = d_candidateStreak (unlink d) /\
      d_state (unlink d') = d_state (unlink d)). by rewrite Eu. }
  constructor; rewrite ?E1, ?E2, ?E3; done.
Qed.

Lemma wired_stateDirty (m : Monitor) (b : bool) : wired m -> wired (m <| m_stateDirty := b |>).
Proof. intros []. by constructor. Qed.

(** [reloadClients], in terms of the clients that were loaded. *)
Lemma reload_eq `{Libc} (loadClientFile : str -> str -> option Client) (dir : str)
    (names : list str) (now : Z) (m : Monitor) :
  reloadClients loadClientFile dir (Entries names) now m =
  (rebuildProbers now (m <| m_configDirty := false |>
     <| m_clients := map (carry_client (m_clients m))
                       (merge_sort client_le (client_files loadClientFile dir names)) |>))
    <| m_stateDirty := true |>.
Proof. unfold reloadClients, client_files. reflexivity. Qed.

(** The state [rebuildProbers] is called in, and that it can be called. *)
Definition reloading `{Libc} (files : list Client) (m : Monitor) : Monitor :=
  m <| m_configDirty := false |>
    <| m_clients := map (carry_client (m_clients m)) (merge_sort client_le files) |>.

(** Equal images, element by element. *)
Lemma Forall2_map_eq {A B C} (f : A -> C) (g : B -> C) (l : list A) (k : list B) :
  map g k = map f l -> Forall2 (fun x y => g y = f x) l k.
Proof.
  revert k; induction l as [|x l IH]; intros [|y k] E; try done; constructor.
  - by injection E.
  - apply IH. by injection E.
Qed.

Lemma unlink_parts (d d' e : Destination) :
  unlink d' = unlink (carry_over e d) -> same_configuration d d' /\ same_evaluation e d'.
Proof.
  intros E. unfold same_configuration, same_evaluation. destruct d, d', e. injection E.
  intros; subst. cbn. split_and!; done.
Qed.

Lemma carry_over_self (d : Destination) : carry_over d d = d.
Proof. by destruct d. Qed.

Lemma reloaded_applied (previous sorted clients : list Client) :
  map (map_client unlink) clients = map (map_client unlink) (map (carry_client previous) sorted) ->
  Forall2 (applied previous) sorted clients.
Proof.
  rewrite map_map. intros E%Forall2_map_eq. apply (Forall2_impl _ _ _ _ E). clear E.
  intros c c' E. destruct (carry_client_same previous c) as [Ec _].
  pose proof (f_equal c_id E) as E1. pose proof (f_equal c_path E) as E2.
  pose proof (f_equal c_intervalUs E) as E3. pose proof (f_equal c_timeoutUs E) as E4.
  pose proof (f_equal c_error E) as E5. pose proof (f_equal c_destinations E) as E6.
  rewrite Ec in E1, E2, E3, E4, E5. cbn in E1, E2, E3, E4, E5, E6. split_and!; try done.
  assert (c_destinations (carry_client previous c) =
    map (fun d => carry_over (default d (old_destination previous c d)) d) (c_destinations c)) as Ed.
  { unfold carry_client, old_destination. destruct (List.find _ previous) as [p|]; cbn.
    - apply map_ext. intros d. unfold carry_destination.
      destruct (List.find _ _); [done | by rewrite carry_over_self].
    - symmetry. rewrite <- (map_id (c_destinations c)) at 2. apply map_ext. apply carry_over_self. }
  rewrite Ed, map_map in E6. apply Forall2_map_eq in E6. apply (Forall2_impl _ _ _ _ E6).
  intros d d'. apply unlink_parts.
Qed.

Lemma reloading_configurable `{Libc} (files : list Client) (m : Monitor) :
  wired m -> Forall (fun c => intervals_ok (c_intervalUs c) (c_timeoutUs c)) files ->
  0 <= m_nextUid m -> m_nextUid m + Z.of_nat (destination_count files) < 2 ^ 32 ->
  Z.of_nat (destination_count files) < 2 ^ 31 -> configurable (reloading files m).
Proof.
  intros [[_ _ _ _ Hk] Hb Hu Hrg _ _] Hr H0 H32 H31.
  assert (merge_sort client_le files ≡ₚ files) as Hperm by apply merge_sort_Permutation.
  constructor; try done.
  - cbn. apply Forall_fmap. rewrite <- Hperm in Hr. apply (Forall_impl _ _ _ Hr). intros c Hc. cbn.
    destruct (carry_client_same (m_clients m) c) as [-> _]. exact Hc.
  - assert (length (slots (m_clients (reloading files m))) = destination_count files) as ->;
      [|unfold reloading; cbn; lia].
    rewrite length_slots. change (m_clients (reloading files m))
      with (map (carry_client (m_clients m)) (merge_sort client_le files)).
    rewrite destination_count_carry.
    by apply destination_count_permutation.
Qed.

(** ** Properties *)

(** C3: rebuilding wires everything up: every enabled destination is linked to a prober that
    pings its address at its client's interval and timeout, and is subscribed to it exactly
    once; disabled ones are linked to none; no two probers ping the same host the same way, and
    each has a subscriber; the uids are distinct and the uid map finds them; nothing else of the
    clients changes. *)
Theorem rebuild_wires `{Libc} (now : Z) (m : Monitor) :
  configurable m ->
  wired (rebuildProbers now m) /\
  map (map_client unlink) (m_clients (rebuildProbers now m)) =
  map (map_client unlink) (m_clients m).
Proof.
  intros Hm. split; [by apply rebuild_wired | by apply rebuild_clients].
Qed.

(** C13: an edit of the configuration does not disturb the probing that goes on: a prober whose
    host, interval and timeout are still wanted keeps its uid, its endpoint, its schedule, the
    probes it has in flight and its counters; every other prober of the new list is fresh, due
    at once, with a uid never used before.  The probers keep their invariant. *)
Theorem rebuild_recycles `{Libc} (t now : Z) (m : Monitor) :
  configurable m -> clock_ok now -> t <= now -> Forall (prober_ok t) (m_probers m) ->
  Forall (prober_ok now) (m_probers (rebuildProbers now m)) /\
  Forall (fun p =>
    (exists q, q ∈ m_probers m /\ p = q <| p_subscribers := p_subscribers p |>) \/
    (m_nextUid m <= p_uid p /\ ~ (prober_key p ∈ map prober_key (m_probers m)) /\
     p = (fresh_prober (p_host p) (p_intervalUs p) (p_timeoutUs p) (p_uid p) now)
           <| p_subscribers := p_subscribers p |> <| p_maxInFlight := p_maxInFlight p |>))
    (m_probers (rebuildProbers now m)).
Proof.
  intros Hm Hc Ht Hok. split; [by eapply rebuild_probers_ok | by eapply rebuild_origin].
Qed.

(** C12: reloading applies the configuration files: the clients are what the files say, one for
    each file, in the order of their ids, with all their settings and destinations, except that
    the evaluation of a destination with the same client, id and address as before continues where
    it was, so that an edit never blinks an indicator; the destinations stay well formed and the
    monitor is wired. *)
Theorem reload_applies_configuration `{Libc} (loadClientFile : str -> str -> option Client)
    (dir : str) (names : list str) (now : Z) (m : Monitor) :
  let files := client_files loadClientFile dir names in
  wired m ->
  Forall (fun c => intervals_ok (c_intervalUs c) (c_timeoutUs c)) files ->
  0 <= m_nextUid m -> m_nextUid m + Z.of_nat (destination_count files) < 2 ^ 32 ->
  Z.of_nat (destination_count files) < 2 ^ 31 ->
  let m' := reloadClients loadClientFile dir (Entries names) now m in
  wired m' /\ m_stateDirty m' = true /\ m_configDirty m' = false /\
  (destinations_ok (m_clients m) -> destinations_ok files -> destinations_ok (m_clients m')) /\
  exists sorted, sorted ≡ₚ files /\ StronglySorted client_le sorted /\
    Forall2 (applied (m_clients m)) sorted (m_clients m').
Proof.
  intros files Hw Hr H0 H32 H31. cbv zeta. rewrite reload_eq. fold files.
  set (sorted := merge_sort client_le files).
  assert (sorted ≡ₚ files) as Hperm by apply merge_sort_Permutation.
  set (loaded := map (carry_client (m_clients m)) sorted).
  pose proof (reloading_configurable files m Hw Hr H0 H32 H31) as Hm1.
  change (m <| m_configDirty := false |> <| m_clients := loaded |>) with (reloading files m).
  set (m1 := reloading files m) in *.
  pose proof (rebuild_wired now m1 Hm1) as Hwired. pose proof (rebuild_clients now m1 Hm1) as Hsame.
  change (m_clients m1) with loaded in Hsame.
  assert (m_configDirty (rebuildProbers now m1) = false) as Hcfg by reflexivity.
  set (m2 := rebuildProbers now m1) in *. clearbody m2.
  split_and!; [by apply wired_stateDirty | done | done | |].
  - intros Hold Hfiles. cbn. eapply unlink_ok; [exact Hsame|].
    apply carry_clients_ok; [done|]. unfold destinations_ok. by rewrite Hperm.
  - exists sorted. split_and!; [done | apply (StronglySorted_merge_sort client_le); apply _ |].
    by apply reloaded_applied.
Qed.
