(* ===== verification/Double.v ===== *)
(** * Numbers: [double], [std::stod] and [printf]

    json.hpp keeps every number as a [double]: binary64, with the operations of the Standard
    Library's executable specification of IEEE 754.  This file has what json.hpp asks of the C++
    library - reading a decimal, printing one with [%.10g], converting from and to integers. *)

From Stdlib Require Import Floats.SpecFloat.
From S2P Require Import Prelude.

(** ** Arithmetic *)

Abbreviation double := spec_float.

Definition kPrecision : Z := 53.
Definition kMaxExponent : Z := 1024.

Definition double_add (x y : double) : double := SFadd kPrecision kMaxExponent x y.
Definition double_sub (x y : double) : double := SFsub kPrecision kMaxExponent x y.
Definition double_mul (x y : double) : double := SFmul kPrecision kMaxExponent x y.
Definition double_div (x y : double) : double := SFdiv kPrecision kMaxExponent x y.

Definition zero : double := S754_zero false.

(** [double(n)]: rounded to nearest even when [n] has more than 53 bits. *)
Definition of_Z (n : Z) : double := binary_normalize kPrecision kMaxExponent n 0 false.

Definition half : double := binary_normalize kPrecision kMaxExponent 1 (-1) false.

Definition isfinite (x : double) : bool :=
  match x with S754_zero _ | S754_finite _ _ _ => true | _ => false end.

(** The integer part, towards zero. *)
Definition trunc (x : double) : Z :=
  match x with
  | S754_finite s m e =>
      let n := if 0 <=? e then Zpos m * 2 ^ e else Zpos m / 2 ^ (- e) in
      if s then - n else n
  | _ => 0
  end.

(** [x == std::floor(x)], of a finite number. *)
Definition is_integral (x : double) : bool :=
  match x with
  | S754_finite _ m e => (0 <=? e) || (Zpos m mod 2 ^ (- e) =? 0)
  | _ => true
  end.

(** What the compiled program makes of a conversion that C++ leaves undefined. *)
Class Casts := { undefined_cast : double -> Z }.

(** [static_cast<long long>(x)]. *)
Definition to_long_long `{Casts} (x : double) : Z :=
  if (- 2 ^ 63 <=? trunc x) && (trunc x <? 2 ^ 63) && isfinite x then trunc x
  else undefined_cast x.

(** ** Printing: [%.10g] *)

Definition strip_zeros (l : str) : str :=
  rev ((fix strip (l : str) := match l with
        | c :: l' => if bool_decide (c = x30) then strip l' else l
        | [] => [] end) (rev l)).

(** [num / den] rounded to the nearest integer, ties to even. *)
Definition div_round (num den : Z) : Z :=
  let q := num / den in
  let r := num mod den in
  if 2 * r <? den then q else if den <? 2 * r then q + 1 else if Z.even q then q else q + 1.

(** The exponent of the first decimal digit of [num / den], both positive. *)
Definition decimal_exponent (num den : Z) : Z :=
  if den <=? num then Z.of_nat (length (dec (num / den))) - 1
  else - Z.of_nat (length (dec ((den - 1) / num))).

(** The ten digits [%.10g] prints, as an integer, and the exponent of the first. *)
Definition ten_digits (num den : Z) : Z * Z :=
  let x := decimal_exponent num den in
  let n := if 9 - x <? 0 then div_round num (den * 10 ^ (x - 9))
           else div_round (num * 10 ^ (9 - x)) den in
  if n =? 10 ^ 10 then (10 ^ 9, x + 1) else (n, x).

Definition exponent_text (x : Z) : str :=
  (if x <? 0 then lit "e-" else lit "e+") ++
  (if Z.abs x <? 10 then lit "0" else []) ++ dec (Z.abs x).

(** The fraction, unless it is empty. *)
Definition with_fraction (whole fraction : str) : str :=
  match strip_zeros fraction with [] => whole | f => whole ++ lit "." ++ f end.

Definition format_g10 (x : double) : str :=
  match x with
  | S754_finite s m e =>
      let num := if 0 <=? e then Zpos m * 2 ^ e else Zpos m in
      let den := if 0 <=? e then 1 else 2 ^ (- e) in
      let '(n, x) := ten_digits num den in
      let digits := dec n in
      (if s then lit "-" else []) ++
      (if (x <? -4) || (10 <=? x) then
         with_fraction (take 1 digits) (drop 1 digits) ++ exponent_text x
       else if x <? 0 then
         with_fraction (lit "0") (replicate (Z.to_nat (- x - 1)) x30 ++ digits)
       else with_fraction (take (Z.to_nat (x + 1)) digits) (drop (Z.to_nat (x + 1)) digits))
  | S754_zero s => if s then lit "-0" else lit "0"
  | S754_infinity s => if s then lit "-inf" else lit "inf"
  | S754_nan => lit "nan"
  end.

(** ** Reading: [std::stod] *)

Fixpoint span_digits (l : str) : str * str :=
  match l with
  | c :: l' => if is_digit c then let '(d, r) := span_digits l' in (c :: d, r) else ([], l)
  | [] => ([], [])
  end.

(** The magnitude [m * 10 ^ e] equals that of [x]. *)
Definition same_magnitude (m e : Z) (x : double) : bool :=
  match x with
  | S754_finite _ mx ex =>
      m * 10 ^ Z.max e 0 * 2 ^ Z.max (- ex) 0 =? Zpos mx * 2 ^ Z.max ex 0 * 10 ^ Z.max (- e) 0
  | _ => m =? 0
  end.

Definition is_subnormal (x : double) : bool :=
  match x with
  | S754_zero _ => true
  | S754_finite _ m e => negb (Zdigits2 (Zpos m) =? kPrecision)
  | _ => false
  end.

(** [(-1)^s * m * 10^e], correctly rounded; [None] is [ERANGE], which [std::stod] turns into an
    exception: overflow, or an inexact result below the normal range. *)
Definition decimal_to_double (s : bool) (m e : Z) : option double :=
  match m with
  | Zpos p =>
      let x :=
        if 0 <=? e then
          match m * 10 ^ e with
          | Zpos q => binary_round kPrecision kMaxExponent s q 0
          | _ => S754_nan
          end
        else
          let '(mz, ez, lz) := SFdiv_core_binary kPrecision kMaxExponent m 0 (10 ^ (- e)) 0 in
          binary_round_aux kPrecision kMaxExponent s mz ez lz in
      match x with
      | S754_infinity _ => None
      | _ => if is_subnormal x && negb (same_magnitude m e x) then None else Some x
      end
  | _ => Some (S754_zero s)
  end.

(** The exponent part of a decimal: its value, and what follows it; there must be a digit. *)
Definition read_exponent (l : str) : Z * str :=
  match l with
  | c :: l' =>
      if bool_decide (c = x65) || bool_decide (c = x45) then
        let '(negative, l'') :=
          match l' with
          | x2d :: l'' => (true, l'')
          | x2b :: l'' => (false, l'')
          | _ => (false, l')
          end in
        match span_digits l'' with
        | ([], _) => (0, l)
        | (digits, rest) =>
            (if negative then - dec_value 0 digits else dec_value 0 digits, rest)
        end
      else (0, l)
  | [] => (0, [])
  end.

(** [std::stod] on text made of digits, signs, points and [e]s: [None] when it throws, else the
    value and the text it did not consume. *)
Definition stod (token : str) : option (double * str) :=
  let '(negative, l) :=
    match token with
    | x2d :: l => (true, l)
    | x2b :: l => (false, l)
    | _ => (false, token)
    end in
  let '(whole, l) := span_digits l in
  let '(fraction, l) :=
    match l with
    | x2e :: l' => let '(f, r) := span_digits l' in
                   if bool_decide (whole = []) && bool_decide (f = []) then ([], l) else (f, r)
    | _ => ([], l)
    end in
  match whole ++ fraction with
  | [] => None
  | digits =>
      let '(e, rest) := read_exponent l in
      x ← decimal_to_double negative (dec_value 0 digits) (e - Z.of_nat (length fraction));
      Some (x, rest)
  end.

(** ** Lemmas *)

(** *** Exact rounding *)

Lemma digits_log2 (p : positive) : Z.pos (digits2_pos p) = Z.log2 (Z.pos p) + 1.
Proof.
  induction p as [p IH|p IH|]; [| |done]; cbn [digits2_pos]; rewrite Pos2Z.inj_succ, IH.
  - change (Z.pos p~1) with (2 * Z.pos p + 1). rewrite Z.log2_succ_double by lia. lia.
  - change (Z.pos p~0) with (2 * Z.pos p). rewrite Z.log2_double by lia. lia.
Qed.

(** Shifting out zeros. *)
Lemma shr_zeros (n : nat) (q : positive) :
  Nat.iter n shr_1 (Build_shr_record (Zpos q * 2 ^ Z.of_nat n) false false) =
  Build_shr_record (Zpos q) false false.
Proof.
  revert q. induction n as [|n IH]; intros q; [by rewrite Z.mul_1_r|].
  rewrite Nat2Z.inj_succ, Z.pow_succ_r by lia.
  replace (Zpos q * (2 * 2 ^ Z.of_nat n)) with (Zpos (xO q) * 2 ^ Z.of_nat n) by lia.
  change (shr_1 (Nat.iter n shr_1 (Build_shr_record (Zpos (xO q) * 2 ^ Z.of_nat n) false false)) =
    Build_shr_record (Zpos q) false false).
  by rewrite IH.
Qed.

Lemma iter_pos_nat {A} (f : A -> A) (n : positive) (x : A) :
  SpecFloat.iter_pos f n x = Nat.iter (Pos.to_nat n) f x.
Proof.
  revert x; induction n as [n IH|n IH|]; intros x; cbn [SpecFloat.iter_pos]; [| |done].
  - rewrite !IH, <- Nat.iter_add. replace (Pos.to_nat n~1) with (S (Pos.to_nat n + Pos.to_nat n)) by lia.
    by rewrite Nat.iter_succ_r.
  - rewrite !IH, <- Nat.iter_add. f_equal. lia.
Qed.

(** The exponent a number of magnitude [m * 2 ^ e] has in binary64. *)
Definition exponent_of (m : positive) (e : Z) : Z :=
  fexp kPrecision kMaxExponent (Z.log2 (Zpos m) + 1 + e).

(** Rounding what fits does nothing. *)
Lemma round_aux_fits (s : bool) (m : positive) (e : Z) :
  exponent_of m e <= e -> e <= 971 ->
  binary_round_aux kPrecision kMaxExponent s (Zpos m) e loc_Exact = S754_finite s m e.
Proof.
  intros Ht He. unfold binary_round_aux, shr_fexp. cbn [shr_record_of_loc Zdigits2].
  rewrite digits_log2. fold (exponent_of m e).
  assert (forall mrs, shr mrs e (exponent_of m e - e) = (mrs, e)) as Hs.
  { intros mrs. unfold shr. destruct (exponent_of m e - e) eqn:E; [done | lia | done]. }
  rewrite Hs. cbn [shr_m loc_of_shr_record round_nearest_even shr_record_of_loc Zdigits2].
  rewrite digits_log2. fold (exponent_of m e). rewrite Hs. cbn [shr_m].
  by rewrite (proj2 (Z.leb_le e (kMaxExponent - kPrecision))) by (unfold kMaxExponent, kPrecision; lia).
Qed.

Lemma log2_mul_pow2' (q : positive) (n : Z) :
  0 <= n -> Z.log2 (Zpos q * 2 ^ n) = Z.log2 (Zpos q) + n.
Proof. intros. rewrite Z.log2_mul_pow2 by lia. lia. Qed.

(** Rounding drops trailing zeros. *)
Lemma round_aux_zeros (s : bool) (m q : positive) (e n : Z) :
  exponent_of m e = e + n -> 0 < n -> e + n <= 971 -> Zpos m = Zpos q * 2 ^ n ->
  binary_round_aux kPrecision kMaxExponent s (Zpos m) e loc_Exact = S754_finite s q (e + n).
Proof.
  intros Ht Hn He Hm. unfold binary_round_aux, shr_fexp. cbn [shr_record_of_loc Zdigits2].
  rewrite digits_log2. fold (exponent_of m e). rewrite Ht. replace (e + n - e) with n by lia.
  assert (shr (Build_shr_record (Zpos m) false false) e n =
    (Build_shr_record (Zpos q) false false, e + n)) as Hs.
  { unfold shr. destruct n as [|n|n]; [lia| |lia]. rewrite iter_pos_nat, Hm.
    replace (2 ^ Z.pos n) with (2 ^ Z.of_nat (Pos.to_nat n)) by (by rewrite positive_nat_Z).
    by rewrite shr_zeros. }
  rewrite Hs. cbn [shr_m loc_of_shr_record round_nearest_even shr_record_of_loc Zdigits2].
  rewrite digits_log2.
  assert (fexp kPrecision kMaxExponent (Z.log2 (Zpos q) + 1 + (e + n)) = e + n) as Eq.
  { unfold exponent_of in Ht. rewrite Hm, log2_mul_pow2' in Ht by lia. rewrite <- Ht at 2. f_equal. lia. }
  rewrite Eq, Z.sub_diag. cbn [shr shr_m].
  by rewrite (proj2 (Z.leb_le (e + n) (kMaxExponent - kPrecision))) by (unfold kMaxExponent, kPrecision; lia).
Qed.

Lemma pos_iter_xO (m p : positive) : Zpos (Pos.iter xO m p) = Zpos m * 2 ^ Zpos p.
Proof.
  induction p as [|p IH] using Pos.peano_ind; [cbn; lia|].
  rewrite Pos.iter_succ, Pos2Z.inj_succ, Z.pow_succ_r by lia.
  change (Zpos (xO (Pos.iter xO m p))) with (2 * Zpos (Pos.iter xO m p)). rewrite IH. lia.
Qed.

(** A number with at most 53 significant bits is represented exactly. *)
Lemma round_exact (s : bool) (m : positive) (e : Z) :
  Z.log2 (Zpos m) < 53 -> exponent_of m e <= e -> e <= 971 ->
  exists q, binary_round kPrecision kMaxExponent s m e = S754_finite s q (exponent_of m e) /\
    Zpos q = Zpos m * 2 ^ (e - exponent_of m e).
Proof.
  intros Hl Ht He. unfold binary_round. rewrite digits_log2. fold (exponent_of m e).
  set (t := exponent_of m e) in *. unfold shl_align.
  destruct (t - e) as [|p|p] eqn:E; [| lia |].
  - exists m. assert (t = e) as Et by lia. rewrite Et, Z.sub_diag, Z.mul_1_r. split; [|done].
    apply round_aux_fits; [|done]. change (exponent_of m e) with t. lia.
  - assert (Zpos (Pos.iter xO m p) = Zpos m * 2 ^ Zpos p) as Hq by apply pos_iter_xO.
    exists (Pos.iter xO m p). replace (e - t) with (Zpos p) by lia. split; [|done].
    apply round_aux_fits; [|lia]. unfold exponent_of. rewrite Hq, log2_mul_pow2' by lia.
    replace (Z.log2 (Zpos m) + Z.pos p + 1 + t) with (Z.log2 (Zpos m) + 1 + e) by lia.
    apply Z.le_refl.
Qed.

(** *** Integers *)

Lemma exponent_small (m : positive) : Z.log2 (Zpos m) < 53 -> exponent_of m 0 = Z.log2 (Zpos m) - 52.
Proof.
  intros Hl. pose proof (Z.log2_nonneg (Zpos m)).
  unfold exponent_of, fexp, emin, kPrecision, kMaxExponent. lia.
Qed.

Lemma round_integer (s : bool) (m : positive) :
  Z.log2 (Zpos m) < 53 ->
  exists q, binary_round kPrecision kMaxExponent s m 0 =
      S754_finite s q (Z.log2 (Zpos m) - 52) /\
    Zpos q = Zpos m * 2 ^ (52 - Z.log2 (Zpos m)).
Proof.
  intros Hl. pose proof (exponent_small m Hl) as E. pose proof (Z.log2_nonneg (Zpos m)).
  destruct (round_exact s m 0) as (q & Hq & Em); [done | lia | lia |].
  rewrite E in *. exists q. split; [done|]. rewrite Em. do 2 f_equal. lia.
Qed.

Lemma trunc_scaled (s : bool) (q m : positive) (t : Z) :
  t <= 0 -> Zpos q = Zpos m * 2 ^ (- t) ->
  trunc (S754_finite s q t) = (if s then - Zpos m else Zpos m) /\
  is_integral (S754_finite s q t) = true.
Proof.
  intros Ht Hq. unfold trunc, is_integral. destruct (Z.leb_spec 0 t).
  - replace t with 0 in * by lia. rewrite Z.mul_1_r in Hq. rewrite Hq, Z.mul_1_r. done.
  - rewrite Hq, Z.div_mul by (apply Z.pow_nonzero; lia).
    rewrite Z.mod_mul by (apply Z.pow_nonzero; lia). done.
Qed.

Lemma log2_lt (m : positive) (k : Z) : 0 <= k -> Zpos m < 2 ^ k -> Z.log2 (Zpos m) < k.
Proof. intros. apply Z.log2_lt_pow2; lia. Qed.

(** Integers of at most 53 bits are exact. *)
Lemma of_Z_exact (n : Z) :
  Z.abs n < 2 ^ 53 ->
  trunc (of_Z n) = n /\ is_integral (of_Z n) = true /\ isfinite (of_Z n) = true.
Proof.
  intros Hn. destruct n as [|m|m]; [done| |]; cbn [of_Z binary_normalize];
    unfold of_Z, binary_normalize.
  - destruct (round_integer false m) as (q & -> & Hq); [apply log2_lt; lia|].
    pose proof (log2_lt m 53 ltac:(lia) ltac:(lia)).
    destruct (trunc_scaled false q m (Z.log2 (Zpos m) - 52)) as [-> ->]; [lia | | done].
    rewrite Hq. do 2 f_equal. lia.
  - destruct (round_integer true m) as (q & -> & Hq); [apply log2_lt; lia|].
    pose proof (log2_lt m 53 ltac:(lia) ltac:(lia)).
    destruct (trunc_scaled true q m (Z.log2 (Zpos m) - 52)) as [-> ->]; [lia | | done].
    rewrite Hq. do 2 f_equal. lia.
Qed.

(** *** Rounding to the nearest integer *)

Lemma half_value : half = S754_finite false 4503599627370496 (-53).
Proof. vm_compute. reflexivity. Qed.

(** [n + 1/2] is representable and its integer part is [n]. *)
Lemma round_half (s : bool) (n m : positive) :
  Z.log2 (Zpos n) < 52 -> Zpos m = (2 * Zpos n + 1) * 2 ^ 52 ->
  trunc (binary_round kPrecision kMaxExponent s m (-53)) = (if s then - Zpos n else Zpos n) /\
  isfinite (binary_round kPrecision kMaxExponent s m (-53)) = true.
Proof.
  intros Hl Hm. set (L := Z.log2 (Zpos n)) in *.
  pose proof (Z.log2_nonneg (Zpos n)) as H0. fold L in H0.
  assert (Z.log2 (Zpos m) = L + 53) as Hlm.
  { rewrite Hm, Z.log2_mul_pow2 by lia. rewrite Z.log2_succ_double by lia. fold L. lia. }
  assert (exponent_of m (-53) = -53 + (L + 1)) as Ht.
  { unfold exponent_of, fexp, emin, kPrecision, kMaxExponent. rewrite Hlm. lia. }
  assert (0 < 2 ^ (51 - L)) as Hpow by (apply Z.pow_pos_nonneg; lia).
  assert (exists q, Zpos q = (2 * Zpos n + 1) * 2 ^ (51 - L)) as [q Hq].
  { exists (Z.to_pos ((2 * Zpos n + 1) * 2 ^ (51 - L))). apply Z2Pos.id. lia. }
  assert (binary_round kPrecision kMaxExponent s m (-53) = S754_finite s q (-53 + (L + 1))) as ->.
  { unfold binary_round. rewrite digits_log2. fold (exponent_of m (-53)). rewrite Ht.
    unfold shl_align. replace (-53 + (L + 1) - -53) with (L + 1) by lia.
    destruct (L + 1) as [|p|p] eqn:E; [lia| |lia]. rewrite <- E in *.
    apply round_aux_zeros; [done | lia | lia |].
    rewrite Hm, Hq, <- Z.mul_assoc, <- Z.pow_add_r by lia. do 2 f_equal. lia. }
  split; [|done]. unfold trunc. rewrite (proj2 (Z.leb_gt 0 (-53 + (L + 1)))) by lia.
  assert (Zpos q / 2 ^ (- (-53 + (L + 1))) = Zpos n) as ->; [|done].
  replace (- (-53 + (L + 1))) with (1 + (51 - L)) by lia.
  rewrite Z.pow_add_r, Hq by lia. rewrite Z.div_mul_cancel_r by lia.
  symmetry. apply (Z.div_unique _ _ _ 1); lia.
Qed.

(** From 2^52 on, [n + 1/2] is not representable and is rounded to the even neighbour. *)
Definition half_up (n : Z) : Z := if Z.even n then n else n + 1.

Lemma round_aux_integer (s : bool) (n : Z) (k : positive) :
  n = Zpos k -> 2 ^ 52 <= n <= 2 ^ 53 ->
  exists x, shr_fexp kPrecision kMaxExponent n 0 loc_Exact = x /\
    match shr_m (fst x) with
    | Zpos q => trunc (S754_finite s q (snd x)) = (if s then - n else n)
    | _ => False
    end /\ snd x <= 971.
Proof.
  intros -> Hk. eexists. split; [reflexivity|].
  destruct (Z.eq_dec (Zpos k) (2 ^ 53)) as [E|Hne].
  - rewrite E. destruct s; vm_compute; split; congruence.
  - assert (Z.log2 (Zpos k) = 52) as Hl by (apply Z.log2_unique; lia).
    unfold shr_fexp. cbn [shr_record_of_loc Zdigits2]. rewrite digits_log2, Hl.
    change (fexp kPrecision kMaxExponent (52 + 1 + 0) - 0) with 0. cbn [shr fst snd shr_m].
    split; [|lia]. unfold trunc. cbn [Z.leb Z.compare]. by rewrite Z.mul_1_r.
Qed.

Lemma round_half_large (s : bool) (n m : positive) :
  Z.log2 (Zpos n) = 52 -> Zpos m = (2 * Zpos n + 1) * 2 ^ 52 ->
  trunc (binary_round kPrecision kMaxExponent s m (-53)) =
    (if s then - half_up (Zpos n) else half_up (Zpos n)) /\
  isfinite (binary_round kPrecision kMaxExponent s m (-53)) = true.
Proof.
  intros Hl Hm. assert (2 ^ 52 <= Zpos n < 2 ^ 53) as Hn
    by (pose proof (Z.log2_spec (Zpos n)) as Hs; rewrite Hl in Hs; lia).
  assert (Z.log2 (Zpos m) = 105) as Hlm.
  { rewrite Hm, Z.log2_mul_pow2, Z.log2_succ_double, Hl by lia. lia. }
  assert (exponent_of m (-53) = 0) as Ht.
  { unfold exponent_of, fexp, emin, kPrecision, kMaxExponent. rewrite Hlm. lia. }
  unfold binary_round. rewrite digits_log2. fold (exponent_of m (-53)). rewrite Ht.
  assert (shl_align m (-53) 0 = (m, -53)) as -> by reflexivity.
  cbv beta iota. unfold binary_round_aux.
  assert (shr_fexp kPrecision kMaxExponent (Zpos m) (-53) loc_Exact =
    (Build_shr_record (Zpos n) true false, 0)) as ->.
  { unfold shr_fexp. cbn [shr_record_of_loc Zdigits2]. rewrite digits_log2.
    fold (exponent_of m (-53)). rewrite Ht. change (0 - -53) with 53. unfold shr. cbn [Z.add].
    rewrite iter_pos_nat, Hm. change (Pos.to_nat 53) with (S 52).
    change ((2 * Zpos n + 1) * 2 ^ 52) with (Zpos (xI n) * 2 ^ Z.of_nat 52).
    change (Nat.iter (S 52) shr_1 ?x) with (shr_1 (Nat.iter 52 shr_1 x)).
    by rewrite shr_zeros. }
  cbv beta iota.
  change (round_nearest_even (shr_m (Build_shr_record (Zpos n) true false))
    (loc_of_shr_record (Build_shr_record (Zpos n) true false))) with (half_up (Zpos n)).
  assert (Zpos n <= half_up (Zpos n) <= Zpos n + 1) as Hh by (unfold half_up; destruct (Z.even _); lia).
  destruct (round_aux_integer s (half_up (Zpos n)) (Z.to_pos (half_up (Zpos n)))) as (x & -> & Hx & Hle);
    [lia | lia |].
  destruct x as [mrs e]. cbn [fst snd] in *. destruct (shr_m mrs) as [|q|q]; [done | | done].
  by rewrite (proj2 (Z.leb_le e (kMaxExponent - kPrecision))) by (unfold kMaxExponent, kPrecision; lia).
Qed.

(** Aligning an integer with [half]. *)
Lemma align_half (q n : positive) :
  Z.log2 (Zpos n) < 53 -> Zpos q = Zpos n * 2 ^ (52 - Z.log2 (Zpos n)) ->
  Z.min (Z.log2 (Zpos n) - 52) (-53) = -53 /\
  Zpos (fst (shl_align q (Z.log2 (Zpos n) - 52) (-53))) = Zpos n * 2 ^ 53.
Proof.
  intros Hl Hq. set (L := Z.log2 (Zpos n)) in *.
  pose proof (Z.log2_nonneg (Zpos n)) as H0. fold L in H0. split; [lia|].
  unfold shl_align. destruct (-53 - (L - 52)) as [|p|p] eqn:E; [lia | lia |]. cbn [fst].
  rewrite pos_iter_xO, Hq. replace (Zpos p) with (L + 1) by lia.
  rewrite <- Z.mul_assoc, <- Z.pow_add_r by lia. do 2 f_equal. lia.
Qed.

Lemma add_half (n : positive) :
  Z.log2 (Zpos n) < 53 ->
  trunc (double_add (of_Z (Zpos n)) half) =
    (if Z.log2 (Zpos n) <? 52 then Zpos n else half_up (Zpos n)) /\
  isfinite (double_add (of_Z (Zpos n)) half) = true.
Proof.
  intros Hl. unfold of_Z. cbn [binary_normalize].
  destruct (round_integer false n) as (q & -> & Hq); [lia|].
  destruct (align_half q n) as [Hmin Hal]; [lia | done |].
  rewrite half_value. unfold double_add, SFadd. rewrite Hmin, Hal.
  cbn [cond_Zopp].
  assert (exists m, Zpos m = (2 * Zpos n + 1) * 2 ^ 52) as [m Hm]
    by (exists (Z.to_pos ((2 * Zpos n + 1) * 2 ^ 52)); apply Z2Pos.id; lia).
  replace (Zpos n * 2 ^ 53 + Z.pos (fst (shl_align 4503599627370496 (-53) (-53))))
    with (Zpos m) by (rewrite Hm; change (fst (shl_align 4503599627370496 (-53) (-53))) with 4503599627370496%positive; lia).
  cbn [binary_normalize]. destruct (Z.ltb_spec (Z.log2 (Zpos n)) 52).
  - by apply (round_half false n m).
  - apply (round_half_large false n m); [lia | done].
Qed.

Lemma sub_half (n : positive) :
  Z.log2 (Zpos n) < 53 ->
  trunc (double_sub (of_Z (Zneg n)) half) =
    (if Z.log2 (Zpos n) <? 52 then Zneg n else - half_up (Zpos n)) /\
  isfinite (double_sub (of_Z (Zneg n)) half) = true.
Proof.
  intros Hl. unfold of_Z. cbn [binary_normalize].
  destruct (round_integer true n) as (q & -> & Hq); [lia|].
  destruct (align_half q n) as [Hmin Hal]; [lia | done |].
  rewrite half_value. unfold double_sub, SFsub. rewrite Hmin.
  unfold cond_Zopp. rewrite Hal.
  assert (exists m, Zpos m = (2 * Zpos n + 1) * 2 ^ 52) as [m Hm]
    by (exists (Z.to_pos ((2 * Zpos n + 1) * 2 ^ 52)); apply Z2Pos.id; lia).
  replace (- (Zpos n * 2 ^ 53) - Z.pos (fst (shl_align 4503599627370496 (-53) (-53))))
    with (Zneg m)
    by (change (Zneg m) with (- Zpos m); rewrite Hm;
        change (fst (shl_align 4503599627370496 (-53) (-53))) with 4503599627370496%positive; lia).
  cbn [binary_normalize]. destruct (Z.ltb_spec (Z.log2 (Zpos n)) 52).
  - by apply (round_half true n m).
  - apply (round_half_large true n m); [lia | done].
Qed.

(** *** Reading integers *)

Lemma span_digits_all (l r : str) :
  Forall (fun c => is_digit c = true) l ->
  (forall c, head r = Some c -> is_digit c = false) ->
  span_digits (l ++ r) = (l, r).
Proof.
  intros Hl Hr. induction Hl as [|c l Hc _ IH]; cbn [app].
  - destruct r as [|c r]; [done|]. cbn [span_digits]. by rewrite (Hr c).
  - cbn [span_digits]. by rewrite Hc, IH.
Qed.

(** The number of an integer the documents contain. *)
Lemma decimal_integer (s : bool) (n : Z) :
  0 <= n < 2 ^ 53 ->
  decimal_to_double s n 0 =
  Some (if n =? 0 then S754_zero s else if s then of_Z (- n) else of_Z n).
Proof.
  intros Hn. destruct n as [|p|p]; [done | | lia]. cbn [Z.eqb]. unfold decimal_to_double.
  cbn [Z.leb Z.compare]. change (10 ^ 0) with 1. rewrite Z.mul_1_r.
  pose proof (log2_lt p 53 ltac:(lia) ltac:(lia)).
  destruct (round_integer s p) as (q & Eq & Hq); [lia|]. rewrite Eq.
  assert (is_subnormal (S754_finite s q (Z.log2 (Zpos p) - 52)) = false) as ->.
  { unfold is_subnormal. cbn [Zdigits2]. rewrite digits_log2, Hq.
    pose proof (Z.log2_nonneg (Zpos p)). rewrite log2_mul_pow2' by lia.
    unfold kPrecision. destruct (Z.eqb_spec (Z.log2 (Zpos p) + (52 - Z.log2 (Zpos p)) + 1) 53); [done|lia]. }
  cbn [andb]. rewrite <- Eq. unfold of_Z. by destruct s.
Qed.

Lemma stod_integer (n : Z) :
  Z.abs n < 2 ^ 53 -> stod (to_string n) = Some (of_Z n, []).
Proof.
  intros Hn. unfold to_string.
  assert (forall k, 0 <= k -> exists c l, dec k = c :: l /\ is_digit c = true /\
    span_digits (dec k) = (dec k, []) /\ dec_value 0 (dec k) = k) as Hdec.
  { intros k Hk. destruct (dec_spec k Hk) as (Hall & Hv & Hne).
    destruct (dec k) as [|c l] eqn:E; [done|]. exists c, l. split_and!; try done.
    - by inversion Hall.
    - rewrite <- (app_nil_r (c :: l)) at 1. by apply span_digits_all. }
  assert (forall c, is_digit c = true -> c <> x2d /\ c <> x2b) as Hsign
    by (intros c Hc; split; intros ->; by vm_compute in Hc).
  destruct (Z.ltb_spec n 0).
  - destruct (Hdec (- n)) as (c & l & E & _ & Hs & Hv); [lia|].
    cbn [stod]. rewrite Hs. cbn beta iota. rewrite app_nil_r. rewrite E at 1. rewrite <- E. 
    cbn [length read_exponent]. rewrite Hv, decimal_integer by lia.
    destruct (Z.eqb_spec (- n) 0); [lia|]. cbn. by rewrite Z.opp_involutive.
  - destruct (Hdec n) as (c & l & E & Hc & Hs & Hv); [lia|].
    destruct (Hsign c Hc) as [H1 H2]. unfold stod.
    assert (match dec n with x2d :: l => (true, l) | x2b :: l => (false, l) | _ => (false, dec n) end
      = (false, dec n)) as -> by (rewrite E; destruct c; try done).
    rewrite Hs. cbn beta iota. rewrite app_nil_r. rewrite E at 1. rewrite <- E.
    cbn [length read_exponent]. rewrite Hv, decimal_integer by lia. cbn.
    destruct (Z.eqb_spec n 0); [by subst | done].
Qed.
