(* ===== verification/Json.v ===== *)
(** * JSON values, the writer and the parser

    json.hpp.  A [Json] is a value of an inductive type; an object is its list of members in
    insertion order.  The writer is a function to text.  The parser works on what is left of the
    text, from which the offset in an error message is computed; its nesting limit is a fuel the
    code itself has, and the fuel of its loops is the length of the text left, which they cannot
    exhaust: [Exhausted] is proved impossible. *)

From Stdlib Require Import Floats.SpecFloat.
From S2P Require Import Prelude Double.

(** ** Values *)

Inductive Json :=
  | JNull
  | JBool (b : bool)
  | JNumber (number : double)
  | JString (s : str)
  | JArray (items : list Json)
  | JObject (members : list (str * Json)).

Definition isNull (j : Json) : bool := match j with JNull => true | _ => false end.
Definition isArray (j : Json) : bool := match j with JArray _ => true | _ => false end.
Definition isObject (j : Json) : bool := match j with JObject _ => true | _ => false end.

Definition toBool (j : Json) (def : bool) : bool :=
  match j with
  | JBool b => b
  | JNumber x => negb (SFeqb x zero)
  | _ => def
  end.

Definition toInt `{Casts} (j : Json) (def : Z) : Z :=
  match j with
  | JNumber x =>
      if isfinite x then
        to_long_long (if SFltb x zero then double_sub x half else double_add x half)
      else def
  | _ => def
  end.

Definition toString (j : Json) (def : str) : str := match j with JString s => s | _ => def end.

Definition json_size (j : Json) : nat :=
  match j with JArray l => length l | JObject l => length l | _ => 0 end.

Definition json_at (j : Json) (index : nat) : Json :=
  match j with JArray l => nth index l JNull | _ => JNull end.

Fixpoint find_member (key : str) (members : list (str * Json)) : option Json :=
  match members with
  | [] => None
  | (k, v) :: members => if bool_decide (k = key) then Some v else find_member key members
  end.

(** [operator[]] *)
Definition json_get (j : Json) (key : str) : Json :=
  match j with JObject members => default JNull (find_member key members) | _ => JNull end.

Fixpoint set_member (key : str) (value : Json) (members : list (str * Json)) : list (str * Json) :=
  match members with
  | [] => [(key, value)]
  | (k, v) :: members =>
      if bool_decide (k = key) then (k, value) :: members
      else (k, v) :: set_member key value members
  end.

Definition json_set (j : Json) (key : str) (value : Json) : Json :=
  JObject (set_member key value (match j with JObject members => members | _ => [] end)).

Definition json_push (j : Json) (value : Json) : Json :=
  JArray ((match j with JArray l => l | _ => [] end) ++ [value]).

(** ** The writer *)

(** A digit of [%x]. *)
Definition hex_digit (d : Z) : byte := if d <? 10 then chr (48 + d) else chr (87 + d).

(** [\u%04x] *)
Definition hex4 (n : Z) : str :=
  lit "\u" ++ [hex_digit (Z.land (Z.shiftr n 12) 15); hex_digit (Z.land (Z.shiftr n 8) 15);
               hex_digit (Z.land (Z.shiftr n 4) 15); hex_digit (Z.land n 15)].

Definition writeEscapedCodePoint (codePoint : Z) : str :=
  if codePoint <? 0x10000 then hex4 codePoint
  else
    let value := codePoint - 0x10000 in
    hex4 (0xD800 + Z.shiftr value 10) ++ hex4 (0xDC00 + Z.land value 0x3FF).

(** How many bytes follow the first byte [c >= 0x80] of a sequence, and the bits it has. *)
Definition utf8_lead (c : Z) : option (Z * nat) :=
  if Z.land c 0xE0 =? 0xC0 then Some (Z.land c 0x1F, 1%nat)
  else if Z.land c 0xF0 =? 0xE0 then Some (Z.land c 0x0F, 2%nat)
  else if Z.land c 0xF8 =? 0xF0 then Some (Z.land c 0x07, 3%nat)
  else None.

Fixpoint utf8_continue (codePoint : Z) (bytes : str) : option Z :=
  match bytes with
  | [] => Some codePoint
  | b :: bytes =>
      if negb (Z.land (uc b) 0xC0 =? 0x80) then None
      else utf8_continue (Z.lor (Z.shiftl codePoint 6) (Z.land (uc b) 0x3F)) bytes
  end.

Definition replacement : str := lit "\ufffd".

(** The text for a byte that is not escaped as UTF-8. *)
Definition write_byte (c : byte) : str :=
  if uc c =? 34 then [x5c; x22]
  else if uc c =? 92 then [x5c; x5c]
  else if uc c =? 8 then lit "\b"
  else if uc c =? 12 then lit "\f"
  else if uc c =? 10 then lit "\n"
  else if uc c =? 13 then lit "\r"
  else if uc c =? 9 then lit "\t"
  else if uc c <? 32 then writeEscapedCodePoint (uc c)
  else [c].

(** The loop of [writeString]; [skip] is how far [i] is ahead. *)
Fixpoint write_bytes (asciiOnly : bool) (skip : nat) (value : str) : str :=
  match value with
  | [] => []
  | c :: rest =>
      match skip with
      | S skip => write_bytes asciiOnly skip rest
      | O =>
          if asciiOnly && (0x80 <=? uc c) then
            match utf8_lead (uc c) with
            | None => replacement ++ write_bytes asciiOnly 0 rest
            | Some (codePoint, extra) =>
                if (length rest <? extra)%nat then replacement
                else
                  match utf8_continue codePoint (take extra rest) with
                  | None => replacement ++ write_bytes asciiOnly 0 rest
                  | Some codePoint => writeEscapedCodePoint codePoint ++ write_bytes asciiOnly extra rest
                  end
            end
          else write_byte c ++ write_bytes asciiOnly 0 rest
      end
  end.

Definition writeString (asciiOnly : bool) (value : str) : str :=
  [x22] ++ write_bytes asciiOnly 0 value ++ [x22].

Definition writeNumber (x : double) : str :=
  if negb (isfinite x) then lit "null"
  else if is_integral x && (Z.abs (trunc x) <? 9000000000000000) then to_string (trunc x)
  else format_g10 x.

Definition spaces (n : Z) : str := replicate (Z.to_nat n) x20.

(** What stands before an element or the closing bracket. *)
Definition line_break (indent depth : Z) : str :=
  if 0 <=? indent then [x0a] ++ spaces (indent * depth) else [].

(** The elements [texts] between [opening] and [closing]. *)
Definition bracketed (indent depth : Z) (opening closing : str) (texts : list str) : str :=
  match texts with
  | [] => opening ++ closing
  | first :: others =>
      opening ++ (line_break indent (depth + 1) ++ first) ++
      concat (map (fun text => [x2c] ++ line_break indent (depth + 1) ++ text) others) ++
      line_break indent depth ++ closing
  end.

Fixpoint write (indent : Z) (asciiOnly : bool) (depth : Z) (j : Json) : str :=
  match j with
  | JNull => lit "null"
  | JBool b => if b then lit "true" else lit "false"
  | JNumber x => writeNumber x
  | JString s => writeString asciiOnly s
  | JArray l =>
      bracketed indent depth [x5b] [x5d] (map (write indent asciiOnly (depth + 1)) l)
  | JObject l =>
      bracketed indent depth [x7b] [x7d]
        (map (fun m => writeString asciiOnly (fst m) ++ [x3a] ++
                (if 0 <=? indent then [x20] else []) ++
                write indent asciiOnly (depth + 1) (snd m)) l)
  end.

Definition dump (j : Json) (indent : Z) (asciiOnly : bool) : str := write indent asciiOnly 0 j.

(** ** The parser *)

Inductive Parsed (A : Type) :=
  | Ok (value : A) (rest : str)
  | Fail (error : str)
  | Exhausted.
#[global] Arguments Ok {A}.
#[global] Arguments Fail {A}.
#[global] Arguments Exhausted {A}.

Definition bind_parsed {A B} (r : Parsed A) (f : A -> str -> Parsed B) : Parsed B :=
  match r with Ok v rest => f v rest | Fail e => Fail e | Exhausted => Exhausted end.

Fixpoint skipWhitespace (l : str) : str :=
  match l with
  | c :: rest =>
      if bool_decide (c = x20) || bool_decide (c = x09) || bool_decide (c = x0a)
         || bool_decide (c = x0d)
      then skipWhitespace rest else l
  | [] => []
  end.

Definition appendUtf8 (cp : Z) : str :=
  if cp <? 0x80 then [chr cp]
  else if cp <? 0x800 then [chr (Z.lor 0xC0 (Z.shiftr cp 6)); chr (Z.lor 0x80 (Z.land cp 0x3F))]
  else if cp <? 0x10000 then
    [chr (Z.lor 0xE0 (Z.shiftr cp 12)); chr (Z.lor 0x80 (Z.land (Z.shiftr cp 6) 0x3F));
     chr (Z.lor 0x80 (Z.land cp 0x3F))]
  else
    [chr (Z.lor 0xF0 (Z.shiftr cp 18)); chr (Z.lor 0x80 (Z.land (Z.shiftr cp 12) 0x3F));
     chr (Z.lor 0x80 (Z.land (Z.shiftr cp 6) 0x3F)); chr (Z.lor 0x80 (Z.land cp 0x3F))].

Definition hex_value (c : byte) : option Z :=
  if (48 <=? uc c) && (uc c <=? 57) then Some (uc c - 48)
  else if (97 <=? uc c) && (uc c <=? 102) then Some (uc c - 97 + 10)
  else if (65 <=? uc c) && (uc c <=? 70) then Some (uc c - 65 + 10)
  else None.

(** What [parseNumber] takes for part of a number. *)
Definition is_number_char (c : byte) : bool :=
  is_digit c || bool_decide (c = x2e) || bool_decide (c = x65) || bool_decide (c = x45)
  || bool_decide (c = x2b) || bool_decide (c = x2d).

Fixpoint span_number (l : str) : str * str :=
  match l with
  | c :: l' => if is_number_char c then let '(t, r) := span_number l' in (c :: t, r) else ([], l)
  | [] => ([], [])
  end.

Section Parser.
(** The length of the whole text, to tell offsets. *)
Variable size : nat.

(** [fail message] when [rest] is left. *)
Definition fail {A} (message : string) (rest : str) : Parsed A :=
  Fail (lit message ++ lit " at offset " ++ dec (Z.of_nat (size - length rest))).

Definition literal (word : str) (value : Json) (rest : str) : Parsed Json :=
  if bool_decide (take (length word) rest = word) then Ok value (drop (length word) rest)
  else fail "invalid literal" rest.

Definition parseNumber (rest : str) : Parsed Json :=
  let '(token, after) := span_number rest in
  match token with
  | [] => fail "unexpected character" rest
  | _ =>
      match stod token with
      | Some (x, []) => Ok (JNumber x) after
      | _ => fail "malformed number" after
      end
  end.

(** The loop of [parseHex4]. *)
Fixpoint hex_digits (n : nat) (out : Z) (rest : str) : Parsed Z :=
  match n, rest with
  | O, _ => Ok out rest
  | S n, c :: rest =>
      match hex_value c with
      | Some d => hex_digits n (Z.lor (u32 (Z.shiftl out 4)) d) rest
      | None => fail "invalid hex digit" rest
      end
  | S _, [] => Exhausted
  end.

Definition parseHex4 (rest : str) : Parsed Z :=
  if (length rest <? 4)%nat then fail "truncated \u escape" rest else hex_digits 4 0 rest.

(** The escape [\u] whose digits come next: the bytes to append. *)
Definition parse_unicode (rest : str) : Parsed str :=
  bind_parsed (parseHex4 rest) (fun cp rest =>
    match rest with
    | x5c :: x75 :: after =>
        if (0xD800 <=? cp) && (cp <=? 0xDBFF) then
          bind_parsed (parseHex4 after) (fun low rest =>
            if (0xDC00 <=? low) && (low <=? 0xDFFF) then
              Ok (appendUtf8 (0x10000 + Z.shiftl (cp - 0xD800) 10 + (low - 0xDC00))) rest
            else Ok (appendUtf8 cp ++ appendUtf8 low) rest)
        else Ok (appendUtf8 cp) rest
    | _ => Ok (appendUtf8 cp) rest
    end).

(** The character an escape other than [\u] stands for. *)
Definition simple_escape (esc : byte) : option byte :=
  match esc with
  | x22 => Some x22
  | x5c => Some x5c
  | x2f => Some x2f
  | x62 => Some x08
  | x66 => Some x0c
  | x6e => Some x0a
  | x72 => Some x0d
  | x74 => Some x09
  | _ => None
  end.

(** The loop of [parseString], after the opening quote. *)
Fixpoint string_loop (fuel : nat) (out rest : str) : Parsed str :=
  match fuel with
  | O => Exhausted
  | S fuel =>
      match rest with
      | [] => fail "unterminated string" rest
      | x22 :: rest => Ok out rest
      | x5c :: rest =>
          match rest with
          | [] => fail "unterminated escape" rest
          | x75 :: rest =>
              bind_parsed (parse_unicode rest) (fun bytes rest => string_loop fuel (out ++ bytes) rest)
          | esc :: rest =>
              match simple_escape esc with
              | Some c => string_loop fuel (out ++ [c]) rest
              | None => fail "invalid escape" rest
              end
          end
      | c :: rest => string_loop fuel (out ++ [c]) rest
      end
  end.

Definition parseString (rest : str) : Parsed str :=
  match rest with
  | x22 :: after => string_loop (S (length after)) [] after
  | _ => fail "expected string" rest
  end.

(** The loop of [parseArray]; [parse] is [parseValue] one level down. *)
Fixpoint array_loop (parse : str -> Parsed Json) (fuel : nat) (out : Json) (rest : str) :
    Parsed Json :=
  match fuel with
  | O => Exhausted
  | S fuel =>
      bind_parsed (parse rest) (fun value rest =>
        let out := json_push out value in
        match skipWhitespace rest with
        | [] => fail "unterminated array" []
        | x2c :: rest => array_loop parse fuel out rest
        | x5d :: rest => Ok out rest
        | rest => fail "expected ',' or ']'" rest
        end)
  end.

Definition parseArray (parse : str -> Parsed Json) (rest : str) : Parsed Json :=
  match skipWhitespace rest with
  | x5d :: rest => Ok (JArray []) rest
  | rest => array_loop parse (S (length rest)) (JArray []) rest
  end.

Fixpoint object_loop (parse : str -> Parsed Json) (fuel : nat) (out : Json) (rest : str) :
    Parsed Json :=
  match fuel with
  | O => Exhausted
  | S fuel =>
      bind_parsed (parseString (skipWhitespace rest)) (fun key rest =>
        match skipWhitespace rest with
        | x3a :: rest =>
            bind_parsed (parse rest) (fun value rest =>
              let out := json_set out key value in
              match skipWhitespace rest with
              | [] => fail "unterminated object" []
              | x2c :: rest => object_loop parse fuel out rest
              | x7d :: rest => Ok out rest
              | rest => fail "expected ',' or '}'" rest
              end)
        | rest => fail "expected ':'" rest
        end)
  end.

Definition parseObject (parse : str -> Parsed Json) (rest : str) : Parsed Json :=
  match skipWhitespace rest with
  | x7d :: rest => Ok (JObject []) rest
  | rest => object_loop parse (S (length rest)) (JObject []) rest
  end.

Definition parseValueInner (parse : str -> Parsed Json) (rest : str) : Parsed Json :=
  match skipWhitespace rest with
  | [] => fail "unexpected end of input" []
  | (x6e :: _) as rest => literal (lit "null") JNull rest
  | (x74 :: _) as rest => literal (lit "true") (JBool true) rest
  | (x66 :: _) as rest => literal (lit "false") (JBool false) rest
  | (x22 :: _) as rest => bind_parsed (parseString rest) (fun s rest => Ok (JString s) rest)
  | x5b :: rest => parseArray parse rest
  | x7b :: rest => parseObject parse rest
  | rest => parseNumber rest
  end.

(** [levels] is how many more levels [depth] may go down: 64 at the start. *)
Fixpoint parseValue (levels : nat) (rest : str) : Parsed Json :=
  match levels with
  | O => fail "nesting too deep" rest
  | S levels => parseValueInner (parseValue levels) rest
  end.
End Parser.

Definition kMaxDepth : nat := 64.

(** [parse]: the document, or the error text. *)
Definition parse (text : str) : Parsed Json :=
  bind_parsed (parseValue (length text) kMaxDepth text) (fun value rest =>
    match skipWhitespace rest with
    | [] => Ok value []
    | _ => Fail (lit "trailing data after JSON document")
    end).
