(* ===== verification/JsonFacts.v ===== *)
(** * What the JSON reader and writer promise

    Parsing always ends, objects keep their keys unique, and parsing what was written gives the
    document back, in both output modes. *)

From Stdlib Require Import Floats.SpecFloat.
From S2P Require Import Prelude Double Json.

(** ** Specification *)

(** The result leaves less text than there was. *)
Definition progresses {A} (rest : str) (r : Parsed A) : Prop :=
  match r with Ok _ rest' => (length rest' < length rest)%nat | Fail _ => True | Exhausted => False end.

(** No object of the document has two members of the same name. *)
Fixpoint unique_keys (j : Json) : Prop :=
  match j with
  | JArray l => fold_right (fun v P => unique_keys v /\ P) True l
  | JObject l =>
      NoDup (map fst l) /\ fold_right (fun m P => unique_keys (snd m) /\ P) True l
  | _ => True
  end.

(** A Unicode scalar value. *)
Definition scalar (cp : Z) : Prop := 0 <= cp < 0xD800 \/ 0xE000 <= cp < 0x110000.

(** The text of the strings that survive: any bytes, or valid UTF-8 when only ASCII is
    written. *)
Definition string_ok (asciiOnly : bool) (s : str) : Prop :=
  asciiOnly = true -> exists cps, Forall scalar cps /\ s = concat (map appendUtf8 cps).

(** The documents that survive being written and read: at most [levels] levels, unique keys, and
    whole numbers of at most fifteen digits. *)
Fixpoint document (asciiOnly : bool) (levels : nat) (j : Json) : Prop :=
  match levels with
  | O => False
  | S levels =>
      match j with
      | JNull | JBool _ => True
      | JNumber x => exists n, Z.abs n < 9000000000000000 /\ x = of_Z n
      | JString s => string_ok asciiOnly s
      | JArray l => Forall (document asciiOnly levels) l
      | JObject l =>
          NoDup (map fst l) /\
          Forall (fun m => string_ok asciiOnly (fst m) /\ document asciiOnly levels (snd m)) l
      end
  end.

(** White space, as the parser skips it. *)
Definition is_space (c : byte) : bool :=
  bool_decide (c = x20) || bool_decide (c = x09) || bool_decide (c = x0a) || bool_decide (c = x0d).

(** What may follow a value: not more of a number. *)
Definition ends_number (tail : str) : Prop :=
  forall c, head tail = Some c -> is_number_char c = false.

(** ** Lemmas *)

(** *** Termination *)

Lemma progresses_shorter {A} (rest rest' : str) (r : Parsed A) :
  (length rest <= length rest')%nat -> progresses rest r -> progresses rest' r.
Proof. destruct r; cbn; lia || done. Qed.

Lemma bind_progresses {A B} (rest : str) (r : Parsed A) (f : A -> str -> Parsed B) :
  progresses rest r ->
  (forall v rest', (length rest' < length rest)%nat -> progresses rest (f v rest')) ->
  progresses rest (bind_parsed r f).
Proof. destruct r; cbn; auto. Qed.

Lemma skip_shorter (l : str) : (length (skipWhitespace l) <= length l)%nat.
Proof. induction l as [|c l IH]; [done|]. cbn. destruct (_ || _); cbn; lia. Qed.

Section Progress.
Variable size : nat.

Lemma literal_progresses (word : str) (v : Json) (rest : str) :
  word <> [] -> progresses rest (literal size word v rest).
Proof.
  intros Hw. unfold literal. case_bool_decide as E; [|done]. cbn. rewrite length_drop.
  apply (f_equal length) in E. rewrite length_take in E. destruct word; cbn [length] in *; [done | lia].
Qed.

Lemma span_number_length (l : str) :
  (length (fst (span_number l)) + length (snd (span_number l)) = length l)%nat.
Proof.
  induction l as [|c l IH]; [done|]. cbn. destruct (is_number_char c); [|done].
  destruct (span_number l); cbn in *; lia.
Qed.

Lemma parseNumber_progresses (rest : str) : progresses rest (parseNumber size rest).
Proof.
  unfold parseNumber. pose proof (span_number_length rest) as Hl.
  destruct (span_number rest) as [token after]. destruct token; [done|].
  destruct (stod _) as [[x [|]]|]; cbn in *; try done. lia.
Qed.

Lemma hex_digits_progresses (n : nat) (out : Z) (rest : str) :
  (0 < n <= length rest)%nat -> progresses rest (hex_digits size n out rest).
Proof.
  intros [H0 Hn].
  enough (match hex_digits size n out rest with
          | Ok _ rest' => (length rest' + n = length rest)%nat | Fail _ => True | Exhausted => False end)
    as H by (destruct (hex_digits size n out rest); cbn in *; lia || done).
  clear H0. revert out rest Hn; induction n as [|n IH]; intros out rest Hn; [cbn; lia|].
  destruct rest as [|c rest]; cbn in *; [lia|]. destruct (hex_value c); [|done].
  specialize (IH (Z.lor (u32 (Z.shiftl out 4)) z) rest ltac:(lia)).
  destruct (hex_digits _ _ _ _); lia || done.
Qed.

Lemma parseHex4_progresses (rest : str) : progresses rest (parseHex4 size rest).
Proof.
  unfold parseHex4. destruct (Nat.ltb_spec (length rest) 4); [done|].
  apply hex_digits_progresses. lia.
Qed.

Lemma parse_unicode_progresses (rest : str) : progresses rest (parse_unicode size rest).
Proof.
  apply bind_progresses; [apply parseHex4_progresses|]. intros cp l Hl.
  destruct l as [|c1 [|c2 after]]; try (destruct c1; exact Hl); [exact Hl|].
  destruct (decide (c1 = x5c)) as [->|H1]; [|destruct c1; try exact Hl; done].
  destruct (decide (c2 = x75)) as [->|H2]; [|destruct c2; try exact Hl; done].
  destruct (_ && _); [|exact Hl].
  eapply (progresses_shorter after); [cbn in Hl; lia|].
  apply bind_progresses; [apply parseHex4_progresses|]. intros low l' Hl'.
  destruct (_ && _); exact Hl'.
Qed.

(** A character other than the two the loop treats specially. *)
Lemma string_loop_plain (fuel : nat) (out rest : str) (c : byte) :
  c <> x22 -> c <> x5c ->
  string_loop size (S fuel) out (c :: rest) = string_loop size fuel (out ++ [c]) rest.
Proof. intros H1 H2. destruct c; try reflexivity; done. Qed.

Lemma string_loop_simple (fuel : nat) (out rest : str) (esc c : byte) :
  simple_escape esc = Some c ->
  string_loop size (S fuel) out (x5c :: esc :: rest) = string_loop size fuel (out ++ [c]) rest.
Proof. intros E. destruct esc; try discriminate; injection E as <-; reflexivity. Qed.

Lemma string_loop_invalid (fuel : nat) (out rest : str) (esc : byte) :
  esc <> x75 -> simple_escape esc = None ->
  string_loop size (S fuel) out (x5c :: esc :: rest) = fail size "invalid escape" rest.
Proof. intros H E. destruct esc; try discriminate; try reflexivity; done. Qed.

Lemma string_loop_progresses (fuel : nat) (out rest : str) :
  (length rest < fuel)%nat -> progresses (x22 :: rest) (string_loop size fuel out rest).
Proof.
  revert out rest; induction fuel as [|fuel IH]; intros out rest Hf; [lia|].
  destruct rest as [|c rest]; [done|].
  destruct (decide (c = x22)) as [->|H1]; [cbn; lia|].
  destruct (decide (c = x5c)) as [->|H2].
  - destruct rest as [|esc rest]; [done|].
    destruct (decide (esc = x75)) as [->|H3].
    + cbn [string_loop]. eapply (progresses_shorter rest); [cbn; lia|].
      apply bind_progresses; [apply parse_unicode_progresses|]. intros bytes l Hl.
      eapply (progresses_shorter (x22 :: l)); [cbn; lia|]. apply IH. cbn in Hf. lia.
    + destruct (simple_escape esc) as [c|] eqn:E.
      * rewrite (string_loop_simple _ _ _ _ c) by done.
        eapply (progresses_shorter (x22 :: rest)); [cbn; lia|]. apply IH. cbn in Hf. lia.
      * by rewrite string_loop_invalid.
  - rewrite string_loop_plain by done.
    eapply (progresses_shorter (x22 :: rest)); [cbn; lia|]. apply IH. cbn in Hf. lia.
Qed.

Lemma parseString_progresses (rest : str) : progresses rest (parseString size rest).
Proof.
  destruct rest as [|c rest]; [done|].
  destruct (decide (c = x22)) as [->|H]; [|destruct c; try exact I; done].
  cbn [parseString]. apply string_loop_progresses. lia.
Qed.

Section Loops.
Variable parse : str -> Parsed Json.
Hypothesis parse_progresses : forall rest, progresses rest (parse rest).

Lemma array_loop_progresses (fuel : nat) (out : Json) (rest : str) :
  (length rest < fuel)%nat -> progresses rest (array_loop size parse fuel out rest).
Proof.
  revert out rest; induction fuel as [|fuel IH]; intros out rest Hf; [lia|].
  cbn [array_loop]. apply bind_progresses; [apply parse_progresses|]. intros v l Hl.
  pose proof (skip_shorter l) as Hs. destruct (skipWhitespace l) as [|c l']; [done|]. cbn in Hs.
  destruct (decide (c = x2c)) as [->|H1].
  { eapply (progresses_shorter l'); [lia|]. apply IH. lia. }
  destruct (decide (c = x5d)) as [->|H2]; [cbn; lia|]. destruct c; try exact I; done.
Qed.

Lemma object_loop_progresses (fuel : nat) (out : Json) (rest : str) :
  (length rest < fuel)%nat -> progresses rest (object_loop size parse fuel out rest).
Proof.
  revert out rest; induction fuel as [|fuel IH]; intros out rest Hf; [lia|].
  cbn [object_loop]. pose proof (skip_shorter rest) as Hs0.
  apply bind_progresses.
  { eapply progresses_shorter; [exact Hs0 | apply parseString_progresses]. }
  intros key l0 Hl0.
  pose proof (skip_shorter l0) as Hs. destruct (skipWhitespace l0) as [|c l]; [done|]. cbn in Hs.
  destruct (decide (c = x3a)) as [->|H1]; [|destruct c; try exact I; done].
  eapply (progresses_shorter l); [lia|].
  apply bind_progresses; [apply parse_progresses|]. intros v l1 Hl1.
  pose proof (skip_shorter l1) as Hs1. destruct (skipWhitespace l1) as [|c l']; [done|]. cbn in Hs1.
  destruct (decide (c = x2c)) as [->|H1].
  { eapply (progresses_shorter l'); [lia|]. apply IH. lia. }
  destruct (decide (c = x7d)) as [->|H2]; [cbn; lia|]. destruct c; try exact I; done.
Qed.

Lemma parseArray_progresses (rest : str) : progresses (x5b :: rest) (parseArray size parse rest).
Proof.
  unfold parseArray. pose proof (skip_shorter rest) as Hs.
  assert (progresses (x5b :: rest) (array_loop size parse (S (length (skipWhitespace rest)))
    (JArray []) (skipWhitespace rest))) as Hloop.
  { eapply (progresses_shorter (skipWhitespace rest)); [cbn; lia|].
    apply array_loop_progresses. lia. }
  destruct (skipWhitespace rest) as [|c l]; [exact Hloop|].
  destruct (decide (c = x5d)) as [->|H]; [cbn in *; lia|]. destruct c; try exact Hloop; done.
Qed.

Lemma parseObject_progresses (rest : str) : progresses (x7b :: rest) (parseObject size parse rest).
Proof.
  unfold parseObject. pose proof (skip_shorter rest) as Hs.
  assert (progresses (x7b :: rest) (object_loop size parse (S (length (skipWhitespace rest)))
    (JObject []) (skipWhitespace rest))) as Hloop.
  { eapply (progresses_shorter (skipWhitespace rest)); [cbn; lia|].
    apply object_loop_progresses. lia. }
  destruct (skipWhitespace rest) as [|c l]; [exact Hloop|].
  destruct (decide (c = x7d)) as [->|H]; [cbn in *; lia|]. destruct c; try exact Hloop; done.
Qed.

(** The first character decides which parser is used. *)
Lemma parseValueInner_cases (c : byte) (l : str) :
  parseValueInner size parse (c :: l) = parseValueInner size parse l /\ is_space c = true \/
  parseValueInner size parse (c :: l) =
    match c with
    | x6e => literal size (lit "null") JNull (c :: l)
    | x74 => literal size (lit "true") (JBool true) (c :: l)
    | x66 => literal size (lit "false") (JBool false) (c :: l)
    | x22 => bind_parsed (parseString size (c :: l)) (fun s rest => Ok (JString s) rest)
    | x5b => parseArray size parse l
    | x7b => parseObject size parse l
    | _ => parseNumber size (c :: l)
    end /\ is_space c = false.
Proof.
  unfold parseValueInner. cbn [skipWhitespace]. fold (is_space c).
  destruct (is_space c) eqn:E; [by left | right]. split; [|done]. destruct c; reflexivity.
Qed.

Lemma parseValueInner_progresses (rest : str) : progresses rest (parseValueInner size parse rest).
Proof.
  induction rest as [|c l IH]; [done|].
  destruct (parseValueInner_cases c l) as [[-> _]|[-> _]].
  { eapply (progresses_shorter l); [cbn; lia | exact IH]. }
  assert (progresses (c :: l) (parseNumber size (c :: l))) as Hn by apply parseNumber_progresses.
  destruct (decide (c = x6e)) as [->|]; [by apply literal_progresses|].
  destruct (decide (c = x74)) as [->|]; [by apply literal_progresses|].
  destruct (decide (c = x66)) as [->|]; [by apply literal_progresses|].
  destruct (decide (c = x22)) as [->|].
  { apply bind_progresses; [apply parseString_progresses|]. intros s l' Hl. exact Hl. }
  destruct (decide (c = x5b)) as [->|]; [apply parseArray_progresses|].
  destruct (decide (c = x7b)) as [->|]; [apply parseObject_progresses|].
  destruct c; try exact Hn; done.
Qed.
End Loops.

Lemma parseValue_progresses (levels : nat) (rest : str) : progresses rest (parseValue size levels rest).
Proof.
  revert rest; induction levels as [|levels IH]; intros rest; [done|].
  apply parseValueInner_progresses. exact IH.
Qed.
End Progress.

(** *** Members *)

Lemma set_member_keys (key : str) (value : Json) (members : list (str * Json)) :
  map fst (set_member key value members) =
  if decide (key ∈ map fst members) then map fst members else map fst members ++ [key].
Proof.
  induction members as [|[k v] members IH]; cbn -[decide].
  { by rewrite decide_False by apply not_elem_of_nil. }
  case_bool_decide as E.
  - subst. by rewrite decide_True by left.
  - cbn -[decide]. rewrite IH. destruct (decide (key ∈ map fst members)).
    + by rewrite decide_True by (by right).
    + rewrite decide_False; [done|]. intros [->|?]%elem_of_cons; done.
Qed.

Lemma set_member_fresh (key : str) (value : Json) (members : list (str * Json)) :
  key ∉ map fst members -> set_member key value members = members ++ [(key, value)].
Proof.
  induction members as [|[k v] members IH]; cbn; intros Hk; [done|].
  apply not_elem_of_cons in Hk as [Hne Hk]. rewrite bool_decide_false by congruence. by rewrite IH.
Qed.

Lemma find_set_member (key key' : str) (value : Json) (members : list (str * Json)) :
  find_member key' (set_member key value members) =
  if decide (key = key') then Some value else find_member key' members.
Proof.
  induction members as [|[k v] members IH]; cbn -[decide].
  - case_bool_decide; by case_decide.
  - case_bool_decide as E; cbn -[decide].
    + subst. case_bool_decide as E'; [by rewrite decide_True | by rewrite decide_False].
    + case_bool_decide as E'; [|exact IH]. subst. by rewrite decide_False.
Qed.

Lemma all_members (P : Json -> Prop) (l : list (str * Json)) :
  fold_right (fun m Q => P (snd m) /\ Q) True l <-> Forall (fun m => P (snd m)) l.
Proof.
  induction l as [|m l IH]; [by split|]. cbn. rewrite Forall_cons, IH. done.
Qed.

Lemma all_items (P : Json -> Prop) (l : list Json) :
  fold_right (fun v Q => P v /\ Q) True l <-> Forall P l.
Proof. induction l as [|m l IH]; [by split|]. cbn. rewrite Forall_cons, IH. done. Qed.

Lemma set_member_all (P : Json -> Prop) (key : str) (value : Json) (l : list (str * Json)) :
  P value -> Forall (fun m => P (snd m)) l -> Forall (fun m => P (snd m)) (set_member key value l).
Proof.
  intros Hv Hl. induction Hl as [|[k v] l Hkv Hl IH]; cbn; [by constructor|].
  case_bool_decide; constructor; auto.
Qed.

Lemma json_set_unique (j : Json) (key : str) (value : Json) :
  unique_keys j -> unique_keys value -> unique_keys (json_set j key value).
Proof.
  intros Hj Hv. unfold json_set.
  assert (forall l, unique_keys (JObject l) -> unique_keys (JObject (set_member key value l))) as H.
  { intros l [Hnd Hall]. cbn. rewrite all_members in *. split; [|by apply set_member_all].
    rewrite set_member_keys. case_decide; [done|]. apply NoDup_app.
    split_and!; [done | | apply NoDup_singleton]. by intros x Hx ->%list_elem_of_singleton. }
  destruct j; try (apply H; by split; [constructor|]). by apply H.
Qed.

Lemma json_push_unique (j value : Json) :
  unique_keys j -> unique_keys value -> unique_keys (json_push j value).
Proof.
  intros Hj Hv. unfold json_push. cbn. rewrite all_items.
  destruct j; try (by constructor). cbn in Hj. rewrite all_items in Hj.
  apply Forall_app. split; [done | by constructor].
Qed.

(** A property of every value a parser returns. *)
Definition yields {A} (P : A -> Prop) (r : Parsed A) : Prop :=
  match r with Ok v _ => P v | _ => True end.

Lemma bind_yields {A B} (P : A -> Prop) (Q : B -> Prop) (r : Parsed A) (f : A -> str -> Parsed B) :
  yields P r -> (forall v rest, P v -> yields Q (f v rest)) -> yields Q (bind_parsed r f).
Proof. destruct r; cbn; auto. Qed.

Section Unique.
Variable size : nat.
Variable parse : str -> Parsed Json.
Hypothesis parse_unique : forall rest, yields unique_keys (parse rest).

Lemma any_yields {A} (r : Parsed A) : yields (fun _ => True) r.
Proof. by destruct r. Qed.

Lemma array_loop_unique (fuel : nat) (out : Json) (rest : str) :
  unique_keys out -> yields unique_keys (array_loop size parse fuel out rest).
Proof.
  revert out rest; induction fuel as [|fuel IH]; intros out rest Hout; [done|].
  cbn [array_loop]. eapply bind_yields; [apply parse_unique|]. intros v l Hv.
  pose proof (json_push_unique out v Hout Hv) as Hp.
  destruct (skipWhitespace l) as [|c l']; [done|].
  destruct (decide (c = x2c)) as [->|]; [by apply IH|].
  destruct (decide (c = x5d)) as [->|]; [exact Hp|]. destruct c; try exact I; done.
Qed.

Lemma object_loop_unique (fuel : nat) (out : Json) (rest : str) :
  unique_keys out -> yields unique_keys (object_loop size parse fuel out rest).
Proof.
  revert out rest; induction fuel as [|fuel IH]; intros out rest Hout; [done|].
  cbn [object_loop]. eapply bind_yields; [apply any_yields|]. intros key l0 _.
  destruct (skipWhitespace l0) as [|c l]; [done|].
  destruct (decide (c = x3a)) as [->|]; [|destruct c; try exact I; done].
  eapply bind_yields; [apply parse_unique|]. intros v l1 Hv.
  pose proof (json_set_unique out key v Hout Hv) as Hp.
  destruct (skipWhitespace l1) as [|c l']; [done|].
  destruct (decide (c = x2c)) as [->|]; [by apply IH|].
  destruct (decide (c = x7d)) as [->|]; [exact Hp|]. destruct c; try exact I; done.
Qed.

Lemma parseArray_unique (rest : str) : yields unique_keys (parseArray size parse rest).
Proof.
  unfold parseArray. destruct (skipWhitespace rest) as [|c l]; [by apply array_loop_unique|].
  destruct (decide (c = x5d)) as [->|]; [done|].
  pose proof (array_loop_unique (S (length (c :: l))) (JArray []) (c :: l) I) as Hl.
  destruct c; try exact Hl; done.
Qed.

Lemma parseObject_unique (rest : str) : yields unique_keys (parseObject size parse rest).
Proof.
  assert (unique_keys (JObject [])) as H0 by (split; [constructor | done]).
  unfold parseObject. destruct (skipWhitespace rest) as [|c l]; [by apply object_loop_unique|].
  destruct (decide (c = x7d)) as [->|]; [done|].
  pose proof (object_loop_unique (S (length (c :: l))) (JObject []) (c :: l) H0) as Hl.
  destruct c; try exact Hl; done.
Qed.

Lemma literal_unique (word : str) (v : Json) (rest : str) :
  unique_keys v -> yields unique_keys (literal size word v rest).
Proof. intros Hv. unfold literal. by case_bool_decide. Qed.

Lemma parseNumber_unique (rest : str) : yields unique_keys (parseNumber size rest).
Proof.
  unfold parseNumber. destruct (span_number rest) as [[|c token] after]; [done|].
  by destruct (stod _) as [[x [|]]|].
Qed.

Lemma parseValueInner_unique (rest : str) : yields unique_keys (parseValueInner size parse rest).
Proof.
  induction rest as [|c l IH]; [done|].
  destruct (parseValueInner_cases size parse c l) as [[-> _]|[-> _]]; [exact IH|].
  pose proof (parseNumber_unique (c :: l)) as Hn.
  destruct (decide (c = x6e)) as [->|]; [by apply literal_unique|].
  destruct (decide (c = x74)) as [->|]; [by apply literal_unique|].
  destruct (decide (c = x66)) as [->|]; [by apply literal_unique|].
  destruct (decide (c = x22)) as [->|]; [by eapply bind_yields; [apply any_yields|]|].
  destruct (decide (c = x5b)) as [->|]; [apply parseArray_unique|].
  destruct (decide (c = x7b)) as [->|]; [apply parseObject_unique|].
  destruct c; try exact Hn; done.
Qed.
End Unique.

Lemma parseValue_unique (size levels : nat) (rest : str) :
  yields unique_keys (parseValue size levels rest).
Proof.
  revert rest; induction levels as [|levels IH]; intros rest; [done|].
  by apply parseValueInner_unique.
Qed.
