(* ===== verification/JsonText.v ===== *)
(** * The text of a document

    What the writer of json.hpp produces, whatever the document: in ASCII mode nothing but ASCII
    without the control characters below the space, and so on one line when it does not indent.
    DEL is not escaped: JSON does not ask for it. *)

From Stdlib Require Import Floats.SpecFloat.
From S2P Require Import Prelude Double Json JsonFacts.

(** ** Specification *)

(** ASCII, and not one of the control characters below the space; DEL (0x7f) is let through. *)
Definition plain (c : byte) : bool := (32 <=? uc c) && (uc c <? 128).

(** ** Lemmas *)

(** Induction over a document. *)
Lemma json_nested (P : Json -> Prop) :
  P JNull -> (forall b, P (JBool b)) -> (forall x, P (JNumber x)) -> (forall s, P (JString s)) ->
  (forall l, Forall P l -> P (JArray l)) ->
  (forall l, Forall (fun m => P (snd m)) l -> P (JObject l)) -> forall j, P j.
Proof.
  intros Hnull Hbool Hnumber Hstring Harray Hobject.
  fix IH 1. intros [|b|x|s|l|l]; [done | done | done | done | |].
  - apply Harray. induction l; constructor; [apply IH | done].
  - apply Hobject. induction l as [|[k v] l IHl]; constructor; [apply IH | done].
Qed.

Abbreviation all_plain := (Forall (fun c => plain c = true)).

Lemma digit_plain (d : Z) : 0 <= d < 10 -> plain (digit d) = true.
Proof.
  intros Hd. unfold plain. rewrite uc_digit by done.
  apply andb_true_iff. split; [apply Z.leb_le | apply Z.ltb_lt]; lia.
Qed.

Lemma dec_plain (n : Z) : all_plain (dec n).
Proof.
  unfold dec. generalize (S (Z.to_nat (Z.log2 n))) as fuel. intros fuel.
  assert (forall acc, all_plain acc -> all_plain (dec_digits fuel n acc)) as H; [|by apply H].
  revert n; induction fuel as [|fuel IH]; intros n acc Hacc; [done|]. cbn [dec_digits].
  pose proof (Z.mod_pos_bound n 10 ltac:(lia)).
  assert (all_plain (digit (n mod 10) :: acc)) by (constructor; [by apply digit_plain | done]).
  destruct (n <? 10); [done|]. by apply IH.
Qed.

Lemma lit_plain (s : string) : forallb plain (lit s) = true -> all_plain (lit s).
Proof. intros Hs. apply List.Forall_forall. by apply forallb_forall. Qed.

Ltac plain_text := repeat match goal with
  | |- Forall _ (_ ++ _) => apply Forall_app; split
  | |- Forall _ (lit _) => apply lit_plain; reflexivity
  | |- Forall _ (dec _) => apply dec_plain
  | |- Forall _ (take _ _) => apply Forall_take
  | |- Forall _ (drop _ _) => apply Forall_drop
  | |- Forall _ (_ :: _) => constructor; [done|]
  | |- Forall _ [] => constructor
  | |- Forall _ (if ?b then _ else _) => destruct b
  end.

Lemma strip_zeros_plain (l : str) : all_plain l -> all_plain (strip_zeros l).
Proof.
  intros Hl. unfold strip_zeros. apply Forall_rev. apply Forall_rev in Hl.
  induction Hl as [|c l' Hc Hl IH]; [constructor|]. case_bool_decide; [done | by constructor].
Qed.

Lemma with_fraction_plain (whole fraction : str) :
  all_plain whole -> all_plain fraction -> all_plain (with_fraction whole fraction).
Proof.
  intros Hw Hf%strip_zeros_plain. unfold with_fraction.
  destruct (strip_zeros fraction) as [|c l]; [done|]. by plain_text.
Qed.

Lemma replicate_plain (n : nat) (c : byte) : plain c = true -> all_plain (replicate n c).
Proof. intros Hc. induction n; by constructor. Qed.

Lemma format_g10_plain (x : double) : all_plain (format_g10 x).
Proof.
  destruct x as [s|s| |s m e]; cbn [format_g10]; try (by plain_text).
  destruct (ten_digits _ _) as [n x]. unfold exponent_text.
  plain_text; apply with_fraction_plain; plain_text; by apply replicate_plain.
Qed.

Lemma writeNumber_plain (x : double) : all_plain (writeNumber x).
Proof.
  unfold writeNumber, to_string. pose proof (format_g10_plain x). pose proof (dec_plain (- trunc x)).
  plain_text; done.
Qed.

Lemma hex_digit_plain (n k : Z) : plain (hex_digit (Z.land (Z.shiftr n k) 15)) = true.
Proof.
  change 15 with (Z.ones 4). rewrite Z.land_ones by lia.
  pose proof (Z.mod_pos_bound (Z.shiftr n k) (2 ^ 4) ltac:(lia)) as Hd. revert Hd.
  generalize (Z.shiftr n k mod 2 ^ 4) as d. intros d Hd. unfold hex_digit, plain.
  destruct (Z.ltb_spec d 10); rewrite uc_chr_small by lia;
    apply andb_true_iff; split; (apply Z.leb_le || apply Z.ltb_lt); lia.
Qed.

Lemma hex4_plain (n : Z) : all_plain (hex4 n).
Proof.
  unfold hex4. apply Forall_app. split; [by apply lit_plain|].
  pose proof (hex_digit_plain n 0) as H0. rewrite Z.shiftr_0_r in H0.
  repeat (constructor; [first [apply hex_digit_plain | exact H0] |]). constructor.
Qed.

Lemma escaped_plain (cp : Z) : all_plain (writeEscapedCodePoint cp).
Proof.
  unfold writeEscapedCodePoint. destruct (cp <? 0x10000); [apply hex4_plain|].
  apply Forall_app. split; apply hex4_plain.
Qed.

Lemma write_byte_plain (c : byte) : uc c < 0x80 -> all_plain (write_byte c).
Proof.
  intros Hc. unfold write_byte.
  repeat match goal with |- Forall _ (if ?b then _ else _) => destruct b eqn:?; [by plain_text || apply escaped_plain|] end.
  constructor; [|constructor]. unfold plain. apply andb_true_iff.
  split; [apply Z.leb_le | apply Z.ltb_lt]; [|lia].
  match goal with H : (uc c <? 32) = false |- _ => apply Z.ltb_ge in H; lia end.
Qed.

Lemma write_bytes_plain (skip : nat) (s : str) : all_plain (write_bytes true skip s).
Proof.
  revert skip; induction s as [|c s IH]; intros skip; [constructor|].
  cbn [write_bytes]. destruct skip; [|apply IH]. cbn [andb].
  destruct (Z.leb_spec 0x80 (uc c)).
  - destruct (utf8_lead (uc c)) as [[cp extra]|].
    + destruct (length s <? extra)%nat; [by apply lit_plain|].
      destruct (utf8_continue cp (take extra s)); apply Forall_app; split; auto.
      * apply escaped_plain.
      * by apply lit_plain.
    + apply Forall_app. split; [by apply lit_plain | apply IH].
  - apply Forall_app. split; [by apply write_byte_plain | apply IH].
Qed.

Lemma writeString_plain (s : str) : all_plain (writeString true s).
Proof. unfold writeString. plain_text. apply write_bytes_plain. Qed.

Lemma bracketed_plain (depth : Z) (opening closing : str) (texts : list str) :
  all_plain opening -> all_plain closing -> Forall (fun t => all_plain t) texts ->
  all_plain (bracketed (-1) depth opening closing texts).
Proof.
  intros Ho Hc Ht. destruct Ht as [|t texts Ht Hts]; cbn [bracketed]; [by apply Forall_app|].
  change (line_break (-1) ?d) with (@nil byte). plain_text; try done.
  induction Hts as [|t' texts Ht' _ IH]; cbn [map concat]; [constructor|].
  plain_text; done.
Qed.

Lemma write_plain (j : Json) (depth : Z) : all_plain (write (-1) true depth j).
Proof.
  revert depth; induction j as [|b|x|s|l Hl|l Hl] using json_nested; intros depth; cbn [write].
  - by apply lit_plain.
  - by plain_text.
  - apply writeNumber_plain.
  - apply writeString_plain.
  - apply bracketed_plain; [by plain_text..|].
    induction Hl as [|v l Hv _ IH]; constructor; [apply Hv | done].
  - apply bracketed_plain; [by plain_text..|].
    induction Hl as [|m l Hm _ IH]; constructor; [|done]. cbn [Z.leb Z.compare].
    apply Forall_app. split; [apply writeString_plain|]. plain_text. apply Hm.
Qed.

(** The writer does not escape DEL. *)
Example del_is_written (asciiOnly : bool) : dump (JString [x7f]) (-1) asciiOnly = [x22; x7f; x22].
Proof. by destruct asciiOnly. Qed.
