(* ===== verification/JsonRoundtrip.v ===== *)
(** * Writing a document and reading it back *)

From Stdlib Require Import Floats.SpecFloat.
From S2P Require Import Prelude Double Json JsonFacts.

(** ** Lemmas *)

(** *** Bits *)

(** A property of the numbers below a small bound, by computation. *)
Lemma below (n : nat) (P : Z -> bool) :
  forallb (fun k => P (Z.of_nat k)) (seq 0 n) = true -> forall x, 0 <= x < Z.of_nat n -> P x = true.
Proof.
  intros H x Hx. rewrite forallb_forall in H. rewrite <- (Z2Nat.id x) by lia.
  apply H, in_seq. lia.
Qed.

Lemma split_bits (n k : Z) :
  0 <= k -> Z.lor (Z.shiftl (Z.shiftr n k) k) (Z.land n (Z.ones k)) = n.
Proof.
  intros Hk. apply Z.bits_inj'. intros i Hi. rewrite Z.lor_spec, Z.land_spec.
  destruct (Z.lt_ge_cases i k).
  - rewrite Z.shiftl_spec_low, Z.ones_spec_low by lia. by rewrite andb_true_r.
  - rewrite Z.shiftl_spec, Z.shiftr_spec, Z.ones_spec_high by lia.
    rewrite andb_false_r, orb_false_r. f_equal. lia.
Qed.

Lemma shiftl_lor_add (x y n : Z) : 0 <= n -> 0 <= y < 2 ^ n -> Z.lor (Z.shiftl x n) y = x * 2 ^ n + y.
Proof.
  intros Hn Hy. rewrite <- Z.shiftl_mul_pow2 by lia.
  assert (Z.land (Z.shiftl x n) y = 0) as Hland; [|by rewrite Z.add_nocarry_lxor, Z.lxor_lor].
  apply Z.bits_inj'. intros m Hm. rewrite Z.land_spec, Z.bits_0.
  destruct (Z.lt_ge_cases m n); [rewrite Z.shiftl_spec_low by lia; done|].
  replace y with (y mod 2 ^ n) by (apply Z.mod_small; lia).
  rewrite Z.mod_pow2_bits_high by lia. apply andb_false_r.
Qed.

(** *** Hexadecimal *)

Lemma hex_value_digit (d : Z) : 0 <= d < 16 -> hex_value (hex_digit d) = Some d.
Proof.
  intros Hd. apply (bool_decide_eq_true_1 (hex_value (hex_digit d) = Some d)).
  revert d Hd. apply (below 16). vm_compute. reflexivity.
Qed.

Lemma nibble_range (n k : Z) : 0 <= Z.land (Z.shiftr n k) 15 < 16.
Proof. change 15 with (Z.ones 4). rewrite Z.land_ones by lia. apply Z.mod_pos_bound. lia. Qed.

Lemma land15_range (n : Z) : 0 <= Z.land n 15 < 16.
Proof. apply (nibble_range n 0). Qed.

(** Reading four digits that were written. *)
Lemma parseHex4_hex4 (size : nat) (n : Z) (tail : str) :
  0 <= n < 65536 -> parseHex4 size (drop 2 (hex4 n) ++ tail) = Ok n tail.
Proof.
  intros Hn. unfold hex4. change (drop 2 (lit "\u" ++ ?l)) with l.
  unfold parseHex4. cbn [app length]. 
  rewrite (proj2 (Nat.ltb_ge _ 4)) by lia. cbn [hex_digits].
  rewrite !hex_value_digit by (apply nibble_range || apply land15_range).
  cbn [hex_digits]. f_equal.
  assert (forall x, Z.land x 15 = x mod 16) as Hm
    by (intros x; change 15 with (Z.ones 4); rewrite Z.land_ones by lia; done).
  rewrite !Hm, !Z.shiftr_div_pow2 by lia.
  rewrite Z.shiftl_0_l. change (u32 0) with 0. rewrite Z.lor_0_l.
  pose proof (Z.mod_pos_bound (n / 2 ^ 12) 16). pose proof (Z.mod_pos_bound (n / 2 ^ 8) 16).
  pose proof (Z.mod_pos_bound (n / 2 ^ 4) 16). pose proof (Z.mod_pos_bound n 16).
  assert (forall x y, 0 <= x < 4096 -> 0 <= y < 16 -> Z.lor (u32 (Z.shiftl x 4)) y = x * 16 + y) as Hl.
  { intros x y Hx Hy. rewrite u32_small by (rewrite Z.shiftl_mul_pow2 by lia; lia).
    by rewrite shiftl_lor_add by lia. }
  rewrite (Hl ((n / 2 ^ 12) mod 16)) by lia.
  rewrite (Hl ((n / 2 ^ 12) mod 16 * 16 + _)) by lia.
  rewrite (Hl (((n / 2 ^ 12) mod 16 * 16 + _) * 16 + _)) by lia.
  Z.div_mod_to_equations. lia.
Qed.

Lemma parse_unicode_hex4 (size : nat) (n : Z) (tail : str) :
  0 <= n < 65536 -> ~ (0xD800 <= n <= 0xDBFF) ->
  parse_unicode size (drop 2 (hex4 n) ++ tail) = Ok (appendUtf8 n) tail.
Proof.
  intros Hn Hs. unfold parse_unicode. rewrite parseHex4_hex4 by done. cbn [bind_parsed].
  destruct tail as [|c1 [|c2 after]]; [done | by destruct c1 |].
  destruct (decide (c1 = x5c)) as [->|]; [|destruct c1; try reflexivity; done].
  destruct (decide (c2 = x75)) as [->|]; [|destruct c2; try reflexivity; done].
  destruct ((0xD800 <=? n) && (n <=? 0xDBFF)) eqn:E; [|done]. bools. lia.
Qed.

Lemma parse_unicode_pair (size : nat) (v : Z) (tail : str) :
  0 <= v < 2 ^ 20 ->
  parse_unicode size (drop 2 (hex4 (0xD800 + Z.shiftr v 10)) ++
    hex4 (0xDC00 + Z.land v 0x3FF) ++ tail) = Ok (appendUtf8 (0x10000 + v)) tail.
Proof.
  intros Hv. change 0x3FF with (Z.ones 10). rewrite Z.land_ones, Z.shiftr_div_pow2 by lia.
  assert (0 <= v / 2 ^ 10 < 1024) as Hh
    by (split; [apply Z.div_pos; lia | apply Z.div_lt_upper_bound; lia]).
  pose proof (Z.mod_pos_bound v (2 ^ 10)) as Hl.
  unfold parse_unicode. rewrite parseHex4_hex4 by lia. cbn [bind_parsed].
  change (hex4 (0xDC00 + v mod 2 ^ 10)) with (x5c :: x75 :: drop 2 (hex4 (0xDC00 + v mod 2 ^ 10))).
  cbn [app].
  rewrite (proj2 (andb_true_iff (0xD800 <=? _) _)) by lia.
  rewrite parseHex4_hex4 by lia. cbn [bind_parsed].
  rewrite (proj2 (andb_true_iff (0xDC00 <=? _) _)) by lia.
  do 2 f_equal. rewrite Z.shiftl_mul_pow2 by lia. pose proof (Z.div_mod v (2 ^ 10)). lia.
Qed.

(** *** UTF-8 *)

Lemma continuation (x : Z) :
  0 <= x < 64 ->
  Z.land (uc (chr (Z.lor 0x80 x))) 0xC0 = 0x80 /\ Z.land (uc (chr (Z.lor 0x80 x))) 0x3F = x.
Proof.
  intros Hx.
  assert (bool_decide (Z.land (uc (chr (Z.lor 0x80 x))) 0xC0 = 0x80) &&
    bool_decide (Z.land (uc (chr (Z.lor 0x80 x))) 0x3F = x) = true) as H.
  { revert x Hx. apply (below 64). vm_compute. reflexivity. }
  apply andb_true_iff in H as [H1 H2]. by rewrite bool_decide_eq_true in H1, H2.
Qed.

(** The three kinds of lead byte. *)
Lemma lead (base bound : Z) (extra : nat) (x : Z) :
  (base, bound, extra) ∈ [(0xC0, 32, 1%nat); (0xE0, 16, 2%nat); (0xF0, 8, 3%nat)] ->
  0 <= x < bound ->
  utf8_lead (uc (chr (Z.lor base x))) = Some (x, extra) /\ 0x80 <= uc (chr (Z.lor base x)).
Proof.
  intros Hin Hx.
  assert (bool_decide (utf8_lead (uc (chr (Z.lor base x))) = Some (x, extra)) &&
    (0x80 <=? uc (chr (Z.lor base x))) = true) as H.
  { rewrite !elem_of_cons, elem_of_nil in Hin.
    destruct Hin as [[= -> -> ->]|[[= -> -> ->]|[[= -> -> ->]|[]]]]; revert x Hx;
      [apply (below 32) | apply (below 16) | apply (below 8)]; vm_compute; reflexivity. }
  apply andb_true_iff in H as [H1 H2]. rewrite bool_decide_eq_true in H1. split; [done | lia].
Qed.

Lemma write_skip (a : bool) (l s : str) : write_bytes a (length l) (l ++ s) = write_bytes a 0 s.
Proof. induction l as [|c l IH]; [by destruct s|]. exact IH. Qed.

(** A lead byte and its continuation. *)
Lemma write_sequence (c : byte) (bytes s : str) (top cp : Z) :
  0x80 <= uc c -> utf8_lead (uc c) = Some (top, length bytes) ->
  utf8_continue top bytes = Some cp ->
  write_bytes true 0 (c :: bytes ++ s) = writeEscapedCodePoint cp ++ write_bytes true 0 s.
Proof.
  intros Hc Hl Hcp. cbn [write_bytes]. rewrite (proj2 (Z.leb_le 0x80 (uc c))) by lia. cbn [andb].
  rewrite Hl, length_app, (proj2 (Nat.ltb_ge _ _)) by lia.
  rewrite take_app_length, Hcp. by rewrite write_skip.
Qed.

Lemma shiftr_range (n k b : Z) : 0 <= k -> 0 <= b -> 0 <= n < 2 ^ (k + b) -> 0 <= Z.shiftr n k < 2 ^ b.
Proof.
  intros Hk Hb Hn. rewrite Z.shiftr_div_pow2 by lia. rewrite Z.pow_add_r in Hn by lia.
  assert (0 < 2 ^ k) by (apply Z.pow_pos_nonneg; lia).
  split; [apply Z.div_pos; lia | apply Z.div_lt_upper_bound; lia].
Qed.

Lemma land63_range (n : Z) : 0 <= Z.land n 0x3F < 64.
Proof. change 0x3F with (Z.ones 6). rewrite Z.land_ones by lia. apply Z.mod_pos_bound. lia. Qed.

Lemma continue_step (top x : Z) (bytes : str) :
  0 <= x < 64 ->
  utf8_continue top (chr (Z.lor 0x80 x) :: bytes) = utf8_continue (Z.lor (Z.shiftl top 6) x) bytes.
Proof. intros Hx. cbn [utf8_continue]. destruct (continuation x Hx) as [-> ->]. done. Qed.

Lemma join6 (n : Z) : Z.lor (Z.shiftl (Z.shiftr n 6) 6) (Z.land n 0x3F) = n.
Proof. by apply (split_bits n 6). Qed.

Lemma join_at (n k j : Z) :
  0 <= k -> j = k + 6 ->
  Z.lor (Z.shiftl (Z.shiftr n j) 6) (Z.land (Z.shiftr n k) 0x3F) = Z.shiftr n k.
Proof. intros Hk ->. rewrite <- Z.shiftr_shiftr by lia. apply join6. Qed.

(** Every encoded code point is written as one escape, or as one plain byte. *)
Lemma write_appendUtf8 (cp : Z) (s : str) :
  0 <= cp < 0x110000 ->
  write_bytes true 0 (appendUtf8 cp ++ s) =
  (if cp <? 0x80 then write_byte (chr cp) else writeEscapedCodePoint cp) ++ write_bytes true 0 s.
Proof.
  intros Hcp. unfold appendUtf8. destruct (Z.ltb_spec cp 0x80) as [B1|B1].
  { cbn [app write_bytes]. rewrite uc_chr_small, (proj2 (Z.leb_gt 0x80 cp)) by lia. done. }
  pose proof (land63_range cp). pose proof (land63_range (Z.shiftr cp 6)).
  pose proof (land63_range (Z.shiftr cp 12)).
  destruct (Z.ltb_spec cp 0x800) as [B2|B2].
  { pose proof (shiftr_range cp 6 5 ltac:(lia) ltac:(lia) ltac:(lia)) as Hs.
    destruct (lead 0xC0 32 1 (Z.shiftr cp 6)) as [Hl Hc]; [by left | lia |].
    apply (write_sequence _ [_] s (Z.shiftr cp 6)); [done | done |].
    rewrite continue_step by lia. cbn [utf8_continue]. by rewrite join6. }
  destruct (Z.ltb_spec cp 0x10000) as [B3|B3].
  { pose proof (shiftr_range cp 12 4 ltac:(lia) ltac:(lia) ltac:(lia)) as Hs.
    destruct (lead 0xE0 16 2 (Z.shiftr cp 12)) as [Hl Hc]; [right; by left | lia |].
    apply (write_sequence _ [_; _] s (Z.shiftr cp 12)); [done | done |].
    rewrite !continue_step by lia. cbn [utf8_continue].
    by rewrite (join_at cp 6 12), join6 by lia. }
  pose proof (shiftr_range cp 18 3 ltac:(lia) ltac:(lia) ltac:(lia)) as Hs.
  destruct (lead 0xF0 8 3 (Z.shiftr cp 18)) as [Hl Hc]; [do 2 right; by left | lia |].
  apply (write_sequence _ [_; _; _] s (Z.shiftr cp 18)); [done | done |].
  rewrite !continue_step by lia. cbn [utf8_continue].
  by rewrite (join_at cp 12 18), (join_at cp 6 12), join6 by lia.
Qed.

(** *** Strings *)

Section Strings.
Variable size : nat.

Lemma loop_hex4 (fuel : nat) (out r : str) (n : Z) :
  0 <= n < 65536 -> ~ (0xD800 <= n <= 0xDBFF) ->
  string_loop size (S fuel) out (hex4 n ++ r) = string_loop size fuel (out ++ appendUtf8 n) r.
Proof.
  intros Hn Hs. change (hex4 n ++ r) with (x5c :: x75 :: drop 2 (hex4 n) ++ r).
  cbn [string_loop]. by rewrite parse_unicode_hex4.
Qed.

(** What stands for a byte: an escape of one letter, [\u] and four digits, or the byte. *)
Lemma write_byte_cases (c : byte) :
  (exists esc, write_byte c = [x5c; esc] /\ simple_escape esc = Some c) \/
  (write_byte c = hex4 (uc c) /\ uc c < 32) \/
  (write_byte c = [c] /\ c <> x22 /\ c <> x5c).
Proof.
  unfold write_byte.
  assert (forall k b, uc b = k -> uc c = k -> c = b) as Hc.
  { intros k b Hb Hk. rewrite <- (chr_uc c), Hk, <- Hb. apply chr_uc. }
  destruct (Z.eqb_spec (uc c) 34) as [E|]; [left; exists x22; by rewrite (Hc 34 x22)|].
  destruct (Z.eqb_spec (uc c) 92) as [E|]; [left; exists x5c; by rewrite (Hc 92 x5c)|].
  destruct (Z.eqb_spec (uc c) 8) as [E|]; [left; exists x62; by rewrite (Hc 8 x08)|].
  destruct (Z.eqb_spec (uc c) 12) as [E|]; [left; exists x66; by rewrite (Hc 12 x0c)|].
  destruct (Z.eqb_spec (uc c) 10) as [E|]; [left; exists x6e; by rewrite (Hc 10 x0a)|].
  destruct (Z.eqb_spec (uc c) 13) as [E|]; [left; exists x72; by rewrite (Hc 13 x0d)|].
  destruct (Z.eqb_spec (uc c) 9) as [E|]; [left; exists x74; by rewrite (Hc 9 x09)|].
  right. destruct (Z.ltb_spec (uc c) 32); [left | right].
  - unfold writeEscapedCodePoint. by rewrite (proj2 (Z.ltb_lt (uc c) 0x10000)) by lia.
  - split_and!; [done | intros -> ..]; done.
Qed.

Lemma loop_write_byte (fuel : nat) (out r : str) (c : byte) :
  string_loop size (S fuel) out (write_byte c ++ r) = string_loop size fuel (out ++ [c]) r.
Proof.
  pose proof (uc_range c).
  destruct (write_byte_cases c) as [(esc & -> & E) | [[-> E] | (-> & H1 & H2)]].
  - by apply string_loop_simple.
  - rewrite loop_hex4 by lia. unfold appendUtf8. rewrite (proj2 (Z.ltb_lt (uc c) 0x80)) by lia.
    by rewrite chr_uc.
  - by apply string_loop_plain.
Qed.

Lemma loop_escaped (fuel : nat) (out r : str) (cp : Z) :
  scalar cp ->
  string_loop size (S fuel) out (writeEscapedCodePoint cp ++ r) =
  string_loop size fuel (out ++ appendUtf8 cp) r.
Proof.
  unfold scalar, writeEscapedCodePoint. intros Hcp. destruct (Z.ltb_spec cp 0x10000).
  - apply loop_hex4; lia.
  - rewrite <- app_assoc.
    change (hex4 (0xD800 + Z.shiftr (cp - 0x10000) 10) ++ ?l) with
      (x5c :: x75 :: drop 2 (hex4 (0xD800 + Z.shiftr (cp - 0x10000) 10)) ++ l).
    cbn [string_loop]. rewrite parse_unicode_pair by lia. cbn [bind_parsed].
    do 3 f_equal. lia.
Qed.

(** What remains of [fuel] when [n] rounds have been done. *)
Lemma loop_raw (s out tail : str) (fuel : nat) :
  (length s < fuel)%nat ->
  string_loop size fuel out (write_bytes false 0 s ++ x22 :: tail) = Ok (out ++ s) tail.
Proof.
  revert out fuel; induction s as [|c s IH]; intros out fuel Hf; (destruct fuel as [|fuel]; [cbn in Hf; lia|]).
  - by rewrite app_nil_r.
  - cbn [write_bytes andb]. rewrite <- app_assoc, loop_write_byte, IH by (cbn in Hf; lia).
    by rewrite <- app_assoc.
Qed.

Lemma loop_ascii (cps : list Z) (out tail : str) (fuel : nat) :
  Forall scalar cps -> (length cps < fuel)%nat ->
  string_loop size fuel out (write_bytes true 0 (concat (map appendUtf8 cps)) ++ x22 :: tail) =
  Ok (out ++ concat (map appendUtf8 cps)) tail.
Proof.
  intros Hall; revert out fuel; induction Hall as [|cp cps Hcp _ IH]; intros out fuel Hf;
    (destruct fuel as [|fuel]; [cbn in Hf; lia|]).
  - by rewrite app_nil_r.
  - cbn [map concat]. rewrite write_appendUtf8 by (unfold scalar in Hcp; lia).
    rewrite <- app_assoc. destruct (Z.ltb_spec cp 0x80).
    + rewrite loop_write_byte, IH by (cbn in Hf; lia). unfold appendUtf8 at 2.
      rewrite (proj2 (Z.ltb_lt cp 0x80)) by lia. by rewrite <- app_assoc.
    + rewrite loop_escaped, IH by (done || cbn in Hf; lia). by rewrite <- app_assoc.
Qed.

Lemma write_byte_length (c : byte) : (1 <= length (write_byte c))%nat.
Proof. destruct (write_byte_cases c) as [(? & -> & _) | [[-> _] | (-> & _)]]; apply Nat.leb_le; reflexivity. Qed.

Lemma written_length (a : bool) (s : str) :
  a = false -> (length s <= length (write_bytes a 0 s))%nat.
Proof.
  intros ->. induction s as [|c s IH]; [done|]. cbn [write_bytes andb].
  rewrite length_app. pose proof (write_byte_length c). cbn. lia.
Qed.

Lemma written_ascii_length (cps : list Z) :
  Forall scalar cps ->
  (length cps <= length (write_bytes true 0 (concat (map appendUtf8 cps))))%nat.
Proof.
  induction 1 as [|cp cps Hcp _ IH]; [done|]. cbn [map concat length].
  rewrite write_appendUtf8, length_app by (unfold scalar in Hcp; lia).
  destruct (cp <? 0x80).
  - pose proof (write_byte_length (chr cp)). lia.
  - assert (1 <= length (writeEscapedCodePoint cp))%nat; [|lia].
    unfold writeEscapedCodePoint. case_match; apply Nat.leb_le; reflexivity.
Qed.

Lemma parseString_written (a : bool) (s tail : str) :
  string_ok a s -> parseString size (writeString a s ++ tail) = Ok s tail.
Proof.
  intros Hs. unfold writeString.
  change (([x22] ++ write_bytes a 0 s ++ [x22]) ++ tail) with
    (x22 :: (write_bytes a 0 s ++ [x22]) ++ tail).
  rewrite <- app_assoc. cbn [app parseString]. rewrite length_app. cbn [length].
  destruct a.
  - destruct (Hs eq_refl) as (cps & Hcps & ->). pose proof (written_ascii_length cps Hcps).
    apply loop_ascii; [done | lia].
  - pose proof (written_length false s eq_refl). apply loop_raw. lia.
Qed.
End Strings.

(** *** White space *)

Lemma skip_space (ws l : str) :
  Forall (fun c => is_space c = true) ws -> skipWhitespace (ws ++ l) = skipWhitespace l.
Proof.
  induction 1 as [|c ws Hc _ IH]; [done|]. cbn [app skipWhitespace]. fold (is_space c). by rewrite Hc.
Qed.

Lemma skip_none (l : str) : (forall c, head l = Some c -> is_space c = false) -> skipWhitespace l = l.
Proof.
  destruct l as [|c l]; intros Hl; [done|]. cbn [skipWhitespace]. fold (is_space c).
  by rewrite (Hl c eq_refl).
Qed.

Lemma line_break_space (indent depth : Z) : Forall (fun c => is_space c = true) (line_break indent depth).
Proof.
  unfold line_break. destruct (0 <=? indent); [|done]. constructor; [done|].
  apply Forall_forall. intros c Hc. unfold spaces in Hc. by apply elem_of_replicate in Hc as [-> _].
Qed.

Lemma inner_skip (size : nat) (parse : str -> Parsed Json) (ws l : str) :
  Forall (fun c => is_space c = true) ws ->
  parseValueInner size parse (ws ++ l) = parseValueInner size parse l.
Proof. intros Hws. unfold parseValueInner. by rewrite skip_space. Qed.

(** *** Numbers *)

Lemma to_string_chars (n : Z) :
  exists c l, to_string n = c :: l /\ Forall (fun c => is_number_char c = true) (c :: l) /\
    (is_digit c = true \/ c = x2d).
Proof.
  assert (forall k, 0 <= k -> Forall (fun c => is_number_char c = true) (dec k)) as Hd.
  { intros k Hk. destruct (dec_spec k Hk) as [Hall _]. apply (Forall_impl _ _ _ Hall).
    intros c Hc. unfold is_number_char. by rewrite Hc. }
  unfold to_string. destruct (Z.ltb_spec n 0).
  - exists x2d, (dec (- n)). split_and!; [done | | by right]. constructor; [done|]. apply Hd. lia.
  - destruct (dec_spec n) as (Hall & _ & Hne); [lia|]. specialize (Hd n ltac:(lia)).
    destruct (dec n) as [|c l]; [done|]. exists c, l. split_and!; [done | done | left].
    by inversion Hall.
Qed.

Lemma span_number_written (l tail : str) :
  Forall (fun c => is_number_char c = true) l -> ends_number tail -> span_number (l ++ tail) = (l, tail).
Proof.
  intros Hl Ht. induction Hl as [|c l Hc _ IH]; cbn [app].
  - destruct tail as [|c tail]; [done|]. cbn [span_number]. by rewrite (Ht c).
  - cbn [span_number]. by rewrite Hc, IH.
Qed.

Lemma writeNumber_integer (n : Z) :
  Z.abs n < 9000000000000000 -> writeNumber (of_Z n) = to_string n.
Proof.
  intros Hn. destruct (of_Z_exact n) as (Et & Ei & Ef); [lia|].
  unfold writeNumber. rewrite Et, Ei, Ef. cbn [negb andb].
  by rewrite (proj2 (Z.ltb_lt (Z.abs n) _)).
Qed.

Lemma parseNumber_written (size : nat) (n : Z) (tail : str) :
  Z.abs n < 9000000000000000 -> ends_number tail ->
  parseNumber size (to_string n ++ tail) = Ok (JNumber (of_Z n)) tail.
Proof.
  intros Hn Ht. destruct (to_string_chars n) as (c & l & E & Hall & _). unfold parseNumber.
  rewrite E, span_number_written by done.
  cbv beta iota zeta. by rewrite <- E, stod_integer by lia.
Qed.

Lemma inner_number (size : nat) (parse : str -> Parsed Json) (n : Z) (tail : str) :
  parseValueInner size parse (to_string n ++ tail) = parseNumber size (to_string n ++ tail).
Proof.
  destruct (to_string_chars n) as (c & l & -> & _ & Hc). cbn [app].
  assert (is_space c = false /\ c <> x6e /\ c <> x74 /\ c <> x66 /\ c <> x22 /\ c <> x5b /\ c <> x7b)
    as (Hsp & H1 & H2 & H3 & H4 & H5 & H6).
  { destruct Hc as [Hc | ->]; [|done]. split_and!; try (intros ->; done).
    destruct (is_space c) eqn:E; [|done]. by destruct c. }
  destruct (parseValueInner_cases size parse c (l ++ tail)) as [[_ ?] | [-> _]]; [congruence|].
  destruct c; try reflexivity; done.
Qed.

(** What [toInt] makes of an integer: from 2^52 on, odd ones move away from zero by one. *)
Definition rounded (n : Z) : Z :=
  if (Z.abs n <? 2 ^ 52) || Z.even n then n else n + Z.sgn n.

Lemma rounded_log2 (p : positive) :
  Zpos p < 2 ^ 53 ->
  rounded (Zpos p) = (if Z.log2 (Zpos p) <? 52 then Zpos p else half_up (Zpos p)) /\
  rounded (Zneg p) = (if Z.log2 (Zpos p) <? 52 then Zneg p else - half_up (Zpos p)).
Proof.
  intros Hp. unfold rounded, half_up. change (Z.abs (Zpos p)) with (Zpos p).
  change (Z.abs (Zneg p)) with (Zpos p). change (Z.even (Zneg p)) with (Z.even (Zpos p)).
  assert ((Zpos p <? 2 ^ 52) = (Z.log2 (Zpos p) <? 52)) as ->.
  { destruct (Z.ltb_spec (Zpos p) (2 ^ 52)) as [H|H].
    - symmetry. apply Z.ltb_lt, Z.log2_lt_pow2; lia.
    - symmetry. apply Z.ltb_ge. apply Z.log2_le_pow2; lia. }
  destruct (Z.log2 (Zpos p) <? 52), (Z.even (Zpos p)); cbn [orb Z.sgn]; lia.
Qed.

Lemma toInt_integer `{Casts} (n def : Z) :
  Z.abs n < 2 ^ 53 -> toInt (JNumber (of_Z n)) def = rounded n.
Proof.
  intros Hn. unfold toInt. destruct (of_Z_exact n) as (_ & _ & ->); [lia|].
  assert (forall x, isfinite x = true -> trunc x = rounded n -> to_long_long x = rounded n) as Hcast.
  { intros x Hx Ht. unfold to_long_long. rewrite Hx, Ht.
    assert (Z.abs (rounded n) <= 2 ^ 53) by (unfold rounded; destruct (_ || _); lia).
    by rewrite (proj2 (Z.leb_le _ _)), (proj2 (Z.ltb_lt _ _)) by lia. }
  destruct n as [|p|p]; [done| |]; pose proof (log2_lt p 53 ltac:(lia) ltac:(lia)) as Hl;
    destruct (round_integer false p) as (q & Eq & _), (round_integer true p) as (q' & Eq' & _); try lia;
    destruct (rounded_log2 p) as [Ep En]; try lia.
  - destruct (add_half p Hl) as [Ht Hf].
    assert (SFltb (of_Z (Zpos p)) zero = false) as -> by (unfold of_Z; cbn [binary_normalize]; by rewrite Eq).
    apply Hcast; [exact Hf | by rewrite Ht, Ep].
  - destruct (sub_half p Hl) as [Ht Hf].
    assert (SFltb (of_Z (Zneg p)) zero = true) as -> by (unfold of_Z; cbn [binary_normalize]; by rewrite Eq').
    apply Hcast; [exact Hf | by rewrite Ht, En].
Qed.

Lemma toInt_small `{Casts} (n def : Z) : Z.abs n < 2 ^ 52 -> toInt (JNumber (of_Z n)) def = n.
Proof.
  intros Hn. rewrite toInt_integer by lia. unfold rounded.
  by rewrite (proj2 (Z.ltb_lt (Z.abs n) _) Hn).
Qed.

(** *** Arrays and objects *)

(** [parse] reads [v] where [text] stands, whatever white space comes before. *)
Definition reads (parse : str -> Parsed Json) (text : str) (v : Json) : Prop :=
  forall ws tail, Forall (fun c => is_space c = true) ws -> ends_number tail ->
  parse (ws ++ text ++ tail) = Ok v tail.

Lemma ends_at (c : byte) (l : str) : is_number_char c = false -> ends_number (c :: l).
Proof. intros Hc c' [= <-]. done. Qed.

(** What comes after an element: a comma, or the closing bracket. *)
Lemma ends_element (indent depth : Z) (texts : list str) (close : byte) (tail : str) :
  is_number_char close = false ->
  ends_number (concat (map (fun text => [x2c] ++ line_break indent (depth + 1) ++ text) texts) ++
               line_break indent depth ++ close :: tail).
Proof.
  intros Hc. destruct texts; [|by apply ends_at]. cbn [map concat app].
  unfold line_break. destruct (0 <=? indent); by apply ends_at.
Qed.

Lemma separators_length (sep : str) (texts : list str) :
  (length texts <= length (concat (map (fun text => x2c :: sep ++ text) texts)))%nat.
Proof.
  induction texts as [|t texts IH]; [done|]. cbn [map concat length app].
  rewrite !length_app. lia.
Qed.

(** Past the white space and the closing bracket. *)
Lemma skip_close (indent depth : Z) (c : byte) (tail : str) :
  is_space c = false -> skipWhitespace (line_break indent depth ++ c :: tail) = c :: tail.
Proof.
  intros Hc. rewrite skip_space by apply line_break_space. apply skip_none. by intros ? [= <-].
Qed.

Section Elements.
Variable size : nat.
Variable parse : str -> Parsed Json.
Variables indent depth : Z.

Let others (texts : list str) : str :=
  concat (map (fun text => [x2c] ++ line_break indent (depth + 1) ++ text) texts).

Lemma array_loop_written (texts : list str) (vs : list Json) (text : str) (v : Json)
    (ws tail : str) (out : list Json) (fuel : nat) :
  Forall2 (reads parse) (text :: texts) (v :: vs) -> Forall (fun c => is_space c = true) ws ->
  (length texts < fuel)%nat ->
  array_loop size parse fuel (JArray out)
    (ws ++ text ++ others texts ++ line_break indent depth ++ x5d :: tail) =
  Ok (JArray (out ++ v :: vs)) tail.
Proof.
  revert vs text v ws out fuel; induction texts as [|text' texts IH];
    intros vs text v ws out [|fuel] Hall Hws Hf; try (cbn in Hf; lia);
    inversion Hall as [|? ? ? ? Hv Hvs]; subst; clear Hall; cbn [array_loop].
  - inversion Hvs; subst. rewrite Hv by (done || by apply ends_element). cbn [bind_parsed].
    unfold others. cbn [map concat app]. by rewrite skip_close.
  - destruct vs as [|v' vs]; [inversion Hvs|].
    rewrite Hv by (done || by apply ends_element). cbn [bind_parsed].
    unfold others. cbn [map concat]. rewrite <- !app_assoc. cbn [app].
    rewrite skip_none by (by intros ? [= <-]). fold (others texts).
    change (json_push (JArray out) v) with (JArray (out ++ [v])).
    rewrite IH with (vs := vs) (v := v') by (apply line_break_space || cbn in Hf; lia || done).
    cbn. by rewrite <- app_assoc.
Qed.

(** A member's text. *)
Let member (a : bool) (m : str * str) : str :=
  writeString a (fst m) ++ [x3a] ++ (if 0 <=? indent then [x20] else []) ++ snd m.

(** [parse] reads the value of a member where its text stands. *)
Let reads_member (a : bool) (m : str * str) (kv : str * Json) : Prop :=
  fst m = fst kv /\ string_ok a (fst kv) /\ reads parse (snd m) (snd kv).

Lemma member_key (a : bool) (m : str * str) (kv : str * Json) (ws tail : str) :
  reads_member a m kv -> Forall (fun c => is_space c = true) ws ->
  parseString size (skipWhitespace (ws ++ member a m ++ tail)) =
  Ok (fst kv) (x3a :: (if 0 <=? indent then [x20] else []) ++ snd m ++ tail).
Proof.
  intros (Ek & Hk & _) Hws. rewrite skip_space by done. rewrite skip_none by (by intros ? [= <-]).
  unfold member. rewrite <- !app_assoc, parseString_written by (by rewrite Ek). by rewrite Ek.
Qed.

Lemma member_value (a : bool) (m : str * str) (kv : str * Json) (tail : str) :
  reads_member a m kv -> ends_number tail ->
  parse ((if 0 <=? indent then [x20] else []) ++ snd m ++ tail) = Ok (snd kv) tail.
Proof.
  intros (_ & _ & Hv) Ht. apply Hv; [|done]. destruct (0 <=? indent); [|done].
  by constructor.
Qed.

Lemma object_loop_written (a : bool) (ms : list (str * str)) (kvs : list (str * Json))
    (m : str * str) (kv : str * Json) (ws tail : str) (out : list (str * Json)) (fuel : nat) :
  Forall2 (reads_member a) (m :: ms) (kv :: kvs) -> NoDup (map fst (out ++ kv :: kvs)) ->
  Forall (fun c => is_space c = true) ws -> (length ms < fuel)%nat ->
  object_loop size parse fuel (JObject out)
    (ws ++ member a m ++ others (map (member a) ms) ++ line_break indent depth ++ x7d :: tail) =
  Ok (JObject (out ++ kv :: kvs)) tail.
Proof.
  revert kvs m kv ws out fuel; induction ms as [|m' ms IH];
    intros kvs m kv ws out [|fuel] Hall Hnd Hws Hf; try (cbn in Hf; lia);
    inversion Hall as [|? ? ? ? Hv Hvs]; subst; clear Hall; cbn [object_loop];
    rewrite (member_key a m kv) by done; cbn [bind_parsed];
    rewrite skip_none by (by intros ? [= <-]);
    rewrite (member_value a m kv) by (done || by apply ends_element); cbn [bind_parsed];
    assert (json_set (JObject out) (fst kv) (snd kv) = JObject (out ++ [kv])) as ->
      by (unfold json_set; rewrite set_member_fresh, <- surjective_pairing; [done|];
          rewrite map_app in Hnd; apply NoDup_app in Hnd as (_ & Hd & _); intros Hin;
          apply (Hd _ Hin); left).
  - inversion Hvs; subst. unfold others. cbn [map concat app]. by rewrite skip_close.
  - destruct kvs as [|kv' kvs]; [inversion Hvs|].
    unfold others. cbn [map concat]. rewrite <- !app_assoc. cbn [app].
    rewrite skip_none by (by intros ? [= <-]). fold (others (map (member a) ms)).
    rewrite IH with (kvs := kvs) (kv := kv');
      [by rewrite <- app_assoc | done | by rewrite <- app_assoc | apply line_break_space |].
    cbn in Hf; lia.
Qed.
End Elements.

(** *** Documents *)

Lemma parseArray_loop (size : nat) (parse : str -> Parsed Json) (rest l : str) :
  skipWhitespace rest = l -> head l <> Some x5d ->
  parseArray size parse rest = array_loop size parse (S (length l)) (JArray []) l.
Proof. unfold parseArray. intros -> Hl. destruct l as [|c l]; [done|]. by destruct c. Qed.

Lemma parseObject_loop (size : nat) (parse : str -> Parsed Json) (rest l : str) :
  skipWhitespace rest = l -> head l <> Some x7d ->
  parseObject size parse rest = object_loop size parse (S (length l)) (JObject []) l.
Proof. unfold parseObject. intros -> Hl. destruct l as [|c l]; [done|]. by destruct c. Qed.

Lemma Forall2_map_self {A B} (R : B -> A -> Prop) (f : A -> B) (l : list A) :
  Forall (fun v => R (f v) v) l -> Forall2 R (map f l) l.
Proof. induction 1; constructor; auto. Qed.

Section Documents.
Variable size : nat.
Variables (indent : Z) (asciiOnly : bool).

Abbreviation text depth := (write indent asciiOnly depth).

Lemma inner_array (parse : str -> Parsed Json) (depth : Z) (l : list Json) (tail : str) :
  Forall (fun v => reads parse (text (depth + 1) v) v) l ->
  (forall v, v ∈ l -> exists c t, text (depth + 1) v = c :: t /\ is_space c = false /\ c <> x5d) ->
  parseArray size parse (drop 1 (text depth (JArray l)) ++ tail) = Ok (JArray l) tail.
Proof.
  intros Hall Hhead. cbn [write]. destruct l as [|v l]; [done|]. cbn [map bracketed app drop].
  rewrite drop_0, <- !app_assoc.
  destruct (Hhead v) as (c & t & E & Hc & Hne); [by left|].
  etransitivity.
  { apply parseArray_loop; [|shelve]. rewrite skip_space by apply line_break_space.
    apply skip_none. rewrite E. by intros ? [= <-]. }
  Unshelve. 2: { rewrite E. by intros [= ->]. }
  refine (array_loop_written size parse indent depth _ l _ v [] tail [] _ _ _ _);
    [by apply (Forall2_map_self _ (text (depth + 1)) (v :: l)) | done |].
  pose proof (separators_length (line_break indent (depth + 1)) (map (text (depth + 1)) l)).
  rewrite !length_app. cbn [app] in *. lia.
Qed.

Lemma inner_object (parse : str -> Parsed Json) (depth : Z) (l : list (str * Json)) (tail : str) :
  NoDup (map fst l) ->
  Forall (fun m => string_ok asciiOnly (fst m) /\ reads parse (text (depth + 1) (snd m)) (snd m)) l ->
  parseObject size parse (drop 1 (text depth (JObject l)) ++ tail) = Ok (JObject l) tail.
Proof.
  intros Hnd Hall. cbn [write]. destruct l as [|m l]; [done|]. cbn [map bracketed app drop].
  rewrite drop_0, <- !app_assoc.
  etransitivity.
  { apply parseObject_loop; [|shelve]. rewrite skip_space by apply line_break_space.
    apply skip_none. by intros ? [= <-]. }
  Unshelve. 2: done.
  pose (texts := fun m : str * Json => (fst m, text (depth + 1) (snd m))).
  pose proof (object_loop_written size parse indent depth asciiOnly (map texts l) l (texts m) m []
    tail []) as Hloop.
  rewrite map_map in Hloop. cbn [fst snd texts] in Hloop. rewrite <- !app_assoc in Hloop.
  cbn [app] in *. rewrite <- !app_assoc. apply Hloop; clear Hloop; [|done | done |].
  - apply (Forall2_map_self _ texts (m :: l)). apply (Forall_impl _ _ _ Hall). by intros ? [].
  - pose proof (separators_length (line_break indent (depth + 1)) (map (fun m =>
      writeString asciiOnly (fst m) ++ [x3a] ++ (if 0 <=? indent then [x20] else []) ++
      text (depth + 1) (snd m)) l)) as Hs.
    rewrite length_map in *. rewrite !length_app. cbn [app length] in *. rewrite !length_app. lia.
Qed.

(** The first character of a value. *)
Lemma text_head (depth : Z) (levels : nat) (v : Json) :
  document asciiOnly levels v ->
  exists c t, text depth v = c :: t /\ is_space c = false /\ c <> x5d.
Proof.
  intros Hv. destruct levels as [|levels]; [done|].
  destruct v as [| b | x | s | l | l].
  - exists x6e. by eexists.
  - destruct b; [exists x74 | exists x66]; by eexists.
  - destruct Hv as (n & Hn & ->). cbn [write]. rewrite writeNumber_integer by done.
    destruct (to_string_chars n) as (c & t & -> & _ & Hc). exists c, t.
    split_and!; [done | | intros ->; by destruct Hc].
    destruct Hc as [Hc | ->]; [|done]. by destruct c.
  - exists x22. by eexists.
  - destruct l; exists x5b; by eexists.
  - destruct l; exists x7b; by eexists.
Qed.

Lemma inner_written (parse : str -> Parsed Json) (depth : Z) (levels : nat) (v : Json) (tail : str) :
  (forall v, document asciiOnly levels v -> reads parse (text (depth + 1) v) v) ->
  document asciiOnly (S levels) v -> ends_number tail ->
  parseValueInner size parse (text depth v ++ tail) = Ok v tail.
Proof.
  intros Hparse Hv Ht. destruct v as [| b | x | s | l | l].
  - reflexivity.
  - by destruct b.
  - destruct Hv as (n & Hn & ->). cbn [write]. rewrite writeNumber_integer by done.
    rewrite inner_number. by apply parseNumber_written.
  - cbn [write]. pose proof (parseString_written size asciiOnly s tail Hv) as E.
    change (bind_parsed (parseString size (writeString asciiOnly s ++ tail))
      (fun s rest => Ok (JString s) rest) = Ok (JString s) tail). by rewrite E.
  - pose proof (inner_array parse depth l tail) as E.
    assert (text depth (JArray l) = x5b :: drop 1 (text depth (JArray l))) as -> by (by destruct l).
    apply E; [|intros v Hl; apply (text_head _ levels)].
    + apply (Forall_impl _ _ _ Hv). exact Hparse.
    + exact (proj1 (Forall_forall _ l) Hv v Hl).
  - destruct Hv as [Hnd Hv]. pose proof (inner_object parse depth l tail Hnd) as E.
    assert (text depth (JObject l) = x7b :: drop 1 (text depth (JObject l))) as -> by (by destruct l).
    apply E, (Forall_impl _ _ _ Hv). intros m [Hk Hm]. split; [done | by apply Hparse].
Qed.

Lemma parseValue_written (levels : nat) (depth : Z) (v : Json) :
  document asciiOnly levels v -> reads (parseValue size levels) (text depth v) v.
Proof.
  revert depth v; induction levels as [|levels IH]; intros depth v Hv ws tail Hws Ht; [done|].
  cbn [parseValue]. rewrite inner_skip by done. apply (inner_written _ _ levels); auto.
Qed.
End Documents.

(** What was written is read back. *)
Lemma parse_dump (v : Json) (indent : Z) (asciiOnly : bool) :
  document asciiOnly kMaxDepth v -> parse (dump v indent asciiOnly) = Ok v [].
Proof.
  intros Hv. unfold parse, dump.
  pose proof (parseValue_written (length (write indent asciiOnly 0 v)) indent asciiOnly kMaxDepth 0 v
    Hv [] [] ltac:(done) ltac:(done)) as E.
  rewrite app_nil_r in E. cbn [app] in E. by rewrite E.
Qed.

(** ** Theorems *)

(** C18: What [Json::dump] writes, [Json::parse] reads back as the same document, compact or
    indented, with the bytes as they are or escaped to ASCII: every document of at most 64 levels
    (the limit of the parser), with unique keys, whole numbers below 9e15, and strings that are
    valid UTF-8 if they are to be escaped. *)
Theorem json_roundtrip (v : Json) (indent : Z) (asciiOnly : bool)
    (Hv : document asciiOnly kMaxDepth v) :
  parse (dump v indent asciiOnly) = Ok v [].
Proof. by apply parse_dump. Qed.

(** C23: The parser always ends with a document or an error: the fuel of its loops cannot run out,
    on any input; and a document it returns has no object with two members of one name, however
    the text repeats them. *)
Theorem json_parse_total (text : str) :
  match parse text with
  | Ok v rest => rest = [] /\ unique_keys v
  | Fail _ => True
  | Exhausted => False
  end.
Proof.
  pose proof (parseValue_progresses (length text) kMaxDepth text) as Hp.
  pose proof (parseValue_unique (length text) kMaxDepth text) as Hu.
  unfold parse.
  destruct (parseValue _ _ text) as [v rest|e|]; cbn [bind_parsed]; [|done..].
  by destruct (skipWhitespace rest).
Qed.

(** [set] and [operator[]] agree, on any value: after [set(key, value)] the key has that value,
    every other key has the value it had, and the members keep their order, a new one being the
    last. *)
Lemma json_set_get (j : Json) (key : str) (value : Json) :
  (forall key', json_get (json_set j key value) key' =
    if decide (key = key') then value else json_get j key') /\
  exists members, json_set j key value = JObject members /\
    map fst members =
      let keys := match j with JObject members => map fst members | _ => [] end in
      if decide (key ∈ keys) then keys else keys ++ [key].
Proof.
  split.
  - intros key'. unfold json_set, json_get. rewrite find_set_member.
    case_decide; [done|]. by destruct j.
  - eexists. split; [reflexivity|]. rewrite set_member_keys. by destruct j.
Qed.

(** C26: an integer in a document is the integer the program works with as long as it is below
    2^52: the digits of [n] parse as the number [n], exactly, and [toInt] of it is [n], the rounding
    by [+0.5] included.  Above that - up to 9 * 10^15, to which the writer writes whole numbers
    out - even integers are still read as they are, but every odd one, although it is parsed
    exactly, comes out of [toInt] one further from zero. *)
Theorem json_integer_read `{Casts} (n def : Z) :
  Z.abs n < 9000000000000000 ->
  exists x, parse (to_string n) = Ok (JNumber x) [] /\ trunc x = n /\ is_integral x = true /\
    toInt (JNumber x) def =
      (if (Z.abs n <? 2 ^ 52) || Z.even n then n else n + Z.sgn n).
Proof.
  intros Hn. exists (of_Z n). destruct (of_Z_exact n) as (Et & Ei & _); [lia|].
  split_and!; [| done | done | apply toInt_integer; lia].
  pose proof (parse_dump (JNumber (of_Z n)) 0 false) as E. unfold dump in E. cbn [write] in E.
  rewrite writeNumber_integer in E by done. apply E. exists n. split; [done | done].
Qed.
