(* ===== verification/ClientFile.v ===== *)
(** * Configuration files

    [Monitor::loadClientFile] (monitor.cpp): what a client's JSON file configures.  Whatever the
    file says, the parameters are in range; and a file written the way the widget writes it
    gives exactly the client it describes. *)

From S2P Require Import Prelude Util Double Json JsonFacts JsonRoundtrip.
From S2P Require Import Health Pinger Resolver Monitor Probing Config.

(** ** Operations *)

Section ClientFile.
Context `{Casts}.

(** The body of the loop, for the [i]-th entry of the list: the destination pushed, if any. *)
Definition load_destination (i : nat) (entry : Json) : option Destination :=
  if negb (isObject entry) then None
  else
    let address := trimmed (toString (json_get entry (lit "address")) []) in
    if bool_decide (address = []) then None
    else
      let id := toString (json_get entry (lit "id")) [] in
      let id := if bool_decide (id = []) then lit "d" ++ dec (Z.of_nat i) else id in
      Some (newDestination <| d_address := address |> <| d_id := id |>
        <| d_name := toString (json_get entry (lit "name")) address |>
        <| d_order := i32 (toInt (json_get entry (lit "order")) (Z.of_nat i)) |>
        <| d_thresholdUs :=
             u64 (clampValue (toInt (json_get entry (lit "threshold_us")) 1000) 1 60000000) |>
        <| d_sensitivity :=
             i32 (clampValue (toInt (json_get entry (lit "sensitivity")) 3) 0 1000) |>
        <| d_enabled := if isNull (json_get entry (lit "enabled")) then true
                        else toBool (json_get entry (lit "enabled")) true |>
        <| d_partTime := toBool (json_get entry (lit "part_time")) false |>).

(** The loop: it stops once there are [maxDestinations]. *)
Fixpoint load_destinations (maxDestinations : Z) (i : nat) (entries : list Json)
    (out : list Destination) : list Destination :=
  match entries with
  | [] => out
  | entry :: entries =>
      if Z.of_nat (length out) <? maxDestinations then
        load_destinations maxDestinations (S i) entries
          (match load_destination i entry with Some d => out ++ [d] | None => out end)
      else out
  end.

(** [text] is what [readWholeFile] gave; [maxDestinations] is the option. *)
Definition loadClientFile (maxDestinations : Z) (text : option str) (path id : str) : option Client :=
  match text with
  | None => None
  | Some text =>
      match parse text with
      | Ok ((JObject _) as document) _ =>
          let out := newClient <| c_id := id |> <| c_path := path |>
            <| c_intervalUs :=
                 u64 (clampValue (toInt (json_get document (lit "interval_ms")) 1000) 100 3600000 * 1000) |>
            <| c_timeoutUs :=
                 u64 (clampValue (toInt (json_get document (lit "timeout_ms")) 3000) 50 60000 * 1000) |> in
          match json_get document (lit "destinations") with
          | JArray list => Some (out <| c_destinations := load_destinations maxDestinations 0 list [] |>)
          | _ => Some out
          end
      | _ => None
      end
  end.
End ClientFile.

(** ** Specification *)

(** A destination as it is configured, before anything was measured. *)
Definition unmeasured (d : Destination) : Destination :=
  newDestination <| d_address := d_address d |> <| d_id := d_id d |> <| d_name := d_name d |>
    <| d_order := d_order d |> <| d_thresholdUs := d_thresholdUs d |>
    <| d_sensitivity := d_sensitivity d |> <| d_enabled := d_enabled d |>
    <| d_partTime := d_partTime d |>.

(** What every destination a file configures satisfies. *)
Record configured (d : Destination) : Prop := {
  cd_address : d_address d <> [] /\
    (forall c, head (d_address d) = Some c -> isspace c = false) /\
    (forall c, last (d_address d) = Some c -> isspace c = false);
  cd_id : d_id d <> [];
  cd_order : - 2 ^ 31 <= d_order d < 2 ^ 31;
  cd_threshold : 1 <= d_thresholdUs d <= 60000000;
  cd_sensitivity : 0 <= d_sensitivity d <= 1000;
  cd_unmeasured : d = unmeasured d
}.

(** The file the widget writes for a client (Backend.qml, [daemonConfig]). *)
Definition destination_json (d : Destination) : Json :=
  JObject [(lit "id", JString (d_id d)); (lit "name", JString (d_name d));
           (lit "address", JString (d_address d)); (lit "order", JNumber (of_Z (d_order d)));
           (lit "threshold_us", JNumber (of_Z (d_thresholdUs d)));
           (lit "sensitivity", JNumber (of_Z (d_sensitivity d)));
           (lit "enabled", JBool (d_enabled d)); (lit "part_time", JBool (d_partTime d))].

Definition client_json (c : Client) : Json :=
  JObject [(lit "version", JNumber (of_Z 1)); (lit "client", JString (c_id c));
           (lit "interval_ms", JNumber (of_Z (c_intervalUs c / 1000)));
           (lit "timeout_ms", JNumber (of_Z (c_timeoutUs c / 1000)));
           (lit "destinations", JArray (map destination_json (c_destinations c)))].

(** A client a file can describe: its times in whole milliseconds. *)
Record describable (asciiOnly : bool) (c : Client) : Prop := {
  ds_ranges : intervals_ok (c_intervalUs c) (c_timeoutUs c);
  ds_whole : c_intervalUs c mod 1000 = 0 /\ c_timeoutUs c mod 1000 = 0;
  ds_error : c_error c = [];
  ds_destinations : Forall configured (c_destinations c);
  ds_text : string_ok asciiOnly (c_id c) /\
    Forall (fun d => string_ok asciiOnly (d_id d) /\ string_ok asciiOnly (d_name d) /\
                     string_ok asciiOnly (d_address d)) (c_destinations c)
}.

(** ** Lemmas *)

Section Facts.
Context `{Casts}.

Lemma load_destination_configured (i : nat) (entry : Json) (d : Destination) :
  load_destination i entry = Some d -> configured d.
Proof.
  unfold load_destination. destruct (negb (isObject entry)); [done|].
  set (address := toString _ []).
  destruct (trimmed_split address) as (_ & _ & _ & _ & _ & Hh & Hl).
  case_bool_decide as Ha; [done|]. intros [= <-]. constructor; cbn.
  - done.
  - case_bool_decide as E; [|done]. by intros [=].
  - apply i32_range.
  - rewrite u64_small; [apply clampValue_range; lia|].
    pose proof (clampValue_range (toInt (json_get entry (lit "threshold_us")) 1000) 1 60000000). lia.
  - rewrite i32_small; [apply clampValue_range; lia|].
    pose proof (clampValue_range (toInt (json_get entry (lit "sensitivity")) 3) 0 1000). lia.
  - reflexivity.
Qed.

Lemma load_destinations_spec (maxDestinations : Z) (i : nat) (entries : list Json)
    (out : list Destination) :
  Z.of_nat (length out) <= maxDestinations -> Forall configured out ->
  Z.of_nat (length (load_destinations maxDestinations i entries out)) <= maxDestinations /\
  Forall configured (load_destinations maxDestinations i entries out).
Proof.
  revert i out; induction entries as [|entry entries IH]; intros i out Hn Hout; [done|].
  cbn [load_destinations]. destruct (Z.ltb_spec (Z.of_nat (length out)) maxDestinations); [|done].
  apply IH.
  - destruct (load_destination i entry); [rewrite length_app; cbn|]; lia.
  - destruct (load_destination i entry) eqn:E; [|done]. apply Forall_app. split; [done|].
    constructor; [by eapply load_destination_configured | done].
Qed.

Lemma load_destination_json (i : nat) (d : Destination) :
  configured d -> load_destination i (destination_json d) = Some d.
Proof.
  intros [(Ha & Hh & Hl) Hi Ho Ht Hs Hu]. unfold load_destination.
  change (isObject (destination_json d)) with true.
  change (json_get (destination_json d) (lit "id")) with (JString (d_id d)).
  change (json_get (destination_json d) (lit "name")) with (JString (d_name d)).
  change (json_get (destination_json d) (lit "address")) with (JString (d_address d)).
  change (json_get (destination_json d) (lit "order")) with (JNumber (of_Z (d_order d))).
  change (json_get (destination_json d) (lit "threshold_us")) with (JNumber (of_Z (d_thresholdUs d))).
  change (json_get (destination_json d) (lit "sensitivity")) with (JNumber (of_Z (d_sensitivity d))).
  change (json_get (destination_json d) (lit "enabled")) with (JBool (d_enabled d)).
  change (json_get (destination_json d) (lit "part_time")) with (JBool (d_partTime d)).
  cbn [negb toString isNull toBool]. rewrite !toInt_small, trimmed_id by (done || lia).
  rewrite !bool_decide_false by done.
  rewrite !clampValue_id, u64_small, !i32_small by lia. exact (f_equal Some (eq_sym Hu)).
Qed.

Lemma load_destinations_json (maxDestinations : Z) (i : nat) (ds out : list Destination) :
  Forall configured ds -> Z.of_nat (length out + length ds) <= maxDestinations ->
  load_destinations maxDestinations i (map destination_json ds) out = out ++ ds.
Proof.
  intros Hds; revert i out; induction Hds as [|d ds Hd _ IH]; intros i out Hn; cbn [map load_destinations].
  - by rewrite app_nil_r.
  - cbn [length] in Hn. rewrite (proj2 (Z.ltb_lt _ _)) by lia. rewrite load_destination_json by done.
    rewrite IH, <- app_assoc; [done|]. rewrite length_app. cbn. lia.
Qed.
End Facts.

Lemma small_number (asciiOnly : bool) (levels : nat) (n : Z) :
  Z.abs n < 9000000000000000 -> document asciiOnly (S levels) (JNumber (of_Z n)).
Proof. intros Hn. by exists n. Qed.

Lemma ascii_ok (asciiOnly : bool) (s : str) :
  Forall (fun c => uc c < 0x80) s -> string_ok asciiOnly s.
Proof.
  intros Hs _. exists (map uc s). induction Hs as [|c s Hc _ (Hall & E)]; [by split; [constructor|]|].
  pose proof (uc_range c). cbn [map concat]. split; [constructor; [unfold scalar; lia | done]|].
  rewrite <- E. unfold appendUtf8. rewrite (proj2 (Z.ltb_lt (uc c) 0x80)) by lia. by rewrite chr_uc.
Qed.

(** Members with distinct ASCII names. *)
Lemma object_document (asciiOnly : bool) (levels : nat) (members : list (str * Json)) :
  bool_decide (NoDup (map fst members)) && forallb (fun m => forallb (fun c => uc c <? 0x80) (fst m)) members
    = true ->
  Forall (fun m => document asciiOnly levels (snd m)) members ->
  document asciiOnly (S levels) (JObject members).
Proof.
  intros [Hnd Hk]%andb_true_iff Hall. apply bool_decide_eq_true in Hnd. split; [done|].
  clear Hnd. rewrite forallb_forall in Hk. rewrite Forall_forall in Hall. apply Forall_forall.
  intros m Hm. split; [|by apply Hall]. apply ascii_ok, Forall_forall. intros c Hc.
  apply list_elem_of_In in Hm, Hc. specialize (Hk m Hm). rewrite forallb_forall in Hk.
  by apply Z.ltb_lt, Hk.
Qed.

Lemma destination_document (asciiOnly : bool) (d : Destination) (levels : nat) :
  configured d ->
  string_ok asciiOnly (d_id d) /\ string_ok asciiOnly (d_name d) /\ string_ok asciiOnly (d_address d) ->
  document asciiOnly (S (S levels)) (destination_json d).
Proof.
  intros [_ _ Ho Ht Hs _] (H1 & H2 & H3). apply object_document; [vm_compute; reflexivity|].
  do 8 (apply Forall_cons_2; cbn [snd];
    [first [assumption | exact I | apply small_number; lia] |]).
  apply Forall_nil_2.
Qed.

Lemma milliseconds_small (t : Z) : 0 <= t <= 3600000000 -> Z.abs (t / 1000) < 9000000000000000.
Proof. intros Ht. pose proof (Z.div_pos t 1000). pose proof (Z.div_le_upper_bound t 1000 t). lia. Qed.

Lemma client_document (asciiOnly : bool) (c : Client) (levels : nat) :
  describable asciiOnly c -> document asciiOnly (S (S (S (S levels)))) (client_json c).
Proof.
  intros [(H1 & H2) _ _ Hd (Hi & Ht)]. apply object_document; [vm_compute; reflexivity|].
  do 4 (apply Forall_cons_2; cbn [snd];
    [first [assumption | apply small_number; first [lia | apply milliseconds_small; lia]] |]).
  apply Forall_cons_2, Forall_nil_2. cbn [snd].
  change (Forall (document asciiOnly (S (S levels))) (map destination_json (c_destinations c))).
  clear H1 H2 Hi. induction Hd as [|d ds Hd _ IH]; [apply Forall_nil_2|].
  apply Forall_cons in Ht as [Hs Ht]. apply Forall_cons_2; [|by apply IH].
  by apply destination_document.
Qed.

Lemma loaded_in_range `{Casts} (maxDestinations : Z) (text : option str) (path id : str)
    (c : Client) :
  0 <= maxDestinations -> loadClientFile maxDestinations text path id = Some c ->
  c_id c = id /\ c_path c = path /\ intervals_ok (c_intervalUs c) (c_timeoutUs c) /\
  Z.of_nat (length (c_destinations c)) <= maxDestinations /\
  Forall configured (c_destinations c).
Proof.
  intros Hmax. unfold loadClientFile. destruct text as [text|]; [|done].
  destruct (parse text) as [document rest| |]; [|done..].
  destruct document as [| | | | |members]; try done.
  set (document := JObject members).
  set (interval := toInt (json_get document (lit "interval_ms")) 1000).
  set (timeout := toInt (json_get document (lit "timeout_ms")) 3000).
  pose proof (clampValue_range interval 100 3600000). pose proof (clampValue_range timeout 50 60000).
  assert (intervals_ok (u64 (clampValue interval 100 3600000 * 1000))
            (u64 (clampValue timeout 50 60000 * 1000))) as Hr
    by (unfold intervals_ok; rewrite !u64_small by lia; lia).
  intros E. destruct (json_get document (lit "destinations")); injection E as <-; cbn;
    split_and!; try done.
  - apply load_destinations_spec; [cbn; lia | constructor].
  - apply (load_destinations_spec maxDestinations 0 items []); [cbn; lia | constructor].
Qed.

(** ** Properties *)

(** C20: whatever a configuration file says, and however large or small the numbers in it, what is
    loaded from it is in range: the interval between 0.1 s and an hour, the timeout between 50 ms
    and a minute, at most as many destinations as the option allows, each with an address without
    surrounding white space, an id, a threshold between 1 us and a minute, a sensitivity between
    0 and 1000, and nothing measured yet. *)
Theorem client_file_in_range `{Casts} (maxDestinations : Z) (text : option str) (path id : str)
    (c : Client) :
  0 <= maxDestinations -> loadClientFile maxDestinations text path id = Some c ->
  c_id c = id /\ c_path c = path /\ intervals_ok (c_intervalUs c) (c_timeoutUs c) /\
  Z.of_nat (length (c_destinations c)) <= maxDestinations /\
  Forall configured (c_destinations c).
Proof. apply loaded_in_range. Qed.

(** C19: the configuration the widget writes is the configuration the daemon runs: reading the JSON
    text of a client, in either output mode, gives back that client - its times, and each
    destination's id, name, address, order, threshold, sensitivity and flags. *)
Theorem client_file_read `{Casts} (maxDestinations indent : Z) (asciiOnly : bool) (c : Client) :
  describable asciiOnly c -> Z.of_nat (length (c_destinations c)) <= maxDestinations ->
  loadClientFile maxDestinations (Some (dump (client_json c) indent asciiOnly)) (c_path c) (c_id c)
  = Some c.
Proof.
  intros Hc Hmax. unfold loadClientFile. rewrite parse_dump by exact (client_document _ c 60 Hc).
  destruct Hc as [(H1 & H2) (W1 & W2) He Hd _].
  change (client_json c) with (JObject (match client_json c with JObject l => l | _ => [] end)) at 1.
  cbn beta iota zeta.
  change (json_get (client_json c) (lit "interval_ms")) with (JNumber (of_Z (c_intervalUs c / 1000))).
  change (json_get (client_json c) (lit "timeout_ms")) with (JNumber (of_Z (c_timeoutUs c / 1000))).
  change (json_get (client_json c) (lit "destinations"))
    with (JArray (map destination_json (c_destinations c))).
  cbn beta iota zeta. rewrite load_destinations_json by (done || cbn; lia).
  assert (forall t, 50000 <= t <= 3600000000 -> t mod 1000 = 0 -> 1000 * (t / 1000) = t) as Hdiv
    by (intros; Z.to_euclidean_division_equations; lia).
  pose proof (Hdiv (c_intervalUs c)). pose proof (Hdiv (c_timeoutUs c)).
  rewrite !toInt_small, !clampValue_id by lia. rewrite !u64_small by lia.
  destruct c as [id path interval timeout ds err]; cbn [c_id c_path c_intervalUs c_timeoutUs c_destinations c_error] in *.
  subst err. change (Some (mkClient id path (interval / 1000 * 1000) (timeout / 1000 * 1000) ds []) =
    Some (mkClient id path interval timeout ds [])).
  do 2 f_equal; lia.
Qed.
