(* ===== verification/Publish.v ===== *)
(** * Publishing

    [Monitor::buildStateJson], [publishIntervalUs] and [publish] (monitor.cpp): the document the
    widget reads, what it says about each client, and when it is written. *)

From S2P Require Import Prelude Util Double Json JsonFacts JsonText.
From S2P Require Import Health Pinger Resolver Monitor Probing Config.

(** ** Operations *)

(** A chain of [set]. *)
Definition set_all (members : list (str * Json)) (j : Json) : Json :=
  fold_left (fun j m => json_set j (fst m) (snd m)) members j.

Definition object : Json := JObject [].
Definition array : Json := JArray [].
Definition num (n : Z) : Json := JNumber (of_Z n).

(** *** The document *)

Definition engine_json (m : Monitor) : Json :=
  let family socket error :=
    set_all [(lit "available", JBool (isOpen socket)); (lit "raw", JBool (m_raw socket));
             (lit "error", JString error)] object in
  set_all [(lit "ipv4", family (m_socket4 m) (m_error4 m));
           (lit "ipv6", family (m_socket6 m) (m_error6 m))] object.

Definition prober_of (m : Monitor) (d : Destination) : option Prober :=
  if (0 <=? d_prober d) && (d_prober d <? Z.of_nat (length (m_probers m)))
  then m_probers m !! Z.to_nat (d_prober d) else None.

(** The counters of the loop over a client's destinations. *)
Record Tally := mkTally {
  t_good : Z; t_warn : Z; t_bad : Z; t_offline : Z; t_unknown : Z; t_enabled : Z
}.

#[export] Instance eta_Tally : Eta Tally := fun r =>
  mkTally (t_good r) (t_warn r) (t_bad r) (t_offline r) (t_unknown r) (t_enabled r).

Definition tally (t : Tally) (d : Destination) : Tally :=
  if d_enabled d then
    let t := t <| t_enabled := t_enabled t + 1 |> in
    match reportedState (d_state d) (d_partTime d) with
    | Good => t <| t_good := t_good t + 1 |>
    | Warn => t <| t_warn := t_warn t + 1 |>
    | Bad => t <| t_bad := t_bad t + 1 |>
    | Offline => t <| t_offline := t_offline t + 1 |>
    | Unknown => t <| t_unknown := t_unknown t + 1 |>
    end
  else t.

Definition tallies (ds : list Destination) : Tally := fold_left tally ds (mkTally 0 0 0 0 0 0).

Definition loss_percent (d : Destination) : double :=
  if 0 <? d_sent d then
    double_div (double_mul (of_Z 100) (of_Z (u64 (d_sent d - d_received d)))) (of_Z (d_sent d))
  else zero.

Definition destination_entry (m : Monitor) (verbose : bool) (d : Destination) : Json :=
  let prober := prober_of m d in
  let shown := reportedState (d_state d) (d_partTime d) in
  let resolved := match prober with Some p => valid (p_endpoint p) | None => false end in
  let entry := set_all
    [(lit "id", JString (d_id d));
     (lit "state", JString (healthStateName shown));
     (lit "resolved", JString (match prober with
        | Some p => if valid (p_endpoint p) then e_text (p_endpoint p) else [] | None => [] end));
     (lit "have_rtt", JBool (d_haveRtt d));
     (lit "rtt_us", num (d_rttUs d));
     (lit "sent", num (d_sent d));
     (lit "received", num (d_received d));
     (lit "loss_percent", JNumber (loss_percent d));
     (lit "error", JString (match prober with Some p => p_lastError p | None => [] end))] object in
  if verbose then set_all
    [(lit "name", JString (d_name d));
     (lit "address", JString (d_address d));
     (lit "family", num (match prober with
        | Some p => if valid (p_endpoint p)
                    then (if e_family (p_endpoint p) =? AF_INET6 then 6 else 4) else 0
        | None => 0 end));
     (lit "enabled", JBool (d_enabled d));
     (lit "part_time", JBool (d_partTime d));
     (lit "order", num (d_order d));
     (lit "threshold_us", num (d_thresholdUs d));
     (lit "sensitivity", num (d_sensitivity d));
     (lit "candidate", JString (healthStateName (reportedState (d_candidate d) (d_partTime d))));
     (lit "candidate_streak", num (d_candidateStreak d));
     (lit "in_flight", num (match prober with
        | Some p => Z.of_nat (length (p_inFlight p)) | None => 0 end));
     (lit "last_reply_us", num (d_lastReplyRealUs d));
     (lit "last_change_us", num (d_lastChangeRealUs d))] entry
  else entry.

Definition overall (t : Tally) : str :=
  if t_enabled t =? t_offline t then lit "idle"
  else if 0 <? t_bad t then lit "bad"
  else if 0 <? t_warn t then lit "warn"
  else if t_unknown t =? 0 then lit "good"
  else lit "unknown".

Definition counts_json (t : Tally) (total : Z) : Json :=
  set_all [(lit "enabled", num (t_enabled t)); (lit "good", num (t_good t));
           (lit "warn", num (t_warn t)); (lit "bad", num (t_bad t));
           (lit "offline", num (t_offline t)); (lit "unknown", num (t_unknown t));
           (lit "total", num total)] object.

Definition client_entry (m : Monitor) (verbose : bool) (client : Client) : Json :=
  let destinations := fold_left (fun l d => json_push l (destination_entry m verbose d))
    (c_destinations client) array in
  let t := tallies (c_destinations client) in
  let entry := set_all
    [(lit "overall", JString (overall t));
     (lit "counts", counts_json t (Z.of_nat (length (c_destinations client))))] object in
  let entry :=
    if verbose then set_all
      [(lit "interval_ms", num (c_intervalUs client / 1000));
       (lit "timeout_ms", num (c_timeoutUs client / 1000))] entry
    else entry in
  json_set entry (lit "destinations") destinations.

(** [pid] is [getpid()], [realNow] the wall clock. *)
Definition buildStateJson (pid realNow now : Z) (verbose : bool) (m : Monitor) : Json :=
  let clients := fold_left (fun j client => json_set j (c_id client) (client_entry m verbose client))
    (m_clients m) object in
  let document := set_all
    [(lit "version", num 1);
     (lit "generation", num (m_generation m));
     (lit "pid", num pid);
     (lit "timestamp_us", num realNow);
     (lit "probers", num (Z.of_nat (length (m_probers m))));
     (lit "engine", engine_json m)] object in
  let document :=
    if verbose then set_all
      [(lit "started_us", num (m_startedRealUs m)); (lit "uptime_us", num now)] document
    else document in
  json_set document (lit "clients") clients.

(** *** Writing it *)

Definition publishIntervalUs (m : Monitor) : Z :=
  Z.max (o_publishIntervalUs (m_options m)) (m_minIntervalUs m).

Definition stateFilePath (m : Monitor) : str := o_runtimeDir (m_options m) ++ lit "/state.json".
Definition stateIniPath (m : Monitor) : str := o_runtimeDir (m_options m) ++ lit "/state.ini".
Definition newline : str := [x0a].

(** The text of the file the widget reads. *)
Definition ini_text (generation : Z) (document : Json) : str :=
  lit "[State]" ++ newline ++
  lit "generation=" ++ to_string generation ++ newline ++
  lit "payload=" ++ base64Encode (dump document (-1) true) ++ newline.

(** The third result lists what is handed to [writeFileAtomically]: path and content. *)
Definition publish (pid now : Z) (force : bool) (m : Monitor) (w : World) :
    Monitor * World * list (str * str) :=
  if negb force && negb (m_stateDirty m)
     && (negb (m_dataDirty m) || (u64 (now - m_lastPublishUs m) <? publishIntervalUs m))
  then (m, w, [])
  else
    let m := m <| m_generation := u64 (m_generation m + 1) |> in
    let '(realNow, w) := nowRealtimeUs w in
    let ini := (stateIniPath m,
      ini_text (m_generation m) (buildStateJson pid realNow now false m)) in
    let '(readable, m, w) :=
      if m_stateDirty m || (m_lastReadablePublishUs m =? 0)
         || (kReadablePublishIntervalUs <=? u64 (now - m_lastReadablePublishUs m)) then
        let '(realNow, w) := nowRealtimeUs w in
        ([(stateFilePath m, dump (buildStateJson pid realNow now true m) 2 false)],
         m <| m_lastReadablePublishUs := now |>, w)
      else ([], m, w) in
    (m <| m_lastPublishUs := now |> <| m_dataDirty := false |> <| m_stateDirty := false |>,
     w, ini :: readable).

(** ** Specification *)

(** What the destinations of a client that are enabled are shown as. *)
Definition visible (client : Client) : list HealthState :=
  map (fun d => reportedState (d_state d) (d_partTime d))
    (List.filter d_enabled (c_destinations client)).

Definition how_many (s : HealthState) (l : list HealthState) : Z :=
  Z.of_nat (length (filter (fun x => x = s) l)).

(** The entry of a client in the document. *)
Definition published_client (document : Json) (id : str) : Json :=
  json_get (json_get document (lit "clients")) id.

(** The entry of the [j]-th destination of a client. *)
Definition published_destination (document : Json) (id : str) (j : nat) : Json :=
  json_at (json_get (published_client document id) (lit "destinations")) j.

(** Whether [publish] has something to do at [now]. *)
Definition publish_due (now : Z) (force : bool) (m : Monitor) : Prop :=
  force = true \/ m_stateDirty m = true \/
  m_dataDirty m = true /\ publishIntervalUs m <= now - m_lastPublishUs m.

(** ** Lemmas *)

Lemma get_set (j : Json) (key key' : str) (value : Json) :
  json_get (json_set j key value) key' = if decide (key = key') then value else json_get j key'.
Proof. unfold json_set, json_get. rewrite find_set_member. case_decide; [done|]. by destruct j. Qed.

(** Setting a member per client. *)
Lemma get_clients (f : Client -> Json) (clients : list Client) (client : Client) (j : Json) :
  NoDup (map c_id clients) -> client ∈ clients ->
  json_get (fold_left (fun j c => json_set j (c_id c) (f c)) clients j) (c_id client) = f client.
Proof.
  assert (forall l j id, id ∉ map c_id l ->
    json_get (fold_left (fun j c => json_set j (c_id c) (f c)) l j) id = json_get j id) as Hout.
  { induction l as [|c l IH]; intros j' id Hid; [done|]. cbn [map] in Hid.
    apply not_elem_of_cons in Hid as [Hne Hid]. cbn [fold_left]. rewrite IH, get_set by done.
    by rewrite decide_False by congruence. }
  revert j; induction clients as [|c clients IH]; intros j Hnd Hin; [by apply not_elem_of_nil in Hin|].
  cbn [map] in Hnd. apply NoDup_cons in Hnd as [Hc Hnd]. cbn [fold_left].
  apply elem_of_cons in Hin as [->|Hin]; [|by apply IH].
  by rewrite Hout, get_set, decide_True by done.
Qed.

Lemma push_all (f : Destination -> Json) (ds : list Destination) (out : list Json) :
  fold_left (fun l d => json_push l (f d)) ds (JArray out) = JArray (out ++ map f ds).
Proof.
  revert out; induction ds as [|d ds IH]; intros out; cbn [fold_left map]; [by rewrite app_nil_r|].
  change (json_push (JArray out) (f d)) with (JArray (out ++ [f d])). by rewrite IH, <- app_assoc.
Qed.

Lemma published_client_entry (pid realNow now : Z) (verbose : bool) (m : Monitor) (client : Client) :
  NoDup (map c_id (m_clients m)) -> client ∈ m_clients m ->
  published_client (buildStateJson pid realNow now verbose m) (c_id client) =
  client_entry m verbose client.
Proof.
  intros Hnd Hin. unfold published_client, buildStateJson. cbv zeta.
  rewrite get_set, decide_True by done. by apply get_clients.
Qed.

Lemma published_destination_entry (pid realNow now : Z) (verbose : bool) (m : Monitor)
    (client : Client) (j : nat) (d : Destination) :
  NoDup (map c_id (m_clients m)) -> client ∈ m_clients m -> c_destinations client !! j = Some d ->
  published_destination (buildStateJson pid realNow now verbose m) (c_id client) j =
  destination_entry m verbose d.
Proof.
  intros Hnd Hin Hd. unfold published_destination. rewrite published_client_entry by done.
  unfold client_entry. cbv zeta. rewrite get_set, decide_True by done. unfold array.
  rewrite push_all. cbn [json_at app]. apply nth_lookup_Some. change (@map Destination Json) with (fmap (M := list) (A := Destination) (B := Json)).
  by rewrite list_lookup_fmap, Hd.
Qed.

Lemma prober_of_linked (m : Monitor) (client : Client) (j : nat) (d : Destination) :
  client ∈ m_clients m -> c_destinations client !! j = Some d ->
  links (m_clients m) (m_probers m) -> d_enabled d = true ->
  exists p, prober_of m d = Some p /\ p_host p = d_address d.
Proof.
  intros (i & Hi)%list_elem_of_lookup Hj [Hl _ _ _ _] He.
  specialize (Hl (mkSubscriber i j) client d Hi). unfold destination_at in Hl. cbn in Hl.
  rewrite Hi in Hl. cbn in Hl. specialize (Hl Hj). rewrite He in Hl.
  destruct Hl as (k & p & Ek & Hk & _ & Hh & _). exists p. split; [|done].
  pose proof (lookup_lt_Some _ _ _ Hk). unfold prober_of. rewrite Ek, Nat2Z.id.
  rewrite (proj2 (Z.leb_le _ _)), (proj2 (Z.ltb_lt _ _)) by lia. done.
Qed.

(** *** Counting *)

Lemma how_many_cons (s x : HealthState) (l : list HealthState) :
  how_many s (x :: l) = (if decide (x = s) then 1 else 0) + how_many s l.
Proof. unfold how_many. rewrite filter_cons. case_decide; cbn [length]; lia. Qed.

Lemma how_many_nonneg (s : HealthState) (l : list HealthState) : 0 <= how_many s l.
Proof. unfold how_many. lia. Qed.

Lemma how_many_pos (s : HealthState) (l : list HealthState) : 0 < how_many s l <-> s ∈ l.
Proof.
  induction l as [|x l IH]; [split; [done | by intros ?%elem_of_nil]|].
  rewrite how_many_cons, elem_of_cons, <- IH. pose proof (how_many_nonneg s l).
  case_decide; split; intros; try lia; intuition (congruence || lia).
Qed.

Lemma how_many_total (l : list HealthState) :
  how_many Good l + how_many Warn l + how_many Bad l + how_many Offline l + how_many Unknown l =
  Z.of_nat (length l).
Proof.
  induction l as [|x l IH]; [done|]. rewrite !how_many_cons. cbn [length].
  destruct x; repeat (case_decide; try congruence); lia.
Qed.

Lemma how_many_all (s : HealthState) (l : list HealthState) :
  Z.of_nat (length l) = how_many s l <-> Forall (fun x => x = s) l.
Proof.
  induction l as [|x l IH]; [by split|]. rewrite how_many_cons, Forall_cons, <- IH. cbn [length].
  assert (how_many s l <= Z.of_nat (length l)).
  { unfold how_many. apply inj_le, length_filter. }
  case_decide; split; intros; intuition (congruence || lia).
Qed.

Definition tally_of (vs : list HealthState) : Tally :=
  mkTally (how_many Good vs) (how_many Warn vs) (how_many Bad vs) (how_many Offline vs)
    (how_many Unknown vs) (Z.of_nat (length vs)).

Lemma tallies_visible (client : Client) : tallies (c_destinations client) = tally_of (visible client).
Proof.
  unfold tallies, visible.
  enough (forall t, fold_left tally (c_destinations client) t =
    let u := tally_of (map (fun d => reportedState (d_state d) (d_partTime d))
                         (List.filter d_enabled (c_destinations client))) in
    mkTally (t_good t + t_good u) (t_warn t + t_warn u) (t_bad t + t_bad u)
      (t_offline t + t_offline u) (t_unknown t + t_unknown u) (t_enabled t + t_enabled u)) as ->
    by done.
  induction (c_destinations client) as [|d ds IH]; intros t.
  - destruct t. unfold tally_of, how_many. cbn. by rewrite !Z.add_0_r.
  - cbn [fold_left]. rewrite IH. unfold tally. cbn [List.filter].
    destruct (d_enabled d); [|done]. unfold tally_of. cbn [map]. rewrite !how_many_cons.
    cbn [length]. rewrite Nat2Z.inj_succ.
    destruct (reportedState (d_state d) (d_partTime d));
      repeat (case_decide; try congruence); cbn -[how_many Z.of_nat]; f_equal; lia.
Qed.

(** The overall state is the worst of those shown. *)
Lemma overall_spec (vs : list HealthState) :
  let word := overall (tally_of vs) in
  (word = lit "bad" <-> Bad ∈ vs) /\
  (word = lit "warn" <-> Warn ∈ vs /\ (Bad ∉ vs)) /\
  (word = lit "good" <-> Good ∈ vs /\ Forall (fun s => s = Good \/ s = Offline) vs) /\
  (word = lit "idle" <-> Forall (fun s => s = Offline) vs).
Proof.
  pose proof (how_many_total vs) as Ht. pose proof (how_many_all Offline vs) as Hall.
  pose proof (how_many_pos Good vs) as Hg. pose proof (how_many_pos Warn vs) as Hw.
  pose proof (how_many_pos Bad vs) as Hb. pose proof (how_many_pos Unknown vs) as Hu.
  assert (Forall (fun s => s = Good \/ s = Offline) vs <-> (Warn ∉ vs) /\ (Bad ∉ vs) /\ (Unknown ∉ vs))
    as Hgood.
  { rewrite Forall_forall. split.
    - intros H. split_and!; intros Hin; by destruct (H _ Hin).
    - intros (H1 & H2 & H3) s Hin. destruct s; auto; done. }
  pose proof (how_many_nonneg Good vs). pose proof (how_many_nonneg Warn vs).
  pose proof (how_many_nonneg Bad vs). pose proof (how_many_nonneg Offline vs).
  pose proof (how_many_nonneg Unknown vs).
  unfold overall, tally_of. cbn -[how_many lit].
  rewrite Hgood, <- Hall, <- Hg, <- Hw, <- Hb, <- Hu.
  destruct (Z.eqb_spec (Z.of_nat (length vs)) (how_many Offline vs)),
    (Z.ltb_spec 0 (how_many Bad vs)), (Z.ltb_spec 0 (how_many Warn vs)),
    (Z.eqb_spec (how_many Unknown vs) 0); split_and!; split; intros Hx; try done; try lia;
    try (split_and!; lia).
Qed.

(** ** Properties *)

(** C21: the published state of a client is the worst one shown among its enabled destinations: bad
    exactly when one is bad, however many are healthy; warn when one is and none is bad; good when
    all that are shown are good, at least one of them; and idle when nothing is enabled or all
    that is enabled is part-time and off.  The counts say how many destinations are in each state,
    and add up to the number enabled. *)
Theorem worst_state_wins (pid realNow now : Z) (verbose : bool) (m : Monitor) (client : Client) :
  NoDup (map c_id (m_clients m)) -> client ∈ m_clients m ->
  let entry := published_client (buildStateJson pid realNow now verbose m) (c_id client) in
  let vs := visible client in
  (exists word, json_get entry (lit "overall") = JString word /\
    (word = lit "bad" <-> Bad ∈ vs) /\
    (word = lit "warn" <-> Warn ∈ vs /\ (Bad ∉ vs)) /\
    (word = lit "good" <-> Good ∈ vs /\ Forall (fun s => s = Good \/ s = Offline) vs) /\
    (word = lit "idle" <-> Forall (fun s => s = Offline) vs)) /\
  (forall s, json_get (json_get entry (lit "counts")) (healthStateName s) = num (how_many s vs)) /\
  json_get (json_get entry (lit "counts")) (lit "enabled") = num (Z.of_nat (length vs)) /\
  how_many Good vs + how_many Warn vs + how_many Bad vs + how_many Offline vs + how_many Unknown vs
    = Z.of_nat (length vs).
Proof.
  intros Hnd Hin. cbv zeta. rewrite published_client_entry by done. unfold client_entry. cbv zeta.
  rewrite tallies_visible, !get_set, !decide_False by done. split_and!.
  - exists (overall (tally_of (visible client))). split; [by destruct verbose|].
    apply overall_spec.
  - intros s. destruct verbose, s; reflexivity.
  - destruct verbose; reflexivity.
  - apply how_many_total.
Qed.


(** C22: [publish] writes exactly when it has something to say: at once when it is forced or a
    health state changed, and otherwise, when there is new data, at most once per publishing
    interval, which is never below the fastest probing interval.  It then writes the state the
    widget reads, of a new generation, and the readable copy when a state changed or five seconds
    have passed; and it is up to date. *)
Theorem publish_when_due (pid now : Z) (force : bool) (m m' : Monitor) (w w' : World)
    (writes : list (str * str)) :
  0 <= m_lastPublishUs m <= now -> 0 <= m_lastReadablePublishUs m <= now -> now < 2 ^ 64 ->
  0 <= m_generation m < u64_max ->
  publish pid now force m w = (m', w', writes) ->
  (~ publish_due now force m -> m' = m /\ w' = w /\ writes = []) /\
  (publish_due now force m ->
   m_generation m' = m_generation m + 1 /\ m_lastPublishUs m' = now /\
   m_dataDirty m' = false /\ m_stateDirty m' = false /\
   m_clients m' = m_clients m /\ m_probers m' = m_probers m /\
   exists realNow readable,
     writes = (stateIniPath m, ini_text (m_generation m + 1)
                (buildStateJson pid realNow now false (m <| m_generation := m_generation m + 1 |>)))
              :: readable /\
     (readable = [] <-> m_stateDirty m = false /\ m_lastReadablePublishUs m <> 0 /\
                        now - m_lastReadablePublishUs m < kReadablePublishIntervalUs) /\
     (m_stateDirty m = true -> exists text, readable = [(stateFilePath m, text)])).
Proof.
  unfold u64_max. intros Hp Hr Hn Hg E. unfold publish in E.
  rewrite (u64_small (now - m_lastPublishUs m)) in E by lia.
  rewrite (u64_small (m_generation m + 1)) in E by lia. cbv zeta in E.
  assert (negb force && negb (m_stateDirty m) && (negb (m_dataDirty m) ||
    (now - m_lastPublishUs m <? publishIntervalUs m)) = true <-> ~ publish_due now force m) as Hdue.
  { unfold publish_due. destruct force, (m_stateDirty m), (m_dataDirty m); cbn;
      try (split; [done | intuition congruence]); destruct (Z.ltb_spec (now - m_lastPublishUs m) (publishIntervalUs m));
      split; intros; try done; intuition (congruence || lia). }
  destruct (negb force && _ && _) eqn:Eb.
  - injection E as <- <- <-. split; [done|]. intros H. by apply Hdue in H.
  - split; [intros H%Hdue; congruence|]. intros _. cbn -[buildStateJson ini_text] in E.
    set (m1 := m <| m_generation := m_generation m + 1 |>) in *.
    rewrite (u64_small (now - m_lastReadablePublishUs m)) in E by lia.
    destruct (m_stateDirty m || _ || _) eqn:Er; cbn -[buildStateJson ini_text] in E;
      injection E as <- <- <-; split_and!; try done; eexists _, _; (split; [reflexivity|]).
    + split; [|by eexists]. split; [done|]. intros (H1 & H2 & H3). exfalso.
      rewrite H1 in Er. apply orb_true_iff in Er as [Er%Z.eqb_eq | Er%Z.leb_le]; [done | lia].
    + apply orb_false_iff in Er as [[H1 H2%Z.eqb_neq]%orb_false_iff H3%Z.leb_gt].
      split; [done|]. congruence.
Qed.

