(* ===== verification/EventLoop.v ===== *)
(** * The event loop

    [Monitor::nextDeadline], [run] and the last part of [start] (monitor.cpp).  One round of the
    loop is a function of what the kernel delivers in it; a run is a sequence of rounds, between
    which the resolver's thread may change the resolver as it likes. *)

From S2P Require Import Prelude Util Health Pinger Resolver Monitor Probing Config Publish.

(** ** Operations *)

(** [std::min] over the deadlines, in the order of the code. *)
Definition prober_deadline (deadline : Z) (p : Prober) : Z :=
  let deadline :=
    match p_inFlight p with
    | front :: _ => Z.min deadline (f_deadlineUs front)
    | [] => deadline
    end in
  let deadline := Z.min deadline (p_nextSendUs p) in
  if negb (p_numeric p) && negb (p_resolving p) then Z.min deadline (p_nextResolveUs p)
  else deadline.

Definition nextDeadline (m : Monitor) : Z :=
  let deadline := fold_left prober_deadline (m_probers m) kNeverUs in
  let deadline :=
    if m_dataDirty m || m_stateDirty m then
      Z.min deadline (u64 (m_lastPublishUs m + publishIntervalUs m))
    else deadline in
  let deadline :=
    if negb (o_clientTimeoutUs (m_options m) =? 0) && negb (bool_decide (m_clients m = [])) then
      Z.min deadline (u64 (m_lastClientCheckUs m + clientCheckIntervalUs m))
    else deadline in
  if negb (o_idleExitUs (m_options m) =? 0) && negb (m_idleSinceUs m =? 0) then
    Z.min deadline (u64 (m_idleSinceUs m + o_idleExitUs (m_options m)))
  else deadline.

(** The timeout handed to [epoll_wait], in milliseconds; -1 waits for ever. *)
Definition epoll_timeout (deadline now : Z) : Z :=
  if deadline =? kNeverUs then -1
  else if deadline <=? now then 0
  else Z.min (u64 (deadline - now + 999) / 1000) 3600000.

(** What a ready descriptor is, and what reading it gives. *)
Inductive Ready :=
  | SignalReady (signals : list Z)
  | InotifyReady (events : list InotifyEvent)
  | ResolverReady
  | SocketReady.

Definition SIGHUP : Z := 1.

Definition handle_signal (m : Monitor) (signo : Z) : Monitor :=
  if signo =? SIGHUP then m <| m_configDirty := true |> else m <| m_running := false |>.

(** The loop over the ready descriptors; the flag is [socketReadable]. *)
Definition handle_ready (after : Z) (st : Monitor * bool) (ready : Ready) : Monitor * bool :=
  let '(m, readable) := st in
  match ready with
  | SignalReady signals => (fold_left handle_signal signals m, readable)
  | InotifyReady events => (handleInotify events m, readable)
  | ResolverReady => (handleResolutions after m, readable)
  | SocketReady => (m, true)
  end.

(** What the outside world does in one round: the readings of the clock, the descriptors that are
    ready, the datagrams on the sockets, and the files. *)
Record Round := mkRound {
  k_now : Z;
  k_after : Z;
  k_reload : Z;
  k_tick : Z;
  k_publish : Z;
  k_ready : list Ready;
  k_batches4 : list (list Datagram);
  k_batches6 : list (list Datagram);
  k_listing : Listing;
  k_load : str -> str -> option Client;
  k_mtime : str -> option Z
}.

Definition clientsDirPath (m : Monitor) : str := o_runtimeDir (m_options m) ++ lit "/clients".

(** The block after [dropExpiredClients]. *)
Definition update_idle (after : Z) (m : Monitor) : Monitor :=
  if bool_decide (m_probers m = []) then
    let m := if m_idleSinceUs m =? 0 then m <| m_idleSinceUs := after |> else m in
    if negb (o_idleExitUs (m_options m) =? 0)
       && (o_idleExitUs (m_options m) <=? u64 (after - m_idleSinceUs m))
    then m <| m_running := false |> else m
  else m <| m_idleSinceUs := 0 |>.

(** What a round did outside the monitor: how long it was ready to wait, the files it wrote, and
    the configuration files it removed. *)
Record Effects := mkEffects { x_timeout : Z; x_writes : list (str * str); x_removed : list str }.

Section EventLoop.
Context `{Libc}.

Definition ready_all (k : Round) (m : Monitor) : Monitor * bool :=
  fold_left (handle_ready (k_after k)) (k_ready k) (m, false).

Definition replies_if (readable : bool) (k : Round) (m : Monitor) (w : World) : Monitor * World :=
  if readable then handleReplies (k_after k) (k_batches4 k) (k_batches6 k) m w else (m, w).

Definition reload_if (k : Round) (m : Monitor) : Monitor :=
  if m_configDirty m
  then reloadClients (k_load k) (clientsDirPath m) (k_listing k) (k_reload k) m else m.

(** The loop body, from [epoll_wait] on. *)
Definition round (pid : Z) (k : Round) (m : Monitor) (w : World) : Monitor * World * Effects :=
  let timeout := epoll_timeout (nextDeadline m) (k_now k) in
  let '(m, readable) := ready_all k m in
  if negb (m_running m) then (m, w, mkEffects timeout [] [])
  else
    let '(m, w) := replies_if readable k m w in
    let m := reload_if k m in
    let '(m, w) := tick (k_tick k) m w in
    let '(m, w, removed) := dropExpiredClients (k_after k) (k_mtime k) m w in
    let m := update_idle (k_after k) m in
    let '(m, w, writes) := publish pid (k_publish k) false m w in
    (m, w, mkEffects timeout writes removed).

(** What [epoll_wait] can answer; an interrupted wait starts the loop over. *)
Inductive Waited := Interrupted | Broken | Woken (k : Round).

(** The loop and the [publish] after it, at [finish]: the exit code, when the daemon stops within
    these waits. *)
Fixpoint run_loop (pid finish : Z) (waits : list Waited) (m : Monitor) (w : World) :
    option Z * Monitor * World * list Effects :=
  if negb (m_running m) then
    let '(m, w, writes) := publish pid finish true m w in
    (Some 0, m, w, [mkEffects 0 writes []])
  else
    match waits with
    | [] => (None, m, w, [])
    | Interrupted :: waits => run_loop pid finish waits m w
    | Broken :: _ => (Some 1, m, w, [])
    | Woken k :: waits =>
        let '(m, w, effects) := round pid k m w in
        let '(code, m, w, rest) := run_loop pid finish waits m w in
        (code, m, w, effects :: rest)
    end.

Definition run (pid begin finish : Z) (waits : list Waited) (m : Monitor) (w : World) :
    option Z * Monitor * World * list Effects :=
  run_loop pid finish waits (m <| m_running := true |> <| m_idleSinceUs := begin |>) w.

(** What the calls of [start] answer; [g_round] has the configuration read and the clock. *)
Record Startup := mkStartup {
  g_mkdir : str -> option Errno;
  g_random : Z;
  g_dgram4 : SysCall; g_raw4 : SysCall;
  g_dgram6 : SysCall; g_raw6 : SysCall;
  g_epoll : SysCall;
  g_sigmask : bool;
  g_signalfd : SysCall;
  g_inotify : SysCall;
  g_round : Round
}.

(** [openSockets] and the assignments before it. *)
Definition opened (g : Startup) (startedReal : Z) (m : Monitor) : Monitor :=
  let '(socket4, (_, error4)) := open_socket AF_INET (g_dgram4 g) (g_raw4 g) in
  let '(socket6, (_, error6)) := open_socket AF_INET6 (g_dgram6 g) (g_raw6 g) in
  m <| m_startedRealUs := startedReal |> <| m_cookie := Z.lor (u32 (g_random g)) 1 |>
    <| m_socket4 := socket4 |> <| m_error4 := error4 |>
    <| m_socket6 := socket6 |> <| m_error6 := error6 |>.

(** [start]: the error text, or the state the daemon starts running from. *)
Definition start (pid : Z) (g : Startup) (m : Monitor) (w : World) :
    str + (Monitor * World * list (str * str)) :=
  let '(startedReal, w) := nowRealtimeUs w in
  if negb (fst (makeDirectories (g_mkdir g) (o_runtimeDir (m_options m)))
           && fst (makeDirectories (g_mkdir g) (clientsDirPath m)))
  then inl (lit "cannot create runtime directory " ++ o_runtimeDir (m_options m))
  else
    let m := opened g startedReal m in
    if ret (g_epoll g) <? 0 then inl (lit "epoll_create1: " ++ strerror (errno (g_epoll g)))
    else if negb (g_sigmask g) then inl (lit "pthread_sigmask failed")
    else if ret (g_signalfd g) <? 0 then inl (lit "signalfd: " ++ strerror (errno (g_signalfd g)))
    else if ret (g_inotify g) <? 0 then
      inl (lit "inotify_init1: " ++ strerror (errno (g_inotify g)))
    else
      let k := g_round g in
      let m := reloadClients (k_load k) (clientsDirPath m) (k_listing k) (k_reload k) m in
      let '(m, w, writes) := publish pid (k_publish k) true m w in
      inr (m, w, writes).

End EventLoop.
