(* ===== verification/Waking.v ===== *)
(** * Waking up and stopping

    When the event loop wakes up, and how it ends: before [nextDeadline] no part of a round would
    do anything ([acts]), from it on one does, unless a full queue holds a due prober back; the
    timeout rounds it up to a millisecond; and a signal to stop ends the daemon within the round. *)

From S2P Require Import Prelude Util Health Pinger Resolver Monitor Probing Ticking Replies.
From S2P Require Import Config Wiring Publish EventLoop.

(** ** Specification *)

(** The times that [nextDeadline] considers for a prober. *)
Definition prober_source (p : Prober) (d : Z) : Prop :=
  (exists f, head (p_inFlight p) = Some f /\ d = f_deadlineUs f) \/
  d = p_nextSendUs p \/
  (p_numeric p = false /\ p_resolving p = false /\ d = p_nextResolveUs p).

(** The times that [nextDeadline] considers. *)
Definition source (m : Monitor) (d : Z) : Prop :=
  (exists p, p ∈ m_probers m /\ prober_source p d) \/
  (m_dataDirty m || m_stateDirty m = true /\ d = u64 (m_lastPublishUs m + publishIntervalUs m)) \/
  (o_clientTimeoutUs (m_options m) <> 0 /\ m_clients m <> [] /\
   d = u64 (m_lastClientCheckUs m + clientCheckIntervalUs m)) \/
  (o_idleExitUs (m_options m) <> 0 /\ m_idleSinceUs m <> 0 /\
   d = u64 (m_idleSinceUs m + o_idleExitUs (m_options m))).

(** What the loop does by itself at [d], if it is not asleep: a tick sends, gives up on or looks up
    something, or something is published, or a configuration file may be old enough to go, or the
    daemon has been idle for long enough. *)
Definition acts `{Libc} (pid d : Z) (m : Monitor) : Prop :=
  (exists w, tick d m w <> (m, w)) \/
  (exists w, snd (publish pid d false m w) <> []) \/
  (exists mtime w, snd (dropExpiredClients d mtime m w) <> []) \/
  (m_running m = true /\ m_running (update_idle d m) = false).

(** The defect of [full_queue_spins]: a slot has come, but the queue is full. *)
Definition blocked (d : Z) (m : Monitor) : Prop :=
  exists p, p ∈ m_probers m /\ Z.of_nat (length (p_inFlight p)) = p_maxInFlight p /\
    Forall (fun f => ~ expired d f) (p_inFlight p) /\ p_nextSendUs p <= d.

(** The times the monitor remembers are past ones, and no option asks for more than 146000
    years. *)
Definition timely (now : Z) (m : Monitor) : Prop :=
  0 <= m_lastPublishUs m <= now /\ 0 <= m_lastClientCheckUs m <= now /\
  0 <= m_idleSinceUs m <= now /\ 0 <= o_publishIntervalUs (m_options m) < 2 ^ 62 /\
  0 <= o_clientTimeoutUs (m_options m) < 2 ^ 62 /\ 0 <= o_idleExitUs (m_options m) < 2 ^ 62.

(** What the rounds leave ([Daemon.round_settles]): no change of state that has not been published,
    and the idle time counted while there is no prober. *)
Record settled (now : Z) (m : Monitor) : Prop := {
  st_running : m_running m = true;
  st_probers : Forall (prober_ok now) (m_probers m);
  st_counters : Forall counters_ok (m_probers m);
  st_timely : timely now m;
  st_fastest : 0 <= m_minIntervalUs m < 2 ^ 62;
  st_published : m_stateDirty m = false;
  st_idle : m_idleSinceUs m <> 0 <-> m_probers m = []
}.

(** A signal other than SIGHUP is among what is ready. *)
Definition stop_signalled (ready : list Ready) : Prop :=
  exists signals signo, SignalReady signals ∈ ready /\ signo ∈ signals /\ signo <> SIGHUP.

(** ** Lemmas *)

(** [r] is the least of [bound] and the numbers [S] has. *)
Definition least (bound : Z) (S : Z -> Prop) (r : Z) : Prop :=
  r <= bound /\ (forall d, S d -> r <= d) /\ (r = bound \/ S r).

Lemma least_nothing (bound : Z) : least bound (fun _ => False) bound.
Proof. split_and!; [lia | done | by left]. Qed.

(** One more candidate. *)
Lemma least_min (bound r d : Z) (S : Z -> Prop) (b : bool) :
  least bound S r -> least bound (fun x => S x \/ (b = true /\ x = d)) (if b then Z.min r d else r).
Proof.
  intros (H1 & H2 & H3). destruct b.
  - split_and!; [lia | |].
    + intros x [Hx | [_ ->]]; [specialize (H2 x Hx)|]; lia.
    + destruct (Z.min_spec r d) as [[_ ->] | [_ ->]]; [|by right; right].
      destruct H3 as [->|]; [by left | by right; left].
  - split_and!; [done | | destruct H3; auto]. intros x [Hx | [? _]]; [by apply H2 | done].
Qed.

Lemma least_iff (bound r : Z) (S S' : Z -> Prop) :
  (forall d, S d <-> S' d) -> least bound S r -> least bound S' r.
Proof.
  intros E (H1 & H2 & H3). split_and!; [done | |].
  - intros d Hd. by apply H2, E.
  - rewrite E in H3. done.
Qed.

Lemma prober_deadline_least (bound r : Z) (S : Z -> Prop) (p : Prober) :
  least bound S r -> least bound (fun d => S d \/ prober_source p d) (prober_deadline r p).
Proof.
  intros H0.
  pose proof (least_min bound r (match p_inFlight p with f :: _ => f_deadlineUs f | [] => 0 end) S
    (match p_inFlight p with [] => false | _ => true end) H0) as H1.
  eapply (least_min _ _ (p_nextSendUs p) _ true) in H1.
  eapply (least_min _ _ (p_nextResolveUs p) _ (negb (p_numeric p) && negb (p_resolving p))) in H1.
  unfold prober_deadline.
  assert ((if match p_inFlight p with [] => false | _ => true end
           then Z.min r (match p_inFlight p with f :: _ => f_deadlineUs f | [] => 0 end) else r) =
          match p_inFlight p with f :: _ => Z.min r (f_deadlineUs f) | [] => r end) as E
    by (by destruct (p_inFlight p)).
  rewrite E in H1. eapply least_iff; [|exact H1]. intros d. cbn. unfold prober_source.
  rewrite andb_true_iff, !negb_true_iff. destruct (p_inFlight p) as [|f fl]; cbn; split.
  - intuition congruence.
  - intros [|[(f & ? & _)|[|]]]; intuition congruence.
  - intros [[[|[_ ->]]|]|]; [tauto | right; left; by exists f | tauto | tauto].
  - intros [|[(f' & [= <-] & ->)|[|]]]; tauto.
Qed.

Lemma probers_deadline_least (bound r : Z) (S : Z -> Prop) (ps : list Prober) :
  least bound S r ->
  least bound (fun d => S d \/ exists p, p ∈ ps /\ prober_source p d) (fold_left prober_deadline ps r).
Proof.
  revert S r; induction ps as [|p ps IH]; intros S r H0; cbn [fold_left].
  - eapply least_iff; [|exact H0]. intros d. split; [by left|].
    intros [|(p & ?%elem_of_nil & _)]; done.
  - eapply least_iff; [|apply IH, prober_deadline_least, H0]. intros d. cbn. split.
    + intros [[|]|(q & Hq & Hs)]; [by left | right; exists p | right; exists q];
        split; try done; [by left | by right].
    + intros [|(q & [->|Hq]%elem_of_cons & Hs)]; [tauto | tauto | right; by exists q].
Qed.

(** [nextDeadline] is the earliest of the times it considers. *)
Lemma nextDeadline_least (m : Monitor) : least kNeverUs (source m) (nextDeadline m).
Proof.
  pose proof (probers_deadline_least kNeverUs kNeverUs _ (m_probers m) (least_nothing kNeverUs)) as H1.
  eapply (least_min _ _ (u64 (m_lastPublishUs m + publishIntervalUs m)) _
    (m_dataDirty m || m_stateDirty m)) in H1.
  eapply (least_min _ _ (u64 (m_lastClientCheckUs m + clientCheckIntervalUs m)) _
    (negb (o_clientTimeoutUs (m_options m) =? 0) && negb (bool_decide (m_clients m = [])))) in H1.
  eapply (least_min _ _ (u64 (m_idleSinceUs m + o_idleExitUs (m_options m))) _
    (negb (o_idleExitUs (m_options m) =? 0) && negb (m_idleSinceUs m =? 0))) in H1.
  eapply least_iff; [|exact H1]. intros d. cbn. unfold source.
  rewrite !andb_true_iff, !negb_true_iff, !Z.eqb_neq, bool_decide_eq_false. tauto.
Qed.

(** The oldest probe in flight expires first. *)
Lemma oldest_deadline (t : Z) (p : Prober) (f : InFlight) :
  prober_ok t p -> f ∈ p_inFlight p ->
  exists g, head (p_inFlight p) = Some g /\ f_deadlineUs g <= f_deadlineUs f.
Proof.
  intros Hok Hf. pose proof (pok_times _ _ Hok) as Ht. pose proof (pok_deadlines _ _ Hok) as Hd.
  destruct (p_inFlight p) as [|g fl]; [by apply not_elem_of_nil in Hf|].
  exists g. split; [done|]. apply elem_of_cons in Hf as [->|Hf]; [lia|].
  apply StronglySorted_inv in Ht as [_ Ht]. rewrite Forall_forall in Ht. specialize (Ht f Hf).
  apply Forall_cons in Hd as [Hg Hd]. rewrite Forall_forall in Hd. specialize (Hd f Hf). cbn in *. lia.
Qed.

(** *** What a round does at a given time *)

Lemma update_idle_spec (after : Z) (m : Monitor) :
  let since := if bool_decide (m_probers m = []) then
                 if m_idleSinceUs m =? 0 then after else m_idleSinceUs m else 0 in
  m_idleSinceUs (update_idle after m) = since /\
  m_running (update_idle after m) =
    m_running m && negb (bool_decide (m_probers m = []) && negb (o_idleExitUs (m_options m) =? 0) &&
                         (o_idleExitUs (m_options m) <=? u64 (after - since))).
Proof.
  unfold update_idle. destruct (bool_decide _); cbn [andb negb]; [|by rewrite andb_true_r].
  destruct (m_idleSinceUs m =? 0) eqn:E; cbn -[u64];
    destruct (negb (o_idleExitUs (m_options m) =? 0)); cbn -[u64]; try by rewrite andb_true_r.
  all: destruct (_ <=? _); cbn; by rewrite ?andb_true_r, ?andb_false_r.
Qed.

Section Acting.
Context `{Libc}.

(** A tick does nothing for a prober that has nothing to do. *)
Lemma quiet_prober (now : Z) (p : Prober) (m : Monitor) (w : World) :
  clock_ok now -> Forall (fun f => ~ expired now f) (p_inFlight p) ->
  (Z.of_nat (length (p_inFlight p)) <? p_maxInFlight p) && (p_nextSendUs p <=? now + kSendSlackUs) = false ->
  lookup_due now p = false -> tickProber now p m w = (p, m, w).
Proof.
  unfold clock_ok. intros Hc Hexp Hsend Hres. unfold tickProber.
  assert (expire now (p_inFlight p) p m w = (p, m, w)) as ->.
  { destruct (p_inFlight p) as [|f fl]; [done|]. apply Forall_cons in Hexp as [Hf _].
    unfold expired in Hf. cbn [expire]. unfold kSendSlackUs in *. rewrite u64_small by lia.
    by rewrite (proj2 (Z.leb_gt _ _)) by lia. }
  unfold ask_resolver. unfold lookup_due in Hres. unfold kSendSlackUs in *.
  rewrite u64_small by lia. rewrite Hres. unfold send_due, kSendSlackUs. rewrite u64_small by lia.
  by rewrite Hsend.
Qed.

Lemma quiet_tick (now : Z) (m : Monitor) (w : World) :
  (forall p, p ∈ m_probers m -> tickProber now p m w = (p, m, w)) -> tick now m w = (m, w).
Proof.
  intros Hq. unfold tick.
  assert (tickProbers now (m_probers m) m w = (m_probers m, m, w)) as ->; [|by destruct m].
  induction (m_probers m) as [|p ps IH]; [done|]. cbn [tickProbers].
  rewrite (Hq p) by left. rewrite IH; [done|]. intros q Hin. apply Hq. by right.
Qed.

(** A prober that has something to do is not the same after a tick. *)
Lemma busy_tick (now : Z) (p : Prober) (m : Monitor) (w : World) :
  clock_ok now -> Forall (prober_ok now) (m_probers m) -> Forall counters_ok (m_probers m) ->
  p ∈ m_probers m ->
  Exists (expired now) (p_inFlight p) \/ due now p = true \/ lookup_due now p = true ->
  tick now m w <> (m, w).
Proof.
  intros Hc Hok Hcnt [i Hi]%list_elem_of_lookup Hbusy E.
  destruct (tick_spec now m m w w Hc Hok Hcnt E) as (Hall & _).
  destruct (Forall2_lookup_lr _ _ _ _ _ _ Hall Hi Hi) as [_ _ _ Hexp _ Hnext Hres].
  pose proof (proj1 (Forall_lookup _ _) Hok i p Hi) as Hp. cbn in Hp.
  destruct Hbusy as [Hx | [Hx | Hx]].
  - apply Exists_exists in Hx as (f & Hf & Hx). rewrite Forall_forall in Hexp. by apply (Hexp f Hf).
  - rewrite Hx in Hnext. pose proof (pok_interval _ _ Hp). pose proof (pok_next _ _ Hp).
    apply andb_true_iff in Hx as [_ Hx%Z.leb_le].
    destruct (next_send_range now p Hc) as [_ Hr]; [lia | lia | lia |]. lia.
  - rewrite Hx, orb_true_r in Hres. unfold lookup_due in Hx.
    by destruct (p_numeric p), (p_resolving p).
Qed.

Lemma publish_nothing (pid d : Z) (m : Monitor) (w : World) :
  m_stateDirty m = false ->
  (m_dataDirty m = true -> u64 (d - m_lastPublishUs m) < publishIntervalUs m) ->
  snd (publish pid d false m w) = [].
Proof.
  intros Hs Hd. unfold publish. rewrite Hs. cbn [negb andb].
  destruct (m_dataDirty m); [|done]. cbn [negb orb].
  by rewrite (proj2 (Z.ltb_lt _ _) (Hd eq_refl)).
Qed.

Lemma publish_something (pid d : Z) (m : Monitor) (w : World) :
  m_dataDirty m = true -> publishIntervalUs m <= u64 (d - m_lastPublishUs m) ->
  snd (publish pid d false m w) <> [].
Proof.
  intros Hd Hle. unfold publish. rewrite Hd. cbn [negb orb andb].
  rewrite (proj2 (Z.ltb_ge _ _) Hle), andb_false_r. cbn -[buildStateJson ini_text].
  by destruct (_ || _).
Qed.

Lemma check_interval_range (m : Monitor) : 0 < clientCheckIntervalUs m <= 60000000.
Proof. unfold clientCheckIntervalUs, kClientCheckIntervalUs. destruct (_ =? 0); lia. Qed.

(** The files are looked at, and there may be an old one. *)
Lemma check_something (d : Z) (m : Monitor) :
  o_clientTimeoutUs (m_options m) <> 0 -> 0 <= o_clientTimeoutUs (m_options m) < 2 ^ 62 ->
  m_clients m <> [] -> clientCheckIntervalUs m <= u64 (d - m_lastClientCheckUs m) ->
  exists mtime w, snd (dropExpiredClients d mtime m w) <> [].
Proof.
  intros Hne Hr Hcl Hle.
  set (timeout := o_clientTimeoutUs (m_options m)) in *.
  exists (fun _ => Some 0), (mkWorld (fun _ => timeout + 1) 0 (fun _ => mkSysCall 0 0 EINVAL) []).
  unfold dropExpiredClients. fold timeout.
  rewrite (proj2 (Z.eqb_neq timeout 0) Hne), (proj2 (Z.ltb_ge _ _) Hle). cbn -[stale timeout].
  fold timeout. destruct (m_clients m) as [|c cs]; [done|]. cbn [List.filter].
  assert (stale timeout (timeout + 1) (fun _ => Some 0) c = true) as ->; [|done].
  unfold stale. rewrite u64_small by lia.
  by rewrite (proj2 (Z.ltb_lt 0 _)), (proj2 (Z.ltb_lt timeout _)) by lia.
Qed.

Variables (pid now d : Z) (m : Monitor).
Hypotheses (Hnow : 0 <= now) (Hok : settled now m) (Hd : now <= d < 2 ^ 62).

Lemma later_probers : Forall (prober_ok d) (m_probers m).
Proof.
  apply (Forall_impl _ _ _ (st_probers _ _ Hok)). intros p. apply prober_ok_later. lia.
Qed.

Lemma idle_before_deadline : d + kSendSlackUs < nextDeadline m -> ~ acts pid d m.
Proof.
  intros Hlt. destruct (nextDeadline_least m) as (_ & Hle & _).
  assert (clock_ok d) as Hc by (unfold clock_ok; lia).
  destruct Hok as [Hrun Hprobers Hcnt (Hlast & Hchk & Hsince & Hpub & Hto & Hexit) Hfast Hs Hidle].
  assert (0 <= publishIntervalUs m < 2 ^ 62) as Hint by (unfold publishIntervalUs; lia).
  intros [(w & Hw) | [(w & Hw) | [(mtime & w & Hw) | (_ & Hw)]]].
  - apply Hw, quiet_tick. intros p Hp. apply quiet_prober; [done | | |].
    + apply Forall_forall. intros f Hf Hx.
      pose proof (proj1 (Forall_forall _ _) Hprobers p Hp) as Hpok. cbn in Hpok.
      destruct (oldest_deadline now p f Hpok Hf) as (g & Hg & Hgf).
      assert (nextDeadline m <= f_deadlineUs g)
        by (apply Hle; left; exists p; split; [done | left; by exists g]).
      unfold expired in Hx. lia.
    + assert (nextDeadline m <= p_nextSendUs p)
        by (apply Hle; left; exists p; split; [done | right; by left]).
      rewrite (proj2 (Z.leb_gt (p_nextSendUs p) _)) by lia. apply andb_false_r.
    + unfold lookup_due. destruct (p_numeric p) eqn:En, (p_resolving p) eqn:Er; try done.
      assert (nextDeadline m <= p_nextResolveUs p)
        by (apply Hle; left; exists p; split; [done | right; by right]).
      cbn [negb andb]. apply Z.leb_gt. lia.
  - apply Hw, publish_nothing; [done|]. intros Hdd.
    assert (nextDeadline m <= u64 (m_lastPublishUs m + publishIntervalUs m))
      by (apply Hle; right; left; by rewrite Hdd).
    unfold kSendSlackUs in *. rewrite u64_small in * by lia. lia.
  - apply Hw. unfold dropExpiredClients.
    destruct (Z.eqb_spec (o_clientTimeoutUs (m_options m)) 0) as [|Hne]; [done|]. cbn [orb].
    pose proof (check_interval_range m).
    destruct (decide (m_clients m = [])) as [E|Hcl].
    { destruct (_ <? _); [done|]. cbn. by rewrite E. }
    assert (nextDeadline m <= u64 (m_lastClientCheckUs m + clientCheckIntervalUs m))
      by (apply Hle; right; right; left; done).
    unfold kSendSlackUs in *. rewrite u64_small in * by lia.
    by rewrite (proj2 (Z.ltb_lt _ _)) by lia.
  - destruct (update_idle_spec d m) as [_ Er]. rewrite Er, Hrun in Hw. cbn [andb] in Hw.
    case_bool_decide as Hp; cbn [andb negb] in Hw; [|done].
    destruct (Z.eqb_spec (o_idleExitUs (m_options m)) 0) as [|Hne]; [done|]. cbn [andb negb] in Hw.
    pose proof (proj2 Hidle Hp) as Hne0. rewrite (proj2 (Z.eqb_neq _ 0) Hne0) in Hw.
    apply negb_false_iff, Z.leb_le in Hw.
    assert (nextDeadline m <= u64 (m_idleSinceUs m + o_idleExitUs (m_options m)))
      by (apply Hle; right; right; right; done).
    unfold kSendSlackUs in *. rewrite u64_small in * by lia. lia.
Qed.

Lemma acts_from_deadline : nextDeadline m <= d -> acts pid d m \/ blocked d m.
Proof.
  intros Hle. destruct (nextDeadline_least m) as (_ & _ & Hsrc).
  assert (clock_ok d) as Hc by (unfold clock_ok; lia). pose proof later_probers as Hprobers.
  destruct Hok as [Hrun _ Hcnt (Hlast & Hchk & Hsince & Hpub & Hto & Hexit) Hfast Hs Hidle].
  assert (0 <= publishIntervalUs m < 2 ^ 62) as Hint by (unfold publishIntervalUs; lia).
  set (w := mkWorld (fun _ => 0) 0 (fun _ => mkSysCall 0 0 EINVAL) []).
  assert (forall p, p ∈ m_probers m -> Exists (expired d) (p_inFlight p) \/ due d p = true \/
    lookup_due d p = true -> acts pid d m) as Hbusy
    by (intros p Hp Hx; left; exists w; by eapply busy_tick).
  destruct Hsrc as [E | [(p & Hp & Hps) | [(Hdd & E) | [(Hne & Hcl & E) | (Hne & Hne0 & E)]]]].
  - exfalso. unfold kNeverUs, u64_max in E. lia.
  - destruct Hps as [(f & Hf & E) | [E | (En & Er & E)]].
    + left. apply (Hbusy p Hp). left. apply Exists_exists. exists f.
      split; [by apply head_Some_elem_of|]. unfold expired, kSendSlackUs. lia.
    + destruct (due d p) eqn:Edue; [left; apply (Hbusy p Hp); auto|].
      destruct (decide (Forall (fun f => ~ expired d f) (p_inFlight p))) as [Hall|Hn].
      * right. exists p. split_and!; [done | | done | lia].
        unfold due, unexpired in Edue. rewrite filter_all in Edue by done.
        apply andb_false_iff in Edue as [Hf%Z.ltb_ge | Hf%Z.leb_gt]; [|unfold kSendSlackUs in *; lia].
        pose proof (pok_room _ _ (proj1 (Forall_forall _ _) Hprobers p Hp)). lia.
      * left. apply (Hbusy p Hp). left. apply not_Forall_Exists in Hn; [|apply _].
        apply (Exists_impl _ _ _ Hn). intros f Hf. destruct (decide (expired d f)); [done|].
        by exfalso; apply Hf.
    + left. apply (Hbusy p Hp). right; right. unfold lookup_due. rewrite En, Er. cbn [negb andb].
      apply Z.leb_le. unfold kSendSlackUs. lia.
  - left. right; left. exists w. rewrite Hs, orb_false_r in Hdd. apply publish_something; [done|].
    rewrite u64_small in E by lia. rewrite u64_small by lia. lia.
  - left. right; right; left. pose proof (check_interval_range m).
    apply check_something; [done | lia | done |].
    rewrite u64_small in E by lia. rewrite u64_small by lia. lia.
  - left. right; right; right. split; [done|]. destruct (update_idle_spec d m) as [_ Er].
    rewrite Er, Hrun. cbn [andb]. rewrite bool_decide_true by by apply Hidle.
    rewrite (proj2 (Z.eqb_neq _ 0) Hne), (proj2 (Z.eqb_neq _ 0) Hne0). cbn [andb negb].
    apply negb_false_iff, Z.leb_le. rewrite u64_small in E by lia. rewrite u64_small by lia. lia.
Qed.
End Acting.

(** *** A full queue *)

(** Nothing is due for a prober whose queue is full, whose oldest probe has time left and whose
    host need not be resolved: a tick leaves it alone. *)
Lemma full_queue_tick `{Libc} (now : Z) (p : Prober) (m : Monitor) (w : World) :
  clock_ok now -> Z.of_nat (length (p_inFlight p)) = p_maxInFlight p ->
  Forall (fun f => ~ expired now f) (p_inFlight p) -> lookup_due now p = false ->
  tickProber now p m w = (p, m, w).
Proof.
  intros Hc Hfull Hexp Hres. apply quiet_prober; [done | done | | done].
  by rewrite Hfull, Z.ltb_irrefl.
Qed.

(** *** Stopping *)

Lemma handle_signal_stops (signals : list Z) (m : Monitor) :
  m_running (fold_left handle_signal signals m) =
  m_running m && forallb (fun s => s =? SIGHUP) signals.
Proof.
  revert m; induction signals as [|s signals IH]; intros m; cbn [fold_left forallb];
    [by rewrite andb_true_r|].
  rewrite IH. unfold handle_signal. destruct (s =? SIGHUP); [done|]. cbn. by rewrite andb_false_r.
Qed.

Lemma handleResolutions_running (now : Z) (m : Monitor) :
  m_running (handleResolutions now m) = m_running m /\ m_clients (handleResolutions now m) = m_clients m.
Proof.
  unfold handleResolutions. destruct (collect (m_resolver m)) as [results r].
  assert (forall m, m_running (fold_left (handleResolution now) results m) = m_running m /\
    m_clients (fold_left (handleResolution now) results m) = m_clients m) as Hall;
    [|set (m1 := m <| m_resolver := r |>); exact (Hall m1)].
  induction results as [|x results IH]; intros m0; [done|]. cbn [fold_left].
  destruct (IH (handleResolution now m0 x)) as [-> ->]. unfold handleResolution.
  destruct (m_proberByUid m0 !! x_uid x) as [i|]; [|done]. destruct (m_probers m0 !! i); [|done].
  by destruct (resolved now x p).
Qed.

(** A round with a signal to stop ends with the daemon told to stop, its clients untouched. *)
Lemma ready_all_stops (k : Round) (m : Monitor) :
  m_clients (fst (ready_all k m)) = m_clients m /\
  (stop_signalled (k_ready k) -> m_running (fst (ready_all k m)) = false).
Proof.
  unfold ready_all.
  enough (forall ready m b,
    m_clients (fst (fold_left (handle_ready (k_after k)) ready (m, b))) = m_clients m /\
    (m_running m = false \/ stop_signalled ready ->
     m_running (fst (fold_left (handle_ready (k_after k)) ready (m, b))) = false)) as Hall.
  { destruct (Hall (k_ready k) m false) as [H1 H2].
    split; [done | intros Hs; apply H2; by right]. }
  clear m. induction ready as [|r ready IH]; intros m b.
  { split; [done|]. intros [Hr | (? & ? & ?%elem_of_nil & _)]; done. }
  cbn [fold_left]. destruct (handle_ready (k_after k) (m, b) r) as [m1 b1] eqn:E.
  destruct (IH m1 b1) as [H1 H2].
  assert (m_clients m1 = m_clients m /\
    (m_running m1 = m_running m \/ exists signals, r = SignalReady signals /\
       m_running m1 = m_running m && forallb (fun s => s =? SIGHUP) signals)) as [Hc Hr].
  { destruct r as [signals|events| |]; cbn [handle_ready] in E; injection E as <- <-; auto.
    - split; [|right; exists signals; split; [done | apply handle_signal_stops]].
      revert m H1 H2. induction signals as [|s signals IHs]; intros m _ _; [done|]. cbn [fold_left].
      rewrite IHs; [unfold handle_signal; by destruct (s =? SIGHUP) | apply IH..].
    - destruct (handleResolutions_running (k_after k) m) as [-> ->]. auto. }
  split; [congruence|]. intros Hs. apply H2.
  destruct Hr as [Hr | (signals & -> & Hr)].
  - destruct Hs as [Hs | (signals & s & [<-|Hin]%elem_of_cons & Hin' & Hne)].
    + left. congruence.
    + cbn [handle_ready] in E. injection E as <- <-. left. rewrite handle_signal_stops.
      apply andb_false_iff. right. apply not_true_iff_false. intros Hall.
      rewrite forallb_forall in Hall. apply Hne, Z.eqb_eq, Hall. by apply list_elem_of_In.
    + right. by exists signals, s.
  - destruct Hs as [Hs | (signals' & s & [[= ->]|Hin]%elem_of_cons & Hin' & Hne)].
    + left. by rewrite Hr, Hs.
    + left. rewrite Hr. apply andb_false_iff. right. apply not_true_iff_false. intros Hall.
      rewrite forallb_forall in Hall. apply Hne, Z.eqb_eq, Hall. by apply list_elem_of_In.
    + right. by exists signals', s.
Qed.

(** What [publish] does when it is forced. *)
Lemma forced_publish (pid now : Z) (m m' : Monitor) (w w' : World) (writes : list (str * str)) :
  publish pid now true m w = (m', w', writes) ->
  m_clients m' = m_clients m /\ m_running m' = m_running m /\ w_packets w' = w_packets w /\
  exists realNow readable, writes =
    (stateIniPath m, ini_text (u64 (m_generation m + 1)) (buildStateJson pid realNow now false
       (m <| m_generation := u64 (m_generation m + 1) |>))) :: readable.
Proof.
  unfold publish. cbn -[buildStateJson ini_text].
  destruct (_ || _); cbn -[buildStateJson ini_text]; intros [= <- <- <-];
    (split_and!; [done..|]; eexists _, _; reflexivity).
Qed.

(** ** Properties *)


(** C28: a signal other than SIGHUP stops the daemon in the round it arrives in, whatever else has
    happened: no probe is sent any more and no file is removed, the state is published one last
    time under a new generation, and the exit code is 0. *)
Theorem stop_is_prompt `{Libc} (pid finish : Z) (k : Round) (waits : list Waited) (m : Monitor)
    (w : World) :
  m_running m = true -> stop_signalled (k_ready k) ->
  let m1 := fst (ready_all k m) in
  m_clients m1 = m_clients m /\
  exists m' w' timeout realNow readable,
    run_loop pid finish (Woken k :: waits) m w =
      (Some 0, m', w',
       [mkEffects timeout [] [];
        mkEffects 0 ((stateIniPath m1, ini_text (u64 (m_generation m1 + 1))
           (buildStateJson pid realNow finish false
              (m1 <| m_generation := u64 (m_generation m1 + 1) |>))) :: readable) []]) /\
    w_packets w' = w_packets w /\ m_clients m' = m_clients m /\ m_running m' = false.
Proof.
  intros Hr Hs. cbv zeta. destruct (ready_all_stops k m) as [Hc Hstop]. specialize (Hstop Hs).
  split; [done|]. cbn [run_loop]. rewrite Hr. cbn [negb]. unfold round.
  destruct (ready_all k m) as [m1 readable] eqn:E. cbn [fst] in *. rewrite Hstop. cbn [negb].
  destruct (publish pid finish true m1 w) as [[m' w'] writes] eqn:Ep.
  pose proof Ep as (E1 & E2 & E3 & realNow & text & E4)%forced_publish.
  exists m', w', (epoll_timeout (nextDeadline m) (k_now k)), realNow, text.
  split_and!; [ | done | congruence | congruence].
  assert (run_loop pid finish waits m1 w = (Some 0, m', w', [mkEffects 0 writes []])) as ->
    by (destruct waits as [|[]]; cbn [run_loop]; rewrite Hstop; cbn [negb]; by rewrite Ep).
  by rewrite E4.
Qed.

(** C40: what is not as it should be: a full queue keeps the loop spinning.  While a prober has as
    many probes in flight as it may have, none of them expired, and its next slot has come, there
    is nothing a tick does for it - and yet the timeout handed to the kernel is 0, round after
    round. *)
Theorem full_queue_spins `{Libc} (now : Z) (p : Prober) (m : Monitor) (w : World) :
  clock_ok now -> prober_ok now p -> p ∈ m_probers m ->
  Z.of_nat (length (p_inFlight p)) = p_maxInFlight p ->
  Forall (fun f => ~ expired now f) (p_inFlight p) -> lookup_due now p = false ->
  p_nextSendUs p <= now ->
  tickProber now p m w = (p, m, w) /\ epoll_timeout (nextDeadline m) now = 0.
Proof.
  intros Hc Hok Hp Hfull Hexp Hres Hs. split; [by apply full_queue_tick|].
  destruct (nextDeadline_least m) as (_ & Hle & _). specialize (Hle (p_nextSendUs p)).
  assert (nextDeadline m <= p_nextSendUs p)
    by (apply Hle; left; exists p; split; [done | by right; left]).
  unfold epoll_timeout, kNeverUs, u64_max, clock_ok in *.
  rewrite (proj2 (Z.eqb_neq _ _)), (proj2 (Z.leb_le _ _)) by lia. done.
Qed.
