(* ===== verification/Idle.v ===== *)
(** * Stopping for want of work

    What ends a run of the event loop: a signal, or having had no prober for the time given with
    --idle-exit.  [running] is a run of [round]s with the history of which of them ended without a
    prober; [update_idle] keeps one number of that history, and that number is enough. *)

From S2P Require Import Prelude Util Health Pinger Resolver Monitor Probing Ticking Replies.
From S2P Require Import Config Wiring Publish EventLoop Waking.

(** ** Specification *)

(** A round that has ended: when it handled its events, and whether it left no prober. *)
Definition Past : Type := Z * bool.

(** Since [a] there has been no prober: [a] is the time of a round, or the start of the run, and
    that round and all later ones left none. *)
Definition idle_from (begin : Z) (history : list Past) (a : Z) : Prop :=
  (a = begin /\ Forall (fun h => snd h = true) history) \/
  exists before later, history = before ++ (a, true) :: later /\
    Forall (fun h => snd h = true) later.

(** What ended in a round. *)
Definition past (k : Round) (m' : Monitor) : Past := (k_after k, bool_decide (m_probers m' = [])).

Section Running.
Context `{Libc}.
Variables (pid begin : Z).

(** The loop, round after round, and the thread of the resolver in between. *)
Inductive running : Z -> list Past -> Monitor -> World -> Prop :=
  | running_start m w :
      running begin [] (m <| m_running := true |> <| m_idleSinceUs := begin |>) w
  | running_resolver t h m w r : running t h m w -> running t h (m <| m_resolver := r |>) w
  | running_round t h m w k m' w' e :
      running t h m w -> t <= k_after k < 2 ^ 63 -> ~ stop_signalled (k_ready k) ->
      m_running m = true -> round pid k m w = (m', w', e) ->
      running (k_after k) (h ++ [past k m']) m' w'.
End Running.

(** The part of the state that says whether to go on. *)
Definition same_life (m m' : Monitor) : Prop :=
  m_running m' = m_running m /\ m_idleSinceUs m' = m_idleSinceUs m /\ m_options m' = m_options m.

#[export] Instance same_life_preorder : PreOrder same_life.
Proof. split; [done|]. unfold same_life. intros m1 m2 m3. intuition congruence. Qed.

(** And what it remembers of the last publication and the last check of the files. *)
Definition same_record (m m' : Monitor) : Prop :=
  same_life m m' /\ m_lastPublishUs m' = m_lastPublishUs m /\
  m_lastClientCheckUs m' = m_lastClientCheckUs m.

#[export] Instance same_record_preorder : PreOrder same_record.
Proof. split; [done|]. unfold same_record, same_life. intros m1 m2 m3. intuition congruence. Qed.

(** [m_idleSinceUs] against the history: 0 when the daemon is not idle, or else the earliest time
    since which it is. *)
Definition remembers (begin : Z) (h : list Past) (since : Z) : Prop :=
  if since =? 0 then forall a, ~ idle_from begin h a
  else idle_from begin h since /\ forall a, idle_from begin h a -> since <= a.

(** The times of a history are between its start and its end. *)
Definition within (begin t : Z) (h : list Past) : Prop :=
  forall a, idle_from begin h a -> begin <= a <= t.

(** ** Lemmas *)

(** *** The history *)

Lemma idle_from_snoc (begin : Z) (h : list Past) (after a : Z) (idle : bool) :
  idle_from begin (h ++ [(after, idle)]) a <-> idle = true /\ (idle_from begin h a \/ a = after).
Proof.
  split.
  - intros [[-> Hall] | (before & later & E & Hall)].
    + apply Forall_app in Hall as [Hall [Hlast _]%Forall_cons]. split; [exact Hlast|]. by left; left.
    + destruct later as [|x later _] using rev_ind.
      * apply app_inj_tail in E as [-> [= -> ->]]. auto.
      * change ((a, true) :: later ++ [x]) with (((a, true) :: later) ++ [x]) in E.
        rewrite (assoc_L (++)) in E. apply app_inj_tail in E as [-> <-].
        apply Forall_app in Hall as [Hall [Hlast _]%Forall_cons]. split; [exact Hlast|].
        left. right. by exists before, later.
  - intros [-> [[[-> Hall] | (before & later & -> & Hall)] | ->]].
    + left. split; [done|]. apply Forall_app. split; [done | by apply Forall_singleton].
    + right. exists before, (later ++ [(after, true)]). rewrite <- (assoc_L (++)). split; [done|].
      apply Forall_app. split; [done | by apply Forall_singleton].
    + right. exists h, []. done.
Qed.

Lemma within_snoc (begin t after : Z) (h : list Past) (idle : bool) :
  begin <= t <= after -> within begin t h -> within begin after (h ++ [(after, idle)]).
Proof. intros Ht Hw a [_ [Ha%Hw | ->]]%idle_from_snoc; lia. Qed.

Lemma remembers_snoc (begin t after since : Z) (h : list Past) (idle : bool) :
  0 < begin <= t -> t <= after -> within begin t h -> remembers begin h since ->
  remembers begin (h ++ [(after, idle)])
    (if idle then if since =? 0 then after else since else 0).
Proof.
  intros Hb Ht Hw Hr. unfold remembers in *. destruct idle.
  - destruct (Z.eqb_spec since 0) as [->|Hne].
    + rewrite (proj2 (Z.eqb_neq after 0)) by lia. split; [apply idle_from_snoc; auto|].
      intros a [_ [Ha | ->]]%idle_from_snoc; [by apply Hr in Ha | lia].
    + rewrite (proj2 (Z.eqb_neq since 0)) by done. destruct Hr as [Hr Hle].
      split; [apply idle_from_snoc; auto|].
      intros a [_ [Ha | ->]]%idle_from_snoc; [by apply Hle|]. apply Hw in Hr. lia.
  - cbn. intros a [? _]%idle_from_snoc. done.
Qed.

(** *** Who decides *)

Lemma frame_record (m m' : Monitor) : same_frame m m' -> same_record m m'.
Proof. intros [E _]. unfold same_record, same_life. rewrite E. by cbn. Qed.

Section Life.
Context `{Libc}.

Lemma applySample_record (p p' : Prober) (b : bool) (rtt : Z) (m m' : Monitor) (w w' : World) :
  applySample p b rtt m w = (p', m', w') -> same_record m m'.
Proof. intros (_ & Hf & _)%applySample_frame. by apply frame_record. Qed.

Lemma expire_record (now : Z) (fl : list InFlight) (p p' : Prober) (m m' : Monitor) (w w' : World) :
  expire now fl p m w = (p', m', w') -> same_record m m'.
Proof.
  revert p m w; induction fl as [|f fl IH]; intros p m w; cbn [expire]; [by intros [= _ <- _]|].
  destruct (_ <=? _); [|by intros [= _ <- _]].
  destruct (applySample _ _ _ _ _) as [[p1 m1] w1] eqn:E. intros Ht.
  etrans; [by eapply applySample_record | by eapply IH].
Qed.

Lemma sendProbe_record (now : Z) (p p' : Prober) (m m' : Monitor) (w w' : World) :
  sendProbe p now m w = (p', m', w') -> same_record m m'.
Proof.
  unfold sendProbe. destruct (_ || _); [by apply applySample_record|].
  destruct (send _ _ _ _ _ _) as [packet [[] err]];
    [by intros [= _ <- _] | by apply applySample_record..].
Qed.

Lemma tickProbers_record (now : Z) (ps ps' : list Prober) (m m' : Monitor) (w w' : World) :
  tickProbers now ps m w = (ps', m', w') -> same_record m m'.
Proof.
  revert ps' m w w'; induction ps as [|p ps IH]; intros ps' m w w'; cbn [tickProbers];
    [by intros [= _ <- _]|].
  destruct (tickProber now p m w) as [[p1 m1] w1] eqn:Ep.
  destruct (tickProbers now ps m1 w1) as [[ps1 m2] w2] eqn:Eps. intros [= _ <- _].
  etrans; [clear Eps | by eapply IH]. unfold tickProber in Ep.
  destruct (expire _ _ _ _ _) as [[p2 m3] w3] eqn:Ee. etrans; [by eapply expire_record|].
  destruct (ask_resolver now p2 m3) as [p3 m4] eqn:Ea.
  transitivity m4; [unfold ask_resolver in Ea; destruct (_ && _); by injection Ea as <- <-|].
  destruct (send_due now p3); [|by injection Ep as _ <- _].
  destruct (sendProbe p3 now m4 w3) as [[p4 m5] w4] eqn:Es. injection Ep as _ <- _.
  by eapply sendProbe_record.
Qed.

Lemma tick_record (now : Z) (m m' : Monitor) (w w' : World) :
  tick now m w = (m', w') -> same_record m m'.
Proof.
  unfold tick. destruct (tickProbers _ _ _ _) as [[ps m1] w1] eqn:E. intros [= <- _].
  by apply tickProbers_record in E.
Qed.

Lemma handleReplyList_record (now : Z) (replies : list Reply) (m m' : Monitor) (w w' : World) :
  handleReplyList now replies m w = (m', w') -> same_record m m'.
Proof.
  revert m w; induction replies as [|r replies IH]; intros m w; cbn [handleReplyList];
    [by intros [= <- _]|].
  destruct (handleReply now r m w) as [m1 w1] eqn:Er. intros Ht. etrans; [|by eapply IH].
  revert Er. unfold handleReply. destruct (m_proberByUid m !! r_uid r) as [i|]; [|by intros [= <- _]].
  destruct (m_probers m !! i) as [p|]; [|by intros [= <- _]].
  destruct (list_find _ _) as [[j g]|]; [|by intros [= <- _]].
  destruct (negb _); [by intros [= <- _]|].
  destruct (applySample _ _ _ _ _) as [[p2 m2] w2] eqn:E. intros [= <- _].
  by apply applySample_record in E.
Qed.

Lemma handleResolutions_record (now : Z) (m : Monitor) : same_record m (handleResolutions now m).
Proof.
  unfold handleResolutions. destruct (collect (m_resolver m)) as [results r].
  transitivity (m <| m_resolver := r |>); [done|]. generalize (m <| m_resolver := r |>) as m0.
  induction results as [|x results IH]; intros m0; [done|]. cbn [fold_left].
  etrans; [|apply IH]. unfold handleResolution.
  destruct (m_proberByUid m0 !! x_uid x) as [i|]; [|done]. destruct (m_probers m0 !! i); [|done].
  by destruct (resolved now x p).
Qed.

(** Without a signal to stop, the descriptors that are ready do not end the daemon. *)
Lemma ready_record (k : Round) (m : Monitor) :
  ~ stop_signalled (k_ready k) -> same_record m (fst (ready_all k m)).
Proof.
  unfold ready_all. generalize false. revert m.
  induction (k_ready k) as [|r rs IH]; intros m b Hn; [done|]. cbn [fold_left].
  destruct (handle_ready (k_after k) (m, b) r) as [m1 b1] eqn:E.
  etrans; [|apply IH; intros (ss & s & Hs & ?); apply Hn; exists ss, s; split; [by right | done]].
  destruct r as [signals|events| |]; cbn [handle_ready] in E; injection E as <- <-;
    [|done | apply handleResolutions_record | done].
  assert (Forall (fun s => s = SIGHUP) signals) as Hall.
  { apply Forall_forall. intros s Hs. destruct (decide (s = SIGHUP)); [done|].
    exfalso. apply Hn. exists signals, s. split; [by left | done]. }
  clear Hn. revert m. induction Hall as [|s signals -> _ IHs]; intros m; [done|]. cbn [fold_left].
  etrans; [|apply IHs]. done.
Qed.

Lemma reload_record (k : Round) (m : Monitor) : same_record m (reload_if k m).
Proof.
  unfold reload_if. destruct (m_configDirty m); [|done].
  unfold reloadClients. by destruct (k_listing k).
Qed.

Lemma publish_life (pid now : Z) (force : bool) (m m' : Monitor) (w w' : World)
    (writes : list (str * str)) :
  publish pid now force m w = (m', w', writes) -> same_life m m' /\ m_probers m' = m_probers m.
Proof.
  unfold publish. destruct (_ && _); [by intros [= <- _ _]|]. cbn -[buildStateJson ini_text].
  destruct (_ || _); cbn -[buildStateJson ini_text]; by intros [= <- _ _].
Qed.

Lemma drop_life (now : Z) (mtime : str -> option Z) (m m' : Monitor) (w w' : World) (l : list str) :
  dropExpiredClients now mtime m w = (m', w', l) -> same_life m m'.
Proof. unfold dropExpiredClients. destruct (_ || _); [by intros [= <- _ _]|]. by intros [= <- _ _]. Qed.

(** A round without a signal to stop: all that matters comes at its end. *)
Lemma round_end (pid : Z) (k : Round) (m m' : Monitor) (w w' : World) (e : Effects) :
  m_running m = true -> ~ stop_signalled (k_ready k) -> round pid k m w = (m', w', e) ->
  exists m1 w1 m2 w2 removed writes, same_record m m1 /\
    dropExpiredClients (k_after k) (k_mtime k) m1 w1 = (m2, w2, removed) /\
    publish pid (k_publish k) false (update_idle (k_after k) m2) w2 = (m', w', writes).
Proof.
  intros Hrun Hn. pose proof (ready_record k m Hn) as L1. unfold round.
  destruct (ready_all k m) as [m1 readable]. cbn [fst] in L1.
  assert (m_running m1 = true) as -> by (destruct L1 as [[-> _] _]; done). cbn [negb].
  destruct (replies_if readable k m1 w) as [m2 w2] eqn:E2.
  assert (same_record m1 m2) as L2.
  { unfold replies_if in E2. destruct readable; [|by injection E2 as <- _].
    unfold handleReplies in E2. destruct (receive _ _ _ _) as [? r4].
    destruct (receive _ _ _ r4) as [? r6]. by eapply handleReplyList_record. }
  pose proof (reload_record k m2) as L3.
  destruct (tick _ _ w2) as [m4 w4] eqn:E4. apply tick_record in E4 as L4.
  destruct (dropExpiredClients _ _ m4 w4) as [[m5 w5] removed] eqn:E5.
  destruct (publish _ _ _ _ _) as [[m6 w6] writes] eqn:E6. intros [= <- <- _].
  exists m4, w4, m5, w5, removed, writes. split_and!; [|done..].
  etrans; [exact L1|]. etrans; [exact L2|]. by etrans.
Qed.

Lemma update_idle_probers (after : Z) (m : Monitor) : m_probers (update_idle after m) = m_probers m.
Proof.
  unfold update_idle. destruct (bool_decide _); [|done].
  destruct (m_idleSinceUs m =? 0); by destruct (_ && _).
Qed.

Lemma round_life (pid : Z) (k : Round) (m m' : Monitor) (w w' : World) (e : Effects) :
  m_running m = true -> ~ stop_signalled (k_ready k) -> round pid k m w = (m', w', e) ->
  exists m1, same_life m m1 /\ m_probers m' = m_probers m1 /\ same_life (update_idle (k_after k) m1) m'.
Proof.
  intros Hrun Hn Hr.
  destruct (round_end pid k m m' w w' e Hrun Hn Hr) as (m1 & w1 & m2 & w2 & removed & writes & L & E5 & E6).
  apply drop_life in E5. apply publish_life in E6 as [L6 P6]. exists m2.
  split_and!; [etrans; [apply L | done] | by rewrite P6, update_idle_probers | done].
Qed.

Lemma running_remembers (pid begin t : Z) (h : list Past) (m : Monitor) (w : World) :
  0 < begin -> running pid begin t h m w ->
  begin <= t /\ within begin t h /\ remembers begin h (m_idleSinceUs m).
Proof.
  intros Hb. induction 1 as [m w | t h m w r _ IH | t h m w k m' w' e _ (Ht & Hw & Hr) Hk Hn Hrun Hround].
  - split_and!; [lia | |].
    + intros a [[-> _] | (before & later & E & _)]; [lia | by destruct before].
    + unfold remembers. cbn. rewrite (proj2 (Z.eqb_neq begin 0)) by lia.
      split; [left; split; constructor|].
      intros a [[-> _] | (before & later & E & _)]; [lia | by destruct before].
  - exact IH.
  - destruct (round_life pid k m m' w w' e Hrun Hn Hround) as (m1 & (_ & E1 & _) & Ep & _ & E2 & _).
    destruct (update_idle_spec (k_after k) m1) as [Es _].
    split_and!; [lia | apply (within_snoc _ t); [lia | done] |].
    rewrite E2, Es, E1, <- Ep. 
    exact (remembers_snoc begin t (k_after k) _ h _ ltac:(lia) ltac:(lia) Hw Hr).
Qed.

(** ** Properties *)

(** C29: the daemon stops of its own accord when it has been idle for the time given with
    --idle-exit, and only then.  In any run of the event loop, a round in which no signal says so
    ends the daemon exactly if --idle-exit is set and there is a round, or the start, at least that
    long ago since which no round has left a prober - however often probers came and went
    before. *)
Theorem idle_exit (pid begin t : Z) (h : list Past) (k : Round) (m m' : Monitor) (w w' : World)
    (e : Effects) :
  0 < begin -> running pid begin t h m w -> t <= k_after k < 2 ^ 63 ->
  ~ stop_signalled (k_ready k) -> m_running m = true -> 0 <= o_idleExitUs (m_options m) ->
  round pid k m w = (m', w', e) ->
  m_running m' = false <->
  o_idleExitUs (m_options m) <> 0 /\
  exists a, idle_from begin (h ++ [past k m']) a /\ a + o_idleExitUs (m_options m) <= k_after k.
Proof.
  intros Hb Hh Hk Hn Hrun Ho Hround.
  destruct (running_remembers pid begin t h m w Hb Hh) as (Ht & Hw & Hr).
  destruct (round_life pid k m m' w w' e Hrun Hn Hround)
    as (m1 & (L1 & L2 & L3) & Ep & R1 & _ & _).
  destruct (update_idle_spec (k_after k) m1) as [_ Er]. rewrite R1, Er, L1, L2, L3, Hrun, <- Ep.
  pose proof (remembers_snoc begin t (k_after k) (m_idleSinceUs m) h (bool_decide (m_probers m' = []))
    ltac:(lia) ltac:(lia) Hw Hr) as Hr'.
  pose proof (within_snoc begin t (k_after k) h (bool_decide (m_probers m' = [])) ltac:(lia) Hw) as Hw'.
  fold (past k m') in Hr', Hw'. revert Hr' Hw'. unfold remembers, within.
  set (idle := bool_decide _). set (exit := o_idleExitUs (m_options m)) in *.
  set (since := if idle then _ else 0). intros Hr' Hw'.
  assert (idle = false -> forall a, ~ idle_from begin (h ++ [past k m']) a) as Hbusy
    by (intros Hi a [Hi' _]%idle_from_snoc; unfold idle in Hi; congruence).
  destruct idle eqn:Ei; cbn [andb negb].
  2: { split; [done|]. intros (_ & a & Ha & _). by apply Hbusy in Ha. }
  assert (since <> 0) as Hne by (unfold since; destruct (Z.eqb_spec (m_idleSinceUs m) 0); lia).
  rewrite (proj2 (Z.eqb_neq since 0) Hne) in Hr'. destruct Hr' as [Hs Hle].
  specialize (Hw' since Hs). rewrite u64_small by lia.
  destruct (Z.eqb_spec exit 0) as [->|Hx]; cbn [andb negb]; [split; [done | by intros []]|].
  destruct (Z.leb_spec exit (k_after k - since)); cbn [negb]; split; try done.
  - intros _. split; [done|]. exists since. split; [done | lia].
  - intros (_ & a & Ha & Hax). specialize (Hle a Ha). lia.
Qed.
End Life.
