(* ===== verification/Daemon.v ===== *)
(** * The whole daemon

    The invariant that the components keep together, whatever the network, the file system, the
    resolver's thread and the signals do: every state the daemon can reach is well wired, its
    probers and destinations are well formed, and its clients have distinct ids. *)

From S2P Require Import Prelude Util Double Json JsonFacts JsonRoundtrip Health Pinger Resolver.
From S2P Require Import Monitor Probing Ticking Replies Config Wiring ClientFile Publish EventLoop.
From S2P Require Import Waking Idle.

(** ** Specification *)

Record daemon_ok (t : Z) (m : Monitor) : Prop := {
  dk_wired : wired m;
  dk_probers : Forall (prober_ok t) (m_probers m);
  dk_destinations : destinations_ok (m_clients m);
  dk_ids : NoDup (map c_id (m_clients m));
  dk_next : 0 <= m_nextUid m
}.

(** The clients a listing gives: none when the directory cannot be opened. *)
Definition listed (dir : str) (k : Round) : list Client :=
  client_files (k_load k) dir (match k_listing k with Entries names => names | OpenFailed _ => [] end).

(** What a round may assume of the world: time passes, the counters have room, names in a
    directory are distinct, files are read with [loadClientFile], and not so many clients have
    been configured that a uid would be used twice. *)
Record round_facts `{Casts} (t : Z) (k : Round) (m : Monitor) : Prop := {
  rf_clock : 0 <= t <= k_now k /\ k_now k <= k_after k <= k_reload k /\
    k_reload k <= k_tick k <= k_publish k /\ k_publish k < 2 ^ 63;
  rf_counters : Forall counters_ok (m_probers m);
  rf_names : forall names, k_listing k = Entries names -> NoDup names;
  rf_files : exists files : str -> option str, forall path id,
    k_load k path id = loadClientFile (o_maxDestinations (m_options m)) (files path) path id;
  rf_max : 0 <= o_maxDestinations (m_options m);
  rf_uids : m_nextUid m + Z.of_nat (destination_count (listed (clientsDirPath m) k)) < 2 ^ 31
}.

Section Reachable.
Context `{Libc} `{Casts}.
Variables (options : MonitorOptions) (pid : Z).

(** The states between the rounds, and the time since which they have been reached. *)
Inductive reachable : Z -> Monitor -> World -> Prop :=
  | reach_start eventfd g w m' w' writes :
      round_facts (k_now (g_round g)) (g_round g) (newMonitor options eventfd) ->
      start pid g (newMonitor options eventfd) w = inr (m', w', writes) ->
      reachable (k_publish (g_round g)) m' w'
  | reach_run t begin m w :
      reachable t m w ->
      reachable t (m <| m_running := true |> <| m_idleSinceUs := begin |>) w
  | reach_resolver t r m w : reachable t m w -> reachable t (m <| m_resolver := r |>) w
  | reach_round t k m w m' w' effects :
      reachable t m w -> round_facts t k m -> round pid k m w = (m', w', effects) ->
      reachable (k_publish k) m' w'.
End Reachable.

(** ** Lemmas *)

(** *** The parts of the state the invariant is about *)

Definition same_core (m m' : Monitor) : Prop :=
  m_clients m' = m_clients m /\ m_probers m' = m_probers m /\
  m_proberByUid m' = m_proberByUid m /\ m_nextUid m' = m_nextUid m /\
  m_minIntervalUs m' = m_minIntervalUs m /\ m_options m' = m_options m.

#[export] Instance same_core_preorder : PreOrder same_core.
Proof. split; [done|]. unfold same_core. intros m1 m2 m3. intuition congruence. Qed.

Lemma daemon_ok_core (t : Z) (m m' : Monitor) : same_core m m' -> daemon_ok t m -> daemon_ok t m'.
Proof.
  intros (Ec & Ep & Eu & En & Ei & _) [[Hl Hu Hf Hr Hm Hi] Hp Hd Hids Hn].
  constructor; rewrite ?Ec, ?Ep, ?En; try done. constructor; rewrite ?Ec, ?Ep, ?Eu, ?En, ?Ei; done.
Qed.

Lemma daemon_ok_later (t t' : Z) (m : Monitor) : t <= t' -> daemon_ok t m -> daemon_ok t' m.
Proof.
  intros Ht [Hw Hp Hd Hids Hn]. constructor; try done.
  apply (Forall_impl _ _ _ Hp). intros p. by apply prober_ok_later.
Qed.

(** *** Destinations *)

Lemma set_destination_ok (s : Subscriber) (d : Destination) (clients : list Client) :
  destination_ok d -> destinations_ok clients -> destinations_ok (set_destination s d clients).
Proof.
  intros Hd Hc. unfold set_destination, destinations_ok in *. apply Forall_alter; [done|].
  intros c _ Hcs. cbn. by apply Forall_insert.
Qed.

Lemma destination_at_ok (s : Subscriber) (d : Destination) (clients : list Client) :
  destinations_ok clients -> destination_at s clients = Some d -> destination_ok d.
Proof.
  unfold destination_at, destinations_ok. intros Hok Hd.
  destruct (clients !! u_client s) as [c|] eqn:Ec; [|done]. cbn in Hd.
  rewrite Forall_lookup in Hok. specialize (Hok _ _ Ec). rewrite Forall_lookup in Hok. eauto.
Qed.

Lemma applySample_destinations (p p' : Prober) (b : bool) (rtt : Z) (m m' : Monitor) (w w' : World) :
  applySample p b rtt m w = (p', m', w') ->
  destinations_ok (m_clients m) -> destinations_ok (m_clients m').
Proof.
  rewrite applySample_eq. intros [= _ <- _] Hok. cbn.
  generalize (w_realClock w (w_realReads w)) as now. intros now. clear p' w'.
  revert m Hok. induction (p_subscribers p) as [|s subs IH]; intros m Hok; [done|].
  cbn [fold_left]. apply IH. unfold applyToSubscriber.
  destruct (destination_at s (m_clients m)) as [d|] eqn:Ed; [|done].
  pose proof (observe_ok (mkSample b rtt now) d) as Hob. unfold observe_sample in Hob. cbn in Hob.
  destruct (observe b rtt now d) as [d' changed]. cbn in *.
  apply set_destination_ok; [|done]. apply Hob. by eapply destination_at_ok.
Qed.

Section Handlers.
Context `{Libc}.

Lemma expire_destinations (now : Z) (fl : list InFlight) (p p' : Prober) (m m' : Monitor) (w w' : World) :
  expire now fl p m w = (p', m', w') -> destinations_ok (m_clients m) -> destinations_ok (m_clients m').
Proof.
  revert p m w; induction fl as [|f fl IH]; intros p m w; cbn [expire]; [by intros [= _ <- _]|].
  destruct (_ <=? _); [|by intros [= _ <- _]].
  destruct (applySample _ _ _ _ _) as [[p1 m1] w1] eqn:E. intros Ht Hok.
  eapply IH; [exact Ht|]. by eapply applySample_destinations.
Qed.

Lemma sendProbe_destinations (now : Z) (p p' : Prober) (m m' : Monitor) (w w' : World) :
  sendProbe p now m w = (p', m', w') -> destinations_ok (m_clients m) -> destinations_ok (m_clients m').
Proof.
  unfold sendProbe. destruct (_ || _); [by apply applySample_destinations|].
  destruct (send _ _ _ _ _ _) as [packet [[] err]];
    [by intros [= _ <- _] | by apply applySample_destinations..].
Qed.

Lemma tickProber_destinations (now : Z) (p p' : Prober) (m m' : Monitor) (w w' : World) :
  tickProber now p m w = (p', m', w') ->
  destinations_ok (m_clients m) -> destinations_ok (m_clients m').
Proof.
  intros Ep Hok. unfold tickProber in Ep.
  destruct (expire _ _ _ _ _) as [[p2 m3] w3] eqn:Ee.
  pose proof (expire_destinations _ _ _ _ _ _ _ _ Ee Hok) as Hok3.
  destruct (ask_resolver now p2 m3) as [p3 m4] eqn:Ea.
  assert (m_clients m4 = m_clients m3) as E4
    by (unfold ask_resolver in Ea; destruct (_ && _); by injection Ea as <- <-).
  rewrite <- E4 in Hok3. destruct (send_due now p3); [|by injection Ep as _ <- _].
  destruct (sendProbe p3 now m4 w3) as [[p4 m5] w4] eqn:Es. injection Ep as _ <- _.
  by eapply sendProbe_destinations.
Qed.

Lemma tickProbers_destinations (now : Z) (ps ps' : list Prober) (m m' : Monitor) (w w' : World) :
  tickProbers now ps m w = (ps', m', w') ->
  destinations_ok (m_clients m) -> destinations_ok (m_clients m').
Proof.
  revert ps' m w w'; induction ps as [|p ps IH]; intros ps' m w w'; cbn [tickProbers];
    [by intros [= _ <- _]|].
  destruct (tickProber now p m w) as [[p1 m1] w1] eqn:Ep.
  destruct (tickProbers now ps m1 w1) as [[ps1 m2] w2] eqn:Eps. intros [= _ <- _] Hok.
  eapply IH; [exact Eps|]. by eapply tickProber_destinations.
Qed.

Lemma handleReplyList_destinations (now : Z) (replies : list Reply) (m m' : Monitor) (w w' : World) :
  handleReplyList now replies m w = (m', w') ->
  destinations_ok (m_clients m) -> destinations_ok (m_clients m').
Proof.
  revert m w; induction replies as [|r replies IH]; intros m w; cbn [handleReplyList];
    [by intros [= <- _]|].
  destruct (handleReply now r m w) as [m1 w1] eqn:Er. intros Ht Hok. eapply IH; [exact Ht|].
  destruct (handleReply_cases now r m w) as [E | (i & k & p & f & Hu & Hp & Hk & Hs & Hm)];
    [rewrite E in Er; by injection Er as <- _|].
  revert Er. unfold handleReply. rewrite Hu, Hp.
  destruct (list_find _ _) as [[j g]|]; [|by intros [= <- _]].
  destruct (negb _); [by intros [= <- _]|].
  destruct (applySample _ _ _ _ _) as [[p2 m2] w2] eqn:E. intros [= <- _]. cbn.
  by eapply applySample_destinations.
Qed.

(** *** The wiring *)

Lemma linked_erase (cs cs' : list Client) (ps ps' : list Prober) (s : Subscriber) :
  map erase_client cs' = map erase_client cs -> map erase_prober ps' = map erase_prober ps ->
  linked cs ps s -> linked cs' ps' s.
Proof.
  intros Ec Ep Hl client' d' Hc' Hd'.
  destruct (same_destinations erase s cs' cs d') as (d & Hd & Ed); [done..|].
  destruct (same_client erase (u_client s) cs' cs client') as (client & Hc & Ecl); [done..|].
  specialize (Hl client d Hc Hd).
  pose proof (f_equal d_enabled Ed) as E1. pose proof (f_equal d_prober Ed) as E2.
  pose proof (f_equal d_address Ed) as E3. pose proof (f_equal c_intervalUs Ecl) as E4.
  pose proof (f_equal c_timeoutUs Ecl) as E5. cbn in E1, E2, E3, E4, E5.
  rewrite <- E1, <- E2. destruct (d_enabled d); [|done].
  destruct Hl as (i & p & Hi & Hp & Hs & Hh & Hint & Hto).
  pose proof (f_equal (lookup i) Ep) as Ei. rewrite !list_lookup_fmap, Hp in Ei.
  destruct (ps' !! i) as [p'|] eqn:Hp'; [|done].
  assert (erase_prober p' = erase_prober p) as Eq by (cbn in Ei; congruence).
  pose proof (f_equal p_subscribers Eq) as F1. pose proof (f_equal p_host Eq) as F2.
  pose proof (f_equal p_intervalUs Eq) as F3. pose proof (f_equal p_timeoutUs Eq) as F4.
  cbn in F1, F2, F3, F4. exists i, p'. rewrite F1, F2, F3, F4. split_and!; congruence.
Qed.

(** A field that probing does not change. *)
Lemma erase_field {A} (f : Prober -> A) (ps ps' : list Prober) :
  (forall p, f (erase_prober p) = f p) -> map erase_prober ps' = map erase_prober ps ->
  map f ps' = map f ps.
Proof.
  intros Hf E. apply (f_equal (map f)) in E. rewrite !map_map in E.
  by rewrite (map_ext _ _ Hf ps), (map_ext _ _ Hf ps') in E.
Qed.

(** A property of such a field. *)
Lemma erase_forall {A} (f : Prober -> A) (P : A -> Prop) (ps ps' : list Prober) :
  (forall p, f (erase_prober p) = f p) -> map erase_prober ps' = map erase_prober ps ->
  Forall (fun p => P (f p)) ps -> Forall (fun p => P (f p)) ps'.
Proof.
  intros Hf E H1. apply List.Forall_map. rewrite (erase_field f ps ps' Hf E). by apply List.Forall_map.
Qed.

Lemma links_erase (cs cs' : list Client) (ps ps' : list Prober) :
  map erase_client cs' = map erase_client cs -> map erase_prober ps' = map erase_prober ps ->
  links cs ps -> links cs' ps'.
Proof.
  intros Ec Ep [Hl Hb Ho Hu Hk]. constructor.
  - intros s. by apply (linked_erase cs cs' ps ps').
  - intros i p' s Hp' Hs.
    pose proof (f_equal (lookup i) Ep) as Ei. rewrite !list_lookup_fmap, Hp' in Ei.
    destruct (ps !! i) as [p|] eqn:Hp; [|done].
    assert (erase_prober p' = erase_prober p) as Eq by (cbn in Ei; congruence).
    pose proof (f_equal p_subscribers Eq) as F. cbn in F. rewrite F in Hs.
    destruct (Hb i p s Hp Hs) as (d & Hd & Hen & Hpr).
    destruct (same_destinations erase s cs cs' d) as (d' & Hd' & Ed); [by symmetry | done |].
    pose proof (f_equal d_enabled Ed) as E1. pose proof (f_equal d_prober Ed) as E2. cbn in E1, E2.
    exists d'. split_and!; [done | congruence | congruence].
  - by apply (erase_forall p_subscribers (fun l => NoDup l) ps ps').
  - by apply (erase_forall p_subscribers (fun l => l <> []) ps ps').
  - by rewrite (erase_field prober_key ps ps').
Qed.

Lemma wired_same (m m' : Monitor) : same_wiring m m' -> wired m -> wired m'.
Proof.
  intros (Ec & Ep & Eu & _ & En & Em) [Hl Hu Hf Hr Hm Hi]. constructor.
  - by eapply links_erase.
  - rewrite Eu. by eapply uids_erase.
  - rewrite En. destruct Hf as [Hnd Hlt]. split.
    + by rewrite (erase_field p_uid (m_probers m) (m_probers m')).
    + by apply (erase_forall p_uid (fun u => 0 <= u < m_nextUid m) (m_probers m) (m_probers m')).
  - by apply (erase_forall (fun p => (p_intervalUs p, p_timeoutUs p))
                (fun it => intervals_ok (fst it) (snd it)) (m_probers m) (m_probers m')).
  - rewrite Em. intros p' Hp'.
    assert (Forall (fun p => 0 < m_minIntervalUs m <= p_intervalUs p) (m_probers m')) as Hall.
    { apply (erase_forall p_intervalUs (fun i => 0 < m_minIntervalUs m <= i) (m_probers m) (m_probers m'));
        [done | done |]. by apply Forall_forall. }
    rewrite Forall_forall in Hall. by apply Hall.
  - rewrite Em. intros E. rewrite E in Ep. apply Hi. by destruct (m_probers m).
Qed.

Lemma map_client_ids (f : Destination -> Destination) (cs cs' : list Client) :
  map (map_client f) cs' = map (map_client f) cs -> map c_id cs' = map c_id cs.
Proof.
  intros E. apply (f_equal (map c_id)) in E. rewrite !map_map in E. exact E.
Qed.

(** What the handlers have in common: they keep the wiring. *)
Lemma handled_ok (t : Z) (m m' : Monitor) :
  same_wiring m m' -> Forall (prober_ok t) (m_probers m') -> destinations_ok (m_clients m') ->
  daemon_ok t m -> daemon_ok t m'.
Proof.
  intros Hs Hp Hd [Hw _ _ Hids Hn]. constructor; [by eapply wired_same | done | done | |].
  - destruct Hs as (Ec & _). by rewrite (map_client_ids erase (m_clients m)).
  - destruct Hs as (_ & _ & _ & _ & -> & _). done.
Qed.

Lemma replies_ok (t after : Z) (b4 b6 : list (list Datagram)) (m m' : Monitor) (w w' : World) :
  clock_ok after -> t <= after -> Forall counters_ok (m_probers m) -> daemon_ok t m ->
  handleReplies after b4 b6 m w = (m', w') ->
  daemon_ok after m' /\ Forall counters_ok (m_probers m') /\ m_options m' = m_options m /\
  m_nextUid m' = m_nextUid m.
Proof.
  intros Hc Ht Hcnt Hok%(daemon_ok_later t after) Hh; [|done].
  destruct (handleReplies_handled after b4 b6 m m' w w' Hc (dk_probers _ _ Hok) Hcnt Hh)
    as ((Hf & Hs & _) & _).
  split_and!; [eapply handled_ok; try done | | apply Hs | apply Hs].
  - clear -Hf. induction Hf as [|p p' ps ps' [Hp _ _ _ _] _ IH]; by constructor.
  - unfold handleReplies in Hh. destruct (receive _ _ _ _) as [? r4].
    destruct (receive _ _ _ r4) as [? r6].
    eapply handleReplyList_destinations; [exact Hh | apply Hok].
  - clear -Hf Hcnt. induction Hf as [|p p' ps ps' Hp _ IH]; [done|].
    apply Forall_cons in Hcnt as [Hc Hcs]. constructor; [by eapply replied_counters | by apply IH].
Qed.

Lemma resolved_all_counters (now : Z) (results : list Result) (p : Prober) :
  counters_ok p -> counters_ok (resolved_all now results p).
Proof.
  unfold resolved_all. generalize (filter (fun r => x_uid r = p_uid p) results) as l. intros l.
  revert p; induction l as [|r l IH]; intros p Hp; [done|]. cbn [fold_left]. apply IH.
  unfold resolved. by destruct (x_ok r).
Qed.

Lemma resolutions_ok (t after : Z) (m : Monitor) :
  clock_ok after -> t <= after -> daemon_ok t m ->
  daemon_ok after (handleResolutions after m) /\
  (Forall counters_ok (m_probers m) -> Forall counters_ok (m_probers (handleResolutions after m))) /\
  m_options (handleResolutions after m) = m_options m /\
  m_nextUid (handleResolutions after m) = m_nextUid m.
Proof.
  intros Hc Ht Hok%(daemon_ok_later t after); [|done].
  pose proof (handleResolutions_effect after m Hc (wd_byUid _ (dk_wired _ _ Hok))) as He.
  destruct (collect (m_resolver m)) as [results resolver]. destruct He as (Ep & _ & Ec & Hs & Hp).
  split_and!; [eapply handled_ok; try done | | apply Hs | apply Hs].
  - apply Hp, Hok.
  - rewrite Ec. apply Hok.
  - intros Hcnt. rewrite Ep. apply List.Forall_map. apply (Forall_impl _ _ _ Hcnt).
    intros p. apply resolved_all_counters.
Qed.

Lemma tick_ok (t now : Z) (m m' : Monitor) (w w' : World) :
  clock_ok now -> t <= now -> Forall counters_ok (m_probers m) -> daemon_ok t m ->
  tick now m w = (m', w') -> daemon_ok now m' /\ m_options m' = m_options m.
Proof.
  intros Hc Ht Hcnt Hok%(daemon_ok_later t now) Htick; [|done].
  pose proof Htick as (Hf & Hs & _)%tick_spec; [|done | apply Hok | done].
  split; [|apply Hs]. eapply handled_ok; [done | | | exact Hok].
  - clear -Hf. induction Hf as [|p p' ps ps' Hp _ IH]; constructor; [apply Hp | done].
  - unfold tick in Htick. destruct (tickProbers _ _ _ _) as [[ps m1] w1] eqn:E.
    injection Htick as <- _. cbn. eapply tickProbers_destinations; [exact E | apply Hok].
Qed.

(** *** Reloading *)

Lemma reload_listed (k : Round) (dir : str) (m : Monitor) :
  reloadClients (k_load k) dir (k_listing k) (k_reload k) m =
  (rebuildProbers (k_reload k) (reloading (listed dir k) m)) <| m_stateDirty := true |>.
Proof.
  unfold listed, reloading. destruct (k_listing k) as [names|err]; [apply reload_eq|].
  unfold reloadClients, client_files. reflexivity.
Qed.

End Handlers.

Lemma client_id_inj (a b : str) :
  is_client_file a = true -> is_client_file b = true -> client_id a = client_id b -> a = b.
Proof.
  assert (forall v, is_client_file v = true -> v = client_id v ++ lit ".json") as H.
  { unfold is_client_file, client_id. intros v [_ (p & ->)%hasSuffix_spec]%andb_true_iff.
    rewrite length_app. change (length (lit ".json")) with 5%nat.
    replace (length p + 5 - 5)%nat with (length p) by lia. by rewrite take_app_length. }
  intros Ha Hb E. rewrite (H a Ha), (H b Hb). by rewrite E.
Qed.

Section Files.
Context `{Casts}.
Variables (maxDestinations : Z) (files : str -> option str) (load : str -> str -> option Client).
Hypothesis Hmax : 0 <= maxDestinations.
Hypothesis Hload : forall path id, load path id = loadClientFile maxDestinations (files path) path id.

Lemma load_facts (path id : str) (c : Client) :
  load path id = Some c ->
  c_id c = id /\ intervals_ok (c_intervalUs c) (c_timeoutUs c) /\ Forall destination_ok (c_destinations c).
Proof.
  rewrite Hload. intros (Hi & _ & Hr & _ & Hd)%loaded_in_range; [|done].
  split_and!; [done | done |]. apply (Forall_impl _ _ _ Hd). intros d [_ _ _ _ Hs Hu].
  rewrite Hu. constructor; cbn; [done | lia | done | done].
Qed.

Lemma elem_of_client_files (dir : str) (names : list str) (c : Client) :
  c ∈ client_files load dir names ->
  exists name, name ∈ names /\ is_client_file name = true /\
    load (dir ++ lit "/" ++ name) (client_id name) = Some c.
Proof.
  unfold client_files. intros (name & Hn & Hl)%list_elem_of_omap.
  apply list_elem_of_In, List.filter_In in Hn as [Hn Hf].
  exists name. split_and!; [by apply list_elem_of_In | done | done].
Qed.

Lemma client_files_ids (dir : str) (names : list str) :
  NoDup names -> NoDup (map c_id (client_files load dir names)).
Proof.
  induction 1 as [|name names Hname _ IH]; [constructor|].
  unfold client_files. cbn [List.filter]. destruct (is_client_file name) eqn:Ef; [|exact IH].
  cbn [omap list_omap]. destruct (load _ (client_id name)) as [c|] eqn:El; [|exact IH].
  cbn [map]. constructor; [|exact IH].
  intros (c' & Ec & Hin)%list_elem_of_fmap. apply elem_of_client_files in Hin as (name' & Hn & Hf & El').
  destruct (load_facts _ _ _ El) as (E1 & _). destruct (load_facts _ _ _ El') as (E2 & _).
  apply Hname. rewrite (client_id_inj name name'); [done | done | done | congruence].
Qed.
End Files.

Section Reload.
Context `{Libc} `{Casts}.

Lemma rebuild_options (now : Z) (m : Monitor) : m_options (rebuildProbers now m) = m_options m.
Proof. reflexivity. Qed.

Lemma reloaded_ok (t now : Z) (cs : list Client) (m : Monitor) :
  clock_ok now -> t <= now -> configurable (reloading cs m) -> NoDup (map c_id cs) ->
  destinations_ok cs -> daemon_ok t m -> Forall counters_ok (m_probers m) ->
  daemon_ok now (rebuildProbers now (reloading cs m)) /\
  Forall counters_ok (m_probers (rebuildProbers now (reloading cs m))).
Proof.
  intros Hck Ht Hm Hcids Hcs [Hw Hp Hd Hids Hn] Hcnt.
  pose proof (rebuild_clients now _ Hm) as Ecs.
  pose proof (rebuild_nextUid now _ Hm) as Hnext.
  pose proof (rebuild_origin now _ Hm t Hp) as Ho.
  pose proof (rebuild_wired now _ Hm) as Hwired.
  pose proof (rebuild_probers_ok now _ Hm t Hck Ht Hp) as Hprobers.
  set (m2 := rebuildProbers now (reloading cs m)) in *. clearbody m2.
  change (m_clients (reloading cs m))
    with (map (carry_client (m_clients m)) (merge_sort client_le cs)) in Ecs.
  change (m_nextUid (reloading cs m)) with (m_nextUid m) in Hnext.
  split; [constructor; [done | done | | |lia] |].
  - eapply unlink_ok; [exact Ecs|]. apply carry_clients_ok; [done|].
    unfold destinations_ok. by rewrite (merge_sort_Permutation client_le cs).
  - rewrite (map_client_ids unlink _ _ Ecs).
    rewrite map_map, (map_ext _ c_id), (merge_sort_Permutation client_le cs); [done|].
    intros c. by destruct (carry_client_same (m_clients m) c) as [-> _].
  - apply (Forall_impl _ _ _ Ho). rewrite Forall_forall in Hcnt.
    intros p [(q & Hq & ->) | (_ & _ & ->)]; [exact (Hcnt q Hq)|].
    unfold counters_ok, fresh_prober. destruct (parseNumericAddress _); cbn; unfold u64_max; lia.
Qed.

Lemma listed_ok (now : Z) (k : Round) (m : Monitor) :
  round_facts now k m ->
  Forall (fun c => intervals_ok (c_intervalUs c) (c_timeoutUs c)) (listed (clientsDirPath m) k) /\
  destinations_ok (listed (clientsDirPath m) k) /\
  NoDup (map c_id (listed (clientsDirPath m) k)).
Proof.
  intros [_ _ Hnames (files & Hload) Hmax _].
  assert (Forall (fun c => intervals_ok (c_intervalUs c) (c_timeoutUs c) /\
    Forall destination_ok (c_destinations c)) (listed (clientsDirPath m) k)) as Hcs.
  { apply Forall_forall. intros c (name & _ & _ & Hl)%elem_of_client_files.
    by apply (load_facts _ _ _ Hmax Hload) in Hl as (_ & ? & ?). }
  split_and!; [by apply (Forall_impl _ _ _ Hcs); intros c [] ..|].
  unfold listed. eapply client_files_ids; [exact Hmax | exact Hload |].
  destruct (k_listing k) as [names|]; [by apply Hnames | constructor].
Qed.

Lemma listed_configurable (t now : Z) (k : Round) (m : Monitor) :
  round_facts now k m -> daemon_ok t m ->
  configurable (reloading (listed (clientsDirPath m) k) m).
Proof.
  intros Hrf Hok. destruct (listed_ok now k m Hrf) as (Hr & _). destruct Hrf as [_ _ _ _ _ Huids].
  destruct Hok. apply reloading_configurable; done || lia.
Qed.

Lemma state_dirty_ok (t : Z) (m : Monitor) (o : MonitorOptions) :
  daemon_ok t m /\ Forall counters_ok (m_probers m) -> m_options m = o ->
  daemon_ok t (m <| m_stateDirty := true |>) /\
  Forall counters_ok (m_probers (m <| m_stateDirty := true |>)) /\
  m_options (m <| m_stateDirty := true |>) = o.
Proof. intros [Hok Hc] Ho. split_and!; [by apply (daemon_ok_core _ m) | done | done]. Qed.

Lemma reload_ok (t now : Z) (k : Round) (m : Monitor) :
  round_facts now k m -> t <= k_reload k -> daemon_ok t m -> Forall counters_ok (m_probers m) ->
  daemon_ok (k_reload k)
    (reloadClients (k_load k) (clientsDirPath m) (k_listing k) (k_reload k) m) /\
  Forall counters_ok
    (m_probers (reloadClients (k_load k) (clientsDirPath m) (k_listing k) (k_reload k) m)) /\
  m_options (reloadClients (k_load k) (clientsDirPath m) (k_listing k) (k_reload k) m) = m_options m.
Proof.
  intros Hrf Ht Hok Hcnt. destruct (listed_ok now k m Hrf) as (_ & Hd & Hids).
  pose proof (listed_configurable t now k m Hrf Hok) as Hm.
  pose proof (rf_clock _ _ _ Hrf) as Hclk. rewrite reload_listed.
  apply state_dirty_ok; [|apply (rebuild_options (k_reload k) (reloading _ m))].
  apply (reloaded_ok t); done || unfold clock_ok; lia.
Qed.
End Reload.

(** *** Rounds *)

Lemma publish_core (pid now : Z) (force : bool) (m m' : Monitor) (w w' : World)
    (writes : list (str * str)) :
  publish pid now force m w = (m', w', writes) -> same_core m m'.
Proof.
  unfold publish. destruct (_ && _); [by intros [= <- _ _]|]. cbn -[buildStateJson ini_text].
  destruct (_ || _); cbn -[buildStateJson ini_text]; by intros [= <- _ _].
Qed.

Lemma drop_core (now : Z) (mtime : str -> option Z) (m m' : Monitor) (w w' : World) (l : list str) :
  dropExpiredClients now mtime m w = (m', w', l) -> same_core m m'.
Proof. unfold dropExpiredClients. destruct (_ || _); [by intros [= <- _ _]|]. by intros [= <- _ _]. Qed.

Lemma update_idle_core (after : Z) (m : Monitor) : same_core m (update_idle after m).
Proof.
  unfold update_idle. destruct (bool_decide _); [|done].
  destruct (m_idleSinceUs m =? 0); by destruct (_ && _).
Qed.

Section Rounds.
Context `{Libc} `{Casts}.

(** The invariant during a round, with what does not change before the configuration is read. *)
Definition midway (t : Z) (m0 m : Monitor) : Prop :=
  daemon_ok t m /\ Forall counters_ok (m_probers m) /\ m_options m = m_options m0 /\
  m_nextUid m = m_nextUid m0.

Lemma midway_core (t : Z) (m0 m m' : Monitor) : same_core m m' -> midway t m0 m -> midway t m0 m'.
Proof.
  intros Hc (Hok & Hcnt & Ho & Hn). pose proof Hc as (_ & Ep & _ & En & _ & Eo).
  unfold midway. rewrite Ep, En, Eo. split_and!; try done. by apply (daemon_ok_core _ m).
Qed.

Lemma handle_ready_ok (after : Z) (m0 m m' : Monitor) (b b' : bool) (r : Ready) :
  clock_ok after -> midway after m0 m -> handle_ready after (m, b) r = (m', b') -> midway after m0 m'.
Proof.
  intros Hc Hm. destruct r as [signals|events| |]; cbn [handle_ready]; intros [= <- _].
  - revert m Hm; induction signals as [|s signals IH]; intros m Hm; [done|]. cbn [fold_left].
    apply IH. unfold handle_signal. destruct (s =? SIGHUP); by apply (midway_core _ _ m).
  - by apply (midway_core _ _ m).
  - destruct Hm as (Hok & Hcnt & Ho & Hn).
    destruct (resolutions_ok after after m) as (H1 & H2 & H3 & H4); [done | lia | done |].
    split_and!; [done | by apply H2 | by rewrite H3 | by rewrite H4].
  - done.
Qed.

Lemma ready_all_ok (t : Z) (k : Round) (m m' : Monitor) (b : bool) :
  clock_ok (k_after k) -> t <= k_after k -> daemon_ok t m -> Forall counters_ok (m_probers m) ->
  ready_all k m = (m', b) -> midway (k_after k) m m'.
Proof.
  intros Hc Ht Hok%(daemon_ok_later t (k_after k)) Hcnt; [|done]. unfold ready_all.
  enough (forall rs b1 m1, midway (k_after k) m m1 ->
    fold_left (handle_ready (k_after k)) rs (m1, b1) = (m', b) -> midway (k_after k) m m') as Hall
    by by apply Hall.
  induction rs as [|r rs IH]; intros b1 m1 Hm; cbn [fold_left]; [by intros [= <- _]|].
  destruct (handle_ready (k_after k) (m1, b1) r) as [m2 b2] eqn:E. apply IH.
  by eapply handle_ready_ok.
Qed.

Lemma round_facts_same (t : Z) (k : Round) (m m' : Monitor) :
  round_facts t k m -> Forall counters_ok (m_probers m') -> m_options m' = m_options m ->
  m_nextUid m' = m_nextUid m -> round_facts t k m'.
Proof.
  intros [H1 H2 H3 H4 H5 H6] Hc Ho Hn. unfold clientsDirPath in *.
  constructor; unfold clientsDirPath; rewrite ?Ho, ?Hn; done.
Qed.

Lemma round_ok (t pid : Z) (k : Round) (m m' : Monitor) (w w' : World) (e : Effects) :
  round_facts t k m -> daemon_ok t m -> round pid k m w = (m', w', e) -> daemon_ok (k_publish k) m'.
Proof.
  intros Hrf Hok. pose proof (rf_clock _ _ _ Hrf) as Hclk.
  assert (clock_ok (k_after k) /\ clock_ok (k_tick k)) as [Hca Hct] by (unfold clock_ok; lia).
  unfold round. destruct (ready_all k m) as [m1 readable] eqn:E1.
  pose proof (ready_all_ok t k m m1 readable Hca ltac:(lia) Hok (rf_counters _ _ _ Hrf) E1) as Hm1.
  destruct (negb (m_running m1)).
  { intros [= <- _ _]. eapply daemon_ok_later; [|apply Hm1]. lia. }
  destruct (replies_if readable k m1 w) as [m2 w2] eqn:E2.
  assert (midway (k_after k) m m2) as (Hok2 & Hcnt2 & Ho2 & Hn2).
  { unfold replies_if in E2. destruct readable; [|by injection E2 as <- _].
    destruct Hm1 as (Hok1 & Hcnt1 & Ho1 & Hn1).
    destruct (replies_ok (k_after k) (k_after k) (k_batches4 k) (k_batches6 k) m1 m2 w w2)
      as (? & ? & ? & ?); [done | lia | done..|]. split_and!; try done; congruence. }
  assert (daemon_ok (k_reload k) (reload_if k m2) /\ Forall counters_ok (m_probers (reload_if k m2)))
    as [Hok3 Hcnt3].
  { unfold reload_if. destruct (m_configDirty m2).
    - destruct (reload_ok (k_after k) t k m2) as (? & ? & _); [ | lia | done..].
      by apply (round_facts_same t k m).
    - split; [|done]. eapply daemon_ok_later; [|exact Hok2]. lia. }
  destruct (tick (k_tick k) (reload_if k m2) w2) as [m4 w4] eqn:E4.
  destruct (tick_ok (k_reload k) (k_tick k) (reload_if k m2) m4 w2 w4) as [Hok4 _];
    [done | lia | done..|].
  destruct (dropExpiredClients _ _ m4 w4) as [[m5 w5] removed] eqn:E5.
  destruct (publish _ _ _ _ _) as [[m6 w6] writes] eqn:E6. intros [= <- _ _].
  apply (daemon_ok_core _ _ _ (publish_core _ _ _ _ _ _ _ _ E6)).
  apply (daemon_ok_core _ m5); [apply update_idle_core|].
  apply (daemon_ok_core _ _ _ (drop_core _ _ _ _ _ _ _ E5)).
  eapply daemon_ok_later; [|exact Hok4]. lia.
Qed.

Lemma fastest_range (m : Monitor) : wired m -> 0 <= m_minIntervalUs m < 2 ^ 62.
Proof.
  intros [_ _ _ Hr Hmin Hidle]. destruct (m_probers m) as [|p ps] eqn:E; [rewrite Hidle by done; lia|].
  apply Forall_cons in Hr as [Hr _]. specialize (Hmin p ltac:(by left)). unfold intervals_ok in Hr. lia.
Qed.

Lemma publish_settles (pid now : Z) (m m' : Monitor) (w w' : World) (writes : list (str * str)) :
  publish pid now false m w = (m', w', writes) ->
  m_stateDirty m' = false /\ (m_lastPublishUs m' = m_lastPublishUs m \/ m_lastPublishUs m' = now) /\
  m_lastClientCheckUs m' = m_lastClientCheckUs m.
Proof.
  unfold publish. destruct (_ && _) eqn:E.
  - intros [= <- _ _]. cbn [negb andb] in E. apply andb_true_iff in E as [E _].
    split; [by destruct (m_stateDirty m) | auto].
  - cbn -[buildStateJson ini_text]. destruct (_ || _ || _); cbn -[buildStateJson ini_text];
      intros [= <- _ _]; auto.
Qed.

(** A round that does not end the daemon leaves it settled. *)
Lemma round_settles (t pid : Z) (k : Round) (m m' : Monitor) (w w' : World) (e : Effects) :
  round_facts t k m -> daemon_ok t m -> timely (k_after k) m -> 0 < k_after k ->
  m_running m = true -> ~ stop_signalled (k_ready k) -> round pid k m w = (m', w', e) ->
  m_running m' = true -> Forall counters_ok (m_probers m') -> settled (k_publish k) m'.
Proof.
  intros Hrf Hok (T1 & T2 & T3 & T4 & T5 & T6) Hpos Hrun Hsig Hround Hrun' Hcnt'.
  pose proof (rf_clock _ _ _ Hrf) as Hclk. pose proof (round_ok t pid k m m' w w' e Hrf Hok Hround) as Hok'.
  destruct (round_end pid k m m' w w' e Hrun Hsig Hround)
    as (m1 & w1 & m2 & w2 & removed & writes & ((_ & Li & Lo) & Lp & Lc) & Ed & Ep).
  destruct (publish_settles _ _ _ _ _ _ _ Ep) as (Hs & Hp & Hc).
  apply publish_life in Ep as [(_ & Ei & Eo) Eps]. destruct (update_idle_spec (k_after k) m2) as [Es _].
  assert (m_options (update_idle (k_after k) m2) = m_options m2 /\
    m_lastPublishUs (update_idle (k_after k) m2) = m_lastPublishUs m2 /\
    m_lastClientCheckUs (update_idle (k_after k) m2) = m_lastClientCheckUs m2) as (Uo & Up & Uc).
  { unfold update_idle. destruct (bool_decide _); [|done].
    destruct (m_idleSinceUs m2 =? 0); by destruct (_ && _). }
  assert (m_lastPublishUs m2 = m_lastPublishUs m1 /\
    (m_lastClientCheckUs m2 = m_lastClientCheckUs m1 \/ m_lastClientCheckUs m2 = k_after k)) as [Dp Dc].
  { unfold dropExpiredClients in Ed. destruct (_ || _); injection Ed as <- _ _; auto. }
  apply drop_life in Ed as (_ & Di & Do). rewrite update_idle_probers in Eps.
  assert (m_options m' = m_options m) as Em by congruence.
  constructor; [done | apply Hok' | done | | by apply fastest_range, Hok' | done |].
  - unfold timely. rewrite Em, Hc, Ei, Es, Di, Li, Uc.
    split_and!; try lia; destruct (bool_decide _); try destruct (m_idleSinceUs m =? 0); lia.
  - rewrite Ei, Es, Di, Li, Eps. case_bool_decide as Hb; [|done].
    destruct (Z.eqb_spec (m_idleSinceUs m) 0); split; done || lia.
Qed.

(** The state before anything is configured. *)
Lemma empty_ok (t : Z) (m : Monitor) :
  m_clients m = [] -> m_probers m = [] -> m_proberByUid m = ∅ -> m_nextUid m = 1 ->
  m_minIntervalUs m = 0 -> daemon_ok t m.
Proof.
  intros Ec Ep Eu En Ei. constructor; rewrite ?Ec, ?Ep, ?En; try constructor; try done; try lia.
  - rewrite Ec, Ep. constructor; try constructor; try done.
  - rewrite Eu, Ep. intros u i. split; [done|]. by intros (p & Hp & _).
  - rewrite Ep, En. split; constructor.
  - rewrite Ep. constructor.
  - rewrite Ep. by intros p ?%elem_of_nil.
Qed.

Lemma started_ok (pid : Z) (g : Startup) (options : MonitorOptions) (eventfd : SysCall)
    (m' : Monitor) (w w' : World) (writes : list (str * str)) :
  round_facts (k_now (g_round g)) (g_round g) (newMonitor options eventfd) ->
  start pid g (newMonitor options eventfd) w = inr (m', w', writes) ->
  daemon_ok (k_publish (g_round g)) m'.
Proof.
  intros Hrf. pose proof (rf_clock _ _ _ Hrf) as Hclk. unfold start.
  destruct (nowRealtimeUs w) as [real w1].
  destruct (negb _); [done|]. destruct (ret (g_epoll g) <? 0); [done|].
  destruct (negb (g_sigmask g)); [done|]. destruct (ret (g_signalfd g) <? 0); [done|].
  destruct (ret (g_inotify g) <? 0); [done|].
  set (m0 := opened g real (newMonitor options eventfd)).
  assert (same_core (newMonitor options eventfd) m0) as Hcore.
  { unfold m0, opened. destruct (open_socket AF_INET _ _) as [? [? ?]].
    by destruct (open_socket AF_INET6 _ _) as [? [? ?]]. }
  destruct Hcore as (Ec & Ep & Eu & En & Ei & Eo). clearbody m0.
  assert (daemon_ok (k_now (g_round g)) m0) as Hok0
    by (apply empty_ok; rewrite ?Ec, ?Ep, ?Eu, ?En, ?Ei; done).
  assert (Forall counters_ok (m_probers m0)) as Hcnt by (rewrite Ep; constructor).
  destruct (reload_ok (k_now (g_round g)) (k_now (g_round g)) (g_round g) m0) as (Hok & _);
    [by apply (round_facts_same _ _ (newMonitor options eventfd)) | lia | done | done |].
  set (m1 := reloadClients _ _ _ _ _) in *. clearbody m1.
  destruct (publish _ _ _ _ _) as [[m2 w2] wr] eqn:E. intros [= <- _ _].
  apply (daemon_ok_core _ _ _ (publish_core _ _ _ _ _ _ _ _ E)).
  eapply daemon_ok_later; [|exact Hok]. lia.
Qed.

(** ** Properties *)

(** C1: the invariant of the daemon.  Whatever the options, the files in the configuration
    directory, the datagrams, the resolver's thread and the signals, in every state the daemon can
    reach from its start: each enabled destination is linked to the one prober that pings its
    address at its client's interval and timeout, and subscribed to it once; the uid map finds
    exactly the probers there are; every prober's queue is in order, within its bound and within
    the past; every destination's hysteresis is well formed; and no two clients have one id. *)
Theorem daemon_invariant (options : MonitorOptions) (pid t : Z) (m : Monitor) (w : World) :
  reachable options pid t m w -> daemon_ok t m.
Proof.
  induction 1 as [eventfd g w m' w' writes Hrf Hs | t begin m w _ IH | t r m w _ IH
                 | t k m w m' w' e _ IH Hrf Hr].
  - by eapply started_ok.
  - by apply (daemon_ok_core _ m).
  - by apply (daemon_ok_core _ m).
  - by eapply round_ok.
Qed.
End Rounds.
