(* ===== verification/Threads.v ===== *)
(** * The event loop and the resolver's thread together

    [Monitor] and [Resolver] composed: every operation of the event loop is a step of its own, the
    worker's thread may move between any two of them (also between two probers of one tick).  In
    every interleaving a host is being resolved exactly when one request for it is outstanding, so
    that no lookup is forgotten or asked for twice; without an event descriptor none is answered. *)

From S2P Require Import Prelude Util Double Json JsonFacts JsonRoundtrip Health Pinger Resolver.
From S2P Require Import Monitor Probing Ticking Replies Config Wiring ClientFile Publish EventLoop.
From S2P Require Import Daemon.

(** ** Specification *)

(** What an operation at [now], in a state reached at [t], may assume. *)
Definition moment (t now : Z) (m : Monitor) : Prop :=
  0 <= t <= now /\ now < 2 ^ 63 /\ Forall counters_ok (m_probers m).

(** A descriptor that was not created is not watched and never ready. *)
Definition readable (ready : Ready) (m : Monitor) : Prop :=
  match ready with ResolverReady => eventFd (m_resolver m) = true | _ => True end.

Section Interleaving.
Context `{Libc} `{Casts}.
Variables (options : MonitorOptions) (pid : Z) (eventfd : SysCall).

(** The states the daemon can be in between two operations. *)
Inductive threaded : Z -> Monitor -> World -> Prop :=
  | thread_start g w m' w' writes :
      round_facts (k_now (g_round g)) (g_round g) (newMonitor options eventfd) ->
      start pid g (newMonitor options eventfd) w = inr (m', w', writes) ->
      threaded (k_publish (g_round g)) m' w'
  | thread_run t begin m w :
      threaded t m w -> threaded t (m <| m_running := true |> <| m_idleSinceUs := begin |>) w
  | thread_wait t t' m w : threaded t m w -> t <= t' -> threaded t' m w
  | thread_worker t r m w :
      threaded t m w -> worker_step (m_resolver m) r -> threaded t (m <| m_resolver := r |>) w
  | thread_ready t after b ready m w m' b' :
      threaded t m w -> moment t after m -> readable ready m -> handle_ready after (m, b) ready = (m', b') ->
      threaded after m' w
  | thread_replies t after b4 b6 m w m' w' :
      threaded t m w -> moment t after m -> handleReplies after b4 b6 m w = (m', w') ->
      threaded after m' w'
  | thread_reload t t0 k m w :
      threaded t m w -> t <= k_reload k -> round_facts t0 k m ->
      threaded (k_reload k)
        (reloadClients (k_load k) (clientsDirPath m) (k_listing k) (k_reload k) m) w
  | thread_tick t now i m w m' w' :
      threaded t m w -> 0 <= t <= now -> now < 2 ^ 63 ->
      (forall p, m_probers m !! i = Some p -> counters_ok p) ->
      tick_at now i m w = (m', w') -> threaded now m' w'
  | thread_drop t now mtime m w m' w' removed :
      threaded t m w -> dropExpiredClients now mtime m w = (m', w', removed) -> threaded t m' w'
  | thread_idle t after m w : threaded t m w -> threaded t (update_idle after m) w
  | thread_publish t now force m w m' w' writes :
      threaded t m w -> publish pid now force m w = (m', w', writes) -> threaded t m' w'.
End Interleaving.

(** The request a prober is waiting for. *)
Definition lookup_of (p : Prober) : Request := mkRequest (p_uid p) (p_host p).

(** The requests that are outstanding, against the probers there are. *)
Record lookups_ok (probers : list Prober) (nextUid : Z) (r : Resolver) : Prop := {
  lk_used : Forall (fun q => q_uid q < nextUid) (outstanding r);
  lk_once : NoDup (map q_uid (outstanding r));
  lk_waiting : Forall (fun p => if p_resolving p then lookup_of p ∈ outstanding r
                                else p_uid p ∉ map q_uid (outstanding r)) probers
}.

(** The resolver as the protocol of the two threads has it, between two calls; without an event
    descriptor nothing has ever been delivered. *)
Definition in_protocol (b : bool) (r : Resolver) : Prop :=
  (exists issued delivered, Resolver.reachable b (mkSystem r issued delivered) /\
     (b = false -> delivered = [])) /\
  caller r = Outside /\ stop r = false.

Record threads_ok (b : bool) (t : Z) (m : Monitor) : Prop := {
  th_daemon : daemon_ok t m;
  th_protocol : in_protocol b (m_resolver m);
  th_lookups : lookups_ok (m_probers m) (m_nextUid m) (m_resolver m)
}.

(** What operations that have nothing to do with lookups leave alone. *)
Definition same_lookups (m m' : Monitor) : Prop :=
  m_resolver m' = m_resolver m /\ m_nextUid m' = m_nextUid m /\
  map (fun p => (lookup_of p, p_resolving p)) (m_probers m') =
  map (fun p => (lookup_of p, p_resolving p)) (m_probers m).

(** ** Lemmas *)

(** *** The protocol *)

Lemma start_protocol (b : bool) : in_protocol b (newResolver b).
Proof. split_and!; [|done..]. exists [], []. split; [constructor | done]. Qed.

Lemma worker_protocol (b : bool) (r r' : Resolver) :
  worker_step r r' -> in_protocol b r -> in_protocol b r'.
Proof.
  intros Hs ((i & d & Hr & Hd) & Hc & Ht). destruct (worker_step_same _ _ Hs) as (_ & Ec & Et).
  split_and!; [|congruence..]. exists i, d. split; [|done].
  by eapply Resolver.reach_step, worker_step_step.
Qed.

Lemma request_protocol (b : bool) (uid : Z) (host : str) (r : Resolver) :
  in_protocol b r -> uid ∉ map q_uid (outstanding r) ->
  in_protocol b (request uid host r) /\
  outstanding (request uid host r) = outstanding r ++ [mkRequest uid host].
Proof.
  intros ((i & d & Hr & Hd) & Hc & Ht) Hn.
  destruct (request_steps r i d uid host) as [Hs Ho]; [done | done | |].
  { intros Hin. apply Hn. unfold outstanding. rewrite !map_app, !elem_of_app. auto. }
  split; [|done]. split_and!.
  - exists (i ++ [mkRequest uid host]), d. split; [by eapply reachable_steps | done].
  - unfold request, request_push. destruct (existsb _ _); [done|].
    unfold notify. cbn. by destruct (worker r).
  - unfold request, request_push. destruct (existsb _ _); [done|].
    unfold notify. cbn. by destruct (worker r).
Qed.

Lemma collect_protocol (b : bool) (r : Resolver) :
  b = true -> in_protocol b r -> in_protocol b (snd (collect r)).
Proof.
  intros -> ((i & d & Hr & Hd) & Hc & Ht). destruct (collect_steps r i d Hc Ht) as (Hs & _).
  split_and!; [|by unfold collect, collect_swap, collect_read; cbn; destruct (eventFd r)..].
  eexists _, _. split; [by eapply reachable_steps | done].
Qed.

Lemma protocol_system (b : bool) (r : Resolver) : in_protocol b r -> exists i d, system_ok (mkSystem r i d).
Proof. intros ((i & d & Hr & _) & _). exists i, d. by eapply reachable_ok. Qed.

Lemma protocol_eventFd (b : bool) (r : Resolver) : in_protocol b r -> eventFd r = b.
Proof. intros ((i & d & Hr & _) & _). by apply reachable_eventFd in Hr. Qed.

(** *** The lookups *)

Lemma lookups_same (m m' : Monitor) :
  same_lookups m m' -> lookups_ok (m_probers m) (m_nextUid m) (m_resolver m) ->
  lookups_ok (m_probers m') (m_nextUid m') (m_resolver m').
Proof.
  intros (Er & En & Ep) [Hu Ho Hw]. rewrite Er, En. constructor; try done. clear Hu Ho En Er.
  apply (List.Forall_map (fun p => (lookup_of p, p_resolving p))
    (fun x : Request * bool => if snd x then fst x ∈ outstanding (m_resolver m)
              else q_uid (fst x) ∉ map q_uid (outstanding (m_resolver m)))) in Hw.
  rewrite <- Ep in Hw. by apply List.Forall_map in Hw.
Qed.

Lemma lookups_worker (ps : list Prober) (n : Z) (r r' : Resolver) :
  outstanding r' = outstanding r -> lookups_ok ps n r -> lookups_ok ps n r'.
Proof. intros E []. constructor; by rewrite E. Qed.

(** A prober that was not waiting asks for its host. *)
Lemma lookups_request (b : bool) (ps : list Prober) (i : nat) (p p' : Prober) (n : Z) (r : Resolver) :
  NoDup (map p_uid ps) -> ps !! i = Some p -> p_resolving p = false -> p_uid p < n ->
  lookup_of p' = lookup_of p -> p_resolving p' = true -> in_protocol b r -> lookups_ok ps n r ->
  in_protocol b (request (p_uid p) (p_host p) r) /\
  lookups_ok (<[i := p']> ps) n (request (p_uid p) (p_host p) r).
Proof.
  intros Hnd Hp Hres Hn Hl Hres' Hpr [Hu Ho Hw].
  pose proof (proj1 (Forall_lookup _ _) Hw i p Hp) as Hni. cbn in Hni. rewrite Hres in Hni.
  destruct (request_protocol b (p_uid p) (p_host p) r Hpr Hni) as [Hpr' Eo]. split; [done|].
  constructor; rewrite Eo.
  - apply Forall_app. split; [done | by apply Forall_singleton].
  - rewrite map_app. apply NoDup_app. split_and!; [done | | apply NoDup_singleton].
    intros x Hx ->%list_elem_of_singleton. done.
  - apply Forall_lookup. intros j q Hq. destruct (decide (i = j)) as [<-|Hij].
    + rewrite list_lookup_insert_eq in Hq by (by eapply lookup_lt_Some). injection Hq as <-.
      rewrite Hres', Hl. apply elem_of_app. right. by apply list_elem_of_singleton.
    + rewrite list_lookup_insert_ne in Hq by done.
      pose proof (proj1 (Forall_lookup _ _) Hw j q Hq) as Hj. cbn in Hj.
      destruct (p_resolving q); [apply elem_of_app; by left|]. rewrite map_app.
      intros [?|Huid%list_elem_of_singleton]%elem_of_app; [done|]. cbn in Huid. apply Hij.
      eapply (NoDup_lookup _ i j (p_uid p) Hnd); rewrite list_lookup_fmap;
        [by rewrite Hp | by rewrite Hq, <- Huid].
Qed.

(** The results a prober is handed: at most one, and only when it is waiting. *)
Lemma resolved_once (now : Z) (results : list Result) (x : Result) (p : Prober) :
  NoDup (map x_uid results) -> x ∈ results -> x_uid x = p_uid p ->
  resolved_all now results p = fst (resolved now x p).
Proof.
  unfold resolved_all. intros Hnd Hx Hu.
  assert (filter (fun r => x_uid r = p_uid p) results = [x]) as ->; [|done].
  induction results as [|y results IH]; [by apply elem_of_nil in Hx|].
  cbn in Hnd. apply NoDup_cons in Hnd as [Hy Hnd]. apply elem_of_cons in Hx as [<- | Hx].
  - rewrite filter_cons_True by done. f_equal. apply filter_none, Forall_forall.
    intros z Hz E. apply Hy. rewrite Hu, <- E. by apply list_elem_of_fmap_2.
  - rewrite filter_cons_False; [by apply IH|].
    intros E. apply Hy. rewrite E, <- Hu. by apply list_elem_of_fmap_2.
Qed.

Lemma resolved_none (now : Z) (results : list Result) (p : Prober) :
  p_uid p ∉ map x_uid results -> resolved_all now results p = p.
Proof.
  intros Hn. unfold resolved_all.
  assert (filter (fun r => x_uid r = p_uid p) results = []) as ->; [|done].
  apply filter_none, Forall_forall. intros z Hz E. apply Hn. rewrite <- E.
  by apply list_elem_of_fmap_2.
Qed.

Lemma answers_uids (results : list Result) : map q_uid (map answers results) = map x_uid results.
Proof. rewrite map_map. by apply map_ext. Qed.

Lemma resolved_lookup (now : Z) (x : Result) (p : Prober) :
  lookup_of (fst (resolved now x p)) = lookup_of p /\ p_resolving (fst (resolved now x p)) = false.
Proof. unfold resolved. by destruct (x_ok x). Qed.

(** Completed lookups are handed out: whoever was waiting for one no longer waits. *)
Lemma lookups_collect (b : bool) (now : Z) (ps : list Prober) (n : Z) (r : Resolver) :
  in_protocol b r -> lookups_ok ps n r ->
  lookups_ok (map (resolved_all now (completed r)) ps) n (snd (collect r)) /\
  Forall (fun p => p_resolving p = true -> lookup_of p ∈ map answers (completed r) ->
    exists x, x ∈ completed r /\ answers x = lookup_of p /\
      resolved_all now (completed r) p = fst (resolved now x p)) ps.
Proof.
  intros (_ & Hc & Ht) [Hu Ho Hw]. destruct (collect_steps r [] [] Hc Ht) as (_ & _ & Eo).
  rewrite Eo in Hu, Ho, Hw. apply Forall_app in Hu as [_ Hu2]. rewrite map_app, answers_uids in Ho.
  apply NoDup_app in Ho as (Hnd & Hdis & Hnd2). split.
  - constructor; [done | done |]. apply List.Forall_map, Forall_forall. intros p Hp.
    rewrite Forall_forall in Hw. specialize (Hw p Hp). cbn in Hw.
    destruct (decide (p_uid p ∈ map x_uid (completed r))) as [Hin|Hnin].
    + pose proof Hin as (x & Ex & Hx)%list_elem_of_fmap.
      rewrite (resolved_once now _ x p Hnd Hx) by done.
      destruct (resolved_lookup now x p) as [El ->].
      pose proof (f_equal q_uid El) as Euid. cbn in Euid. rewrite Euid. by apply Hdis.
    + rewrite resolved_none by done. destruct (p_resolving p).
      2: { intros Hin. apply Hw. rewrite map_app. apply elem_of_app. by right. }
      apply elem_of_app in Hw as [(x & Ex & Hx)%list_elem_of_fmap | ?]; [|done].
      exfalso. apply Hnin. change (p_uid p) with (q_uid (lookup_of p)). rewrite Ex.
      change (q_uid (answers x)) with (x_uid x). by apply list_elem_of_fmap_2.
  - apply Forall_forall. intros p Hp _ (x & Ex & Hx)%list_elem_of_fmap. exists x. split_and!; try done.
    apply resolved_once; [done | done |]. by injection Ex.
Qed.

(** *** Each operation keeps the invariant *)

Section Operations.
Context `{Libc} `{Casts}.
Variable (ev : bool).

Lemma moment_clock (t now : Z) (m : Monitor) :
  moment t now m -> clock_ok now /\ t <= now /\ Forall counters_ok (m_probers m).
Proof. unfold moment, clock_ok. intros (? & ? & ?). split_and!; done || lia. Qed.

Lemma threads_same (t t' : Z) (m m' : Monitor) :
  daemon_ok t' m' -> same_lookups m m' -> threads_ok ev t m -> threads_ok ev t' m'.
Proof.
  intros Hd Hs [_ Hp Hl]. constructor; [done | | by eapply lookups_same].
  destruct Hs as (-> & _). done.
Qed.

Lemma ready_threads (t after : Z) (b b' : bool) (ready : Ready) (m m' : Monitor) :
  moment t after m -> readable ready m -> handle_ready after (m, b) ready = (m', b') ->
  threads_ok ev t m ->
  threads_ok ev after m'.
Proof.
  intros Hm Hread Hr Hok. pose proof (moment_clock _ _ _ Hm) as (Hc & Ht & Hcnt).
  pose proof (daemon_ok_later t after m Ht (th_daemon _ _ _ Hok)) as Hd.
  assert (daemon_ok after m') as Hd' by (eapply (handle_ready_ok after m); [done | | exact Hr]; done).
  destruct ready as [signals|events| |]; cbn [handle_ready] in Hr; injection Hr as <- _.
  - eapply threads_same; [done | | exact Hok]. clear. revert m.
    induction signals as [|s signals IH]; intros m; [done|]. cbn [fold_left].
    destruct (IH (handle_signal m s)) as (E1 & E2 & E3). unfold same_lookups.
    rewrite E1, E2, E3. unfold handle_signal. by destruct (s =? SIGHUP).
  - by eapply threads_same; [done | | exact Hok].
  - destruct Hok as [_ Hp Hl].
    pose proof (handleResolutions_effect after m Hc (wd_byUid _ (dk_wired _ _ Hd))) as He.
    destruct (collect (m_resolver m)) as [results r] eqn:Ec.
    destruct He as (Ep & Er & _ & (_ & _ & _ & _ & En & _) & _).
    assert (results = completed (m_resolver m) /\ r = snd (collect (m_resolver m))) as [-> ->].
    { destruct (collect_steps (m_resolver m) [] [] ltac:(apply Hp) ltac:(apply Hp)) as (_ & E & _).
      by rewrite Ec in *. }
    constructor; [done | rewrite Er; apply collect_protocol; [|done] |].
    + rewrite <- (protocol_eventFd _ _ Hp). exact Hread.
    + rewrite Ep, Er, En. exact (proj1 (lookups_collect ev after _ _ _ Hp Hl)).
  - by eapply threads_same.
Qed.

Lemma replies_threads (t after : Z) (b4 b6 : list (list Datagram)) (m m' : Monitor) (w w' : World) :
  moment t after m -> handleReplies after b4 b6 m w = (m', w') -> threads_ok ev t m ->
  threads_ok ev after m'.
Proof.
  intros Hm Hh Hok. pose proof (moment_clock _ _ _ Hm) as (Hc & Ht & Hcnt).
  pose proof (daemon_ok_later t after m Ht (th_daemon _ _ _ Hok)) as Hd.
  destruct (replies_ok t after b4 b6 m m' w w') as (Hd' & _ & _ & En); try done; [by apply Hok|].
  destruct (handleReplies_handled after b4 b6 m m' w w' Hc (dk_probers _ _ Hd) Hcnt Hh)
    as ((Hf & _ & Er) & _).
  eapply threads_same; [done | | exact Hok]. split_and!; [done | done |]. clear -Hf.
  induction Hf as [|p p' ps ps' [_ E _ _ _] _ IH]; [done|]. cbn. by rewrite IH, E.
Qed.

Lemma worker_threads (t : Z) (r : Resolver) (m : Monitor) :
  worker_step (m_resolver m) r -> threads_ok ev t m -> threads_ok ev t (m <| m_resolver := r |>).
Proof.
  intros Hr [Hd Hp Hl]. constructor; [by apply (daemon_ok_core _ m) | by eapply worker_protocol |].
  eapply lookups_worker; [|exact Hl]. by apply worker_step_same.
Qed.

Lemma threads_later (t t' : Z) (m : Monitor) : t <= t' -> threads_ok ev t m -> threads_ok ev t' m.
Proof. intros Ht [Hd Hp Hl]. constructor; [by eapply daemon_ok_later | done | done]. Qed.

(** One prober of a tick. *)
Lemma tick_one_threads (t now : Z) (i : nat) (p p' : Prober) (m m' : Monitor) (w w' : World) :
  clock_ok now -> t <= now -> counters_ok p -> m_probers m !! i = Some p ->
  tickProber now p m w = (p', m', w') ->
  threads_ok ev t m -> threads_ok ev now (m' <| m_probers := <[i := p']> (m_probers m) |>).
Proof.
  intros Hc Ht Hpc Hp Htick Hok.
  pose proof (daemon_ok_later t now m Ht (th_daemon _ _ _ Hok)) as Hd.
  pose proof (proj1 (Forall_lookup _ _) (dk_probers _ _ Hd) i p Hp) as Hpok.
  cbn in Hpok.
  pose proof (tickProber_destinations now p p' m m' w w' Htick (dk_destinations _ _ Hd)) as Hdest.
  destruct (tickProber_spec now p p' m m' w w' Hc Hpok Hpc Htick) as ([Kok Ks _ _ _ _ Kr] & Hf & _ & Er).
  destruct Hf as [Em Ecl].
  assert (m_nextUid m' = m_nextUid m) as En by (rewrite Em; reflexivity).
  assert (daemon_ok now (m' <| m_probers := <[i := p']> (m_probers m) |>)) as Hd'.
  { eapply handled_ok; [ | | exact Hdest | exact Hd].
    - split_and!; cbn; [exact Ecl | | by rewrite Em..].
      etrans; [apply list_fmap_insert|]. apply list_insert_id.
      rewrite list_lookup_fmap, Hp. cbn. by rewrite Ks.
    - cbn. apply Forall_insert; [apply Hd | done]. }
  destruct Hok as [_ Hpr Hl].
  assert (lookup_of p' = lookup_of p) as El by by rewrite Ks.
  destruct (lookup_due now p) eqn:Edue.
  - assert (p_resolving p = false) as Hres
      by (unfold lookup_due in Edue; by destruct (p_numeric p), (p_resolving p)).
    destruct (dk_wired _ _ Hd) as [_ _ [Hnd Hlt] _ _ _].
    destruct (lookups_request ev (m_probers m) i p p' (m_nextUid m) (m_resolver m)) as [H1 H2]; try done.
    + by apply (proj1 (Forall_lookup _ _) Hlt i p Hp).
    + by rewrite Kr, orb_true_r.
    + constructor; cbn; [done | by rewrite Er | by rewrite Er, En].
  - assert (same_lookups m (m' <| m_probers := <[i := p']> (m_probers m) |>)) as Hs.
    { split_and!; cbn; [done | done |]. etrans; [apply list_fmap_insert|]. apply list_insert_id.
      rewrite list_lookup_fmap, Hp. cbn. by rewrite El, Kr, orb_false_r. }
    constructor; [done | cbn; by rewrite Er | exact (lookups_same _ _ Hs Hl)].
Qed.

Lemma tick_threads (t now : Z) (i : nat) (m m' : Monitor) (w w' : World) :
  clock_ok now -> t <= now -> (forall p, m_probers m !! i = Some p -> counters_ok p) ->
  tick_at now i m w = (m', w') -> threads_ok ev t m -> threads_ok ev now m'.
Proof.
  intros Hc Ht Hcnt Htick Hok. unfold tick_at in Htick. destruct (m_probers m !! i) as [p|] eqn:Hp.
  - destruct (tickProber now p m w) as [[p' m1] w1] eqn:E. injection Htick as <- _.
    rewrite (tickProber_probers now p p' m m1 w w1 E).
    by eapply tick_one_threads; [done | exact Ht | by apply Hcnt | exact Hp | exact E |].
  - injection Htick as <- _. destruct Hok as [Hd Hpr Hl].
    constructor; [by eapply daemon_ok_later | done | done].
Qed.

(** Removed probers take their lookups with them; new ones have a uid nothing is asked for. *)
Lemma rebuild_lookups (t now : Z) (m : Monitor) :
  configurable m -> Forall (prober_ok t) (m_probers m) ->
  lookups_ok (m_probers m) (m_nextUid m) (m_resolver m) ->
  lookups_ok (m_probers (rebuildProbers now m)) (m_nextUid (rebuildProbers now m))
    (m_resolver (rebuildProbers now m)).
Proof.
  intros Hm Hp [Hu Ho Hw]. pose proof (rebuild_nextUid now m Hm) as Hn.
  pose proof (rebuild_origin now m Hm t Hp) as Horg.
  change (m_resolver (rebuildProbers now m)) with (m_resolver m).
  revert Hn. generalize (m_nextUid (rebuildProbers now m)) as n'. intros n' Hn.
  constructor; [|done|].
  - apply (Forall_impl _ _ _ Hu). intros q. cbn. lia.
  - apply (Forall_impl _ _ _ Horg). rewrite Forall_forall in Hw.
    intros p [(q & Hq & ->) | (Hge & _ & ->)]; [exact (Hw q Hq)|].
    assert (p_resolving (fresh_prober (p_host p) (p_intervalUs p) (p_timeoutUs p) (p_uid p) now) = false /\
      p_uid (fresh_prober (p_host p) (p_intervalUs p) (p_timeoutUs p) (p_uid p) now) = p_uid p) as [E1 E2]
      by (unfold fresh_prober; by destruct (parseNumericAddress _)).
    cbn -[fresh_prober]. rewrite E1, E2. intros (q & Eq & Hq)%list_elem_of_fmap.
    rewrite Forall_forall in Hu. specialize (Hu q Hq). cbn in Hu. lia.
Qed.

Lemma reload_threads (t t0 : Z) (k : Round) (m : Monitor) :
  t <= k_reload k -> round_facts t0 k m -> threads_ok ev t m ->
  threads_ok ev (k_reload k)
    (reloadClients (k_load k) (clientsDirPath m) (k_listing k) (k_reload k) m).
Proof.
  intros Ht Hrf [Hd Hp Hl].
  assert (round_facts (k_now k) k m) as Hrf' by (destruct Hrf; constructor; try done; lia).
  destruct (reload_ok t (k_now k) k m Hrf' Ht Hd (rf_counters _ _ _ Hrf)) as (Hd' & _).
  pose proof (listed_configurable t _ k m Hrf' Hd) as Hm. rewrite reload_listed in *.
  set (m1 := reloading (listed (clientsDirPath m) k) m) in *.
  constructor; [exact Hd' | exact Hp |].
  exact (rebuild_lookups t (k_reload k) m1 Hm (dk_probers _ _ Hd) Hl).
Qed.
End Operations.

(** *** Every state of the interleaving *)

Lemma publish_lookups (pid now : Z) (force : bool) (m m' : Monitor) (w w' : World)
    (writes : list (str * str)) :
  publish pid now force m w = (m', w', writes) -> same_lookups m m'.
Proof.
  unfold publish. destruct (_ && _); [by intros [= <- _ _]|]. cbn -[buildStateJson ini_text].
  destruct (_ || _); cbn -[buildStateJson ini_text]; by intros [= <- _ _].
Qed.

Lemma drop_lookups (now : Z) (mtime : str -> option Z) (m m' : Monitor) (w w' : World)
    (l : list str) :
  dropExpiredClients now mtime m w = (m', w', l) -> same_lookups m m'.
Proof. unfold dropExpiredClients. destruct (_ || _); [by intros [= <- _ _]|]. by intros [= <- _ _]. Qed.

Lemma update_idle_lookups (after : Z) (m : Monitor) : same_lookups m (update_idle after m).
Proof.
  unfold update_idle. destruct (bool_decide _); [|done].
  destruct (m_idleSinceUs m =? 0); by destruct (_ && _).
Qed.

Section Threads.
Context `{Libc} `{Casts}.
Variables (options : MonitorOptions) (pid : Z) (eventfd : SysCall).

Lemma started_threads (g : Startup) (m' : Monitor) (w w' : World) (writes : list (str * str)) :
  round_facts (k_now (g_round g)) (g_round g) (newMonitor options eventfd) ->
  start pid g (newMonitor options eventfd) w = inr (m', w', writes) ->
  threads_ok (0 <=? ret eventfd) (k_publish (g_round g)) m'.
Proof.
  intros Hrf Hs. pose proof (started_ok pid g options eventfd m' w w' writes Hrf Hs) as Hd.
  revert Hs. unfold start. destruct (nowRealtimeUs w) as [real w1].
  destruct (negb _); [done|]. destruct (ret (g_epoll g) <? 0); [done|].
  destruct (negb (g_sigmask g)); [done|]. destruct (ret (g_signalfd g) <? 0); [done|].
  destruct (ret (g_inotify g) <? 0); [done|].
  set (m0 := opened g real (newMonitor options eventfd)).
  assert (same_core (newMonitor options eventfd) m0 /\ m_resolver m0 = newResolver (0 <=? ret eventfd)) as [Hcore Er].
  { unfold m0, opened. destruct (open_socket AF_INET _ _) as [? [? ?]].
    by destruct (open_socket AF_INET6 _ _) as [? [? ?]]. }
  destruct Hcore as (Ec & Ep & Eu & En & Ei & Eo). clearbody m0.
  set (k := g_round g) in *.
  assert (threads_ok (0 <=? ret eventfd) (k_now k) m0) as Hok0.
  { constructor.
    - apply empty_ok; rewrite ?Ec, ?Ep, ?Eu, ?En, ?Ei; done.
    - rewrite Er. apply start_protocol.
    - rewrite Er, Ep. constructor; cbn; constructor. }
  pose proof (rf_clock _ _ _ Hrf) as Hclk.
  assert (round_facts (k_now k) k m0) as Hrf0.
  { apply (round_facts_same _ _ (newMonitor options eventfd)); try done. rewrite Ep. constructor. }
  pose proof (reload_threads _ (k_now k) (k_now k) k m0 ltac:(lia) Hrf0 Hok0) as Hok1.
  set (m1 := reloadClients _ _ _ _ _) in *. clearbody m1.
  destruct (publish _ _ _ _ _) as [[m2 w2] wr] eqn:E. intros [= -> _ _].
  eapply threads_same; [exact Hd | by eapply publish_lookups | exact Hok1].
Qed.

Lemma threaded_ok (t : Z) (m : Monitor) (w : World) :
  threaded options pid eventfd t m w -> threads_ok (0 <=? ret eventfd) t m.
Proof.
  induction 1 as [g w m' w' writes Hrf Hs | t begin m w _ [Hd Hp Hl] | t t' m w _ [Hd Hp Hl] Ht
    | t r m w _ [Hd Hp Hl] Hr | t after b ready m w m' b' _ IH Hm Hread Hr | t after b4 b6 m w m' w' _ IH Hm Hr
    | t t0 k m w _ IH Ht Hrf | t now i m w m' w' _ IH Ht Hnow Hcnt Hr
    | t now mtime m w m' w' removed _ IH Hr | t after m w _ IH
    | t now force m w m' w' writes _ IH Hr].
  - by eapply started_threads.
  - constructor; [by apply (daemon_ok_core _ m) | done | done].
  - by eapply threads_later.
  - by apply worker_threads.
  - by eapply ready_threads.
  - by eapply replies_threads.
  - by eapply reload_threads.
  - eapply tick_threads; [unfold clock_ok; lia | apply Ht | exact Hcnt | exact Hr | exact IH].
  - eapply threads_same; [|by eapply drop_lookups | exact IH].
    eapply daemon_ok_core; [by eapply drop_core | apply IH].
  - eapply threads_same; [|apply update_idle_lookups | exact IH].
    eapply daemon_ok_core; [apply update_idle_core | apply IH].
  - eapply threads_same; [|by eapply publish_lookups | exact IH].
    eapply daemon_ok_core; [by eapply publish_core | apply IH].
Qed.

(** *** The worker left to itself *)

Lemma answers_answered (answer : str -> bool * Endpoint * str) (q : Request) :
  answers (answered answer q) = q.
Proof. unfold answered. destruct (answer (q_host q)) as [[ok e] err]. by destruct q. Qed.

Lemma worker_run_threaded (answer : str -> bool * Endpoint * str) (n : nat) (t : Z) (m : Monitor)
    (w : World) :
  threaded options pid eventfd t m w ->
  threaded options pid eventfd t (m <| m_resolver := worker_run n answer (m_resolver m) |>) w.
Proof.
  revert m. induction n as [|n IH]; intros m Hth; cbn [worker_run].
  { assert (m <| m_resolver := m_resolver m |> = m) as -> by (by destruct m). done. }
  destruct (worker_next answer (m_resolver m)) as [r|] eqn:E.
  - specialize (IH (m <| m_resolver := r |>)). destruct m. apply IH.
    eapply thread_worker; [exact Hth | by eapply worker_next_step].
  - assert (m <| m_resolver := m_resolver m |> = m) as -> by (by destruct m). done.
Qed.

Lemma served (answer : str -> bool * Endpoint * str) (t : Z) (m : Monitor) (w : World) :
  threaded options pid eventfd t m w ->
  let r := worker_run (work (m_resolver m)) answer (m_resolver m) in
  threaded options pid eventfd t (m <| m_resolver := r |>) w /\ worker r = Asleep /\ pending r = [] /\
  completed r = completed (m_resolver m) ++
    map (answered answer) (in_progress (worker (m_resolver m)) ++ pending (m_resolver m)).
Proof.
  intros Hth. destruct (threaded_ok _ _ _ Hth) as [_ Hp _].
  destruct (protocol_system _ _ Hp) as (i & d & Hsys). destruct Hp as (_ & Hcal & Hstop).
  destruct (worker_run_spec answer (work (m_resolver m)) (m_resolver m) i d)
    as (_ & H1 & H2 & _ & _ & _ & H3); try done.
  - intros E. apply (ok_exited _ Hsys) in E. cbn in E. congruence.
  - split_and!; [by apply worker_run_threaded | done..].
Qed.

(** What the results do to the probers. *)
Lemma resolutions_probers (t after : Z) (m : Monitor) (w : World) :
  threaded options pid eventfd t m w -> clock_ok after ->
  m_probers (handleResolutions after m) =
  map (resolved_all after (completed (m_resolver m))) (m_probers m).
Proof.
  intros Hth Hc. destruct (threaded_ok _ _ _ Hth) as [Hd Hp _].
  pose proof (handleResolutions_effect after m Hc (wd_byUid _ (dk_wired _ _ Hd))) as He.
  destruct (collect_steps (m_resolver m) [] [] ltac:(apply Hp) ltac:(apply Hp)) as (_ & Ec & _).
  destruct (collect (m_resolver m)) as [results r]. cbn [fst] in Ec. subst results. apply He.
Qed.

(** Lookups that are completed and not collected are signalled, once the worker sleeps. *)
Lemma woken (r : Resolver) :
  in_protocol true r -> worker r = Asleep -> completed r <> [] -> 0 < counter r.
Proof.
  intros ((i & d & Hr & _) & Hcal & _) Hrun Hne.
  pose proof (reachable_eventFd _ _ Hr) as Hev. apply reachable_ok in Hr as [_ Hw _ _ _ _]. cbn in *.
  destruct Hw as [? | [? | ?]]; done || congruence.
Qed.

(** ** Properties *)

(** C4: no lookup is forgotten and none is asked for twice.  In every interleaving of the event loop
    with the worker's thread the invariant of the daemon holds; a host is being resolved exactly
    when a request for it, with its own name, is outstanding in the resolver; there is at most one
    request per prober; and a prober that has to be resolved gets its request queued, so that the
    check for duplicates in [request] never hits. *)
Theorem lookups_accounted (t : Z) (m : Monitor) (w : World) :
  threaded options pid eventfd t m w ->
  daemon_ok t m /\ NoDup (map q_uid (outstanding (m_resolver m))) /\
  Forall (fun p => p_resolving p = true <-> lookup_of p ∈ outstanding (m_resolver m)) (m_probers m) /\
  (forall p q, p ∈ m_probers m -> q ∈ outstanding (m_resolver m) -> q_uid q = p_uid p ->
    q = lookup_of p) /\
  (forall now p, p ∈ m_probers m -> lookup_due now p = true ->
    outstanding (request (p_uid p) (p_host p) (m_resolver m)) =
    outstanding (m_resolver m) ++ [lookup_of p]).
Proof.
  intros Hth. destruct (threaded_ok _ _ _ Hth) as [Hd Hp [Hu Ho Hw]]. rewrite Forall_forall in Hw.
  assert (forall p, p ∈ m_probers m -> p_resolving p = false ->
    p_uid p ∉ map q_uid (outstanding (m_resolver m))) as Hidle
    by (intros p Hin E; specialize (Hw p Hin); cbn in Hw; by rewrite E in Hw).
  assert (forall p, p ∈ m_probers m -> p_resolving p = true ->
    lookup_of p ∈ outstanding (m_resolver m)) as Hwait
    by (intros p Hin E; specialize (Hw p Hin); cbn in Hw; by rewrite E in Hw).
  split_and!; [done | done | | |].
  - apply Forall_forall. intros p Hin. split; [by apply Hwait|].
    intros Hl. destruct (p_resolving p) eqn:E; [done|]. exfalso.
    apply (Hidle p Hin E). change (p_uid p) with (q_uid (lookup_of p)). by apply list_elem_of_fmap_2.
  - intros p q Hin Hq E. destruct (p_resolving p) eqn:Eres.
    + specialize (Hwait p Hin Eres). apply list_elem_of_lookup in Hq as [i Hi], Hwait as [j Hj].
      assert (i = j) as ->; [|congruence].
      eapply (NoDup_lookup _ i j (p_uid p) Ho); rewrite list_lookup_fmap;
        [rewrite Hi; cbn; congruence | by rewrite Hj].
    + exfalso. apply (Hidle p Hin Eres). rewrite <- E. by apply list_elem_of_fmap_2.
  - intros now p Hin Hdue. eapply request_protocol; [exact Hp|]. apply Hidle; [done|].
    unfold lookup_due in Hdue. by destruct (p_numeric p), (p_resolving p).
Qed.

(** C5: every lookup ends, and its answer arrives.  From any state of any interleaving, whatever the
    name service answers, the worker left to itself serves all requests in [work] moves and waits.
    If any host is being resolved, the event descriptor is readable then, so that the event loop
    wakes up; and when it has read the results, every one of these hosts has been given the answer
    to its own request - the new address if there is one, otherwise the address it had, and the
    time of the next attempt - and none is being resolved any more. *)
Theorem lookups_complete (t after : Z) (answer : str -> bool * Endpoint * str) (m : Monitor)
    (w : World) :
  threaded options pid eventfd t m w -> clock_ok after -> 0 <= ret eventfd ->
  let r := worker_run (work (m_resolver m)) answer (m_resolver m) in
  let m' := handleResolutions after (m <| m_resolver := r |>) in
  threaded options pid eventfd t (m <| m_resolver := r |>) w /\ worker r = Asleep /\ pending r = [] /\
  (Exists (fun p => p_resolving p = true) (m_probers m) -> 0 < counter r) /\
  Forall2 (fun p p' => p_resolving p' = false /\
    if p_resolving p then
      exists x, answers x = lookup_of p /\
        (x = answered answer (lookup_of p) \/ x ∈ completed (m_resolver m)) /\
        p_endpoint p' = (if x_ok x then x_endpoint x else p_endpoint p) /\
        p' = fst (resolved after x p)
    else p' = p) (m_probers m) (m_probers m').
Proof.
  intros Hth Hc Hfd r m'. destruct (threaded_ok _ _ _ Hth) as [_ Hp _].
  destruct (served answer t m w Hth) as (Hth' & Hrun & Hpend & Hcomp).
  fold r in Hth', Hrun, Hpend, Hcomp. clearbody r.
  destruct (threaded_ok _ _ _ Hth') as [Hd' Hp' Hl']. cbn in Hp', Hl'.
  assert (outstanding r = map answers (completed r)) as Eo
    by (unfold outstanding; rewrite Hrun, Hpend; apply app_nil_r).
  split_and!; [done | done | done | |].
  - intros (p & Hin & Hres)%Exists_exists. apply (woken r); [|done|].
    + by rewrite (proj2 (Z.leb_le _ _) Hfd) in Hp'.
    + destruct Hl' as [_ _ Hwait]. rewrite Forall_forall in Hwait. specialize (Hwait p Hin).
      cbn in Hwait. rewrite Hres, Eo in Hwait. intros E. rewrite E in Hwait.
      by apply elem_of_nil in Hwait.
  - pose proof (resolutions_probers t after (m <| m_resolver := r |>) w Hth' Hc) as Ep.
    fold m' in Ep. cbn [m_resolver m_probers] in Ep. rewrite Ep.
    apply Forall2_fmap_r, Forall2_same_length_lookup_2; [done|].
    intros i p p1 Hi Hi1. assert (p1 = p) as -> by (cbn in Hi1; congruence).
    destruct (lookups_collect _ after (m_probers m) (m_nextUid m) r Hp' Hl') as [_ Hgot].
    destruct Hl' as [_ _ Hwait]. rewrite Forall_lookup in Hwait, Hgot.
    specialize (Hwait i p Hi). specialize (Hgot i p Hi). cbn in Hwait, Hgot. rewrite Eo in Hwait.
    unfold compose. cbv beta. change (m_resolver (m <| m_resolver := r |>)) with r.
    destruct (p_resolving p) eqn:Eres.
    + destruct (Hgot eq_refl Hwait) as (x & Hx & Ex & ->).
      split; [apply resolved_lookup|]. exists x.
      split_and!; [done | | unfold resolved; by destruct (x_ok x) | done].
      rewrite Hcomp in Hx. apply elem_of_app in Hx as [Hx | (q & Eq & _)%list_elem_of_fmap]; [by right|].
      left. subst x. rewrite answers_answered in Ex. by rewrite Ex.
    + rewrite answers_uids in Hwait.
      assert (resolved_all after (completed r) p = p) as -> by by apply resolved_none. done.
Qed.

End Threads.
