(* ===== verification/Atomic.v ===== *)
(** * A round as one step

    The resolver's thread runs while the event loop is in the middle of a round.  [small] is the
    round operation by operation, with the moves of the worker anywhere in between; [round] is the
    same round in one piece.  Nothing more can come of the first than of the second, between moves
    of the worker before it and after it: the moves made before the results are collected can be
    made before the round, and all others can wait until it is over.  A call of [request] or
    [collect] is one operation here; what may happen inside of them is in [Resolver]. *)

From stdpp Require Import relations.
From S2P Require Import Prelude Util Double Json JsonFacts JsonRoundtrip Health Pinger Resolver.
From S2P Require Import Monitor Probing Ticking Replies Config Wiring ClientFile Publish EventLoop.
From S2P Require Import Daemon Threads.

(** ** Specification *)

(** Where the event loop is in a round: the descriptors still to be read, the iterations of the
    loop of [tick] that are done, the files removed. *)
Inductive Point :=
  | AtReady (ready : list Ready) (readable : bool)
  | AtReplies (readable : bool)
  | AtReload
  | AtTick (i : nat)
  | AtDrop
  | AtIdle (removed : list str)
  | AtPublish (removed : list str)
  | Finished (effects : Effects).

Section Small.
Context `{Libc}.
Variables (pid timeout : Z) (k : Round).

(** The next operation of the event loop. *)
Definition advance (c : Point) (m : Monitor) (w : World) : option (Point * Monitor * World) :=
  match c with
  | AtReady (r :: ready) readable =>
      let '(m, readable) := handle_ready (k_after k) (m, readable) r in
      Some (AtReady ready readable, m, w)
  | AtReady [] readable =>
      Some (if m_running m then AtReplies readable else Finished (mkEffects timeout [] []), m, w)
  | AtReplies readable =>
      let '(m, w) := replies_if readable k m w in Some (AtReload, m, w)
  | AtReload => Some (AtTick 0, reload_if k m, w)
  | AtTick i =>
      if (i <? length (m_probers m))%nat then
        let '(m, w) := tick_at (k_tick k) i m w in Some (AtTick (S i), m, w)
      else Some (AtDrop, m, w)
  | AtDrop =>
      let '(m, w, removed) := dropExpiredClients (k_after k) (k_mtime k) m w in
      Some (AtIdle removed, m, w)
  | AtIdle removed => Some (AtPublish removed, update_idle (k_after k) m, w)
  | AtPublish removed =>
      let '(m, w, writes) := publish pid (k_publish k) false m w in
      Some (Finished (mkEffects timeout writes removed), m, w)
  | Finished _ => None
  end.

Inductive go : Point * Monitor * World -> Point * Monitor * World -> Prop :=
  | go_on c m w s : advance c m w = Some s -> go (c, m, w) s.

(** The event loop goes on, or the worker moves. *)
Inductive small : Point * Monitor * World -> Point * Monitor * World -> Prop :=
  | small_loop s s' : go s s' -> small s s'
  | small_worker c m w r :
      worker_step (m_resolver m) r -> small (c, m, w) (c, put_resolver r m, w).
End Small.

(** The results will still be collected. *)
Definition before_collect (c : Point) : Prop :=
  match c with AtReady ready _ => ResolverReady ∈ ready | _ => False end.

(** [epoll_wait] reports a descriptor once. *)
Definition resolver_once (ready : list Ready) : Prop :=
  forall before after, ready = before ++ ResolverReady :: after -> ResolverReady ∉ after.

(** What is known of the state at each point, until nothing of it matters to the worker. *)
Definition point_ok `{Casts} (b : bool) (t : Z) (k : Round) (c : Point) (m : Monitor) : Prop :=
  match c with
  | AtReady ready _ =>
      threads_ok b (k_after k) m /\ round_facts t k m /\ Forall (fun r => readable r m) ready /\
      resolver_once ready
  | AtReplies _ | AtReload => threads_ok b (k_after k) m /\ round_facts t k m
  | AtTick i =>
      clock_ok (k_tick k) /\ threads_ok b (k_tick k) m /\ Forall counters_ok (drop i (m_probers m))
  | _ => True
  end.

(** ** Lemmas *)

(** *** The moves of the worker *)

(** A request made after a move of the worker could have been made before it; when the move was
    going to sleep, or waking up again, the request has made up for it. *)
Lemma request_before_move (uid : Z) (host : str) (r r1 : Resolver) :
  worker_step r r1 -> uid ∉ map q_uid (outstanding r) ->
  rtc worker_step (request uid host r) (request uid host r1).
Proof.
  intros Hs Hn. pose proof (worker_step_same _ _ Hs) as (Eo & _).
  assert (forall r', outstanding r' = outstanding r ->
    request uid host r' = notify (r' <| pending := pending r' ++ [mkRequest uid host] |>)) as Hreq.
  { intros r' E. unfold request, request_push.
    destruct (existsb _ (pending r')) eqn:Ex; [|done]. exfalso.
    apply existsb_exists in Ex as (q & Hq%list_elem_of_In & Eq%Z.eqb_eq). apply Hn. rewrite <- E, <- Eq.
    apply list_elem_of_fmap_2. unfold outstanding. rewrite !elem_of_app. auto. }
  rewrite !Hreq by done. clear Hreq Hn Eo. unfold notify.
  destruct Hs as [r r1 Hm | r Hm | r r1 ok e err Hm | r r1 Hm]; cbn.
  - unfold worker_take in Hm. destruct (worker r) eqn:Ew; try done.
    destruct (stop r) eqn:Est.
    { injection Hm as <-. cbn. apply rtc_once, worker_takes. unfold worker_take. cbn. by rewrite Ew, Est. }
    destruct (pending r) as [|q rest] eqn:Ep; injection Hm as <-; cbn.
    + rewrite Ep. cbn. destruct r. cbn in *. subst. apply rtc_refl.
    + apply rtc_once, worker_takes. unfold worker_take. cbn. by rewrite Ew, Est.
  - rewrite Hm. cbn. apply rtc_refl.
  - unfold worker_finish in Hm. destruct (worker r) eqn:Ew; try done. injection Hm as <-. cbn.
    apply rtc_once, (worker_finishes _ _ ok e err). unfold worker_finish. cbn. by rewrite Ew.
  - unfold worker_signal in Hm. destruct (worker r) eqn:Ew; try done. injection Hm as <-.
    apply rtc_once, worker_signals. unfold worker_signal. cbn. rewrite Ew. by destruct (eventFd r).
Qed.

Lemma request_before_moves (uid : Z) (host : str) (r r' : Resolver) :
  rtc worker_step r r' -> uid ∉ map q_uid (outstanding r) ->
  rtc worker_step (request uid host r) (request uid host r').
Proof.
  induction 1 as [|r r1 r' Hs _ IH]; intros Hn; [apply rtc_refl|].
  etrans; [by apply request_before_move|]. apply IH.
  destruct (worker_step_same _ _ Hs) as (-> & _). done.
Qed.

(** *** What does not see the resolver *)

(** The operation goes on in the same way whatever the resolver looks like. *)
Definition unaware (f : Monitor -> World -> option (Point * Monitor * World)) : Prop :=
  forall r m w, f (put_resolver r m) w =
    (fun s => (fst (fst s), put_resolver r (snd (fst s)), snd s)) <$> f m w.

Section Blindness.
Context `{Libc} `{Casts}.

Lemma handle_ready_unaware (after : Z) (m : Monitor) (b : bool) (ready : Ready) (r : Resolver) :
  ready <> ResolverReady ->
  handle_ready after (put_resolver r m, b) ready =
  (put_resolver r (fst (handle_ready after (m, b) ready)), snd (handle_ready after (m, b) ready)).
Proof.
  destruct ready as [signals|events| |]; intros Hne; [|done..]. cbn. f_equal. clear Hne.
  revert m; induction signals as [|s signals IH]; intros m; [done|]. cbn [fold_left].
  rewrite <- IH. f_equal. unfold handle_signal. by destruct (s =? SIGHUP).
Qed.

Lemma handleReplyList_unaware (now : Z) (replies : list Reply) (m : Monitor) (w : World) (r : Resolver) :
  handleReplyList now replies (put_resolver r m) w =
  let '(m', w') := handleReplyList now replies m w in (put_resolver r m', w').
Proof.
  revert m w; induction replies as [|reply replies IH]; intros m w; [done|]. cbn [handleReplyList].
  assert (handleReply now reply (put_resolver r m) w =
    let '(m', w') := handleReply now reply m w in (put_resolver r m', w')) as ->;
    [|destruct (handleReply now reply m w) as [m1 w1]; apply IH].
  unfold handleReply. cbn [put_resolver m_proberByUid m_probers set_field].
  change (m_proberByUid (put_resolver r m)) with (m_proberByUid m).
  change (m_probers (put_resolver r m)) with (m_probers m).
  destruct (m_proberByUid m !! r_uid reply) as [i|]; [|done].
  destruct (m_probers m !! i) as [p|]; [|done]. destruct (list_find _ _) as [[j f]|]; [|done].
  destruct (negb _); [done|]. cbv zeta. rewrite (applySample_blind put_resolver).
  by destruct (applySample _ _ _ m w) as [[p2 m2] w2].
Qed.

Lemma replies_if_unaware (b : bool) (k : Round) (m : Monitor) (w : World) (r : Resolver) :
  replies_if b k (put_resolver r m) w =
  let '(m', w') := replies_if b k m w in (put_resolver r m', w').
Proof.
  unfold replies_if. destruct b; [|done]. unfold handleReplies.
  change (m_socket4 (put_resolver r m)) with (m_socket4 m).
  change (m_socket6 (put_resolver r m)) with (m_socket6 m).
  change (m_cookie (put_resolver r m)) with (m_cookie m).
  destruct (receive (m_socket4 m) _ _ _) as [? r4]. destruct (receive (m_socket6 m) _ _ r4) as [? r6].
  apply handleReplyList_unaware.
Qed.

Lemma reload_if_unaware (k : Round) (m : Monitor) (r : Resolver) :
  reload_if k (put_resolver r m) = put_resolver r (reload_if k m).
Proof.
  unfold reload_if. change (m_configDirty (put_resolver r m)) with (m_configDirty m).
  by destruct (m_configDirty m).
Qed.

Lemma drop_unaware (now : Z) (mtime : str -> option Z) (m : Monitor) (w : World) (r : Resolver) :
  dropExpiredClients now mtime (put_resolver r m) w =
  let '(m', w', removed) := dropExpiredClients now mtime m w in (put_resolver r m', w', removed).
Proof.
  unfold dropExpiredClients. change (m_options (put_resolver r m)) with (m_options m).
  change (m_lastClientCheckUs (put_resolver r m)) with (m_lastClientCheckUs m).
  change (clientCheckIntervalUs (put_resolver r m)) with (clientCheckIntervalUs m).
  by destruct (_ || _).
Qed.

Lemma idle_unaware (after : Z) (m : Monitor) (r : Resolver) :
  update_idle after (put_resolver r m) = put_resolver r (update_idle after m).
Proof.
  unfold update_idle. change (m_probers (put_resolver r m)) with (m_probers m).
  destruct (bool_decide _); [|done].
  change (m_idleSinceUs (put_resolver r m)) with (m_idleSinceUs m).
  destruct (m_idleSinceUs m =? 0); cbv zeta; cbn -[u64]; by destruct (_ && _).
Qed.

Lemma publish_unaware (pid now : Z) (force : bool) (m : Monitor) (w : World) (r : Resolver) :
  publish pid now force (put_resolver r m) w =
  let '(m', w', writes) := publish pid now force m w in (put_resolver r m', w', writes).
Proof.
  unfold publish. cbn -[buildStateJson ini_text u64 publishIntervalUs].
  change (publishIntervalUs (put_resolver r m)) with (publishIntervalUs m).
  destruct (_ && _); [done|]. cbn -[buildStateJson ini_text u64].
  by destruct (_ || _).
Qed.
End Blindness.

(** *** Where the event loop goes on without seeing the resolver *)

Section Moves.
Context `{Libc} `{Casts}.
Variables (pid timeout : Z) (k : Round).

Lemma advance_unaware (c : Point) :
  match c with AtReady (ResolverReady :: _) _ | AtTick _ => False | _ => True end ->
  unaware (advance pid timeout k c).
Proof.
  destruct c as [[|ready readys] readable|readable| |i| |removed|removed|e];
    intros Hc r m w; cbn [advance].
  - change (m_running (put_resolver r m)) with (m_running m). by destruct (m_running m).
  - rewrite handle_ready_unaware by by intros ->.
    by destruct (handle_ready (k_after k) (m, readable) ready).
  - rewrite replies_if_unaware. by destruct (replies_if readable k m w).
  - by rewrite reload_if_unaware.
  - done.
  - rewrite drop_unaware. by destruct (dropExpiredClients _ _ m w) as [[m1 w1] removed].
  - by rewrite idle_unaware.
  - rewrite publish_unaware. by destruct (publish _ _ _ m w) as [[m1 w1] writes].
  - done.
Qed.

(** What does not see the resolver does not change it. *)
Lemma unaware_same (f : Monitor -> World -> option (Point * Monitor * World)) (c : Point) (m m' : Monitor)
    (w w' : World) :
  unaware f -> f m w = Some (c, m', w') -> m_resolver m' = m_resolver m.
Proof.
  intros Hf E. pose proof (Hf (m_resolver m) m w) as Hm.
  assert (put_resolver (m_resolver m) m = m) as Em by by destruct m.
  rewrite Em, E in Hm. injection Hm as Hm. rewrite Hm. reflexivity.
Qed.

Lemma expire_same (now : Z) (fl : list InFlight) (p p' : Prober) (m m' : Monitor) (w w' : World) :
  expire now fl p m w = (p', m', w') ->
  lookup_of p' = lookup_of p /\ p_resolving p' = p_resolving p /\ m_resolver m' = m_resolver m.
Proof.
  intros E. assert (m_resolver m' = m_resolver m) as Er.
  { pose proof (expire_blind put_resolver now fl p (m_resolver m) m w) as Hm.
    assert (put_resolver (m_resolver m) m = m) as Em by by destruct m.
    rewrite Em, E in Hm. injection Hm as Hm. rewrite Hm. reflexivity. }
  enough (lookup_of p' = lookup_of p /\ p_resolving p' = p_resolving p) as [? ?] by done. clear Er.
  revert p m w E; induction fl as [|f fl IH]; intros p m w; cbn -[applySample];
    [by intros [= <- _ _]|].
  destruct (_ <=? _); [|by intros [= <- _ _]]. rewrite applySample_eq. intros [Hl Hr]%IH. done.
Qed.

(** A prober's turn in a tick, with the worker some moves behind or ahead. *)
Lemma tickProber_lag (now : Z) (p p' : Prober) (m m' : Monitor) (w w' : World) (r : Resolver) :
  (p_resolving p = false -> p_uid p ∉ map q_uid (outstanding (m_resolver m))) ->
  rtc worker_step (m_resolver m) r -> tickProber now p m w = (p', m', w') ->
  exists r', tickProber now p (put_resolver r m) w = (p', put_resolver r' m', w') /\
    rtc worker_step (m_resolver m') r'.
Proof.
  intros Hn Hr. unfold tickProber. rewrite (expire_blind put_resolver).
  destruct (expire now (p_inFlight p) p m w) as [[p1 m1] w1] eqn:E1.
  destruct (expire_same _ _ _ _ _ _ _ _ E1) as (El & Eres & Em).
  assert (exists r1, ask_resolver now p1 (put_resolver r m1) =
    (fst (ask_resolver now p1 m1), put_resolver r1 (snd (ask_resolver now p1 m1))) /\
    rtc worker_step (m_resolver (snd (ask_resolver now p1 m1))) r1) as (r1 & -> & Hr1).
  { unfold ask_resolver. destruct (negb (p_numeric p1) && negb (p_resolving p1) && _) eqn:Ea.
    - exists (request (p_uid p1) (p_host p1) r). split; [done|]. cbn. rewrite Em.
      apply request_before_moves; [done|].
      change (p_uid p1) with (q_uid (lookup_of p1)). rewrite El. apply Hn. rewrite <- Eres.
      by destruct (p_numeric p1), (p_resolving p1).
    - exists r. split; [done|]. cbn. by rewrite Em. }
  destruct (ask_resolver now p1 m1) as [p2 m2]. cbn [fst snd] in *.
  destruct (send_due now p2); [|intros [= <- <- <-]; by exists r1].
  rewrite (sendProbe_blind put_resolver). destruct (sendProbe p2 now m2 w1) as [[p3 m3] w3] eqn:E3.
  intros [= <- <- <-]. exists r1. split; [done|].
  pose proof (sendProbe_blind put_resolver now p2 (m_resolver m2) m2 w1) as Hm.
  assert (put_resolver (m_resolver m2) m2 = m2) as Em2 by by destruct m2.
  rewrite Em2, E3 in Hm. injection Hm as Hm. rewrite Hm. exact Hr1.
Qed.

Variables (b : bool) (t : Z).

Lemma advance_lag (c c' : Point) (m m' : Monitor) (w w' : World) (r : Resolver) :
  ~ before_collect c -> point_ok b t k c m -> rtc worker_step (m_resolver m) r ->
  advance pid timeout k c m w = Some (c', m', w') ->
  exists r', advance pid timeout k c (put_resolver r m) w = Some (c', put_resolver r' m', w') /\
    rtc worker_step (m_resolver m') r'.
Proof.
  intros Hc Hok Hr E.
  assert (unaware (advance pid timeout k c) -> exists r',
    advance pid timeout k c (put_resolver r m) w = Some (c', put_resolver r' m', w') /\
    rtc worker_step (m_resolver m') r') as Hu.
  { intros Hu. exists r. rewrite (Hu r m w), E. split; [done|]. by rewrite (unaware_same _ _ _ _ _ _ Hu E). }
  destruct c as [[|ready readys] readable|readable| |i| |removed|removed|e];
    try (by apply Hu, advance_unaware).
  - apply Hu, advance_unaware. destruct ready; try done. exfalso. apply Hc. by left.
  - clear Hu Hc. cbn [advance] in *. destruct Hok as (_ & [Hd Hp [_ _ Hw]] & _).
    change (m_probers (put_resolver r m)) with (m_probers m).
    destruct (i <? _)%nat; [|injection E as <- <- <-; by exists r]. unfold tick_at in *.
    change (m_probers (put_resolver r m)) with (m_probers m).
    destruct (m_probers m !! i) as [p|] eqn:Ep; [|injection E as <- <- <-; by exists r].
    destruct (tickProber (k_tick k) p m w) as [[p1 m1] w1] eqn:Et. injection E as <- <- <-.
    pose proof (proj1 (Forall_lookup _ _) Hw i p Ep) as Hni. cbn in Hni.
    destruct (tickProber_lag _ _ _ _ _ _ _ r ltac:(by intros Ef; rewrite Ef in Hni) Hr Et)
      as (r1 & -> & Hr1). exists r1. split; [done | exact Hr1].
Qed.
End Moves.

(** *** The invariant of each point *)

Lemma resolver_once_tail (ready : Ready) (rest : list Ready) :
  resolver_once (ready :: rest) -> resolver_once rest.
Proof. intros Ho pre post ->. by apply (Ho (ready :: pre) post). Qed.

Section Steps.
Context `{Libc} `{Casts}.
Variables (pid timeout : Z) (k : Round) (b : bool) (t : Z).

Lemma readable_same (t1 t2 : Z) (ready : Ready) (m m' : Monitor) :
  threads_ok b t1 m -> threads_ok b t2 m' -> readable ready m -> readable ready m'.
Proof.
  intros [_ Hp _] [_ Hp' _]. destruct ready; try done. unfold readable.
  by rewrite (protocol_eventFd _ _ Hp), (protocol_eventFd _ _ Hp').
Qed.

Lemma point_ok_move (c : Point) (m : Monitor) (r : Resolver) :
  worker_step (m_resolver m) r -> point_ok b t k c m -> point_ok b t k c (put_resolver r m).
Proof.
  intros Hr. destruct c as [ready readable|readable| |i| |removed|removed|e]; cbn [point_ok]; try done.
  - intros (Hok & Hrf & Hread & Ho). pose proof (worker_threads b _ r m Hr Hok) as Hok'.
    split_and!; [done | by apply (round_facts_same t k m); try apply Hrf | | done].
    apply (Forall_impl _ _ _ Hread). intros x. by eapply readable_same.
  - intros (Hok & Hrf).
    split; [by apply worker_threads | by apply (round_facts_same t k m); try apply Hrf].
  - intros (Hok & Hrf).
    split; [by apply worker_threads | by apply (round_facts_same t k m); try apply Hrf].
  - intros (Hck & Hok & Hcnt). split_and!; [done | by apply worker_threads | done].
Qed.

Lemma tick_at_probers (now : Z) (i : nat) (m m' : Monitor) (w w' : World) :
  tick_at now i m w = (m', w') ->
  drop (S i) (m_probers m') = drop (S i) (m_probers m) /\
  length (m_probers m') = length (m_probers m).
Proof.
  unfold tick_at. destruct (m_probers m !! i) as [p|] eqn:Ep; [|by intros [= <- _]].
  destruct (tickProber now p m w) as [[p1 m1] w1] eqn:E. intros [= <- _]. cbn.
  rewrite (tickProber_probers _ _ _ _ _ _ _ E), length_insert.
  split; [apply drop_insert_lt; lia | done].
Qed.

Lemma ready_facts (ready : Ready) (readable : bool) (rest : list Ready) (m m1 : Monitor) (b1 : bool) :
  point_ok b t k (AtReady (ready :: rest) readable) m ->
  handle_ready (k_after k) (m, readable) ready = (m1, b1) ->
  point_ok b t k (AtReady rest b1) m1.
Proof.
  intros (Hok & Hrf & [Hread Hrest]%Forall_cons & Ho) E. pose proof (rf_clock _ _ _ Hrf) as Hclk.
  assert (moment (k_after k) (k_after k) m) as Hm by (split_and!; try lia; apply Hrf).
  pose proof (ready_threads b _ _ _ _ ready m m1 Hm Hread E Hok) as Hok1.
  destruct (handle_ready_ok (k_after k) m m m1 readable b1 ready) as (_ & Hcnt & Ho1 & Hn1);
    [unfold clock_ok; lia | split_and!; try done; [apply Hok | apply Hrf] | done |].
  split_and!; [done | by apply (round_facts_same t k m) | | by eapply resolver_once_tail].
  apply (Forall_impl _ _ _ Hrest). intros x. by eapply readable_same.
Qed.

Lemma advance_ok (c c' : Point) (m m' : Monitor) (w w' : World) :
  point_ok b t k c m -> advance pid timeout k c m w = Some (c', m', w') -> point_ok b t k c' m'.
Proof.
  intros Hok E.
  destruct c as [[|ready readys] readable|readable| |i| |removed|removed|e]; cbn [advance] in E.
  - injection E as <- <- <-. destruct Hok as (Hok & Hrf & _). by destruct (m_running m).
  - destruct (handle_ready _ _ _) as [m1 b1] eqn:Er. injection E as <- <- <-. by eapply ready_facts.
  - destruct Hok as [Hok Hrf]. pose proof (rf_clock _ _ _ Hrf) as Hclk.
    destruct (replies_if readable k m w) as [m1 w1] eqn:Er. injection E as <- <- <-.
    unfold replies_if in Er. destruct readable; [|by injection Er as <- <-].
    assert (moment (k_after k) (k_after k) m) as Hm by (split_and!; try lia; apply Hrf).
    destruct (replies_ok (k_after k) (k_after k) (k_batches4 k) (k_batches6 k) m m1 w w1)
      as (_ & Hcnt & Ho & Hn); [unfold clock_ok; lia | lia | apply Hrf | apply Hok | done |].
    split; [by eapply replies_threads | by apply (round_facts_same t k m)].
  - destruct Hok as [Hok Hrf]. pose proof (rf_clock _ _ _ Hrf) as Hclk. injection E as <- <- <-.
    split; [unfold clock_ok; lia|]. rewrite drop_0.
    unfold reload_if. destruct (m_configDirty m).
    + split.
      * eapply threads_later; [|eapply reload_threads; [|exact Hrf | exact Hok]; lia]. lia.
      * apply (reload_ok (k_after k) t k m Hrf); [lia | apply Hok | apply Hrf].
    + split; [eapply threads_later; [|exact Hok]; lia | apply Hrf].
  - destruct Hok as (Hck & Hok & Hcnt). destruct (Nat.ltb_spec i (length (m_probers m))) as [Hi|Hi];
      [|by injection E as <- <- <-].
    destruct (tick_at _ _ _ _) as [m1 w1] eqn:Et. injection E as <- <- <-.
    destruct (lookup_lt_is_Some_2 _ _ Hi) as [p Hp].
    rewrite (drop_S _ _ _ Hp) in Hcnt. apply Forall_cons in Hcnt as [Hpc Hcnt].
    destruct (tick_at_probers _ _ _ _ _ _ Et) as [Ed _]. split_and!; [done | | by rewrite Ed].
    eapply (tick_threads b (k_tick k)); [done | lia | | exact Et | exact Hok].
    intros q Hq. congruence.
  - destruct (dropExpiredClients _ _ _ _) as [[m1 w1] removed]. by injection E as <- <- <-.
  - by injection E as <- <- <-.
  - destruct (publish _ _ _ _ _) as [[m1 w1] writes]. by injection E as <- <- <-.
  - done.
Qed.

(** *** The moves made before the round, and those that wait until it is over *)

Lemma advance_after_collect (c c' : Point) (m m' : Monitor) (w w' : World) :
  advance pid timeout k c m w = Some (c', m', w') -> before_collect c' -> before_collect c.
Proof.
  destruct c as [[|ready readys] readable|readable| |i| |removed|removed|e]; cbn [advance].
  - intros [= <- _ _]. by destruct (m_running m).
  - destruct (handle_ready _ _ _). intros [= <- _ _] Hc. by right.
  - destruct (replies_if _ _ _ _). by intros [= <- _ _].
  - by intros [= <- _ _].
  - destruct (_ <? _)%nat; [|by intros [= <- _ _]].
    destruct (tick_at _ _ _ _). by intros [= <- _ _].
  - destruct (dropExpiredClients _ _ _ _) as [[? ?] ?]. by intros [= <- _ _].
  - by intros [= <- _ _].
  - destruct (publish _ _ _ _ _) as [[? ?] ?]. by intros [= <- _ _].
  - done.
Qed.

Lemma advance_none (c : Point) (m m' : Monitor) (w w' : World) :
  advance pid timeout k c m w = None -> advance pid timeout k c m' w' = None.
Proof.
  destruct c as [[|ready readys] readable|readable| |i| |removed|removed|e]; cbn [advance]; try done.
  - by destruct (handle_ready _ _ _).
  - by destruct (replies_if _ _ _ _).
  - destruct (_ <? _)%nat; [|done]. by destruct (tick_at _ _ _ _).
  - by destruct (dropExpiredClients _ _ _ _) as [[? ?] ?].
  - by destruct (publish _ _ _ _ _) as [[? ?] ?].
Qed.

Lemma before_collect_cases (c : Point) : ~ before_collect c \/ before_collect c.
Proof.
  destruct c as [ready| | | | | | |]; try (left; by intros []).
  cbn [before_collect]. induction ready as [|x ready IH]; [left; by intros ?%elem_of_nil|].
  destruct IH as [IH|IH]; [|right; by right]. rewrite elem_of_cons.
  destruct x; [left; by intros [|] .. | right; by left | left; by intros [|]].
Qed.

(** A run of the event loop alone that ends in this state, up to moves of the worker after it. *)
Definition runs_then (c : Point) (m : Monitor) (w : World) (e : Effects) (m' : Monitor) (w' : World) :
    Prop :=
  exists m1 r, rtc (go pid timeout k) (c, m, w) (Finished e, m1, w') /\
    rtc worker_step (m_resolver m1) r /\ m' = put_resolver r m1.

Lemma lagging (s s' : Point * Monitor * World) :
  rtc (small pid timeout k) s s' ->
  forall c m w r e m' w', s = (c, put_resolver r m, w) -> s' = (Finished e, m', w') ->
  ~ before_collect c -> point_ok b t k c m -> rtc worker_step (m_resolver m) r ->
  runs_then c m w e m' w'.
Proof.
  induction 1 as [s | s s1 s' Hs _ IH]; intros c m w r e m' w' -> E Hc Hok Hr.
  { injection E as -> <- <-. exists m, r. split_and!; [apply rtc_refl | done | done]. }
  inversion Hs as [x y [c0 m0 w0 [[c1 m1] w1] Ha] | c0 m0 w0 r1 Hr1]; subst.
  - destruct (advance pid timeout k c m w) as [[[c2 m2] w2]|] eqn:Em;
      [|by rewrite (advance_none _ _ _ _ _ Em) in Ha].
    destruct (advance_lag pid timeout k b t _ _ _ _ _ _ r Hc Hok Hr Em) as (r2 & E2 & Hr2).
    rewrite Ha in E2. injection E2 as -> -> ->.
    destruct (IH c2 m2 w2 r2 e m' w') as (m3 & r3 & Hgo & Hr3 & ->); [done | done | | | done |].
    + intros Hc2. by eapply Hc, advance_after_collect.
    + by eapply advance_ok.
    + exists m3, r3. split_and!; [|done..]. by eapply rtc_l, Hgo; constructor.
  - apply (IH c m w r1 e m' w'); try done. by eapply rtc_r.
Qed.

Lemma leading (s s' : Point * Monitor * World) :
  rtc (small pid timeout k) s s' ->
  forall c m w e m' w', s = (c, m, w) -> s' = (Finished e, m', w') -> point_ok b t k c m ->
  exists r, rtc worker_step (m_resolver m) r /\ runs_then c (put_resolver r m) w e m' w'.
Proof.
  induction 1 as [s | s s1 s' Hs Hrest IH]; intros c m w e m' w' -> E Hok.
  { injection E as -> <- <-. exists (m_resolver m). split; [done|]. exists m, (m_resolver m).
    assert (put_resolver (m_resolver m) m = m) as Em by by destruct m. by rewrite Em. }
  assert (forall m, put_resolver (m_resolver m) m = m) as Hself by by intros [].
  destruct (before_collect_cases c) as [Hc|Hc].
  { exists (m_resolver m). split; [done|]. rewrite Hself.
    eapply (lagging (c, m, w)); [by eapply rtc_l | by rewrite Hself | done..]. }
  inversion Hs as [x y [c0 m0 w0 [[c1 m1] w1] Ha] | c0 m0 w0 r1 Hr1]; subst.
  - pose proof (advance_ok _ _ _ _ _ _ Hok Ha) as Hok1.
    destruct c as [[|ready readys] readable| | | | | | |]; try done; [by apply elem_of_nil in Hc|].
    assert (ready = ResolverReady \/ ready <> ResolverReady) as [->|Hne]
      by (destruct ready; auto).
    + exists (m_resolver m). split; [done|]. rewrite Hself.
      assert (~ before_collect c1) as Hc1.
      { cbn [advance] in Ha. destruct (handle_ready _ _ _). injection Ha as <- _ _.
        destruct Hok as (_ & _ & _ & Ho). by apply (Ho []). }
      destruct (lagging _ _ Hrest c1 m1 w1 (m_resolver m1) e m' w') as (m3 & r3 & Hgo & Hr3 & ->);
        [by rewrite Hself | done..|].
      exists m3, r3. split_and!; [|done..]. by eapply rtc_l, Hgo; constructor.
    + destruct (IH c1 m1 w1 e m' w') as (r & Hr & m3 & r3 & Hgo & Hr3 & ->); [done..|].
      assert (unaware (advance pid timeout k (AtReady (ready :: readys) readable))) as Hu
        by (apply advance_unaware; by destruct ready).
      rewrite (unaware_same _ _ _ _ _ _ Hu Ha) in Hr. exists r. split; [done|].
      exists m3, r3. split_and!; [|done..]. eapply rtc_l, Hgo. constructor. by rewrite (Hu r m w), Ha.
  - destruct (IH c (put_resolver r1 m) w e m' w') as (r & Hr & Hrun); [done..|by apply point_ok_move|].
    exists r. split; [by eapply rtc_l | exact Hrun].
Qed.
End Steps.

(** *** A round in one piece is a run of the event loop alone *)

Section Whole.
Context `{Libc} `{Casts}.
Variables (pid timeout : Z) (k : Round).

Lemma go_ready (ready : list Ready) (readable : bool) (m : Monitor) (w : World) :
  rtc (go pid timeout k) (AtReady ready readable, m, w)
    (let '(m', readable') := fold_left (handle_ready (k_after k)) ready (m, readable) in
     (AtReady [] readable', m', w)).
Proof.
  revert m readable; induction ready as [|r ready IH]; intros m readable; [apply rtc_refl|].
  cbn [fold_left]. destruct (handle_ready (k_after k) (m, readable) r) as [m1 b1] eqn:E.
  eapply rtc_l, IH. constructor. cbn [advance]. by rewrite E.
Qed.

Lemma go_tick (n i : nat) (m : Monitor) (w : World) :
  length (m_probers m) = (i + n)%nat ->
  rtc (go pid timeout k) (AtTick i, m, w)
    (let '(m', w') := tick_in_order (k_tick k) (seq i n) (m, w) in (AtDrop, m', w')).
Proof.
  revert i m w; induction n as [|n IH]; intros i m w Hlen; cbn [seq].
  - apply rtc_once. constructor. cbn [advance]. by rewrite (proj2 (Nat.ltb_ge _ _)) by lia.
  - unfold tick_in_order. cbn [fold_left fst snd].
    destruct (tick_at (k_tick k) i m w) as [m1 w1] eqn:E. eapply rtc_l.
    + constructor. cbn [advance]. rewrite (proj2 (Nat.ltb_lt _ _)) by lia. by rewrite E.
    + apply IH. destruct (tick_at_probers _ _ _ _ _ _ E) as [_ ->]. lia.
Qed.

Lemma go_round (m : Monitor) (w : World) :
  timeout = epoll_timeout (nextDeadline m) (k_now k) ->
  rtc (go pid timeout k) (AtReady (k_ready k) false, m, w)
    (let '(m', w', e) := round pid k m w in (Finished e, m', w')).
Proof.
  intros Ht. unfold round. rewrite <- Ht.
  etrans; [apply go_ready|]. fold (ready_all k m).
  destruct (ready_all k m) as [m1 readable]. eapply rtc_l; [by constructor|].
  destruct (m_running m1); cbn [negb]; [|apply rtc_refl].
  destruct (replies_if readable k m1 w) as [m2 w2] eqn:E2.
  eapply rtc_l; [constructor; cbn [advance]; by rewrite E2|].
  eapply rtc_l; [by constructor|].
  etrans; [by apply (go_tick (length (m_probers (reload_if k m2))) 0)|].
  rewrite <- tick_is_in_order. destruct (tick _ _ _) as [m3 w3].
  destruct (dropExpiredClients (k_after k) (k_mtime k) m3 w3) as [[m4 w4] removed] eqn:E4.
  eapply rtc_l; [constructor; cbn [advance]; by rewrite E4|].
  eapply rtc_l; [by constructor|].
  destruct (publish pid (k_publish k) false (update_idle (k_after k) m4) w4)
    as [[m5 w5] writes] eqn:E5.
  eapply rtc_l; [constructor; cbn [advance]; by rewrite E5 | apply rtc_refl].
Qed.

(** Wherever it is, the event loop left alone comes to the end of the round. *)
Definition finishes (s : Point * Monitor * World) : Prop :=
  exists e m w, rtc (go pid timeout k) s (Finished e, m, w).

Lemma finishes_step (c : Point) (m : Monitor) (w : World) :
  (forall s, advance pid timeout k c m w = Some s -> finishes s) -> finishes (c, m, w).
Proof.
  intros Hs. destruct (advance pid timeout k c m w) as [s|] eqn:E.
  - destruct (Hs s eq_refl) as (e & m' & w' & Hrun). exists e, m', w'.
    eapply rtc_l, Hrun. by constructor.
  - destruct c as [[|ready readys] readable|readable| |i| |removed|removed|e]; cbn [advance] in E;
      try done; try (repeat case_match; done).
    exists e, m, w. apply rtc_refl.
Qed.

Lemma go_finishes (c : Point) (m : Monitor) (w : World) : finishes (c, m, w).
Proof.
  assert (forall removed m w, finishes (AtPublish removed, m, w)) as Hpub.
  { intros removed m0 w0. apply finishes_step. cbn [advance].
    destruct (publish _ _ _ _ _) as [[m1 w1] writes]. intros s [= <-]. eexists _, _, _. apply rtc_refl. }
  assert (forall removed m w, finishes (AtIdle removed, m, w)) as Hidle
    by (intros removed m0 w0; apply finishes_step; intros s [= <-]; apply Hpub).
  assert (forall m w, finishes (AtDrop, m, w)) as Hdrop.
  { intros m0 w0. apply finishes_step. cbn [advance].
    destruct (dropExpiredClients _ _ _ _) as [[m1 w1] removed]. intros s [= <-]. apply Hidle. }
  assert (forall i m w, finishes (AtTick i, m, w)) as Htick.
  { intros i m0 w0. destruct (le_lt_dec (length (m_probers m0)) i) as [Hi|Hi].
    - apply finishes_step. cbn [advance]. rewrite (proj2 (Nat.ltb_ge _ _)) by done.
      intros s [= <-]. apply Hdrop.
    - pose proof (go_tick (length (m_probers m0) - i) i m0 w0 ltac:(lia)) as Hrun.
      destruct (tick_in_order _ _ _) as [m1 w1]. destruct (Hdrop m1 w1) as (e & m2 & w2 & Hrest).
      exists e, m2, w2. by etrans. }
  assert (forall m w, finishes (AtReload, m, w)) as Hreload
    by (intros m0 w0; apply finishes_step; intros s [= <-]; apply Htick).
  assert (forall readable m w, finishes (AtReplies readable, m, w)) as Hreplies.
  { intros readable m0 w0. apply finishes_step. cbn [advance].
    destruct (replies_if _ _ _ _) as [m1 w1]. intros s [= <-]. apply Hreload. }
  assert (forall ready readable m w, finishes (AtReady ready readable, m, w)) as Hready.
  { induction ready as [|r ready IH]; intros readable m0 w0; apply finishes_step; cbn [advance].
    - intros s [= <-]. destruct (m_running m0); [apply Hreplies|]. eexists _, _, _. apply rtc_refl.
    - destruct (handle_ready _ _ _). intros s [= <-]. apply IH. }
  destruct c; auto. eexists _, _, _. apply rtc_refl.
Qed.

Lemma go_unique (s s1 s2 : Point * Monitor * World) :
  rtc (go pid timeout k) s s1 -> rtc (go pid timeout k) s s2 ->
  (exists e, fst (fst s1) = Finished e) -> (exists e, fst (fst s2) = Finished e) -> s1 = s2.
Proof.
  intros H1 H2 (e1 & E1) (e2 & E2). revert H2.
  induction H1 as [s | s s' s1 Hs _ IH]; intros H2.
  - inversion H2 as [|x y z Hg]; [done|]. subst. destruct s as [[c m] w]. cbn in E1. subst c.
    by inversion Hg.
  - apply IH; [done|]. inversion H2 as [|x y z Hg Hrest]; subst.
    + destruct s2 as [[c m] w]. cbn in E2. subst c. by inversion Hs.
    + inversion Hs; inversion Hg; subst. simplify_eq. congruence.
Qed.

Lemma small_go (s s' : Point * Monitor * World) :
  rtc (go pid timeout k) s s' -> rtc (small pid timeout k) s s'.
Proof. apply rtc_subrel. intros x y. apply small_loop. Qed.

Lemma small_moves (c : Point) (m : Monitor) (w : World) (r : Resolver) :
  rtc worker_step (m_resolver m) r -> rtc (small pid timeout k) (c, m, w) (c, put_resolver r m, w).
Proof.
  intros Hr. remember (m_resolver m) as r0 eqn:E. revert m E.
  induction Hr as [r0 | r0 r1 r Hs _ IH]; intros m ->.
  - assert (put_resolver (m_resolver m) m = m) as -> by (by destruct m). apply rtc_refl.
  - eapply rtc_l; [by apply small_worker|]. by apply (IH (put_resolver r1 m)).
Qed.
End Whole.

(** ** Properties *)

Section Properties.
Context `{Libc} `{Casts}.
Variables (options : MonitorOptions) (pid : Z) (eventfd : SysCall).

(** C16: a round is atomic.  The worker's thread may move between any two operations of a round, also
    between the turns of two probers in [tick].  What can come of that - the final state of both
    threads, the packets, the files written and removed, the timeout - is exactly what can come of
    a round in one piece with moves of the worker before it and after it, so that it is enough to
    reason about [round] and about what the worker does in between.  This rests on the descriptor
    being reported once in a round, and on no host being asked for twice: a request that
    [Resolver::request] dropped as a duplicate would depend on how far the worker is. *)
Theorem round_is_atomic (t : Z) (k : Round) (m m' : Monitor) (w w' : World) (e : Effects) :
  threaded options pid eventfd t m w -> round_facts t k m ->
  Forall (fun ready => readable ready m) (k_ready k) -> resolver_once (k_ready k) ->
  rtc (small pid (epoll_timeout (nextDeadline m) (k_now k)) k)
    (AtReady (k_ready k) false, m, w) (Finished e, m', w') <->
  exists before m1 after,
    rtc worker_step (m_resolver m) before /\
    round pid k (m <| m_resolver := before |>) w = (m1, w', e) /\
    rtc worker_step (m_resolver m1) after /\ m' = m1 <| m_resolver := after |>.
Proof.
  intros Hth Hrf Hread Honce. set (timeout := epoll_timeout (nextDeadline m) (k_now k)).
  assert (forall r, rtc (go pid timeout k) (AtReady (k_ready k) false, put_resolver r m, w)
    (let '(m', w', e) := round pid k (put_resolver r m) w in (Finished e, m', w'))) as Hround
    by (intros r; by apply go_round). split.
  - intros Hs. pose proof (rf_clock _ _ _ Hrf) as Hclk.
    destruct (leading pid timeout k (0 <=? ret eventfd) t _ _ Hs (AtReady (k_ready k) false) m w e m' w')
      as (before & Hb & m1 & after & Hgo & Ha & ->); [done..| |].
    { split_and!; try done. eapply threads_later; [|by eapply threaded_ok]. lia. }
    exists before, m1, after. split_and!; [done | | done | done].
    specialize (Hround before). change (m <| m_resolver := before |>) with (put_resolver before m).
    destruct (round pid k (put_resolver before m) w) as [[m2 w2] e2].
    assert ((Finished e, m1, w') = (Finished e2, m2, w2)) as [= -> -> ->]; [|done].
    eapply go_unique; [exact Hgo | exact Hround | by eexists | by eexists].
  - intros (before & m1 & after & Hb & E & Ha & ->). etrans; [by apply small_moves, Hb|].
    specialize (Hround before). change (m <| m_resolver := before |>) with (put_resolver before m) in E.
    rewrite E in Hround. etrans; [apply small_go, Hround | by apply small_moves].
Qed.
End Properties.
