(* ===== verification/Program.v ===== *)
(** * The program: its command line and its start

    main.cpp.  The command line is a list of arguments; what the process asks of the kernel before
    the event loop is given as the answers it gets. *)

From S2P Require Import Prelude Util Double Health Pinger Resolver Monitor Publish EventLoop.

(** ** Operations *)

(** [std::strtoull(text, nullptr, 10)]. *)
Definition strtoull (text : str) : Z :=
  let text := skip_spaces text in
  let '(negative, text) :=
    match text with
    | x2d :: text => (true, text)
    | x2b :: text => (false, text)
    | _ => (false, text)
    end in
  let value := dec_value 0 (fst (span_digits text)) in
  if u64_max <? value then u64_max else if negative then u64 (- value) else value.

Definition parseLogLevel (text : str) : option LogLevel :=
  if bool_decide (text = lit "error") then Some Error
  else if bool_decide (text = lit "warn") || bool_decide (text = lit "warning") then Some Warning
  else if bool_decide (text = lit "info") then Some Info
  else if bool_decide (text = lit "debug") then Some Debugging
  else None.

Definition printUsage (kVersion argv0 : str) : str :=
  lit "plasma-network-healthd " ++ kVersion ++
  lit " - ICMP monitoring backend for the Network Health plasmoid

Usage: " ++ argv0 ++ lit " [options]

Options:
  -d, --daemon              detach and run in the background
      --runtime-dir DIR     base directory for config and state
                            (default: $XDG_RUNTIME_DIR/plasma-network-health)
      --idle-exit SECONDS   quit after being idle this long (0 = never, default 0)
      --client-timeout SEC  forget widgets that stop refreshing their config
                            (0 = never, default 900)
      --publish-interval MS minimum delay between state file writes (default 250)
      --log-file PATH       append diagnostics to PATH instead of stderr
      --log-level LEVEL     error | warn | info | debug (default info)
      --max-destinations N  per-widget destination cap (default 128)
  -v, --version             print the version and exit
  -h, --help                print this help and exit

The daemon is single-instance per user: starting it again is a no-op.
".

(** The local variables the loop over the arguments fills in, and the log level it sets. *)
Record Settings := mkSettings {
  s_options : MonitorOptions;
  s_background : bool;
  s_logFile : str;
  s_level : LogLevel
}.

#[export] Instance eta_Settings : Eta Settings := fun r =>
  mkSettings (s_options r) (s_background r) (s_logFile r) (s_level r).

(** What the loop ends with: settings, or an exit code and the texts printed on the standard
    output and on the standard error. *)
Inductive CommandLine :=
  | Configured (s : Settings)
  | Exit (code : Z) (out err : str).

Section CommandLine.
Variables kVersion argv0 : str.

Definition missing (name : str) : CommandLine :=
  Exit 2 [] (name ++ lit " requires an argument" ++ newline).

Definition with_options (f : MonitorOptions -> MonitorOptions) (s : Settings) : Settings :=
  s <| s_options := f (s_options s) |>.

(** The options that take a value, and what the value does to the settings; [None] is a value that
    is refused. *)
Definition valued (argument : str) : option (str -> Settings -> option Settings) :=
  if bool_decide (argument = lit "--runtime-dir") then
    Some (fun v s => Some (with_options (fun o => o <| o_runtimeDir := v |>) s))
  else if bool_decide (argument = lit "--idle-exit") then
    Some (fun v s => Some (with_options (fun o => o <| o_idleExitUs := u64 (strtoull v * 1000000) |>) s))
  else if bool_decide (argument = lit "--client-timeout") then
    Some (fun v s => Some (with_options (fun o => o <| o_clientTimeoutUs := u64 (strtoull v * 1000000) |>) s))
  else if bool_decide (argument = lit "--publish-interval") then
    Some (fun v s => Some (with_options (fun o => o <| o_publishIntervalUs := u64 (strtoull v * 1000) |>) s))
  else if bool_decide (argument = lit "--max-destinations") then
    Some (fun v s => Some (with_options (fun o => o <| o_maxDestinations := strtoull v |>) s))
  else if bool_decide (argument = lit "--log-file") then
    Some (fun v s => Some (s <| s_logFile := v |>))
  else if bool_decide (argument = lit "--log-level") then
    Some (fun v s => level ← parseLogLevel v; Some (s <| s_level := level |>))
  else None.

(** The loop over the arguments. *)
Fixpoint parse_arguments (arguments : list str) (s : Settings) : CommandLine :=
  match arguments with
  | [] => Configured s
  | argument :: rest =>
      if bool_decide (argument = lit "-h") || bool_decide (argument = lit "--help") then
        Exit 0 (printUsage kVersion argv0) []
      else if bool_decide (argument = lit "-v") || bool_decide (argument = lit "--version") then
        Exit 0 (kVersion ++ newline) []
      else if bool_decide (argument = lit "-d") || bool_decide (argument = lit "--daemon") then
        parse_arguments rest (s <| s_background := true |>)
      else
        match valued argument with
        | Some set =>
            match rest with
            | [] => missing argument
            | value :: rest =>
                match set value s with
                | Some s => parse_arguments rest s
                | None => Exit 2 [] (lit "unknown log level '" ++ value ++ lit "'" ++ newline)
                end
            end
        | None => Exit 2 [] (lit "unknown option '" ++ argument ++ lit "' (try --help)" ++ newline)
        end
  end.

(** The two limits applied after the loop. *)
Definition limit_options (o : MonitorOptions) : MonitorOptions :=
  let o := if (o_maxDestinations o =? 0) || (4096 <? o_maxDestinations o)
           then o <| o_maxDestinations := 128 |> else o in
  if 10000000 <? o_publishIntervalUs o then o <| o_publishIntervalUs := 10000000 |> else o.

(** The settings before the first argument. *)
Definition initial_settings (xdg : str) : Settings :=
  mkSettings (defaultOptions <| o_runtimeDir := xdg ++ lit "/plasma-network-health" |>) false [] Info.

Definition settings (xdg : str) (arguments : list str) : CommandLine :=
  match parse_arguments arguments (initial_settings xdg) with
  | Configured s => Configured (with_options limit_options s)
  | quit => quit
  end.
End CommandLine.

(** *** One instance, in the background *)

(** [open] of the lock file and [flock]: the descriptor, or -1. *)
Definition acquireSingleInstanceLock (opened locked : SysCall) : Z :=
  if ret opened <? 0 then -1
  else if negb (ret locked =? 0) then -1
  else ret opened.

(** What is written to the lock file: nothing when it could not be emptied and rewound. *)
Definition writePidFile (fd pid : Z) (truncated rewound : bool) : option str :=
  if (fd <? 0) || negb truncated || negb rewound then None else Some (to_string pid ++ newline).

(** What a process is after [daemonise]: the original and the one between the two forks have left
    with code 0, the daemon goes on. *)
Inductive Daemonised := Left | NotDetached | Detached.

Definition daemonise (fork1 setsid fork2 : SysCall) : Daemonised :=
  if ret fork1 <? 0 then NotDetached
  else if 0 <? ret fork1 then Left
  else if ret setsid <? 0 then NotDetached
  else if ret fork2 <? 0 then NotDetached
  else if 0 <? ret fork2 then Left
  else Detached.

(** Operations on descriptors. *)
Inductive FdAction := Dup2 (from to : Z) | CloseFd (fd : Z).

Definition STDIN_FILENO : Z := 0.
Definition STDOUT_FILENO : Z := 1.
Definition STDERR_FILENO : Z := 2.

(** [nullFd], [logFd] and [sinkFd] are what opening /dev/null, the log file and /dev/null again
    gives. *)
Definition redirectStandardStreams (logFile : str) (nullFd logFd sinkFd : Z) : list FdAction :=
  (if 0 <=? nullFd then
     Dup2 nullFd STDIN_FILENO :: (if STDERR_FILENO <? nullFd then [CloseFd nullFd] else [])
   else []) ++
  let outFd := if negb (bool_decide (logFile = [])) && (0 <=? logFd) then logFd else sinkFd in
  if 0 <=? outFd then
    [Dup2 outFd STDOUT_FILENO; Dup2 outFd STDERR_FILENO] ++
    (if STDERR_FILENO <? outFd then [CloseFd outFd] else [])
  else [].

(** What the kernel answers before the event loop. *)
Record Launch := mkLaunch {
  l_mkdir : str -> option Errno;
  l_open : SysCall; l_flock : SysCall;
  l_fork1 : SysCall; l_setsid : SysCall; l_fork2 : SysCall;
  l_truncated : bool; l_rewound : bool;
  l_nullFd : Z; l_logFd : Z; l_sinkFd : Z;
  l_sigprocmask : bool;
  l_eventfd : SysCall;
  l_startup : Startup;
  l_begin : Z; l_finish : Z;
  l_waits : list Waited
}.

(** What the process leaves: its exit code, if it ends; what it printed besides its log; the pid file; and what
    the daemon did in its rounds. *)
Record Outcome := mkOutcome {
  y_code : option Z;
  y_out : str;
  y_err : str;
  y_pidFile : option str;
  y_redirected : list FdAction;
  y_rounds : list Effects
}.

(** An end before the daemon runs. *)
Definition exits (code : Z) (out err : str) : Outcome := mkOutcome (Some code) out err None [] [].

Section Main.
Context `{Libc}.

Definition main (kVersion argv0 xdg : str) (pid : Z) (arguments : list str) (l : Launch) (w : World) :
    Outcome :=
  match settings kVersion argv0 xdg arguments with
  | Exit code out err => exits code out err
  | Configured s =>
      let options := s_options s in
      if negb (fst (makeDirectories (l_mkdir l) (o_runtimeDir options))) then
        exits 1 [] (lit "cannot create " ++ o_runtimeDir options ++ newline)
      else
        let lockFd := acquireSingleInstanceLock (l_open l) (l_flock l) in
        if lockFd <? 0 then exits 0 [] []
        else
          match (if s_background s then daemonise (l_fork1 l) (l_setsid l) (l_fork2 l)
                 else Detached) with
          | Left => exits 0 [] []
          | NotDetached => exits 1 [] []
          | Detached =>
              let pidFile := writePidFile lockFd pid (l_truncated l) (l_rewound l) in
              let redirected :=
                if s_background s || negb (bool_decide (s_logFile s = [])) then
                  redirectStandardStreams (s_logFile s) (l_nullFd l) (l_logFd l) (l_sinkFd l)
                else [] in
              if negb (l_sigprocmask l) then mkOutcome (Some 1) [] [] pidFile redirected []
              else
                match start pid (l_startup l) (newMonitor options (l_eventfd l)) w with
                | inl _ => mkOutcome (Some 1) [] [] pidFile redirected []
                | inr (m, w, writes) =>
                    let '(code, _, _, effects) :=
                      run pid (l_begin l) (l_finish l) (l_waits l) m w in
                    mkOutcome code [] [] pidFile redirected (mkEffects 0 writes [] :: effects)
                end
          end
  end.
End Main.

(** ** Specification *)

(** What the loop guarantees before the two limits: every number fits its type. *)
Definition fits (s : Settings) : Prop :=
  let o := s_options s in
  0 <= o_publishIntervalUs o < 2 ^ 64 /\ 0 <= o_clientTimeoutUs o < 2 ^ 64 /\
  0 <= o_idleExitUs o < 2 ^ 64 /\ 0 <= o_maxDestinations o < 2 ^ 64.

(** An argument that asks for the help or the version. *)
Definition asks (argument : str) : bool :=
  bool_decide (argument = lit "-h") || bool_decide (argument = lit "--help") ||
  bool_decide (argument = lit "-v") || bool_decide (argument = lit "--version").

(** ** Lemmas *)

Lemma digits_spanned (l : str) : Forall (fun c => is_digit c = true) (fst (span_digits l)).
Proof.
  induction l as [|c l IH]; [constructor|]. cbn [span_digits]. destruct (is_digit c) eqn:E; [|constructor].
  destruct (span_digits l). by constructor.
Qed.

Lemma dec_value_nonneg (acc : Z) (l : str) :
  0 <= acc -> Forall (fun c => is_digit c = true) l -> 0 <= dec_value acc l.
Proof.
  intros Ha Hl; revert acc Ha; induction Hl as [|c l Hc _ IH]; intros acc Ha; [done|].
  unfold dec_value in *. cbn [fold_left]. apply IH.
  unfold is_digit in Hc. apply andb_true_iff in Hc as [Hc%Z.leb_le _]. lia.
Qed.

Lemma strtoull_range (text : str) : 0 <= strtoull text < 2 ^ 64.
Proof.
  unfold strtoull.
  destruct (match skip_spaces text with
            | x2d :: text => (true, text) | x2b :: text => (false, text)
            | _ => (false, skip_spaces text) end) as [negative l].
  pose proof (dec_value_nonneg 0 _ ltac:(lia) (digits_spanned l)). unfold u64_max.
  destruct (Z.ltb_spec (2 ^ 64 - 1) (dec_value 0 (fst (span_digits l)))); [lia|].
  destruct negative; [apply u64_range | lia].
Qed.

(** A value that is accepted leaves numbers that fit, and the directory alone unless it is the
    one being set. *)
Lemma valued_fits (argument v : str) (set : str -> Settings -> option Settings) (s s' : Settings) :
  valued argument = Some set -> set v s = Some s' -> fits s ->
  fits s' /\ (argument <> lit "--runtime-dir" ->
              o_runtimeDir (s_options s') = o_runtimeDir (s_options s)).
Proof.
  unfold valued, fits. intros Hset Hs (H1 & H2 & H3 & H4). pose proof (strtoull_range v).
  pose proof (u64_range (strtoull v * 1000000)). pose proof (u64_range (strtoull v * 1000)).
  repeat case_bool_decide; try discriminate; injection Hset as <-; 
    try (injection Hs as <-; cbn; split; [split_and!; lia | done]).
  destruct (parseLogLevel v); [|done]. injection Hs as <-. cbn. split; [split_and!; lia | done].
Qed.

Section Facts.
Variables kVersion argv0 : str.

Lemma parse_arguments_spec (n : nat) (arguments : list str) (s : Settings) :
  (length arguments <= n)%nat -> fits s ->
  match parse_arguments kVersion argv0 arguments s with
  | Configured s' => fits s' /\ (lit "--runtime-dir" ∉ arguments ->
      o_runtimeDir (s_options s') = o_runtimeDir (s_options s))
  | Exit code out err =>
      code = 0 /\ err = [] /\ Exists (fun a => asks a = true) arguments \/
      code = 2 /\ out = [] /\ err <> []
  end.
Proof.
  revert arguments s; induction n as [|n IH]; intros [|argument rest] s Hn Hs; try (cbn in Hn; lia);
    try (cbn [parse_arguments]; by split).
  cbn [parse_arguments]. cbn [length] in Hn.
  destruct (bool_decide (argument = lit "-h") || _) eqn:Eh.
  { left. split_and!; [done | done |]. left. unfold asks. by rewrite Eh. }
  destruct (bool_decide (argument = lit "-v") || _) eqn:Ev.
  { left. split_and!; [done | done |]. left. unfold asks. rewrite Eh. exact Ev. }
  assert (forall rest' s', (length rest' <= n)%nat -> fits s' ->
    (forall a, a ∈ rest' -> a ∈ rest) ->
    (argument <> lit "--runtime-dir" -> o_runtimeDir (s_options s') = o_runtimeDir (s_options s)) ->
    match parse_arguments kVersion argv0 rest' s' with
    | Configured s'' => fits s'' /\ (lit "--runtime-dir" ∉ argument :: rest ->
        o_runtimeDir (s_options s'') = o_runtimeDir (s_options s))
    | Exit code out err =>
        code = 0 /\ err = [] /\ Exists (fun a => asks a = true) (argument :: rest) \/
        code = 2 /\ out = [] /\ err <> []
    end) as Hrec.
  { intros rest' s' Hl Hs' Hsub Hdir. specialize (IH rest' s' Hl Hs').
    destruct (parse_arguments _ _ rest' s') as [s''|code out err].
    - destruct IH as [Hf Hd]. split; [done|]. intros [Ha Hr]%not_elem_of_cons.
      rewrite Hd; [by apply Hdir | by intros Hin%Hsub].
    - destruct IH as [(-> & -> & He) | He]; [left | by right]. split_and!; [done | done |].
      right. apply Exists_exists in He as (a & Ha & Hask). apply Exists_exists. eauto. }
  destruct (bool_decide (argument = lit "-d") || _); [apply Hrec; [lia | done | done | done]|].
  destruct (valued argument) as [set|] eqn:Eset.
  - destruct rest as [|v rest]; [right; split_and!; [done | done |]; by destruct argument|].
    destruct (set v s) as [s'|] eqn:Es; [|by right].
    destruct (valued_fits argument v set s s' Eset Es Hs) as [Hs' Hdir].
    apply Hrec; [cbn in Hn; lia | done | by right | done].
  - by right.
Qed.
End Facts.

(** ** Properties *)

(** C30: the command line is either refused with a message and code 2, or answered with code 0
    because it asks for the help or the version, or gives options within their limits: between 1
    and 4096 destinations per client, at most ten seconds between two publications, times that fit
    64 bits, and the standard directory unless another is given. *)
Theorem options_in_range (kVersion argv0 xdg : str) (arguments : list str) :
  match settings kVersion argv0 xdg arguments with
  | Configured s =>
      let o := s_options s in
      1 <= o_maxDestinations o <= 4096 /\ 0 <= o_publishIntervalUs o <= 10000000 /\
      0 <= o_clientTimeoutUs o < 2 ^ 64 /\ 0 <= o_idleExitUs o < 2 ^ 64 /\
      (lit "--runtime-dir" ∉ arguments -> o_runtimeDir o = xdg ++ lit "/plasma-network-health")
  | Exit code out err =>
      code = 0 /\ err = [] /\ Exists (fun a => asks a = true) arguments \/
      code = 2 /\ out = [] /\ err <> []
  end.
Proof.
  unfold settings.
  pose proof (parse_arguments_spec kVersion argv0 (length arguments) arguments (initial_settings xdg)
    (le_n _)) as Hp.
  destruct (parse_arguments _ _ _ _) as [s|code out err]; [|apply Hp; unfold fits; cbn; lia].
  destruct Hp as [(H1 & H2 & H3 & H4) Hd]; [unfold fits; cbn; lia|]. cbn -[limit_options].
  unfold limit_options.
  destruct (Z.eqb_spec (o_maxDestinations (s_options s)) 0),
    (Z.ltb_spec 4096 (o_maxDestinations (s_options s))); cbn [orb];
    destruct (Z.ltb_spec 10000000 (o_publishIntervalUs (s_options s)));
    match goal with |- context [10000000 <? ?x] => destruct (Z.ltb_spec 10000000 x) | _ => idtac end;
    cbn in *; split_and!; try done; lia.
Qed.

(** A daemon that is already running holds the lock: a second one starts nothing and writes
    nothing. *)
Lemma second_instance `{Libc} (kVersion argv0 xdg : str) (pid : Z) (arguments : list str) (l : Launch)
    (w : World) (s : Settings) :
  settings kVersion argv0 xdg arguments = Configured s ->
  fst (makeDirectories (l_mkdir l) (o_runtimeDir (s_options s))) = true ->
  ret (l_flock l) <> 0 -> main kVersion argv0 xdg pid arguments l w = exits 0 [] [].
Proof.
  intros Es Em Hl. unfold main. rewrite Es, Em. cbn [negb]. unfold acquireSingleInstanceLock.
  destruct (ret (l_open l) <? 0); [done|]. by rewrite (proj2 (Z.eqb_neq _ _)).
Qed.

(** The multiplication by a million wraps around: an idle exit of 584942 years is one of less than
    half a second. *)
Lemma idle_exit_wraps (kVersion argv0 xdg : str) :
  exists s, settings kVersion argv0 xdg [lit "--idle-exit"; lit "18446744073710"] = Configured s /\
    o_idleExitUs (s_options s) = 448384.
Proof. eexists. split; [vm_compute; reflexivity | reflexivity]. Qed.
