(* ===== verification/Scenarios.v ===== *)
(** * Concrete runs

    A small daemon - one client with two destinations, one prober - and what the theorems say
    about it.  Every hypothesis of every theorem holds somewhere. *)

From S2P Require Import Prelude Util Health Pinger Resolver Monitor Probing Ticking Replies.
From S2P Require Import Config Wiring.

(** ** The scenario *)

Definition address4 : sockaddr_storage :=
  mkSockaddr AF_INET ([x00; x00; xc0; x00; x02; x01] ++ replicate 120 x00).

(** A C library that knows one name and one address. *)
#[export] Instance scenario_libc : Libc := {|
  strerror _ := lit "error";
  gai_strerror _ := lit "unknown name";
  getaddrinfo host flags :=
    if bool_decide (host = lit "192.0.2.1") then
      (0, [mkAddrinfo AF_INET AF_INET [x00; x00; xc0; x00; x02; x01]])
    else if bool_decide (host = lit "nas.lan") && (flags =? AI_ADDRCONFIG) then
      (0, [mkAddrinfo AF_INET6 AF_INET6 (replicate 26 x01);
           mkAddrinfo AF_INET AF_INET [x00; x00; xc0; x00; x02; x02]])
    else (-2, []);
  getnameinfo addr len := Some (lit "192.0.2.1")
|}.

Definition router : Destination :=
  newDestination <| d_id := lit "router" |> <| d_name := lit "Router" |>
    <| d_address := lit "192.0.2.1" |> <| d_prober := 0 |>.

Definition nas : Destination :=
  newDestination <| d_id := lit "nas" |> <| d_address := lit "nas.lan" |>
    <| d_enabled := false |>.

Definition home : Client :=
  newClient <| c_id := lit "home" |> <| c_path := lit "/run/clients/home.json" |>
    <| c_timeoutUs := 3000000 |> <| c_destinations := [router; nas] |>.

Definition endpoint4 : Endpoint := mkEndpoint AF_INET address4 8 (lit "192.0.2.1").

Definition router_prober : Prober :=
  newProber <| p_host := lit "192.0.2.1" |> <| p_timeoutUs := 3000000 |> <| p_uid := 1 |>
    <| p_endpoint := endpoint4 |> <| p_numeric := true |> <| p_nextSendUs := 2000000 |>
    <| p_sequence := 1 |> <| p_inFlight := [mkInFlight 1 1000000 4000000] |>
    <| p_maxInFlight := 3 |> <| p_subscribers := [mkSubscriber 0 0] |>.

Definition socket4 : IcmpSocket := mkIcmpSocket 5 AF_INET false.
Definition raw4 : IcmpSocket := mkIcmpSocket 5 AF_INET true.

Definition eventfd_ok : SysCall := mkSysCall 0 3 EINVAL.

Definition scenario : Monitor :=
  (newMonitor defaultOptions eventfd_ok) <| m_socket4 := socket4 |> <| m_clients := [home] |>
    <| m_probers := [router_prober] |> <| m_proberByUid := {[ 1 := 0%nat ]} |>
    <| m_nextUid := 2 |> <| m_minIntervalUs := 1000000 |> <| m_cookie := 77 |>.

(** Every [sendto] takes the whole packet; the wall clock advances. *)
Definition world : World :=
  mkWorld (fun k => 1700000000000000 + Z.of_nat k) 0 (fun _ => mkSysCall 0 32 EINVAL) [].

Definition router_reply : Reply := mkReply 1 1 1000000 address4 8.

Lemma router_prober_ok : prober_ok 2000000 router_prober.
Proof. constructor; cbn; try lia; repeat constructor; cbn; lia. Qed.

Lemma router_counters_ok : counters_ok router_prober.
Proof. split; cbn; unfold u64_max; lia. Qed.

Lemma clock_example (t : Z) : 0 <= t < 2 ^ 63 -> clock_ok t.
Proof. done. Qed.

(** ** Health *)

Lemma indicator_follows_history_witness :
  d_state (observe_all router [mkSample true 400 1; mkSample false 0 2; mkSample true 500 3]) =
  shown 3 Unknown [Good; Bad; Good].
Proof. apply (indicator_follows_history router); [cbn; lia | reflexivity | reflexivity]. Defined.

Lemma indicator_settles_witness :
  d_state (observe_all (router <| d_state := Good |>) (replicate 4 (mkSample false 0 5))) = Bad.
Proof.
  apply (indicator_settles (router <| d_state := Good |>) Bad).
  - constructor; cbn; [lia | lia | done | done].
  - repeat constructor.
  - cbn. lia.
Defined.

Lemma indicator_stable_witness :
  d_state (observe_all (router <| d_state := Good |> <| d_candidate := Good |>)
    [mkSample false 0 1; mkSample true 5000 2; mkSample false 0 3]) = Good.
Proof.
  refine (indicator_stable (router <| d_state := Good |> <| d_candidate := Good |>)
    [mkSample false 0 1; mkSample true 5000 2; mkSample false 0 3] _ _ _ _);
    [cbn; lia | done | done |].
  cbn. intros newer v older E Hv.
  destruct newer as [|v1 [|v2 [|v3 [|v4 newer]]]]; injection E; intros; subst; done.
Defined.

Lemma observe_preserves_ok_witness :
  destination_ok (observe_sample router (mkSample true 400 1)) /\
  d_sent (observe_sample router (mkSample true 400 1)) = 1.
Proof.
  destruct (observe_preserves_ok router (mkSample true 400 1)) as (H1 & _ & _ & _ & H2 & _).
  - constructor; cbn; [lia | lia | done | done].
  - split; cbn; lia.
  - cbn. unfold u64_max. lia.
  - split; [exact H1 | exact H2].
Defined.

(** ** Packets *)

Definition some_ip_header : str := chr 69 :: replicate 19 x00.

Lemma own_reply_accepted_witness :
  accept raw4 77 (mkDatagram address4 8
    (echo_reply raw4 some_ip_header 0 0 0 (echo_request raw4 1 2 1000000 77))) =
  Some (mkReply 1 2 1000000 address4 8).
Proof.
  apply (own_reply_accepted raw4 some_ip_header 5); try lia.
  split; [lia|]. split; [reflexivity|]. reflexivity.
Defined.

Lemma accepted_is_own_witness :
  exists data, strip_ip_header socket4 (take kMaxDatagram
      (echo_reply socket4 [] 0 0 0 (echo_request socket4 1 2 1000000 77))) = Some data /\
    (kPacketSize <= length data)%nat.
Proof.
  destruct (accepted_is_own socket4 77 (mkDatagram address4 8
    (echo_reply socket4 [] 0 0 0 (echo_request socket4 1 2 1000000 77)))
    (mkReply 1 2 1000000 address4 8)) as (data & H1 & H2 & _).
  - vm_compute. reflexivity.
  - exists data. split; [exact H1 | exact H2].
Defined.

(** ** The resolver *)

(** One request has been pushed and the worker is asleep no more. *)
Definition one_request : System :=
  mkSystem ((newResolver true) <| pending := [mkRequest 1 (lit "nas.lan")] |>)
    [mkRequest 1 (lit "nas.lan")] [].

Lemma one_request_reachable : reachable true one_request.
Proof.
  eapply reach_step; [eapply reach_step; [apply reach_start|]|].
  - by eapply (step_request _ _ _ 1 (lit "nas.lan")).
  - by apply step_notify.
Qed.

Lemma checksum_is_ones_complement_witness :
  internetChecksum (lit "odd") = 65535 - ones_sum (packet_words (lit "odd")).
Proof. apply (checksum_is_ones_complement (lit "odd")). vm_compute. discriminate. Defined.


Lemma resolver_fifo_witness : outstanding (resolver one_request) = issued one_request.
Proof. apply (resolver_fifo true one_request one_request_reachable). Defined.

Lemma resolver_never_stuck_witness :
  0 < counter (resolver one_request) \/
  (exists s', worker_take (resolver one_request) = Some s' /\ worker s' <> Asleep) \/
  (exists q, worker (resolver one_request) = Resolving q) \/
  worker (resolver one_request) = Signalling \/ worker (resolver one_request) = Exited.
Proof.
  destruct (resolver_never_stuck one_request one_request_reachable) as [H _]; [reflexivity|].
  apply H. discriminate.
Defined.

(** ** Ticks *)

Lemma tick_accounts_for_probes_witness :
  let '(m', _) := tick 2000000 scenario world in
  Forall2 (ticked 2000000) [router_prober] (m_probers m') /\ same_wiring scenario m'.
Proof.
  destruct (tick 2000000 scenario world) as [m' w'] eqn:E.
  apply (tick_accounts_for_probes 2000000 scenario m' world w') in E; [exact E | | |].
  - apply clock_example. lia.
  - repeat constructor; apply router_prober_ok.
  - repeat constructor; apply router_counters_ok.
Defined.

Lemma tick_keeps_schedule_witness :
  w_packets (snd (tick 2000000 scenario world)) =
    [(endpoint4, echo_request socket4 1 2 2000000 77)].
Proof.
  destruct (tick 2000000 scenario world) as [m' w'] eqn:E.
  apply (tick_keeps_schedule 2000000 scenario m' world w') in E as [H _].
  - cbn [snd]. rewrite H. vm_compute. reflexivity.
  - apply clock_example. lia.
  - repeat constructor; apply router_prober_ok.
  - repeat constructor; apply router_counters_ok.
Defined.

(** At 4 s the probe of the scenario is given up on, and the router hears of it. *)
Lemma tick_tells_subscribers_witness :
  exists samples, Forall lost samples /\ u64 1 = u64 (0 + Z.of_nat (length samples)) /\
    destination_at (mkSubscriber 0 0) (m_clients (fst (tick 4000000 scenario world))) =
    Some (observe_all router samples).
Proof.
  assert (map p_sent (m_probers (fst (tick 4000000 scenario world))) = [1]) as Hc
    by (vm_compute; reflexivity).
  destruct (tick 4000000 scenario world) as [m' w'] eqn:E. cbn [fst] in *.
  destruct (m_probers m') as [|p' ps] eqn:Hps; [discriminate|]. injection Hc as Hs _.
  assert (m_probers m' !! 0%nat = Some p') as Hp' by (rewrite Hps; reflexivity).
  apply (tick_tells_subscribers 4000000 scenario m' world w') in E as [_ H].
  - destruct (H 0%nat router_prober p' eq_refl Hp') as (h & Hl & Hsent & Hd). exists h.
    split; [exact Hl|]. split; [by rewrite <- Hs|]. rewrite Hd by (by left). reflexivity.
  - cbn. apply NoDup_singleton.
Defined.

(** ** Replies *)

Lemma router_answered : answered_probe router_reply scenario 0 0 router_prober (mkInFlight 1 1000000 4000000).
Proof. repeat split. Qed.

Lemma reply_counted_once_witness :
  let '(m', w') := handleReply 1000450 router_reply scenario world in
  fed [mkSubscriber 0 0] [mkSample true 450 1700000000000000] scenario m' /\
  handleReply 1000500 router_reply m' w' = (m', w').
Proof.
  destruct (handleReply 1000450 router_reply scenario world) as [m' w'] eqn:E.
  apply (reply_counted_once 1000450 router_reply scenario m' world w' 0 0 router_prober
    (mkInFlight 1 1000000 4000000)) in E as (_ & H1 & H2).
  - split; [exact H1 | apply H2].
  - apply clock_example. lia.
  - cbn. lia.
  - constructor; cbn; try lia; repeat constructor; cbn; lia.
  - apply NoDup_singleton.
  - exact router_answered.
Defined.

Lemma replies_preserve_probers_witness :
  let '(m', w') := handleReplies 1000450
    [[mkDatagram address4 8 (echo_reply socket4 [] 0 0 0 (echo_request socket4 1 1 1000000 77));
      mkDatagram address4 8 (lit "garbage")]] [] scenario world in
  replies_handled 1000450 scenario m' /\ w_packets w' = [].
Proof.
  destruct (handleReplies _ _ _ _ _) as [m' w'] eqn:E.
  apply (replies_preserve_probers 1000450 _ _ scenario m' world w') in E; [exact E | | |].
  - apply clock_example. lia.
  - repeat constructor; cbn; try lia; repeat constructor; cbn; lia.
  - repeat constructor; apply router_counters_ok.
Defined.

Lemma scenario_uids : uids_ok (m_proberByUid scenario) (m_probers scenario).
Proof.
  intros u i. cbn. rewrite lookup_singleton_Some. split.
  - intros [<- <-]. eexists. split; reflexivity.
  - intros (p & Hp & <-). apply list_lookup_singleton_Some in Hp as [-> <-]. done.
Qed.

Lemma resolutions_reach_their_prober_witness :
  same_wiring scenario (handleResolutions 3000000 scenario).
Proof.
  pose proof (resolutions_reach_their_prober 3000000 scenario) as H. cbn in H.
  apply H; [apply clock_example; lia | exact scenario_uids].
Defined.

Lemma resolution_backoff_witness :
  p_nextResolveUs (fst (resolved 1000000 (mkResult 1 [] false noEndpoint [])
    (fold_left (fun p x => fst (resolved 1000000 x p))
       [mkResult 1 [] false noEndpoint []; mkResult 1 [] false noEndpoint []] router_prober))) =
  1000000 + 20000000.
Proof.
  apply (resolution_backoff 1000000 router_prober
    [mkResult 1 [] false noEndpoint []; mkResult 1 [] false noEndpoint []]
    (mkResult 1 [] false noEndpoint [])).
  - apply clock_example. lia.
  - reflexivity.
  - repeat constructor.
  - reflexivity.
Defined.

(** ** Configuration *)

Lemma scenario_configurable : configurable scenario.
Proof.
  constructor; cbn.
  - apply NoDup_singleton.
  - split; [apply NoDup_singleton | repeat constructor; cbn; lia].
  - repeat constructor; cbn; lia.
  - repeat constructor; cbn; lia.
  - vm_compute. done.
Qed.

Lemma rebuild_wires_witness : wired (rebuildProbers 5000000 scenario).
Proof. apply (rebuild_wires 5000000 scenario scenario_configurable). Defined.

Lemma rebuild_recycles_witness :
  Forall (prober_ok 5000000) (m_probers (rebuildProbers 5000000 scenario)).
Proof.
  destruct (rebuild_recycles 2000000 5000000 scenario scenario_configurable) as [H _].
  - apply clock_example. lia.
  - lia.
  - repeat constructor; apply router_prober_ok.
  - exact H.
Defined.

(** The file now enables the second destination. *)
Definition home_edited (path id : str) : option Client :=
  Some (home <| c_id := id |> <| c_path := path |>
             <| c_destinations := [router; nas <| d_enabled := true |>] |>).

Lemma scenario_wired : wired scenario.
Proof.
  constructor.
  - constructor; cbn.
    + intros [[|c] [|[|d]]] client dest Hc Hd; cbn in Hc; try done;
        injection Hc as <-; cbn in Hd; try done; injection Hd as <-; cbn.
      * exists 0%nat, router_prober. repeat split. by left.
      * done.
    + intros [|i] p s Hp Hs; [|done]. injection Hp as <-. apply list_elem_of_singleton in Hs as ->.
      exists router. repeat split.
    + repeat constructor. apply not_elem_of_nil.
    + repeat constructor. done.
    + apply NoDup_singleton.
  - exact scenario_uids.
  - split; [apply NoDup_singleton | repeat constructor; cbn; lia].
  - repeat constructor; cbn; lia.
  - intros p ->%list_elem_of_singleton. cbn. lia.
  - done.
Qed.

Definition option_list {A} (o : option A) : list A := match o with Some x => [x] | None => [] end.

Lemma reload_applies_configuration_witness :
  wired (reloadClients home_edited (lit "/run/clients")
    (Entries [lit "home.json"; lit ".hidden.json"; lit "notes.txt"]) 5000000 scenario).
Proof.
  apply (reload_applies_configuration home_edited (lit "/run/clients")
    [lit "home.json"; lit ".hidden.json"; lit "notes.txt"] 5000000 scenario).
  - exact scenario_wired.
  - change (client_files home_edited (lit "/run/clients")
      [lit "home.json"; lit ".hidden.json"; lit "notes.txt"])
      with (option_list (home_edited (lit "/run/clients/home.json") (lit "home"))).
    repeat constructor; cbn; lia.
  - cbn. lia.
  - vm_compute. reflexivity.
  - vm_compute. reflexivity.
Defined.

(** ** Files *)

(** The first write is interrupted, the second is short. *)
Definition saving : Saving :=
  mkSaving (Some (lit "Ab3dEf")) [WriteError true; Written 2; Written 3] true true true.

Definition before_saving : Files := {[ lit "state" := lit "old" ]}.

Lemma save_is_atomic_witness :
  exists trace, writeFileAtomically saving (lit "state") (lit "hello") before_saving =
    Some (true, trace) /\
  Forall (fun s : Files => s !! lit "state" = Some (lit "old") \/ s !! lit "state" = Some (lit "hello"))
    trace.
Proof.
  assert (fst <$> writeFileAtomically saving (lit "state") (lit "hello") before_saving = Some true)
    as Hc by (vm_compute; reflexivity).
  destruct (writeFileAtomically saving (lit "state") (lit "hello") before_saving)
    as [[ok trace]|] eqn:E; [|discriminate]. injection Hc as ->. exists trace. split; [done|].
  eapply (save_is_atomic saving (lit "state") (lit "hello") before_saving true trace); [|exact E].
  intros suffix [= <-]. vm_compute. reflexivity.
Defined.

