(* ===== verification/ScenariosFiles.v ===== *)
(** * Concrete documents and publications

    The theorems about JSON, configuration files and publishing, on the scenario's client. *)

From S2P Require Import Prelude Util Double Json JsonFacts JsonText JsonRoundtrip.
From S2P Require Import Health Pinger Resolver Monitor Probing Config ClientFile Publish Scenarios.

(** ** The scenario *)

(** A machine that turns an impossible conversion into the least [long long], as x86-64 does. *)
#[export] Instance scenario_casts : Casts := {| undefined_cast _ := - 2 ^ 63 |}.

(** The destinations as they are configured, before any probe. *)
Definition configured_home : Client :=
  home <| c_destinations := map unmeasured [router <| d_name := lit "Router" |>; nas] |>.

(** A file that asks for too much: an interval of 1 ms, an address with spaces around it, and an
    entry without an address. *)
Definition greedy_file : Json :=
  JObject [(lit "interval_ms", num 1);
           (lit "destinations",
            JArray [JObject [(lit "address", JString (lit " nas.lan "));
                             (lit "sensitivity", num 5000)];
                    JObject [(lit "id", JString (lit "nowhere"))]])].

Definition greedy_text : str := dump greedy_file 2 false.

Example greedy_loaded :
  (fun c => (c_intervalUs c, c_timeoutUs c,
             map (fun d => (d_id d, d_address d, d_sensitivity d)) (c_destinations c)))
    <$> loadClientFile 128 (Some greedy_text) (lit "/run/x.json") (lit "x") =
  Some (100000, 3000000, [(lit "d0", lit "nas.lan", 1000)]).
Proof. vm_compute. reflexivity. Qed.

Lemma configured_home_ok : describable true configured_home.
Proof.
  constructor; cbn.
  - unfold intervals_ok. lia.
  - done.
  - done.
  - repeat constructor; cbn; try done; try lia; intros c [= <-]; done.
  - split; [apply ascii_ok; repeat constructor|].
    repeat (constructor; [split_and!; apply ascii_ok; repeat constructor|]). constructor.
Qed.

(** A name that is not ASCII: an e with an acute accent. *)
Definition accented : Json := JArray [JString (appendUtf8 0xE9); JNull; num (-7)].

Lemma accented_document (levels : nat) : document true (S (S levels)) accented.
Proof.
  repeat apply Forall_cons_2; [ | done | apply (small_number true levels (-7)); lia | apply Forall_nil_2].
  intros _. exists [0xE9]. split; [|done]. constructor; [unfold scalar; lia | constructor].
Qed.

Lemma scenario_ids : NoDup (map c_id (m_clients scenario)).
Proof. apply NoDup_singleton. Qed.

Lemma home_client : home ∈ m_clients scenario.
Proof. left. Qed.

(** ** Documents *)

Lemma json_roundtrip_witness :
  parse (dump accented 2 true) = Ok accented [].
Proof. apply (json_roundtrip accented 2 true). exact (accented_document 62). Defined.

(** 2^52 + 1. *)
Lemma json_integer_read_witness :
  exists x, parse (lit "4503599627370497") = Ok (JNumber x) [] /\ trunc x = 4503599627370497 /\
    toInt (JNumber x) 0 = 4503599627370498.
Proof.
  destruct (json_integer_read 4503599627370497 0) as (x & E & Et & _ & Ei); [lia|].
  exists x. split; [exact E | split; [exact Et | exact Ei]].
Defined.

(** ** Configuration files *)

Lemma client_file_in_range_witness :
  exists c, loadClientFile 128 (Some greedy_text) (lit "/run/x.json") (lit "x") = Some c /\
    intervals_ok (c_intervalUs c) (c_timeoutUs c) /\ Forall configured (c_destinations c).
Proof.
  destruct (loadClientFile 128 (Some greedy_text) (lit "/run/x.json") (lit "x")) as [c|] eqn:E;
    [|vm_compute in E; discriminate E].
  exists c. split; [reflexivity|].
  destruct (client_file_in_range 128 (Some greedy_text) (lit "/run/x.json") (lit "x") c)
    as (_ & _ & H1 & _ & H2); [lia | exact E | split; [exact H1 | exact H2]].
Defined.

Lemma client_file_read_witness :
  loadClientFile 128 (Some (dump (client_json configured_home) (-1) true))
    (lit "/run/clients/home.json") (lit "home") = Some configured_home.
Proof.
  apply (client_file_read 128 (-1) true configured_home); [exact configured_home_ok | cbn; lia].
Defined.

(** ** Publishing *)

Lemma worst_state_wins_witness :
  exists word, json_get (published_client (buildStateJson 42 7 8 false scenario) (lit "home"))
      (lit "overall") = JString word /\
    (word = lit "bad" <-> Bad ∈ visible home).
Proof.
  destruct (worst_state_wins 42 7 8 false scenario home scenario_ids home_client)
    as [(word & E & Hb & _) _].
  exists word. split; [exact E | exact Hb].
Defined.


Lemma publish_when_due_witness :
  exists m' w' writes, publish 42 2000000 true scenario world = (m', w', writes) /\
    m_generation m' = 1 /\ m_stateDirty m' = false.
Proof.
  destruct (publish 42 2000000 true scenario world) as [[m' w'] writes] eqn:E.
  exists m', w', writes. split; [reflexivity|].
  destruct (publish_when_due 42 2000000 true scenario m' world w' writes) as [_ H];
    [cbn; lia | cbn; lia | lia | cbn; unfold u64_max; lia | exact E |].
  destruct H as (H1 & _ & _ & H2 & _); [left; reflexivity | split; [exact H1 | exact H2]].
Defined.
