(* ===== verification/ScenariosDaemon.v ===== *)
(** * Concrete runs of the daemon

    A start that reads one configuration file, a wait, and a SIGTERM. *)

From S2P Require Import Prelude Util Double Json JsonFacts JsonRoundtrip Health Pinger Resolver.
From S2P Require Import Monitor Probing Ticking Replies Config Wiring ClientFile Publish EventLoop.
From S2P Require Import Waking Daemon Scenarios ScenariosFiles.

(** ** The scenario *)

Definition options : MonitorOptions := defaultOptions <| o_runtimeDir := lit "/run/nh" |>.

Definition home_text : str := dump (client_json configured_home) (-1) false.

(** Two seconds after boot; one configuration file, called home.json. *)
Definition first_round : Round :=
  mkRound 2000000 2000001 2000002 2000003 2000004 [] [] [] (Entries [lit "home.json"; lit "README"])
    (fun path id => loadClientFile 128 (Some home_text) path id) (fun _ => None).

(** Every call succeeds. *)
Definition startup : Startup :=
  mkStartup (fun _ => None) 12345 (mkSysCall 0 5 EINVAL) (mkSysCall 0 6 EINVAL)
    (mkSysCall 0 7 EINVAL) (mkSysCall 0 8 EINVAL) (mkSysCall 0 3 EINVAL) true
    (mkSysCall 0 4 EINVAL) (mkSysCall 0 9 EINVAL) first_round.

Definition started : option (list (str * Z * bool)) :=
  match start 42 startup (newMonitor options eventfd_ok) world with
  | inr (m, _, _) => Some (map (fun p => (p_host p, p_maxInFlight p, p_numeric p)) (m_probers m))
  | inl _ => None
  end.

Example started_probers : started = Some [(lit "192.0.2.1", 3, true)].
Proof. vm_compute. reflexivity. Qed.

Lemma first_round_facts : round_facts 2000000 first_round (newMonitor options eventfd_ok).
Proof.
  constructor.
  - cbn. lia.
  - constructor.
  - intros names [= <-]. apply (bool_decide_unpack _). vm_compute. exact I.
  - exists (fun _ => Some home_text). reflexivity.
  - cbn. lia.
  - assert (destination_count (listed (clientsDirPath (newMonitor options eventfd_ok)) first_round) = 2%nat)
      as -> by (vm_compute; reflexivity).
    cbn. lia.
Qed.

(** A SIGTERM, with an inotify event in the same round. *)
Definition last_round : Round :=
  mkRound 2000000 2000001 2000002 2000003 2000004
    [InotifyReady [mkInotifyEvent 8 (lit "home.json")]; SignalReady [1; 15]] [] []
    (Entries []) (fun _ _ => None) (fun _ => None).

(** ** The daemon *)

Lemma daemon_invariant_witness :
  exists m w, reachable options 42 2000004 m w /\ daemon_ok 2000004 m.
Proof.
  destruct (start 42 startup (newMonitor options eventfd_ok) world) as [e|[[m w] writes]] eqn:E.
  - exfalso. pose proof started_probers as Hs. unfold started in Hs. rewrite E in Hs. discriminate Hs.
  - assert (reachable options 42 2000004 m w) as Hr
      by exact (reach_start options 42 eventfd_ok startup world m w writes first_round_facts E).
    exists m, w. split; [exact Hr | exact (daemon_invariant options 42 2000004 m w Hr)].
Defined.

(** A scenario between two rounds, one millisecond before the next probe. *)
Definition rested : Monitor :=
  scenario <| m_running := true |> <| m_stateDirty := false |> <| m_dataDirty := false |>
    <| m_lastClientCheckUs := 1999000 |> <| m_lastPublishUs := 1999000 |>.

Lemma rested_settled : settled 1999000 rested.
Proof.
  constructor; cbn; try done; try lia.
  - apply Forall_singleton. constructor; cbn; try lia; repeat constructor; cbn; lia.
  - apply Forall_singleton. exact router_counters_ok.
Qed.


Lemma stop_is_prompt_witness :
  exists m' w' effects,
    run_loop 42 3000000 [Woken last_round] (scenario <| m_running := true |>) world =
      (Some 0, m', w', effects) /\
    w_packets w' = [] /\ length effects = 2%nat.
Proof.
  destruct (stop_is_prompt 42 3000000 last_round [] (scenario <| m_running := true |>) world)
    as (_ & m' & w' & timeout & realNow & readable & E & Hp & _).
  - reflexivity.
  - exists [1; 15], 15. split; [right; left|]. split; [right; left | discriminate].
  - eexists m', w', _. split; [exact E | split; [exact Hp | reflexivity]].
Defined.

(** A host that never answers, probed every 100 ms with a timeout of 3 s: after eight probes the
    queue is full for 2.2 seconds. *)
Definition silent_prober : Prober :=
  newProber <| p_host := lit "192.0.2.9" |> <| p_intervalUs := 100000 |> <| p_timeoutUs := 3000000 |>
    <| p_uid := 1 |> <| p_endpoint := endpoint4 |> <| p_numeric := true |>
    <| p_nextSendUs := 1800000 |> <| p_sequence := 8 |> <| p_maxInFlight := 8 |>
    <| p_inFlight := map (fun i => mkInFlight (i + 1) (1000000 + 100000 * i) (4000000 + 100000 * i))
                       [0; 1; 2; 3; 4; 5; 6; 7] |>.

Lemma silent_prober_ok : prober_ok 2000000 silent_prober.
Proof. constructor; cbn; try lia; repeat constructor; cbn; lia. Qed.

Lemma full_queue_spins_witness :
  epoll_timeout (nextDeadline (scenario <| m_probers := [silent_prober] |>)) 2000000 = 0.
Proof.
  destruct (full_queue_spins 2000000 silent_prober (scenario <| m_probers := [silent_prober] |>) world)
    as [_ H].
  - split; reflexivity || discriminate.
  - exact silent_prober_ok.
  - left.
  - reflexivity.
  - repeat constructor; unfold expired, kSendSlackUs; cbn; lia.
  - reflexivity.
  - cbn. lia.
  - exact H.
Defined.
