(* ===== verification/ScenariosThreads.v ===== *)
(** * Concrete interleavings

    A daemon that has a host name to resolve, with its resolver's thread, and one that has nothing
    to do. *)

From stdpp Require Import relations.
From S2P Require Import Prelude Util Double Json JsonFacts JsonRoundtrip Health Pinger Resolver.
From S2P Require Import Monitor Probing Ticking Replies Config Wiring ClientFile Publish EventLoop.
From S2P Require Import Waking Idle Daemon Threads Atomic Scenarios ScenariosFiles ScenariosDaemon.

(** ** A host to resolve *)

(** One configuration file, with the destination nas.lan. *)
Definition named_round : Round :=
  mkRound 2000000 2000001 2000002 2000003 2000004 [] [] [] (Entries [lit "x.json"])
    (fun path id => loadClientFile 128 (Some greedy_text) path id) (fun _ => None).

Definition named_startup : Startup :=
  mkStartup (fun _ => None) 12345 (mkSysCall 0 5 EINVAL) (mkSysCall 0 6 EINVAL)
    (mkSysCall 0 7 EINVAL) (mkSysCall 0 8 EINVAL) (mkSysCall 0 3 EINVAL) true
    (mkSysCall 0 4 EINVAL) (mkSysCall 0 9 EINVAL) named_round.

(** What the first prober of a monitor has counted, and whether its host is being resolved. *)
Definition first_prober (m : Monitor) : option (Z * nat * Z * bool) :=
  (fun p => (p_sent p, length (p_inFlight p), p_sequence p, p_resolving p)) <$> head (m_probers m).

Definition named_start : option (option (Z * nat * Z * bool)) :=
  match start 42 named_startup (newMonitor options eventfd_ok) world with
  | inr (m, _, _) => Some (first_prober m)
  | inl _ => None
  end.

Definition named_asked : option (option (Z * nat * Z * bool)) :=
  match start 42 named_startup (newMonitor options eventfd_ok) world with
  | inr (m, w, _) => Some (first_prober (fst (tick_at 2100000 0 m w)))
  | inl _ => None
  end.

Example named_start_prober : named_start = Some (Some (0, 0%nat, 0, false)).
Proof. vm_compute. reflexivity. Qed.

Example named_asked_prober : named_asked = Some (Some (1, 0%nat, 0, true)).
Proof. vm_compute. reflexivity. Qed.

Lemma named_round_facts (eventfd : SysCall) :
  round_facts 2000000 named_round (newMonitor options eventfd).
Proof.
  constructor.
  - cbn. lia.
  - constructor.
  - intros names [= <-]. apply NoDup_singleton.
  - exists (fun _ => Some greedy_text). reflexivity.
  - cbn. lia.
  - assert (destination_count (listed (clientsDirPath (newMonitor options eventfd)) named_round) = 1%nat)
      as -> by (vm_compute; reflexivity).
    cbn. lia.
Qed.

(** The daemon after its first prober has asked for nas.lan. *)
Lemma named_threaded :
  exists m w p, threaded options 42 eventfd_ok 2100000 m w /\ p ∈ m_probers m /\ p_resolving p = true.
Proof.
  pose proof named_start_prober as Hs. pose proof named_asked_prober as Ha.
  unfold named_start in Hs. unfold named_asked in Ha.
  destruct (start 42 named_startup (newMonitor options eventfd_ok) world) as [e|[[m w] writes]] eqn:E;
    [discriminate Hs|].
  injection Hs as Hs. injection Ha as Ha.
  assert (threaded options 42 eventfd_ok 2000004 m w) as Hth
    by exact (thread_start options 42 eventfd_ok named_startup world m w writes
                (named_round_facts eventfd_ok) E).
  destruct (tick_at 2100000 0 m w) as [m1 w1] eqn:Et. cbn [fst] in Ha.
  unfold first_prober in Hs, Ha. exists m1, w1.
  destruct (m_probers m1) as [|p1 ps1] eqn:E1; [discriminate Ha|]. exists p1.
  assert (p_resolving p1 = true) as Hres by (injection Ha as _ _ _ Hr; exact Hr).
  split_and!; [|left | exact Hres]. eapply thread_tick; [exact Hth | lia | lia | | exact Et].
  intros p Hp. destruct (m_probers m) as [|p0 ps0]; [discriminate Hs|]. injection Hp as <-.
  injection Hs as H1 H2 H3 _. split; [rewrite H1, H2; unfold u64_max; lia | rewrite H3; lia].
Qed.

Lemma lookups_accounted_witness :
  exists m w p, threaded options 42 eventfd_ok 2100000 m w /\ p ∈ m_probers m /\
    lookup_of p ∈ outstanding (m_resolver m).
Proof.
  destruct named_threaded as (m & w & p & Hth & Hp & Hr). exists m, w, p.
  split; [exact Hth | split; [exact Hp|]].
  destruct (lookups_accounted options 42 eventfd_ok 2100000 m w Hth) as (_ & _ & Hall & _).
  rewrite Forall_forall in Hall. apply (Hall p Hp). exact Hr.
Defined.

(** The name service knows every host. *)
Definition known_host (host : str) : bool * Endpoint * str := (true, endpoint4, []).

Lemma lookups_complete_witness :
  exists m w p', threaded options 42 eventfd_ok 2100000 m w /\
    0 < counter (worker_run (work (m_resolver m)) known_host (m_resolver m)) /\
    p' ∈ m_probers (handleResolutions 2200000
      (m <| m_resolver := worker_run (work (m_resolver m)) known_host (m_resolver m) |>)) /\
    p_resolving p' = false.
Proof.
  destruct named_threaded as (m & w & p & Hth & Hp & Hr).
  destruct (lookups_complete options 42 eventfd_ok 2100000 2200000 known_host m w)
    as (_ & _ & _ & Hc & Hall).
  - exact Hth.
  - split; reflexivity || discriminate.
  - discriminate.
  - apply list_elem_of_lookup in Hp as [i Hi].
    destruct (Forall2_lookup_l _ _ _ _ _ Hall Hi) as (p' & Hi' & Hp' & _).
    exists m, w, p'. split; [exact Hth|]. split.
    + apply Hc. apply Exists_exists. exists p. split; [by eapply list_elem_of_lookup_2 | exact Hr].
    + split; [by eapply list_elem_of_lookup_2 | exact Hp'].
Defined.

(** [eventfd] fails, for want of descriptors. *)
Definition eventfd_failed : SysCall := mkSysCall 0 (-1) EINVAL.


(** A round without events. *)
Definition quiet_round (t : Z) : Round :=
  mkRound t t t t t [] [] [] (Entries []) (fun _ _ => None) (fun _ => None).

(** What the next round may assume of the daemon that has just started, and where its worker is. *)
Definition fresh_start (m : Monitor) : bool :=
  forallb (fun p => (p_sent p + Z.of_nat (length (p_inFlight p)) <? u64_max)
                    && (p_sequence p <? 2 ^ 32 - 1)) (m_probers m)
  && (m_nextUid m <? 2 ^ 31) && (0 <=? o_maxDestinations (m_options m))
  && match worker (m_resolver m) with AtLock => true | _ => false end
  && negb (stop (m_resolver m)) && bool_decide (pending (m_resolver m) = []).

Lemma quiet_facts (t now : Z) (m : Monitor) :
  0 <= t <= now -> now < 2 ^ 63 -> fresh_start m = true -> round_facts t (quiet_round now) m.
Proof.
  unfold fresh_start. rewrite !andb_true_iff, forallb_forall, Z.ltb_lt, Z.leb_le.
  intros Ht Hnow (((((Hcnt & Hn) & Hmax) & _) & _) & _). constructor; cbn; try lia.
  - apply Forall_forall. intros p Hp. specialize (Hcnt p (proj1 (list_elem_of_In _ _) Hp)).
    apply andb_true_iff in Hcnt as [H1%Z.ltb_lt H2%Z.ltb_lt]. by split.
  - intros names [= <-]. constructor.
  - exists (fun _ => None). reflexivity.
Qed.

(** The worker goes to sleep in the middle of a round. *)
Lemma round_is_atomic_witness :
  exists m w before m1 w1 e after, threaded options 42 eventfd_ok 2000004 m w /\
    rtc worker_step (m_resolver m) before /\
    round 42 (quiet_round 2100000) (m <| m_resolver := before |>) w = (m1, w1, e) /\
    rtc worker_step (m_resolver m1) after.
Proof.
  destruct (start 42 named_startup (newMonitor options eventfd_ok) world) as [e|[[m0 w] writes]] eqn:E.
  { exfalso. pose proof named_start_prober as Hs. unfold named_start in Hs. rewrite E in Hs.
    discriminate Hs. }
  set (m := m0 <| m_running := true |> <| m_idleSinceUs := 2000004 |>).
  assert (threaded options 42 eventfd_ok 2000004 m w) as Hth
    by exact (thread_run _ _ _ _ 2000004 _ _ (thread_start options 42 eventfd_ok named_startup world
                m0 w writes (named_round_facts eventfd_ok) E)).
  assert (fresh_start m = true) as Hfresh.
  { assert (match start 42 named_startup (newMonitor options eventfd_ok) world with
            | inr (m, _, _) => fresh_start m | inl _ => false end = true) as Hs
      by (vm_compute; reflexivity). rewrite E in Hs. exact Hs. }
  pose proof (quiet_facts 2000004 2100000 m ltac:(lia) ltac:(lia) Hfresh) as Hrf.
  unfold fresh_start in Hfresh. rewrite !andb_true_iff, negb_true_iff, bool_decide_eq_true in Hfresh.
  destruct Hfresh as (((_ & Hw) & Hst) & Hp).
  assert (worker_step (m_resolver m) ((m_resolver m) <| worker := Asleep |>)) as Hmove.
  { apply worker_takes. unfold worker_take. rewrite Hst, Hp.
    destruct (worker (m_resolver m)); try discriminate Hw. reflexivity. }
  set (timeout := epoll_timeout (nextDeadline m) (k_now (quiet_round 2100000))).
  destruct (go_finishes 42 timeout (quiet_round 2100000) (AtReplies false)
    (put_resolver ((m_resolver m) <| worker := Asleep |>) m) w) as (e & m' & w' & Hrest).
  destruct (proj1 (round_is_atomic options 42 eventfd_ok 2000004 (quiet_round 2100000) m m' w w' e Hth
    Hrf ltac:(constructor) ltac:(intros before after Eq; destruct before; discriminate Eq)))
    as (before & m1 & after & Hb & Er & Ha & _).
  - eapply rtc_l; [apply small_loop; constructor; reflexivity|].
    eapply rtc_l; [apply small_worker, Hmove|]. apply small_go, Hrest.
  - exists m, w, before, m1, w', e, after. split_and!; assumption.
Defined.

(** ** Nothing to do *)

(** A daemon that has to stop after 10 s without a prober, and a round 10 s after its start. *)
Definition idle_monitor : Monitor :=
  (newMonitor (options <| o_idleExitUs := 10000000 |>) eventfd_ok) <| m_configDirty := false |>.

Definition idle_started : Monitor :=
  idle_monitor <| m_running := true |> <| m_idleSinceUs := 2000000 |>.

Example idle_stays_idle : m_probers (fst (fst (round 42 (quiet_round 12000000) idle_started world))) = [].
Proof. vm_compute. reflexivity. Qed.

Lemma idle_exit_witness :
  m_running (fst (fst (round 42 (quiet_round 12000000) idle_started world))) = false.
Proof.
  pose proof idle_stays_idle as Hp.
  destruct (round 42 (quiet_round 12000000) idle_started world) as [[m' w'] e] eqn:E.
  cbn [fst] in Hp |- *.
  assert (running 42 2000000 2000000 [] idle_started world) as Hrun
    by exact (running_start 42 2000000 idle_monitor world).
  assert (~ stop_signalled (k_ready (quiet_round 12000000))) as Hsig
    by (intros (signals & signo & Hin & _); apply elem_of_nil in Hin; exact Hin).
  pose proof (idle_exit 42 2000000 2000000 [] (quiet_round 12000000) idle_started m' world w' e
    ltac:(lia) Hrun ltac:(cbn; lia) Hsig eq_refl ltac:(cbn; lia) E) as [_ Hstop].
  apply Hstop. split; [discriminate|]. exists 2000000. split; [|cbn; lia].
  left. split; [reflexivity|]. apply Forall_singleton. unfold past. cbn [snd]. rewrite Hp.
  reflexivity.
Defined.
